(** * MediumMagboltz: collision-rate tables, collision sampling and
      de-excitation cascades

    A shallow embedding of [Source/MediumMagboltz.cc] and
    [Include/MediumMagboltz.hh] (Garfield++).

    Number model.  A C++ [double] is a real number ([R]): rounding, infinities
    and NaN are left out, so every statement below is about the arithmetic
    the code writes down, carried out exactly.  [int], [unsigned int] and
    [long long] values that count or index are [nat]; the 32-bit collision
    counters are [Z] with their wrap-around written out. *)

From Stdlib Require Import String Ascii.
From Stdlib Require Import Reals Lra Lia List ZArith Bool Psatz.
From Equations Require Import Equations.
Import ListNotations.

Open Scope R_scope.

(** ** Constants of [MediumMagboltz.hh] *)

Definition nEnergySteps : nat := 200 * 100.
Definition nEnergyStepsLog : nat := 200.
Definition nMaxLevels : nat := 512.
Definition nCsTypes : nat := 6.

Definition DxcTypeRad : Z := 0.
Definition DxcTypeCollIon : Z := 1.
Definition DxcTypeCollNonIon : Z := -1.

(** Collision types.  The enumeration lives in [GarfieldConstants.hh]; the
    numbering is the one [MediumMagboltz.hh] documents next to
    [m_nCollisions]. *)
Definition ElectronCollisionTypeElastic : nat := 0.
Definition ElectronCollisionTypeIonisation : nat := 1.
Definition ElectronCollisionTypeAttachment : nat := 2.
Definition ElectronCollisionTypeInelastic : nat := 3.
Definition ElectronCollisionTypeExcitation : nat := 4.
Definition ElectronCollisionTypeSuperelastic : nat := 5.

(** ** Lists as fixed-size arrays *)

(** [v[i] = x]; an index outside the array (undefined behaviour in the
    source) leaves the list as it is. *)
Fixpoint upd {A : Type} (l : list A) (i : nat) (x : A) : list A :=
  match l, i with
  | [], _ => []
  | _ :: t, O => x :: t
  | h :: t, S j => h :: upd t j x
  end.

Definition sumR (l : list R) : R := fold_right Rplus 0 l.

(** ** Mixer: total rate and cumulative probabilities of one energy bin

    Lines 1817-1865 of [MediumMagboltz.cc].  Both grids run the same three
    loops over the first [m_nTerms] entries of a row of [m_cf] / [m_cfLog]. *)

Definition clampNegative (x : R) : R := if Rlt_dec x 0 then 0 else x.

(** [for k < nTerms: if (cf[k] < 0) cf[k] = 0; cfTot += cf[k];] *)
Fixpoint accumulateRates (nTerms : nat) (row : list R) (tot : R)
  : list R * R :=
  match nTerms, row with
  | S n, x :: xs =>
      let x' := clampNegative x in
      let '(xs', tot') := accumulateRates n xs (tot + x') in
      (x' :: xs', tot')
  | _, _ => (row, tot)
  end.

(** [for k < nTerms: cf[k] /= cfTot;] *)
Fixpoint divideRates (nTerms : nat) (row : list R) (tot : R) : list R :=
  match nTerms, row with
  | S n, x :: xs => x / tot :: divideRates n xs tot
  | _, _ => row
  end.

(** [for (k = 1; k < nTerms; ++k) cf[k] += cf[k - 1];] *)
Fixpoint cumulateFrom (n : nat) (prev : R) (row : list R) : list R :=
  match n, row with
  | S n', x :: xs => let x' := x + prev in x' :: cumulateFrom n' x' xs
  | _, _ => row
  end.

Definition cumulateRates (nTerms : nat) (row : list R) : list R :=
  match nTerms, row with
  | S n, x :: xs => x :: cumulateFrom n x xs
  | _, _ => row
  end.

(** The three loops together: the row of cumulative probabilities and the
    summed frequency, from the raw row and the entry of [m_cfTot] the sum
    is added to. *)
Definition normaliseRow (nTerms : nat) (row : list R) (tot0 : R)
  : list R * R :=
  let '(row1, tot) := accumulateRates nTerms row tot0 in
  let row2 := if Rlt_dec 0 tot then divideRates nTerms row1 tot else row1 in
  (cumulateRates nTerms row2, tot).

Section RateScaling.

(** Electron rest energy [eV], [FundamentalConstants.hh]. *)
Variable ElectronMass : R.

(** Linear grid, lines 1835-1841. *)
Definition binEnergyLin (eStep : R) (iE : nat) : R := eStep * (INR iE + 0.5).

Definition scaleTotalLin (eStep : R) (iE : nat) (tot : R) : R :=
  let ekin := binEnergyLin eStep iE in
  let t := tot * sqrt ekin in
  if Rlt_dec 1000 ekin then
    let re := ekin / ElectronMass in
    t * (sqrt (1 + 0.5 * re) / (1 + re))
  else t.

(** Logarithmic grid, lines 1845 and 1859-1863. *)
Definition growthFactor (eFinal eHigh : R) : R :=
  Rpower (eFinal / eHigh) (1 / INR nEnergyStepsLog).

Definition binEnergyLog (eHigh rLog : R) (iE : nat) : R :=
  eHigh * rLog ^ (iE + 1).

Definition scaleTotalLog (eHigh rLog : R) (iE : nat) (tot : R) : R :=
  let ekin := binEnergyLog eHigh rLog iE in
  let re := ekin / ElectronMass in
  tot * (sqrt ekin * sqrt (1 + re) / (1 + re)).

(** One bin of the linear grid: cumulative row and [m_cfTot[iE]]. *)
Definition mixBinLin (nTerms : nat) (eStep : R) (iE : nat)
    (row : list R) (tot0 : R) : list R * R :=
  let '(row', tot) := normaliseRow nTerms row tot0 in
  (row', scaleTotalLin eStep iE tot).

(** One bin of the logarithmic grid: cumulative row and [m_cfTotLog[iE]],
    which holds the logarithm of the scaled total. *)
Definition mixBinLog (nTerms : nat) (eHigh rLog : R) (iE : nat)
    (row : list R) (tot0 : R) : list R * R :=
  let '(row', tot) := normaliseRow nTerms row tot0 in
  (row', ln (scaleTotalLog eHigh rLog iE tot)).

(** The loops over the bins.  Iteration [iE] reads and writes row [iE]
    only, so the descending loop of the source is a map over the rows. *)
Fixpoint mixRowsLin (nTerms : nat) (eStep : R) (iE : nat)
    (cf : list (list R)) (cfTot : list R) : list (list R) * list R :=
  match cf, cfTot with
  | row :: cf', t :: cfTot' =>
      let '(row', t') := mixBinLin nTerms eStep iE row t in
      let '(rows, ts) := mixRowsLin nTerms eStep (S iE) cf' cfTot' in
      (row' :: rows, t' :: ts)
  | _, _ => (cf, cfTot)
  end.

Fixpoint mixRowsLog (nTerms : nat) (eHigh rLog : R) (iE : nat)
    (cf : list (list R)) (cfTot : list R) : list (list R) * list R :=
  match cf, cfTot with
  | row :: cf', t :: cfTot' =>
      let '(row', t') := mixBinLog nTerms eHigh rLog iE row t in
      let '(rows, ts) := mixRowsLog nTerms eHigh rLog (S iE) cf' cfTot' in
      (row' :: rows, t' :: ts)
  | _, _ => (cf, cfTot)
  end.

End RateScaling.

(** A row is a cumulative distribution over the levels [0 .. nTerms-1]. *)
Definition nondecreasing (nTerms : nat) (row : list R) : Prop :=
  forall i j, (i <= j)%nat -> (j < nTerms)%nat -> nth i row 0 <= nth j row 0.

Definition cumulativeDistribution (nTerms : nat) (row : list R) : Prop :=
  nondecreasing nTerms row /\ nth (nTerms - 1) row 0 = 1.

(** The prefix of the row that the loops have normalised, before the running
    sum: every entry is non-negative, and when the summed frequency is
    positive the entries add up to one. *)
Definition normalisedPrefix (nTerms : nat) (row : list R) (tot0 : R) : list R :=
  let c := map clampNegative (firstn nTerms row) in
  let tot := tot0 + sumR c in
  if Rlt_dec 0 tot then map (fun x => x / tot) c else c.

(** ** Collision sampling: choice of the level (lines 641-677) *)

Lemma div2_le n : (Nat.div2 n <= n)%nat.
Proof. destruct n; [simpl; lia|]. pose proof (Nat.lt_div2 (S n)). lia. Qed.

(** [std::lower_bound(begin, begin + len, r) - begin], as the halving loop
    of the standard library: [first] is the start of the range still
    searched and [len] its length. *)
Equations? lowerBoundLoop (row : list R) (r : R) (first len : nat) : nat
  by wf len lt :=
lowerBoundLoop row r first 0 := first;
lowerBoundLoop row r first (S l)
  with Rlt_dec (nth (first + Nat.div2 (S l)) row 0) r => {
  | left _ :=
      lowerBoundLoop row r (first + Nat.div2 (S l) + 1)
                     (S l - Nat.div2 (S l) - 1);
  | right _ := lowerBoundLoop row r first (Nat.div2 (S l)) }.
Proof.
  all: destruct l as [|m]; cbn; [lia|]; pose proof (div2_le m);
    destruct (Nat.div2 m); lia.
Qed.

Definition lower_bound (row : list R) (nTerms : nat) (r : R) : nat :=
  lowerBoundLoop row r 0 nTerms.

(** The three-way choice on the uniform draw [r]. *)
Definition sampleLevel (row : list R) (nTerms : nat) (r : R) : nat :=
  if Rle_dec r (nth 0 row 0) then 0%nat
  else if Rge_dec r (nth (nTerms - 1) row 0) then (nTerms - 1)%nat
  else lower_bound row nTerms r.

(** [k] is the first of the levels [0 .. nTerms-1] whose cumulative
    probability is at least [r]. *)
Definition firstLevelAtLeast (row : list R) (nTerms : nat) (r : R) (k : nat)
  : Prop :=
  (k < nTerms)%nat /\ r <= nth k row 0 /\
  forall j, (j < k)%nat -> nth j row 0 < r.

(** [int(x)]: conversion of a double to an integer truncates towards zero. *)
Definition truncate (x : R) : Z :=
  if Rle_dec 0 x then Int_part x else (- Int_part (- x))%Z.

(** [std::min(std::max(i, 0), n - 1)] as an index. *)
Definition clampIndex (i : Z) (n : nat) : nat :=
  Z.to_nat (Z.min (Z.max i 0) (Z.of_nat n - 1)).

(** ** Collision sampling: energy loss, angle and kinematics (lines 764-824) *)

Section Kinematics.

(** The floor constant of [GarfieldConstants.hh]. *)
Variable Small : R.

(** [if (e < loss) loss = e - 0.0001;] *)
Definition clampLoss (e loss : R) : R :=
  if Rlt_dec e loss then e - 0.0001 else loss.

(** [arg] of line 791. *)
Definition kinematicArg (e loss s1 : R) : R :=
  Rmax (1 - s1 * loss / e) Small.

(** The energy after the collision, lines 788-795: [s1] is [m_rgas[igas]],
    [loss] the energy loss after [clampLoss], [ctheta0] the sampled cosine. *)
Definition collisionEnergy (e loss s1 ctheta0 : R) : R :=
  let s2 := (s1 * s1) / (s1 - 1) in
  let arg := kinematicArg e loss s1 in
  let d := 1 - ctheta0 * sqrt arg in
  Rmax (e * (1 - loss / (s1 * e) - 2 * d / s2)) Small.

(** The cosine and sine of the polar angle in the laboratory frame,
    lines 790-803. *)
Definition collisionAngle (e loss s1 ctheta0 : R) : R * R :=
  let theta0 := acos ctheta0 in
  let arg := kinematicArg e loss s1 in
  let e1 := collisionEnergy e loss s1 ctheta0 in
  let q := Rmin (sqrt ((e / e1) * arg) / s1) 1 in
  let theta := asin (q * sin theta0) in
  let ctheta := cos theta in
  let ctheta' :=
    if Rlt_dec ctheta0 0 then
      let u := (s1 - 1) * (s1 - 1) / arg in
      if Rlt_dec u (ctheta0 * ctheta0) then - ctheta else ctheta
    else ctheta in
  (ctheta', sin theta).

(** The new direction, lines 805-824; [phi] is the sampled azimuth. *)
Definition rotateDirection (dx dy dz ctheta stheta phi : R) : R * R * R :=
  let dz := Rmin dz 1 in
  let argZ := sqrt (dx * dx + dy * dy) in
  let cphi := cos phi in
  let sphi := sin phi in
  if Req_dec_T argZ 0 then (cphi * stheta, sphi * stheta, ctheta)
  else
    let a := stheta / argZ in
    let dz1 := dz * ctheta + argZ * stheta * sphi in
    let dy1 := dy * ctheta + a * (dx * cphi - dy * dz * sphi) in
    let dx1 := dx * ctheta - a * (dy * cphi + dx * dz * sphi) in
    (dx1, dy1, dz1).

End Kinematics.


(** ** Data of the session *)

(** Types of de-excitation products and of secondaries
    ([GarfieldConstants.hh]). *)
Inductive DxcProdType := DxcProdTypePhoton | DxcProdTypeElectron.
Inductive IonProdType := IonProdTypeElectron | IonProdTypeIon.

(** [struct dxcProd] *)
Record dxcProd := {
  prod_s : R;
  prod_t : R;
  prod_type : DxcProdType;
  prod_energy : R }.

(** [struct Deexcitation] *)
Record Deexcitation := {
  dxc_gas : nat;
  dxc_level : Z;
  dxc_label : string;
  dxc_energy : R;
  dxc_p : list R;
  dxc_final : list Z;
  dxc_type : list Z;
  dxc_osc : R;
  dxc_rate : R;
  dxc_sDoppler : R;
  dxc_gPressure : R;
  dxc_width : R;
  dxc_cf : R }.

(** What one call of [Magboltz::gasmix_] hands back: the arrays the source
    passes by pointer, as functions of their indices. *)
Record GasmixOutput := {
  g_q : nat -> nat -> R;
  g_qIn : nat -> nat -> R;
  g_nIn : nat;
  g_e : nat -> R;
  g_eIn : nat -> R;
  g_eoby : nat -> R;
  g_pEqEl : nat -> nat -> R;
  g_pEqIn : nat -> nat -> R;
  g_kEl : nat -> Z;
  g_kIn : nat -> Z;
  g_qIon : nat -> nat -> R;
  g_pEqIon : nat -> nat -> R;
  g_eIon : nat -> R;
  g_nIon : nat;
  g_scrpt : nat -> string }.

(** What [gasmix_] reads: the gas number and the common-block entries the
    session sets before the call. *)
Record GasmixInput := {
  gi_ngs : nat;
  gi_efinal : R;
  gi_estep : R;
  gi_tempc : R;
  gi_torr : R;
  gi_nAniso : nat }.

(** Everything the class takes from outside [MediumMagboltz.cc]: physical
    constants ([FundamentalConstants.hh], [GarfieldConstants.hh]), the
    number density of the base class [MediumGas], the Magboltz
    cross-sections, the optical data and the random numbers of [Random.hh].
    The [k]-th call of a random-number function returns its value at [k]. *)
Record Environment := {
  Small : R;
  ElectronMass : R;
  ElectronMassGramme : R;
  AtomicMassUnit : R;
  SpeedOfLight : R;
  BoltzmannConstant : R;
  FineStructureConstant : R;
  HbarC : R;
  RydbergEnergy : R;
  BohrRadius : R;
  ZeroCelsius : R;
  m_nMaxGases : nat;
  GetNumberDensity : R -> R -> R;
  gasmix : GasmixInput -> GasmixOutput;
  IsAvailable : string -> bool;
  GetPhotoabsorptionCrossSection : string -> R -> R * R;
  RndmUniform : nat -> R;
  RndmUniformPos : nat -> R;
  RndmVoigt : nat -> R -> R -> R -> R }.

(** How many numbers of each kind have been drawn. *)
Record RandomCursor := {
  nUniform : nat;
  nUniformPos : nat;
  nVoigt : nat }.

(** The data members of [MediumMagboltz], with those of its base class
    [MediumGas] that the code below reads or writes. *)
Record MediumMagboltz := {
  m_nComponents : nat;
  m_gas : list string;
  m_fraction : list R;
  m_temperature : R;
  m_pressure : R;
  m_isChanged : bool;
  m_usePenning : bool;
  m_rPenningGlobal : R;
  m_lambdaPenningGlobal : R;
  m_rPenningGas : list R;
  m_lambdaPenningGas : list R;
  m_eFinal : R;
  m_eStep : R;
  m_eHigh : R;
  m_eHighLog : R;
  m_lnStep : R;
  m_useAutoAdjust : bool;
  m_nTerms : nat;
  m_rgas : list R;
  m_wOpalBeaty : list R;
  m_parGreenSawada : list (list R);
  m_hasGreenSawada : list bool;
  m_energyLoss : list R;
  m_csType : list nat;
  m_useAnisotropic : bool;
  m_scatPar : list (list R);
  m_scatCut : list (list R);
  m_scatParLog : list (list R);
  m_scatCutLog : list (list R);
  m_scatModel : list Z;
  m_description : list string;
  m_cfTot : list R;
  m_cfTotLog : list R;
  m_cfNull : R;
  m_cf : list (list R);
  m_cfLog : list (list R);
  m_nCollisions : list Z;
  m_nCollisionsDetailed : list Z;
  m_rPenning : list R;
  m_lambdaPenning : list R;
  m_nPenning : Z;
  m_useDeexcitation : bool;
  m_useRadTrap : bool;
  m_deexcitations : list Deexcitation;
  m_iDeexcitation : list Z;
  m_dxcProducts : list dxcProd;
  m_ionPot : list R;
  m_minIonPot : R;
  m_scaleExc : list R;
  m_useOpalBeaty : bool;
  m_useGreenSawada : bool;
  m_eFinalGamma : R;
  m_eStepGamma : R;
  m_nPhotonTerms : nat;
  m_cfTotGamma : list R;
  m_cfGamma : list (list R);
  csTypeGamma : list nat;
  m_nPhotonCollisions : list Z }.

(** Assignment to one data member.  [mkSetter] reads the setter off the
    eta-expansion of the record: the field is replaced, every other field
    is kept. *)
Definition etaMediumMagboltz (s : MediumMagboltz) : MediumMagboltz :=
  {| m_nComponents := m_nComponents s; m_gas := m_gas s;
     m_fraction := m_fraction s; m_temperature := m_temperature s;
     m_pressure := m_pressure s; m_isChanged := m_isChanged s;
     m_usePenning := m_usePenning s; m_rPenningGlobal := m_rPenningGlobal s;
     m_lambdaPenningGlobal := m_lambdaPenningGlobal s;
     m_rPenningGas := m_rPenningGas s;
     m_lambdaPenningGas := m_lambdaPenningGas s; m_eFinal := m_eFinal s;
     m_eStep := m_eStep s; m_eHigh := m_eHigh s; m_eHighLog := m_eHighLog s;
     m_lnStep := m_lnStep s; m_useAutoAdjust := m_useAutoAdjust s;
     m_nTerms := m_nTerms s; m_rgas := m_rgas s;
     m_wOpalBeaty := m_wOpalBeaty s; m_parGreenSawada := m_parGreenSawada s;
     m_hasGreenSawada := m_hasGreenSawada s; m_energyLoss := m_energyLoss s;
     m_csType := m_csType s; m_useAnisotropic := m_useAnisotropic s;
     m_scatPar := m_scatPar s; m_scatCut := m_scatCut s;
     m_scatParLog := m_scatParLog s; m_scatCutLog := m_scatCutLog s;
     m_scatModel := m_scatModel s; m_description := m_description s;
     m_cfTot := m_cfTot s; m_cfTotLog := m_cfTotLog s; m_cfNull := m_cfNull s;
     m_cf := m_cf s; m_cfLog := m_cfLog s; m_nCollisions := m_nCollisions s;
     m_nCollisionsDetailed := m_nCollisionsDetailed s;
     m_rPenning := m_rPenning s; m_lambdaPenning := m_lambdaPenning s;
     m_nPenning := m_nPenning s; m_useDeexcitation := m_useDeexcitation s;
     m_useRadTrap := m_useRadTrap s; m_deexcitations := m_deexcitations s;
     m_iDeexcitation := m_iDeexcitation s; m_dxcProducts := m_dxcProducts s;
     m_ionPot := m_ionPot s; m_minIonPot := m_minIonPot s;
     m_scaleExc := m_scaleExc s; m_useOpalBeaty := m_useOpalBeaty s;
     m_useGreenSawada := m_useGreenSawada s;
     m_eFinalGamma := m_eFinalGamma s; m_eStepGamma := m_eStepGamma s;
     m_nPhotonTerms := m_nPhotonTerms s; m_cfTotGamma := m_cfTotGamma s;
     m_cfGamma := m_cfGamma s; csTypeGamma := csTypeGamma s;
     m_nPhotonCollisions := m_nPhotonCollisions s |}.

Definition etaDeexcitation (d : Deexcitation) : Deexcitation :=
  {| dxc_gas := dxc_gas d; dxc_level := dxc_level d; dxc_label := dxc_label d;
     dxc_energy := dxc_energy d; dxc_p := dxc_p d; dxc_final := dxc_final d;
     dxc_type := dxc_type d; dxc_osc := dxc_osc d; dxc_rate := dxc_rate d;
     dxc_sDoppler := dxc_sDoppler d; dxc_gPressure := dxc_gPressure d;
     dxc_width := dxc_width d; dxc_cf := dxc_cf d |}.

Ltac mkSetter eta proj :=
  let e := eval cbv delta [eta] in eta in
  match eval pattern proj in e with
  | ?f _ =>
      let t := eval cbv beta in (fun v s => f (fun _ => v) s) in exact t
  end.

Definition set_isChanged := ltac:(mkSetter etaMediumMagboltz m_isChanged).
Definition set_usePenning := ltac:(mkSetter etaMediumMagboltz m_usePenning).
Definition set_eFinal := ltac:(mkSetter etaMediumMagboltz m_eFinal).
Definition set_eStep := ltac:(mkSetter etaMediumMagboltz m_eStep).
Definition set_lnStep := ltac:(mkSetter etaMediumMagboltz m_lnStep).
Definition set_nTerms := ltac:(mkSetter etaMediumMagboltz m_nTerms).
Definition set_rgas := ltac:(mkSetter etaMediumMagboltz m_rgas).
Definition set_wOpalBeaty := ltac:(mkSetter etaMediumMagboltz m_wOpalBeaty).
Definition set_parGreenSawada :=
  ltac:(mkSetter etaMediumMagboltz m_parGreenSawada).
Definition set_hasGreenSawada :=
  ltac:(mkSetter etaMediumMagboltz m_hasGreenSawada).
Definition set_energyLoss := ltac:(mkSetter etaMediumMagboltz m_energyLoss).
Definition set_csType := ltac:(mkSetter etaMediumMagboltz m_csType).
Definition set_scatPar := ltac:(mkSetter etaMediumMagboltz m_scatPar).
Definition set_scatCut := ltac:(mkSetter etaMediumMagboltz m_scatCut).
Definition set_scatParLog := ltac:(mkSetter etaMediumMagboltz m_scatParLog).
Definition set_scatCutLog := ltac:(mkSetter etaMediumMagboltz m_scatCutLog).
Definition set_scatModel := ltac:(mkSetter etaMediumMagboltz m_scatModel).
Definition set_description := ltac:(mkSetter etaMediumMagboltz m_description).
Definition set_cfTot := ltac:(mkSetter etaMediumMagboltz m_cfTot).
Definition set_cfTotLog := ltac:(mkSetter etaMediumMagboltz m_cfTotLog).
Definition set_cfNull := ltac:(mkSetter etaMediumMagboltz m_cfNull).
Definition set_cf := ltac:(mkSetter etaMediumMagboltz m_cf).
Definition set_cfLog := ltac:(mkSetter etaMediumMagboltz m_cfLog).
Definition set_nCollisions := ltac:(mkSetter etaMediumMagboltz m_nCollisions).
Definition set_nCollisionsDetailed :=
  ltac:(mkSetter etaMediumMagboltz m_nCollisionsDetailed).
Definition set_rPenning := ltac:(mkSetter etaMediumMagboltz m_rPenning).
Definition set_lambdaPenning :=
  ltac:(mkSetter etaMediumMagboltz m_lambdaPenning).
Definition set_nPenning := ltac:(mkSetter etaMediumMagboltz m_nPenning).
Definition set_useDeexcitation :=
  ltac:(mkSetter etaMediumMagboltz m_useDeexcitation).
Definition set_deexcitations :=
  ltac:(mkSetter etaMediumMagboltz m_deexcitations).
Definition set_iDeexcitation :=
  ltac:(mkSetter etaMediumMagboltz m_iDeexcitation).
Definition set_dxcProducts := ltac:(mkSetter etaMediumMagboltz m_dxcProducts).
Definition set_ionPot := ltac:(mkSetter etaMediumMagboltz m_ionPot).
Definition set_minIonPot := ltac:(mkSetter etaMediumMagboltz m_minIonPot).
Definition set_nPhotonTerms := ltac:(mkSetter etaMediumMagboltz m_nPhotonTerms).
Definition set_cfTotGamma := ltac:(mkSetter etaMediumMagboltz m_cfTotGamma).
Definition set_cfGamma := ltac:(mkSetter etaMediumMagboltz m_cfGamma).
Definition set_csTypeGamma := ltac:(mkSetter etaMediumMagboltz csTypeGamma).
Definition set_nPhotonCollisions :=
  ltac:(mkSetter etaMediumMagboltz m_nPhotonCollisions).

Definition set_dxc_p := ltac:(mkSetter etaDeexcitation dxc_p).
Definition set_dxc_final := ltac:(mkSetter etaDeexcitation dxc_final).
Definition set_dxc_type := ltac:(mkSetter etaDeexcitation dxc_type).
Definition set_dxc_rate := ltac:(mkSetter etaDeexcitation dxc_rate).
Definition set_dxc_sDoppler := ltac:(mkSetter etaDeexcitation dxc_sDoppler).
Definition set_dxc_gPressure := ltac:(mkSetter etaDeexcitation dxc_gPressure).
Definition set_dxc_width := ltac:(mkSetter etaDeexcitation dxc_width).
Definition set_dxc_cf := ltac:(mkSetter etaDeexcitation dxc_cf).


(** ** De-excitation table (ComputeDeexcitationTable, lines 2010-3095) *)

Section DeexcitationTable.

Local Open Scope string_scope.

(** [v.resize(n, x)] *)
Definition resize {A : Type} (l : list A) (n : nat) (x : A) : list A :=
  firstn n l ++ repeat x (n - length l).

(** [pow(x, y)] for a non-negative base and a positive exponent. *)
Definition powReal (x y : R) : R :=
  if Rle_dec x 0 then 0 else Rpower x y.

(** [std::map<std::string, T>]: the entries in the order of their keys. *)
Fixpoint mapSet {A : Type} (m : list (string * A)) (k : string) (v : A)
  : list (string * A) :=
  match m with
  | [] => [(k, v)]
  | (k', v') :: t =>
      match String.compare k k' with
      | Lt => (k, v) :: m
      | Eq => (k, v) :: t
      | Gt => (k', v') :: mapSet t k v
      end
  end.

Fixpoint mapFind {A : Type} (m : list (string * A)) (k : string) : option A :=
  match m with
  | [] => None
  | (k', v) :: t => if k =? k' then Some v else mapFind t k
  end.

(** Reading [lvl[k]]: a key that is absent is created with the value 0. *)
Definition mapAt (m : list (string * Z)) (k : string) : Z :=
  match mapFind m k with
  | Some v => v
  | None => 0%Z
  end.

(** Magboltz level names and the internal ones. *)
Definition levelNamesAr : list (string * string) :=
  [("1S5    ", "Ar_1S5"); ("1S4    ", "Ar_1S4"); ("1S3    ", "Ar_1S3");
   ("1S2    ", "Ar_1S2"); ("2P10   ", "Ar_2P10"); ("2P9    ", "Ar_2P9");
   ("2P8    ", "Ar_2P8"); ("2P7    ", "Ar_2P7"); ("2P6    ", "Ar_2P6");
   ("2P5    ", "Ar_2P5"); ("2P4    ", "Ar_2P4"); ("2P3    ", "Ar_2P3");
   ("2P2    ", "Ar_2P2"); ("2P1    ", "Ar_2P1"); ("3D6    ", "Ar_3D6");
   ("3D5    ", "Ar_3D5"); ("3D3    ", "Ar_3D3"); ("3D4!   ", "Ar_3D4!");
   ("3D4    ", "Ar_3D4"); ("3D1!!  ", "Ar_3D1!!"); ("2S5    ", "Ar_2S5");
   ("2S4    ", "Ar_2S4"); ("3D1!   ", "Ar_3D1!"); ("3D2    ", "Ar_3D2");
   ("3S1!!!!", "Ar_3S1!!!!"); ("3S1!!  ", "Ar_3S1!!"); ("3S1!!! ",
   "Ar_3S1!!!"); ("2S3    ", "Ar_2S3"); ("2S2    ", "Ar_2S2"); ("3S1!   ",
   "Ar_3S1!"); ("4D5    ", "Ar_4D5"); ("3S4    ", "Ar_3S4"); ("4D2    ",
   "Ar_4D2"); ("4S1!   ", "Ar_4S1!"); ("3S2    ", "Ar_3S2"); ("5D5    ",
   "Ar_5D5"); ("4S4    ", "Ar_4S4"); ("5D2    ", "Ar_5D2"); ("6D5    ",
   "Ar_6D5"); ("5S1!   ", "Ar_5S1!"); ("4S2    ", "Ar_4S2"); ("5S4    ",
   "Ar_5S4"); ("6D2    ", "Ar_6D2"); ("HIGH   ", "Ar_Higher")].

(** The label of an excitation level: characters 5 to 11 of its
    description. *)
Definition excitationLevelName (descr : string) : string :=
  substring 5 7 descr.

(** Lines 2039-2059: the argon excitation levels whose label is known, by
    internal name, and the index of the first gas that is argon and has an
    excitation level. *)
Definition mapArgonLevels (st : MediumMagboltz)
  : option nat * list (string * nat) :=
  fold_left
    (fun (acc : option nat * list (string * nat)) (i : nat) =>
       let '(iAr, mapLevels) := acc in
       if negb (Nat.eqb (nth i (m_csType st) 0%nat mod nCsTypes)
                        ElectronCollisionTypeExcitation)
       then acc
       else
         let ngas := (nth i (m_csType st) 0%nat / nCsTypes)%nat in
         if nth ngas (m_gas st) "" =? "Ar" then
           let iAr' := match iAr with None => Some ngas | Some _ => iAr end in
           match mapFind levelNamesAr
                   (excitationLevelName (nth i (m_description st) "")) with
           | Some name => (iAr', mapSet mapLevels name i)
           | None => (iAr', mapLevels)
           end
         else acc)
    (seq 0 (m_nTerms st)) (None, []).

(** The test of line 2051 for term [i]: the internal name of its label, if
    the label is one of [levelNamesAr]. *)
Definition knownLevelName (st : MediumMagboltz) (i : nat) : option string :=
  mapFind levelNamesAr (excitationLevelName (nth i (m_description st) "")).

(** Lines 2061-2069: number the levels in the order of their names. *)
Fixpoint countLevels (mapLevels : list (string * nat))
    (lvl : list (string * Z)) (iDeexcitation : list Z) (n : nat)
  : list (string * Z) * list Z * nat :=
  match mapLevels with
  | [] => (lvl, iDeexcitation, n)
  | (level, i) :: rest =>
      countLevels rest (mapSet lvl level (Z.of_nat n))
                  (upd iDeexcitation i (Z.of_nat n)) (S n)
  end.

(** Lines 2094-2342: oscillator strength, transition rates and final levels
    of the radiative channels of a level; [None] where the source has no
    data for the name. *)
Definition radiativeChannels (lvl : string -> Z) (f2A energy : R)
    (level : string) : option (R * list R * list Z) :=
  let levelsAr4s :=
    [lvl "Ar_1S5"; lvl "Ar_1S4"; lvl "Ar_1S3"; lvl "Ar_1S2"] in
  if (level =? "Ar_1S5") || (level =? "Ar_1S3") then
    Some (0, [], [])
  else if (level =? "Ar_1S4") then
    Some (0.0609, [0.119], [(-1)%Z])
  else if (level =? "Ar_1S2") then
    Some (0.25, [0.51], [(-1)%Z])
  else if (level =? "Ar_2P10") then
    Some (0, [0.0189; 5.43e-3; 9.8e-4; 1.9e-4], levelsAr4s)
  else if (level =? "Ar_2P9") then
    Some (0, [0.0331], [lvl "Ar_1S5"])
  else if (level =? "Ar_2P8") then
    Some (0, [9.28e-3; 0.0215; 1.47e-3], [lvl "Ar_1S5"; lvl "Ar_1S4";
      lvl "Ar_1S2"])
  else if (level =? "Ar_2P7") then
    Some (0, [5.18e-3; 0.025; 2.43e-3; 1.06e-3], levelsAr4s)
  else if (level =? "Ar_2P6") then
    Some (0, [0.0245; 4.9e-3; 5.03e-3], [lvl "Ar_1S5"; lvl "Ar_1S4"; lvl
      "Ar_1S2"])
  else if (level =? "Ar_2P5") then
    Some (0, [0.0402], [lvl "Ar_1S4"])
  else if (level =? "Ar_2P4") then
    Some (0, [6.25e-4; 2.2e-5; 0.0186; 0.0139], levelsAr4s)
  else if (level =? "Ar_2P3") then
    Some (0, [3.8e-3; 8.47e-3; 0.0223], [lvl "Ar_1S5"; lvl "Ar_1S4"; lvl
      "Ar_1S2"])
  else if (level =? "Ar_2P2") then
    Some (0, [6.39e-3; 1.83e-3; 0.0117; 0.0153], levelsAr4s)
  else if (level =? "Ar_2P1") then
    Some (0, [2.36e-4; 0.0445], [lvl "Ar_1S4"; lvl "Ar_1S2"])
  else if (level =? "Ar_3D6") then
    Some (0, [8.1e-3; 7.73e-4; 1.2e-4; 3.6e-4], [lvl "Ar_2P10"; lvl
      "Ar_2P7"; lvl "Ar_2P4"; lvl "Ar_2P2"])
  else if (level =? "Ar_3D5") then
    Some (0.0011, [7.4e-3; 3.9e-5; 3.09e-4; 1.37e-3; 5.75e-4; 3.2e-5;
      1.4e-4; 1.7e-4; 2.49e-6; (f2A * energy * energy * 0.0011)], [lvl
      "Ar_2P10"; lvl "Ar_2P8"; lvl "Ar_2P7"; lvl "Ar_2P6"; lvl "Ar_2P5";
      lvl "Ar_2P4"; lvl "Ar_2P3"; lvl "Ar_2P2"; lvl "Ar_2P1"; (-1)%Z])
  else if (level =? "Ar_3D3") then
    Some (0, [4.9e-3; 9.82e-5; 1.2e-4; 2.6e-4; 2.5e-3; 9.41e-5; 3.9e-4;
      1.1e-4], [lvl "Ar_2P10"; lvl "Ar_2P9"; lvl "Ar_2P8"; lvl "Ar_2P7";
      lvl "Ar_2P6"; lvl "Ar_2P4"; lvl "Ar_2P3"; lvl "Ar_2P2"])
  else if (level =? "Ar_3D4!") then
    Some (0, [0.01593], [lvl "Ar_2P9"])
  else if (level =? "Ar_3D4") then
    Some (0, [2.29e-3; 0.011; 8.8e-5; 2.53e-6], [lvl "Ar_2P9"; lvl
      "Ar_2P8"; lvl "Ar_2P6"; lvl "Ar_2P3"])
  else if (level =? "Ar_3D1!!") then
    Some (0, [5.85e-6; 1.2e-4; 5.7e-3; 7.3e-3; 2e-4; 1.54e-6; 2.08e-5;
      6.75e-7], [lvl "Ar_2P10"; lvl "Ar_2P9"; lvl "Ar_2P8"; lvl
      "Ar_2P7"; lvl "Ar_2P6"; lvl "Ar_2P4"; lvl "Ar_2P3"; lvl "Ar_2P2"])
  else if (level =? "Ar_2S5") then
    Some (0, [4.9e-3; 0.011; 1.1e-3; 4.6e-4; 3.3e-3; 5.9e-5; 1.2e-4;
      3.1e-4], [lvl "Ar_2P10"; lvl "Ar_2P9"; lvl "Ar_2P8"; lvl "Ar_2P7";
      lvl "Ar_2P6"; lvl "Ar_2P4"; lvl "Ar_2P3"; lvl "Ar_2P2"])
  else if (level =? "Ar_2S4") then
    Some (0.027, [0.077; 2.44e-3; 8.9e-3; 4.6e-3; 2.7e-3; 1.3e-3;
      4.5e-4; 2.9e-5; 3e-5; 1.6e-4], [(-1)%Z; lvl "Ar_2P10"; lvl
      "Ar_2P8"; lvl "Ar_2P7"; lvl "Ar_2P6"; lvl "Ar_2P5"; lvl "Ar_2P4";
      lvl "Ar_2P3"; lvl "Ar_2P2"; lvl "Ar_2P1"])
  else if (level =? "Ar_3D1!") then
    Some (0, [3.1e-3; 2e-3; 0.015; 9.8e-6], [lvl "Ar_2P9"; lvl "Ar_2P8";
      lvl "Ar_2P6"; lvl "Ar_2P3"])
  else if (level =? "Ar_3D2") then
    Some (0.0932, [0.27; 1.35e-5; 9.52e-4; 0.011; 4.01e-5; 4.3e-3;
      8.96e-4; 4.45e-5; 5.87e-5; 8.77e-4], [(-1)%Z; lvl "Ar_2P10"; lvl
      "Ar_2P8"; lvl "Ar_2P7"; lvl "Ar_2P6"; lvl "Ar_2P5"; lvl "Ar_2P4";
      lvl "Ar_2P3"; lvl "Ar_2P2"; lvl "Ar_2P1"])
  else if (level =? "Ar_3S1!!!!") then
    Some (0, [7.51e-6; 4.3e-5; 8.3e-4; 5.01e-5; 2.09e-4; 0.013; 2.2e-3;
      3.35e-6], [lvl "Ar_2P10"; lvl "Ar_2P9"; lvl "Ar_2P8"; lvl
      "Ar_2P7"; lvl "Ar_2P6"; lvl "Ar_2P4"; lvl "Ar_2P3"; lvl "Ar_2P2"])
  else if (level =? "Ar_3S1!!") then
    Some (0, [1.89e-4; 1.52e-4; 7.21e-4; 3.69e-4; 3.76e-3; 1.72e-4;
      5.8e-4; 6.2e-3], [lvl "Ar_2P10"; lvl "Ar_2P9"; lvl "Ar_2P8"; lvl
      "Ar_2P7"; lvl "Ar_2P6"; lvl "Ar_2P4"; lvl "Ar_2P3"; lvl "Ar_2P2"])
  else if (level =? "Ar_3S1!!!") then
    Some (0, [7.36e-4; 4.2e-5; 9.3e-5; 0.015], [lvl "Ar_2P9"; lvl
      "Ar_2P8"; lvl "Ar_2P6"; lvl "Ar_2P3"])
  else if (level =? "Ar_2S3") then
    Some (0, [3.26e-3; 2.22e-3; 0.01; 5.1e-3], [lvl "Ar_2P10"; lvl
      "Ar_2P7"; lvl "Ar_2P4"; lvl "Ar_2P2"])
  else if (level =? "Ar_2S2") then
    Some (0.0119, [0.035; 1.76e-3; 2.1e-4; 2.8e-4; 1.39e-3; 3.8e-4;
      2.0e-3; 8.9e-3; 3.4e-3; 1.9e-3], [(-1)%Z; lvl "Ar_2P10"; lvl
      "Ar_2P8"; lvl "Ar_2P7"; lvl "Ar_2P6"; lvl "Ar_2P5"; lvl "Ar_2P4";
      lvl "Ar_2P3"; lvl "Ar_2P2"; lvl "Ar_2P1"])
  else if (level =? "Ar_3S1!") then
    Some (0.106, [0.313; 2.05e-5; 8.33e-5; 3.9e-4; 3.96e-4; 4.2e-4;
      4.5e-3; 4.84e-5; 7.1e-3; 5.2e-3], [(-1)%Z; lvl "Ar_2P10"; lvl
      "Ar_2P8"; lvl "Ar_2P7"; lvl "Ar_2P6"; lvl "Ar_2P5"; lvl "Ar_2P4";
      lvl "Ar_2P3"; lvl "Ar_2P2"; lvl "Ar_2P1"])
  else if (level =? "Ar_4D5") then
    Some (0.0019, [2.78e-3; 2.8e-4; 8.6e-4; 9.2e-4; 4.6e-4; 1.6e-4; (f2A
      * energy * energy * 0.0019)], [lvl "Ar_2P10"; lvl "Ar_2P8"; lvl
      "Ar_2P6"; lvl "Ar_2P5"; lvl "Ar_2P3"; lvl "Ar_2P2"; (-1)%Z])
  else if (level =? "Ar_3S4") then
    Some (0.0144, [4.21e-4; 2e-3; 1.7e-3; 7.2e-4; 3.5e-4; 1.2e-4;
      4.2e-6; 3.3e-5; 9.7e-5; (f2A * energy * energy * 0.0144)], [lvl
      "Ar_2P10"; lvl "Ar_2P8"; lvl "Ar_2P7"; lvl "Ar_2P6"; lvl "Ar_2P5";
      lvl "Ar_2P4"; lvl "Ar_2P3"; lvl "Ar_2P2"; lvl "Ar_2P1"; (-1)%Z])
  else if (level =? "Ar_4D2") then
    Some (0.048, [1.7e-4; (f2A * energy * energy * 0.048)], [lvl
      "Ar_2P7"; (-1)%Z])
  else if (level =? "Ar_4S1!") then
    Some (0.0209, [1.05e-3; 3.1e-5; 2.5e-5; 4.0e-4; 5.8e-5; 1.2e-4; (f2A
      * energy * energy * 0.0209)], [lvl "Ar_2P10"; lvl "Ar_2P8"; lvl
      "Ar_2P7"; lvl "Ar_2P6"; lvl "Ar_2P5"; lvl "Ar_2P3"; (-1)%Z])
  else if (level =? "Ar_3S2") then
    Some (0.0221, [2.85e-4; 5.1e-5; 5.3e-5; 1.6e-4; 1.5e-4; 6.0e-4;
      2.48e-3; 9.6e-4; 3.59e-4; (f2A * energy * energy * 0.0221)], [lvl
      "Ar_2P10"; lvl "Ar_2P8"; lvl "Ar_2P7"; lvl "Ar_2P6"; lvl "Ar_2P5";
      lvl "Ar_2P4"; lvl "Ar_2P3"; lvl "Ar_2P2"; lvl "Ar_2P1"; (-1)%Z])
  else if (level =? "Ar_5D5") then
    Some (0.0041, [2.2e-3; 1.1e-4; 7.6e-5; 4.2e-4; 2.4e-4; 2.1e-4;
      2.4e-4; 1.2e-4; (f2A * energy * energy * 0.0041)], [lvl "Ar_2P10";
      lvl "Ar_2P8"; lvl "Ar_2P7"; lvl "Ar_2P6"; lvl "Ar_2P5"; lvl
      "Ar_2P4"; lvl "Ar_2P3"; lvl "Ar_2P2"; (-1)%Z])
  else if (level =? "Ar_4S4") then
    Some (0.0139, [1.9e-4; 1.1e-3; 5.2e-4; 5.1e-4; 9.4e-5; 5.4e-5; (f2A
      * energy * energy * 0.0139)], [lvl "Ar_2P10"; lvl "Ar_2P8"; lvl
      "Ar_2P7"; lvl "Ar_2P6"; lvl "Ar_2P5"; lvl "Ar_2P4"; (-1)%Z])
  else if (level =? "Ar_5D2") then
    Some (0.0426, [5.9e-5; 9.0e-6; 1.5e-4; 3.1e-5; (f2A * energy *
      energy * 0.0426)], [lvl "Ar_2P8"; lvl "Ar_2P7"; lvl "Ar_2P5"; lvl
      "Ar_2P2"; (-1)%Z])
  else if (level =? "Ar_6D5") then
    Some (0.00075, [1.9e-3; 4.2e-4; 3e-4; 5.1e-5; 6.6e-5; 1.21e-4; (f2A
      * energy * energy * 0.00075)], [lvl "Ar_2P10"; lvl "Ar_2P6"; lvl
      "Ar_2P5"; lvl "Ar_2P4"; lvl "Ar_2P3"; lvl "Ar_2P1"; (-1)%Z])
  else if (level =? "Ar_5S1!") then
    Some (0.00051, [7.7e-5; (f2A * energy * energy * 0.00051)], [lvl
      "Ar_2P5"; (-1)%Z])
  else if (level =? "Ar_4S2") then
    Some (0.00074, [4.5e-4; 2e-4; 2.1e-4; 1.2e-4; 1.8e-4; 9e-4; 3.3e-4;
      (f2A * energy * energy * 0.00074)], [lvl "Ar_2P10"; lvl "Ar_2P8";
      lvl "Ar_2P7"; lvl "Ar_2P5"; lvl "Ar_2P4"; lvl "Ar_2P3"; lvl
      "Ar_2P2"; (-1)%Z])
  else if (level =? "Ar_5S4") then
    Some (0.0211, [3.6e-4; 1.2e-4; 1.5e-4; 1.4e-4; 7.5e-5; (f2A * energy
      * energy * 0.0211)], [lvl "Ar_2P8"; lvl "Ar_2P6"; lvl "Ar_2P4";
      lvl "Ar_2P3"; lvl "Ar_2P2"; (-1)%Z])
  else if (level =? "Ar_6D2") then
    Some (0.0574, [3.33e-3; (f2A * energy * energy * 0.0574)], [lvl
      "Ar_2P7"; (-1)%Z])
  else if (level =? "Ar_Higher") then
    Some (0, [100; 100; 100; 100; 100], [lvl "Ar_6D5"; lvl "Ar_5S1!";
      lvl "Ar_4S2"; lvl "Ar_5S4"; lvl "Ar_6D2"])
  else None.

(** Lines 2084-2344: the entry of one level after the radiative channels. *)
Definition radiativeEntry (st : MediumMagboltz) (lvl : list (string * Z))
    (f2A : R) (level : string) (i : nat) : option Deexcitation :=
  let gas := (nth i (m_csType st) 0%nat / nCsTypes)%nat in
  let energy := nth i (m_energyLoss st) 0 * nth gas (m_rgas st) 0 in
  match radiativeChannels (mapAt lvl) f2A energy level with
  | None => None
  | Some (osc, p, final) =>
      Some {| dxc_gas := gas; dxc_level := Z.of_nat i; dxc_label := level;
              dxc_energy := energy; dxc_p := p; dxc_final := final;
              dxc_type :=
                if level =? "Ar_Higher" then repeat DxcTypeCollNonIon 5
                else repeat DxcTypeRad (length p);
              dxc_osc := osc; dxc_rate := 0; dxc_sDoppler := 0;
              dxc_gPressure := 0; dxc_width := 0; dxc_cf := 0 |}
  end.

(** The loop of lines 2083-2345; the flag is [false] when the loop was left
    by the [return] of line 2341. *)
Fixpoint radiativeLoop (st : MediumMagboltz) (lvl : list (string * Z))
    (f2A : R) (mapLevels : list (string * nat)) (acc : list Deexcitation)
  : list Deexcitation * bool :=
  match mapLevels with
  | [] => (acc, true)
  | (level, i) :: rest =>
      match radiativeEntry st lvl f2A level i with
      | None => (acc, false)
      | Some d => radiativeLoop st lvl f2A rest (acc ++ [d])
      end
  end.

(** A synthetic level (argon dimer, excimer), lines 2355-2376. *)
Definition syntheticLevel (label : string) (iAr : nat) : Deexcitation :=
  {| dxc_gas := iAr; dxc_level := (-1)%Z; dxc_label := label;
     dxc_energy := 14.71; dxc_p := []; dxc_final := []; dxc_type := [];
     dxc_osc := 0; dxc_rate := 0; dxc_sDoppler := 0; dxc_gPressure := 0;
     dxc_width := 0; dxc_cf := 0 |}.

(** Appending channels: rates and final levels, then
    [dxc.type.resize(dxc.p.size(), DxcTypeCollNonIon)]. *)
Definition pushChannels (d : Deexcitation) (ps : list R) (fs : list Z)
  : Deexcitation :=
  set_dxc_final (dxc_final d ++ fs) (set_dxc_p (dxc_p d ++ ps) d).

Definition resizeType (d : Deexcitation) : Deexcitation :=
  set_dxc_type (resize (dxc_type d) (length (dxc_p d)) DxcTypeCollNonIon) d.

Definition useTachibanaData : bool := false.
Definition useCollMixing : bool := true.
Definition useHornbeckMolnar : bool := true.

Definition isOneOf (level : string) (names : list string) : bool :=
  existsb (String.eqb level) names.

(** Collisions with argon atoms, the body of the loop of lines 2383-2588. *)
Definition argonCollisions (lvl : string -> Z) (nAr : R) (dxc : Deexcitation)
  : Deexcitation :=
  let level := dxc_label dxc in
  (* three-body and two-body collisions of the metastables *)
  let d1 :=
    if level =? "Ar_1S5" then
      let k3b := if useTachibanaData then 1.4e-41 else 1.1e-41 in
      let d := pushChannels dxc [k3b * nAr * nAr] [lvl "Ar_Excimer"] in
      let d :=
        if useCollMixing then
          let k2b := if useTachibanaData then 2.3e-24 else 2.1e-24 in
          set_dxc_type (dxc_type d ++ [DxcTypeCollNonIon])
            (pushChannels d [k2b * nAr] [lvl "Ar_1S4"])
        else d in
      resizeType d
    else if level =? "Ar_1S3" then
      let k3b := if useTachibanaData then 1.5e-41 else 0.83e-41 in
      let d := pushChannels dxc [k3b * nAr * nAr] [lvl "Ar_Excimer"] in
      let d :=
        if useCollMixing then
          let k2b := if useTachibanaData then 4.3e-24 else 5.3e-24 in
          pushChannels d [k2b * nAr] [lvl "Ar_1S4"]
        else d in
      resizeType d
    else dxc in
  let levels4s :=
    [lvl "Ar_1S5"; lvl "Ar_1S4"; lvl "Ar_1S3"; lvl "Ar_1S2"] in
  let to4s (k4s : R) (d : Deexcitation) :=
    pushChannels d (repeat (0.25 * k4s * nAr) (length levels4s)) levels4s in
  (* transfer within the 4p levels and to the 4s levels *)
  let d2 :=
    if level =? "Ar_2P1" then resizeType (to4s 1.6e-20 d1)
    else if level =? "Ar_2P2" then
      resizeType
        (to4s 5.3e-20 (pushChannels d1 [0.5e-21 * nAr] [lvl "Ar_2P3"]))
    else if level =? "Ar_2P3" then
      resizeType
        (to4s 4.7e-20
           (pushChannels d1
              [27.5e-21 * nAr; 0.3e-21 * nAr; 44.0e-21 * nAr; 1.4e-21 * nAr;
               1.9e-21 * nAr; 0.8e-21 * nAr]
              [lvl "Ar_2P4"; lvl "Ar_2P5"; lvl "Ar_2P6"; lvl "Ar_2P7";
               lvl "Ar_2P8"; lvl "Ar_2P9"]))
    else if level =? "Ar_2P4" then
      resizeType
        (to4s 3.9e-20
           (pushChannels d1
              [23.0e-21 * nAr; 0.7e-21 * nAr; 4.8e-21 * nAr; 3.2e-21 * nAr;
               1.4e-21 * nAr; 3.3e-21 * nAr]
              [lvl "Ar_2P3"; lvl "Ar_2P5"; lvl "Ar_2P6"; lvl "Ar_2P7";
               lvl "Ar_2P8"; lvl "Ar_2P9"]))
    else if level =? "Ar_2P5" then
      resizeType
        (pushChannels d1 [1.7e-21 * nAr; 11.3e-21 * nAr; 9.5e-21 * nAr]
           [lvl "Ar_2P4"; lvl "Ar_2P6"; lvl "Ar_2P8"])
    else if level =? "Ar_2P6" then
      resizeType
        (pushChannels d1 [4.1e-21 * nAr; 6.0e-21 * nAr; 1.0e-21 * nAr]
           [lvl "Ar_2P7"; lvl "Ar_2P8"; lvl "Ar_2P9"])
    else if level =? "Ar_2P7" then
      resizeType
        (to4s 5.5e-20
           (pushChannels d1 [2.5e-21 * nAr; 14.3e-21 * nAr; 23.3e-21 * nAr]
              [lvl "Ar_2P6"; lvl "Ar_2P8"; lvl "Ar_2P9"]))
    else if level =? "Ar_2P8" then
      resizeType
        (to4s 3.0e-20
           (pushChannels d1
              [0.3e-21 * nAr; 0.8e-21 * nAr; 18.2e-21 * nAr; 1.0e-21 * nAr]
              [lvl "Ar_2P6"; lvl "Ar_2P7"; lvl "Ar_2P9"; lvl "Ar_2P10"]))
    else if level =? "Ar_2P9" then
      resizeType
        (to4s 3.5e-20
           (pushChannels d1 [6.8e-21 * nAr; 5.1e-21 * nAr]
              [lvl "Ar_2P8"; lvl "Ar_2P10"]))
    else if level =? "Ar_2P10" then resizeType (to4s 2.0e-20 d1)
    else d1 in
  let levels4p :=
    [lvl "Ar_2P10"; lvl "Ar_2P9"; lvl "Ar_2P8"; lvl "Ar_2P7"; lvl "Ar_2P6";
     lvl "Ar_2P5"; lvl "Ar_2P4"; lvl "Ar_2P3"; lvl "Ar_2P2"; lvl "Ar_2P1"] in
  let k4p := 1.0e-20 in
  let to4p (d : Deexcitation) :=
    resizeType
      (pushChannels d (repeat (0.1 * k4p * nAr) (length levels4p)) levels4p) in
  (* transfer from the higher levels to the 4p levels; Hornbeck-Molnar *)
  if isOneOf level
       ["Ar_3D6"; "Ar_3D5"; "Ar_3D3"; "Ar_3D4!"; "Ar_3D4"; "Ar_3D1!!";
        "Ar_3D1!"; "Ar_3D2"; "Ar_3S1!!!!"; "Ar_3S1!!"; "Ar_3S1!!!";
        "Ar_3S1!"; "Ar_2S5"; "Ar_2S4"; "Ar_2S3"; "Ar_2S2"]
  then to4p d2
  else if isOneOf level
            ["Ar_4D5"; "Ar_3S4"; "Ar_4D2"; "Ar_4S1!"; "Ar_3S2"; "Ar_5D5";
             "Ar_4S4"; "Ar_5D2"; "Ar_6D5"; "Ar_5S1!"; "Ar_4S2"; "Ar_5S4";
             "Ar_6D2"]
  then
    let d := to4p d2 in
    if useHornbeckMolnar then
      let kHM := 2.0e-18 in
      set_dxc_type (dxc_type d ++ [DxcTypeCollIon])
        (pushChannels d [kHM * nAr] [lvl "Ar_Dimer"])
    else d
  else d2.

(** [AddPenningDeexcitation] of [MediumMagboltz.hh]. *)
Definition AddPenningDeexcitation (dxc : Deexcitation) (rate pPenning : R)
  : Deexcitation :=
  set_dxc_type (dxc_type dxc ++ [DxcTypeCollIon; DxcTypeCollNonIon])
    (set_dxc_p (dxc_p dxc ++ [rate * pPenning; rate * (1 - pPenning)]) dxc).

End DeexcitationTable.


Section Session.

(** The constants, the providers and the random numbers the session works
    with. *)
Variable env : Environment.

Local Open Scope string_scope.

Definition numberDensity (st : MediumMagboltz) : R :=
  GetNumberDensity env (m_pressure st) (m_temperature st).

(** *** Quenching rate constants (lines 3097-3125) *)

Definition RateConstantWK (st : MediumMagboltz) (energy osc pacs : R)
    (igas1 igas2 : nat) : R :=
  let m1 := ElectronMassGramme env / (nth igas1 (m_rgas st) 0 - 1) in
  let m2 := ElectronMassGramme env / (nth igas2 (m_rgas st) 0 - 1) in
  let mR := (m1 * m2 / (m1 + m2)) / AtomicMassUnit env in
  let uA := (RydbergEnergy env / energy) * osc in
  let uQ := (2 * RydbergEnergy env / energy) * pacs /
            (4 * (PI * PI) * FineStructureConstant env *
             BohrRadius env * BohrRadius env) in
  2.591e-19 * powReal (uA * uQ) 0.4 * powReal (m_temperature st / mR) 0.3.

Definition RateConstantHardSphere (st : MediumMagboltz) (r1 r2 : R)
    (igas1 igas2 : nat) : R :=
  let r := r1 + r2 in
  let sigma := r * r * PI in
  let m1 := ElectronMass env / (nth igas1 (m_rgas st) 0 - 1) in
  let m2 := ElectronMass env / (nth igas2 (m_rgas st) 0 - 1) in
  let mR := m1 * m2 / (m1 + m2) in
  let vel := SpeedOfLight env *
             sqrt (8 * BoltzmannConstant env * m_temperature st / (PI * mR)) in
  sigma * vel.

(** *** Quenching by the other gases of the mixture (lines 2591-3022)

    The six blocks of the source have one shape.  A level named in the block
    has a rate constant from the literature; any other level with a positive
    oscillator strength gets the Watanabe-Katsuura estimate, the
    non-resonant 3d and 5s levels the hard-sphere estimate.  The channel is
    non-ionising, or split by a Penning probability
    ([AddPenningDeexcitation]), or (CF4) entered as a rate only. *)
Inductive QuenchBranch :=
| QuenchNonIon
| QuenchPenning (pPenning : option R)
| QuenchPlain.

Record Quencher := {
  q_gas : string;
  q_optical : string;
  q_radius : R;
  q_known : string -> option (R * QuenchBranch);
  q_estimated : QuenchBranch;
  q_resizeType : bool }.

Definition other4p : list string :=
  ["Ar_2P10"; "Ar_2P9"; "Ar_2P7"; "Ar_2P4"; "Ar_2P3"; "Ar_2P2"].

Definition nonResonant3d : list string :=
  ["Ar_3D6"; "Ar_3D3"; "Ar_3D4!"; "Ar_3D4"; "Ar_3D1!!"; "Ar_3D1!";
   "Ar_3S1!!!!"; "Ar_3S1!!"; "Ar_3S1!!!"].

Definition nonResonant5s : list string := ["Ar_2S5"; "Ar_2S3"].

Definition rAr3d : R := 436.0e-10.
Definition rAr5s : R := 635.0e-10.

(** The rate constants of a block: the four 4s levels, then 2P8, 2P6, 2P5,
    2P1 and the remaining 4p levels. *)
Definition knownRates (k1S5 k1S4 k1S3 k1S2 : option (R * QuenchBranch))
    (k2P8 k2P6 k2P5 k2P1 kOther : R * QuenchBranch) (level : string)
  : option (R * QuenchBranch) :=
  if level =? "Ar_1S5" then k1S5
  else if level =? "Ar_1S4" then k1S4
  else if level =? "Ar_1S3" then k1S3
  else if level =? "Ar_1S2" then k1S2
  else if level =? "Ar_2P8" then Some k2P8
  else if level =? "Ar_2P6" then Some k2P6
  else if level =? "Ar_2P5" then Some k2P5
  else if level =? "Ar_2P1" then Some k2P1
  else if isOneOf level other4p then Some kOther
  else None.

Definition quencherCO2 : Quencher :=
  {| q_gas := "CO2"; q_optical := "CO2"; q_radius := 165.0e-10;
     q_known :=
       knownRates (Some (5.3e-19, QuenchNonIon)) (Some (5.0e-19, QuenchNonIon))
         (Some (5.9e-19, QuenchNonIon)) (Some (7.4e-19, QuenchNonIon))
         (6.4e-19, QuenchNonIon) (6.1e-19, QuenchNonIon)
         (6.6e-19, QuenchNonIon) (6.2e-19, QuenchNonIon)
         (6.33e-19, QuenchNonIon);
     q_estimated := QuenchPenning None; q_resizeType := false |}.

Definition quencherCH4 : Quencher :=
  {| q_gas := "CH4"; q_optical := "CH4"; q_radius := 190.0e-10;
     q_known :=
       knownRates (Some (4.55e-19, QuenchNonIon))
         (Some (4.5e-19, QuenchNonIon)) (Some (5.30e-19, QuenchNonIon))
         (Some (5.7e-19, QuenchNonIon))
         (7.4e-19, QuenchPenning None) (3.4e-19, QuenchPenning None)
         (6.0e-19, QuenchPenning None) (9.3e-19, QuenchPenning None)
         (6.53e-19, QuenchPenning None);
     q_estimated := QuenchPenning None; q_resizeType := false |}.

Definition quencherC2H6 : Quencher :=
  {| q_gas := "C2H6"; q_optical := "C2H6"; q_radius := 195.0e-10;
     q_known :=
       knownRates (Some (5.29e-19, QuenchPenning None))
         (Some (6.2e-19, QuenchPenning None))
         (Some (6.53e-19, QuenchPenning None))
         (Some (10.7e-19, QuenchPenning None))
         (9.2e-19, QuenchPenning None) (4.8e-19, QuenchPenning None)
         (9.9e-19, QuenchPenning None) (11.0e-19, QuenchPenning None)
         (8.7e-19, QuenchPenning None);
     q_estimated := QuenchPenning None; q_resizeType := false |}.

(** Scaling of the ethane rate constants to isobutane, lines 2825-2837. *)
Definition f4p : R :=
  let r4p := 340 in
  let fr := (r4p + 250) / (r4p + 195) in
  let mAr := 39.9 in
  let mEth := 30.1 in
  let mIso := 58.1 in
  fr * fr * sqrt ((mEth / mIso) * (mAr + mIso) / (mAr + mEth)).

Definition quencherIso : Quencher :=
  {| q_gas := "iC4H10"; q_optical := "nC4H10"; q_radius := 250.0e-10;
     q_known :=
       knownRates (Some (7.1e-19, QuenchPenning None))
         (Some (6.1e-19, QuenchPenning None))
         (Some (8.5e-19, QuenchPenning None))
         (Some (11.0e-19, QuenchPenning None))
         (f4p * 9.2e-19, QuenchPenning None)
         (f4p * 4.8e-19, QuenchPenning None)
         (f4p * 9.9e-19, QuenchPenning None)
         (f4p * 11.0e-19, QuenchPenning None)
         (f4p * 5.5e-19, QuenchPenning None);
     q_estimated := QuenchPenning None; q_resizeType := false |}.

Definition quencherC2H2 : Quencher :=
  {| q_gas := "C2H2"; q_optical := "C2H2"; q_radius := 165.0e-10;
     q_known :=
       knownRates (Some (5.6e-19, QuenchPenning (Some 0.61)))
         (Some (4.6e-19, QuenchPenning None))
         (Some (5.6e-19, QuenchPenning (Some 0.61)))
         (Some (8.7e-19, QuenchPenning None))
         (5.0e-19, QuenchPenning (Some 0.3))
         (5.7e-19, QuenchPenning (Some 0.3))
         (6.0e-19, QuenchPenning (Some 0.3))
         (5.3e-19, QuenchPenning (Some 0.3))
         (5.5e-19, QuenchPenning (Some 0.3));
     q_estimated := QuenchPenning None; q_resizeType := false |}.

Definition quencherCF4 : Quencher :=
  {| q_gas := "CF4"; q_optical := "CF4"; q_radius := 235.0e-10;
     q_known :=
       knownRates (Some (0.33e-19, QuenchPlain)) None
         (Some (0.26e-19, QuenchPlain)) None
         (1.7e-19, QuenchPlain) (1.7e-19, QuenchPlain)
         (1.6e-19, QuenchPlain) (2.2e-19, QuenchPlain)
         (1.8e-19, QuenchPlain);
     q_estimated := QuenchPlain; q_resizeType := true |}.

(** The body of the loop over the levels in one block. *)
Definition quenchLevel (st : MediumMagboltz) (q : Quencher) (iAr iQ : nat)
    (dxc : Deexcitation) : Deexcitation :=
  let nQ := numberDensity st * nth iQ (m_fraction st) 0 in
  let level := dxc_label dxc in
  let '(pacs, eta) :=
    GetPhotoabsorptionCrossSection env (q_optical q) (dxc_energy dxc) in
  let pPenningWK := powReal eta 0.4 in
  let channel :=
    match q_known q level with
    | Some (kQ, b) => Some (kQ * nQ, b)
    | None =>
        if Rlt_dec 0 (dxc_osc dxc) then
          Some (RateConstantWK st (dxc_energy dxc) (dxc_osc dxc) pacs iAr iQ
                * nQ, q_estimated q)
        else if isOneOf level nonResonant3d then
          Some (RateConstantHardSphere st rAr3d (q_radius q) iAr iQ * nQ,
                q_estimated q)
        else if isOneOf level nonResonant5s then
          Some (RateConstantHardSphere st rAr5s (q_radius q) iAr iQ * nQ,
                q_estimated q)
        else None
    end in
  let d :=
    match channel with
    | None => dxc
    | Some (rate, QuenchNonIon) =>
        set_dxc_type (dxc_type dxc ++ [DxcTypeCollNonIon])
          (set_dxc_p (dxc_p dxc ++ [rate]) dxc)
    | Some (rate, QuenchPenning (Some pP)) =>
        AddPenningDeexcitation dxc rate pP
    | Some (rate, QuenchPenning None) =>
        AddPenningDeexcitation dxc rate pPenningWK
    | Some (rate, QuenchPlain) => set_dxc_p (dxc_p dxc ++ [rate]) dxc
    end in
  let d := if q_resizeType q then resizeType d else d in
  set_dxc_final (resize (dxc_final d) (length (dxc_p d)) (-1)%Z) d.

(** The index of a gas: the last component of that name (lines 2592-2605). *)
Definition findGas (st : MediumMagboltz) (name : string) : option nat :=
  fold_left
    (fun (acc : option nat) (i : nat) =>
       if nth i (m_gas st) "" =? name then Some i else acc)
    (seq 0 (m_nComponents st)) None.

Definition quenchBlock (st : MediumMagboltz) (iAr : nat) (q : Quencher)
    (dxcs : list Deexcitation) : list Deexcitation :=
  match findGas st (q_gas q) with
  | Some iQ => map (quenchLevel st q iAr iQ) dxcs
  | None => dxcs
  end.

(** *** Total rate and cumulative branching ratios (lines 3033-3094) *)

Fixpoint sumFirst (n : nat) (p : list R) (acc : R) : R :=
  match n, p with
  | S n', x :: t => sumFirst n' t (acc + x)
  | _, _ => acc
  end.

Fixpoint branchingFrom (n : nat) (rate prev : R) (p : list R) : list R :=
  match n, p with
  | S n', x :: t =>
      let x' := x / rate + prev in x' :: branchingFrom n' rate x' t
  | _, _ => p
  end.

Definition branchingCumulative (n : nat) (rate : R) (p : list R) : list R :=
  match n, p with
  | S n', x :: t => x / rate :: branchingFrom n' rate (x / rate) t
  | _, _ => p
  end.

Definition normaliseDeexcitation (dxc : Deexcitation) : Deexcitation :=
  let nChannels := length (dxc_type dxc) in
  let rate := sumFirst nChannels (dxc_p dxc) 0 in
  let d := set_dxc_rate rate dxc in
  if Rlt_dec 0 rate then
    set_dxc_p (branchingCumulative nChannels rate (dxc_p dxc)) d
  else d.

(** *** ComputeDeexcitationTable *)

Definition f2A : R :=
  2 * SpeedOfLight env * FineStructureConstant env /
  (3 * ElectronMass env * HbarC env).

Definition ComputeDeexcitationTable (st : MediumMagboltz) : MediumMagboltz :=
  let st := set_deexcitations []
              (set_iDeexcitation (repeat (-1)%Z nMaxLevels) st) in
  let '(iAr, mapLevels) := mapArgonLevels st in
  let '(lvl, iDeexcitation, nDeexcitations) :=
    countLevels mapLevels [] (m_iDeexcitation st) 0 in
  let st := set_iDeexcitation iDeexcitation st in
  let '(dxcs, complete) := radiativeLoop st lvl f2A mapLevels [] in
  if negb complete then set_deexcitations dxcs st
  else
    let dxcs :=
      match iAr with
      | None => dxcs
      | Some iAr =>
          (* collisions with argon, lines 2354-2589 *)
          let lvl := mapSet lvl "Ar_Dimer" (Z.of_nat (length dxcs)) in
          let dxcs := (dxcs ++ [syntheticLevel "Ar_Dimer" iAr])%list in
          let lvl := mapSet lvl "Ar_Excimer" (Z.of_nat (length dxcs)) in
          let dxcs := (dxcs ++ [syntheticLevel "Ar_Excimer" iAr])%list in
          let nAr := numberDensity st * nth iAr (m_fraction st) 0 in
          let dxcs := map (argonCollisions (mapAt lvl) nAr) dxcs in
          (* quenching gases, lines 2591-3022 *)
          fold_left (fun ds q => quenchBlock st iAr q ds)
            [quencherCO2; quencherCH4; quencherC2H6; quencherIso;
             quencherC2H2; quencherCF4] dxcs
      end in
    set_deexcitations (map normaliseDeexcitation dxcs) st.


(** *** The cascade (ComputeDeexcitationInternal, lines 3161-3250) *)

(** [++n] on an [unsigned int]. *)
Definition increment32 (n : Z) : Z := ((n + 1) mod 2 ^ 32)%Z.

(** The loop of lines 3181-3187: the first channel [j] with [r <= p[j]]
    gives the final level and the type; without one they stay at [-1] and
    [DxcTypeRad]. *)
Fixpoint selectChannelFrom (j : nat) (ps : list R) (dxc : Deexcitation)
    (r : R) : Z * Z :=
  match ps with
  | [] => ((-1)%Z, DxcTypeRad)
  | pj :: rest =>
      if Rle_dec r pj
      then (nth j (dxc_final dxc) (-1)%Z, nth j (dxc_type dxc) DxcTypeRad)
      else selectChannelFrom (S j) rest dxc r
  end.

Definition selectChannel (dxc : Deexcitation) (r : R) : Z * Z :=
  selectChannelFrom 0 (dxc_p dxc) dxc r.

(** Lines 3204-3207: draw the offset from the line centre until the photon
    energy stays above [Small] and the offset is within the line width.
    [draws] bounds the number of draws; [None] when they are used up. *)
Fixpoint sampleLineOffset (draws : nat) (k : nat) (dxc : Deexcitation)
  : option (R * nat) :=
  match draws with
  | O => None
  | S draws' =>
      let delta := RndmVoigt env k 0 (dxc_sDoppler dxc) (dxc_gPressure dxc) in
      if Rlt_dec (dxc_energy dxc + delta) (Small env) then
        sampleLineOffset draws' (S k) dxc
      else if Rge_dec (Rabs delta) (dxc_width dxc) then
        sampleLineOffset draws' (S k) dxc
      else Some (delta, S k)
  end.

Definition floorSmall (x : R) : R :=
  if Rlt_dec x (Small env) then Small env else x.

(** What the loop carries: the elapsed time, the products so far, the
    Penning counter and the random numbers used. *)
Record Cascade := {
  cas_t : R;
  cas_products : list dxcProd;
  cas_nPenning : Z;
  cas_random : RandomCursor }.

Definition useUniform (rc : RandomCursor) : RandomCursor :=
  {| nUniform := S (nUniform rc); nUniformPos := nUniformPos rc;
     nVoigt := nVoigt rc |}.

Definition useUniformPos (rc : RandomCursor) : RandomCursor :=
  {| nUniform := nUniform rc; nUniformPos := S (nUniformPos rc);
     nVoigt := nVoigt rc |}.

Definition setVoigt (rc : RandomCursor) (k : nat) : RandomCursor :=
  {| nUniform := nUniform rc; nUniformPos := nUniformPos rc; nVoigt := k |}.

(** The while loop.  [steps] bounds the number of iterations and [draws] the
    draws of each line offset; the result is [None] when a bound is
    reached, otherwise the final level [fLevel] and the loop state. *)
Fixpoint cascadeLoop (steps draws : nat) (table : list Deexcitation)
    (minIonPot : R) (iLevel fLevel : Z) (c : Cascade)
  : option (Z * Cascade) :=
  match steps with
  | O => None
  | S steps' =>
      if ((0 <=? iLevel) && (iLevel <? Z.of_nat (length table)))%Z then
        match nth_error table (Z.to_nat iLevel) with
        | None => Some (fLevel, c)
        | Some dxc =>
            if Rle_dec (dxc_rate dxc) 0 then Some (iLevel, c)
            else if (length (dxc_p dxc) <=? 0)%nat then Some (iLevel, c)
            else
              let rc := cas_random c in
              let t := cas_t c +
                       - ln (RndmUniformPos env (nUniformPos rc))
                         / dxc_rate dxc in
              let rc := useUniformPos rc in
              let r := RndmUniform env (nUniform rc) in
              let rc := useUniform rc in
              let '(fLevel', type) := selectChannel dxc r in
              let next := nth (Z.to_nat fLevel') table dxc in
              if (type =? DxcTypeRad)%Z then
                if (0 <=? fLevel')%Z then
                  (* decay to a lower lying excited state *)
                  let photon :=
                    {| prod_s := 0; prod_t := t;
                       prod_type := DxcProdTypePhoton;
                       prod_energy :=
                         floorSmall (dxc_energy dxc - dxc_energy next) |} in
                  cascadeLoop steps' draws table minIonPot fLevel' fLevel'
                    {| cas_t := t;
                       cas_products := (cas_products c ++ [photon])%list;
                       cas_nPenning := cas_nPenning c; cas_random := rc |}
                else
                  (* decay to the ground state *)
                  match sampleLineOffset draws (nVoigt rc) dxc with
                  | None => None
                  | Some (delta, k) =>
                      let photon :=
                        {| prod_s := 0; prod_t := t;
                           prod_type := DxcProdTypePhoton;
                           prod_energy := dxc_energy dxc + delta |} in
                      Some (iLevel,
                            {| cas_t := t;
                               cas_products :=
                                 (cas_products c ++ [photon])%list;
                               cas_nPenning := cas_nPenning c;
                               cas_random := setVoigt rc k |})
                  end
              else if (type =? DxcTypeCollIon)%Z then
                if (0 <=? fLevel')%Z then
                  (* associative ionisation *)
                  let electron :=
                    {| prod_s := 0; prod_t := t;
                       prod_type := DxcProdTypeElectron;
                       prod_energy :=
                         floorSmall (dxc_energy dxc - dxc_energy next) |} in
                  cascadeLoop steps' draws table minIonPot fLevel' fLevel'
                    {| cas_t := t;
                       cas_products := (cas_products c ++ [electron])%list;
                       cas_nPenning := increment32 (cas_nPenning c);
                       cas_random := rc |}
                else
                  (* Penning ionisation *)
                  let electron :=
                    {| prod_s := 0; prod_t := t;
                       prod_type := DxcProdTypeElectron;
                       prod_energy :=
                         floorSmall (dxc_energy dxc - minIonPot) |} in
                  Some (iLevel,
                        {| cas_t := t;
                           cas_products := (cas_products c ++ [electron])%list;
                           cas_nPenning := increment32 (cas_nPenning c);
                           cas_random := rc |})
              else if (type =? DxcTypeCollNonIon)%Z then
                cascadeLoop steps' draws table minIonPot fLevel' fLevel'
                  {| cas_t := t; cas_products := cas_products c;
                     cas_nPenning := cas_nPenning c; cas_random := rc |}
              else
                (* unknown type of channel *)
                Some (iLevel,
                      {| cas_t := t; cas_products := cas_products c;
                         cas_nPenning := cas_nPenning c; cas_random := rc |})
        end
      else Some (fLevel, c)
  end.

(** [ComputeDeexcitationInternal(iLevel, fLevel)]: the session and the
    random cursor afterwards, with [fLevel]. *)
Definition ComputeDeexcitationInternal (steps draws : nat)
    (st : MediumMagboltz) (rc : RandomCursor) (iLevel : Z)
  : option (MediumMagboltz * RandomCursor * Z) :=
  match cascadeLoop steps draws (m_deexcitations st) (m_minIonPot st)
          iLevel iLevel
          {| cas_t := 0; cas_products := []; cas_nPenning := m_nPenning st;
             cas_random := rc |} with
  | None => None
  | Some (fLevel, c) =>
      Some (set_nPenning (cas_nPenning c)
              (set_dxcProducts (cas_products c) st),
            cas_random c, fLevel)
  end.


(** *** Photon collision rates (ComputePhotonCollisionTable, lines 3252-3405) *)

Definition nEnergyStepsGamma : nat := 50 * 100.
Definition nCsTypesGamma : nat := 4.
Definition PhotonCollisionTypeIonisation : nat := 1.
Definition PhotonCollisionTypeInelastic : nat := 2.

(** Lines 3286-3295, for one gas: add its absorption rate to the total and
    append its two terms to every row. *)
Fixpoint photonRows (gasname : string) (prefactor eStepGamma : R) (j : nat)
    (tot : list R) (rows : list (list R)) : list R * list (list R) :=
  match tot, rows with
  | t :: tot', row :: rows' =>
      let '(cs, eta) :=
        GetPhotoabsorptionCrossSection env gasname
          ((INR j + 0.5) * eStepGamma) in
      let '(tot'', rows'') :=
        photonRows gasname prefactor eStepGamma (S j) tot' rows' in
      (t + cs * prefactor :: tot'',
       (row ++ [cs * prefactor * eta; cs * prefactor * (1 - eta)])%list
       :: rows'')
  | _, _ => (tot, rows)
  end.

(** The loop over the gases, lines 3269-3296; [false] when the optical data
    of a gas are not available. *)
Fixpoint photonGases (dens : R) (gases : list nat) (st : MediumMagboltz)
  : bool * MediumMagboltz :=
  match gases with
  | [] => (true, st)
  | i :: rest =>
      let prefactor := dens * SpeedOfLight env * nth i (m_fraction st) 0 in
      let gasname :=
        if nth i (m_gas st) "" =? "iC4H10" then "nC4H10"
        else nth i (m_gas st) "" in
      if negb (IsAvailable env gasname) then (false, st)
      else
        let '(tot, rows) :=
          photonRows gasname prefactor (m_eStepGamma st) 0
            (m_cfTotGamma st) (m_cfGamma st) in
        photonGases dens rest
          (set_cfGamma rows
             (set_cfTotGamma tot
                (set_nPhotonTerms (m_nPhotonTerms st + 2)
                   (set_csTypeGamma
                      (csTypeGamma st ++
                       [i * nCsTypesGamma + PhotonCollisionTypeIonisation;
                        i * nCsTypesGamma
                        + PhotonCollisionTypeInelastic])%nat%list
                      st))))
  end.

(** Lines 3342-3369: strength and width of a discrete absorption line. *)
Definition absorptionLine (st : MediumMagboltz) (dens : R)
    (dxc : Deexcitation) : Deexcitation :=
  if Rlt_dec (dxc_osc dxc) (Small env) then dxc
  else
    let f2cs := FineStructureConstant env * 2 * (PI * PI) * HbarC env *
                HbarC env / ElectronMass env in
    let fraction := nth (dxc_gas dxc) (m_fraction st) 0 in
    let prefactor := dens * SpeedOfLight env * fraction in
    let mgas := ElectronMass env / (nth (dxc_gas dxc) (m_rgas st) 0 - 1) in
    let wDoppler := sqrt (BoltzmannConstant env * m_temperature st / mgas) in
    let sDoppler := wDoppler * dxc_energy dxc in
    let kResBroad := 1.92 * PI * sqrt (1 / 3) in
    let gPressure :=
      kResBroad * FineStructureConstant env * HbarC env ^ 3 *
      dxc_osc dxc * dens * fraction / (ElectronMass env * dxc_energy dxc) in
    let nWidths := 1000 in
    let fwhmGauss := sDoppler * sqrt (2 * ln 2) in
    let fwhmLorentz := gPressure in
    let fwhmVoigt :=
      0.5 * (1.0692 * fwhmLorentz +
             sqrt (0.86639 * fwhmLorentz * fwhmLorentz +
                   4 * fwhmGauss * fwhmGauss)) in
    set_dxc_width (nWidths * fwhmVoigt)
      (set_dxc_gPressure gPressure
         (set_dxc_sDoppler sDoppler
            (set_dxc_cf (prefactor * f2cs * dxc_osc dxc) dxc))).

Definition ComputePhotonCollisionTable (st : MediumMagboltz)
  : bool * MediumMagboltz :=
  let dens := numberDensity st in
  let st :=
    set_nPhotonTerms 0%nat
      (set_csTypeGamma []
         (set_cfGamma (repeat [] nEnergyStepsGamma)
            (set_cfTotGamma (repeat 0 nEnergyStepsGamma) st))) in
  match photonGases dens (seq 0 (m_nComponents st)) st with
  | (false, st) => (false, st)
  | (true, st) =>
      let st :=
        set_cfGamma (map (cumulateRates (m_nPhotonTerms st)) (m_cfGamma st))
          st in
      if negb (m_useDeexcitation st) then (true, st)
      else
        (true,
         set_deexcitations
           (map (absorptionLine st dens) (m_deexcitations st)) st)
  end.


(** *** Mixer (lines 1408-1934) *)

Definition Rltb (x y : R) : bool := if Rlt_dec x y then true else false.

(** [GetGasNumberMagboltz], lines 1119-1406. *)
Definition gasNumbers : list (string * nat) :=
  [("CF4", 1%nat); ("Ar", 2%nat); ("He", 3%nat); ("He-4", 3%nat); ("He-3",
   4%nat); ("Ne", 5%nat); ("Kr", 6%nat); ("Xe", 7%nat); ("CH4", 8%nat);
   ("C2H6", 9%nat); ("C3H8", 10%nat); ("iC4H10", 11%nat); ("CO2", 12%nat);
   ("neoC5H12", 13%nat); ("H2O", 14%nat); ("O2", 15%nat); ("N2", 16%nat);
   ("NO", 17%nat); ("N2O", 18%nat); ("C2H4", 19%nat); ("C2H2", 20%nat);
   ("H2", 21%nat); ("D2", 22%nat); ("CO", 23%nat); ("Methylal", 24%nat);
   ("DME", 25%nat); ("Reid-Step", 26%nat); ("Maxwell-Model", 27%nat);
   ("Reid-Ramp", 28%nat); ("C2F6", 29%nat); ("SF6", 30%nat); ("NH3",
   31%nat); ("C3H6", 32%nat); ("cC3H6", 33%nat); ("CH3OH", 34%nat);
   ("C2H5OH", 35%nat); ("C3H7OH", 36%nat); ("Cs", 37%nat); ("F2", 38%nat);
   ("CS2", 39%nat); ("COS", 40%nat); ("CD4", 41%nat); ("BF3", 42%nat);
   ("C2HF5", 43%nat); ("C2H2F4", 43%nat); ("TMA", 44%nat); ("CHF3", 50%nat);
   ("CF3Br", 51%nat); ("C3F8", 52%nat); ("O3", 53%nat); ("Hg", 54%nat);
   ("H2S", 55%nat); ("nC4H10", 56%nat); ("nC5H12", 57%nat); ("N2 (Phelps)",
   58%nat); ("GeH4", 59%nat); ("SiH4", 60%nat)].

Definition GetGasNumberMagboltz (input : string) : option nat :=
  mapFind gasNumbers input.

(** [SetScatteringParameters], lines 1982-2008: the pair [(cut, parOut)]. *)
Definition SetScatteringParameters (model : Z) (parIn : R) : R * R :=
  if (model <=? 0)%Z then (1, 0.5)
  else if (2 <=? model)%Z then (1, parIn)
  else if Rle_dec parIn 1 then (1, parIn)
  else
    let rads := 2 / PI in
    let cns := parIn - 0.5 in
    let thetac := asin (2 * sqrt (cns - cns * cns)) in
    let fac := (1 - cos thetac) / (sin thetac * sin thetac) in
    (thetac * rads, cns * fac + 0.5).

(** Lines 1434-1455: the tables are emptied before anything else. *)
Definition resetTables (st : MediumMagboltz) : MediumMagboltz :=
  let st := set_cfTot (repeat 0 nEnergySteps) st in
  let st := set_cf (repeat (repeat 0 nMaxLevels) nEnergySteps) st in
  let st := set_scatPar (repeat (repeat 0.5 nMaxLevels) nEnergySteps) st in
  let st := set_scatCut (repeat (repeat 1 nMaxLevels) nEnergySteps) st in
  let st := set_scatModel (repeat 0%Z nMaxLevels) st in
  let st := set_cfTotLog (repeat 0 nEnergyStepsLog) st in
  let st := set_cfLog (repeat (repeat 0 nMaxLevels) nEnergyStepsLog) st in
  let st :=
    set_scatParLog (repeat (repeat 0.5 nMaxLevels) nEnergyStepsLog) st in
  let st := set_scatCutLog (repeat (repeat 1 nMaxLevels) nEnergyStepsLog) st in
  let st := set_deexcitations [] st in
  let st := set_iDeexcitation (repeat (-1)%Z nMaxLevels) st in
  let st := set_minIonPot (-1) st in
  let st := set_ionPot (repeat (-1) (m_nMaxGases env)) st in
  let st := set_wOpalBeaty (repeat 1 nMaxLevels) st in
  let st :=
    set_parGreenSawada (repeat [1; 0; 0; 0; 0] (m_nMaxGases env)) st in
  set_hasGreenSawada (repeat false (m_nMaxGases env)) st.

(** Lines 1482-1490: the Magboltz numbers of the gases, if all are known. *)
Fixpoint gasNumbersOf (names : list string) : option (list nat) :=
  match names with
  | [] => Some []
  | g :: rest =>
      match GetGasNumberMagboltz g, gasNumbersOf rest with
      | Some n, Some ns => Some (n :: ns)
      | _, _ => None
      end
  end.

(** The cross-section terms of one gas, in the order in which the source
    numbers them: elastic, ionisation, attachment, inelastic.  The number
    of attachment terms [nAtt] is never handed to [gasmix_] and stays 0, so
    there is the one attachment term of [q[iE][3]]. *)
Inductive CsSource :=
| CsElastic
| CsIonisation (j : nat)
| CsIonisationGross
| CsAttachment
| CsInelastic (j : nat).

(** [withIon], lines 1579-1612. *)
Definition hasIonisation (eFinal : R) (out : GasmixOutput) : bool :=
  if (1 <? g_nIon out)%nat then
    existsb (fun j => negb (Rltb eFinal (g_eIon out j))) (seq 0 (g_nIon out))
  else if Rge_dec eFinal (g_e out 2) then true else false.

Definition termsOf (eFinal : R) (withIon : bool) (out : GasmixOutput)
  : list CsSource :=
  (CsElastic ::
   (if withIon then
      if (1 <? g_nIon out)%nat then
        map CsIonisation
          (filter (fun j => negb (Rltb eFinal (g_eIon out j)))
             (seq 0 (g_nIon out)))
      else [CsIonisationGross]
    else []) ++
   CsAttachment :: map CsInelastic (seq 0 (g_nIn out)))%list.

Definition charIs (s : string) (i : nat) (c : ascii) : bool :=
  match String.get i s with
  | Some a => Ascii.eqb a c
  | None => false
  end.

(** Lines 1641-1654: excitation, super-elastic or other inelastic term. *)
Definition inelasticType (gas descr : string) (eIn : R) : nat :=
  if (charIs descr 1 "E" && charIs descr 2 "X")
     || (charIs descr 0 "E" && charIs descr 1 "X")
     || ((gas =? "N2") && Rltb 6 eIn)
  then ElectronCollisionTypeExcitation
  else if Rltb eIn 0 then ElectronCollisionTypeSuperelastic
  else ElectronCollisionTypeInelastic.

(** Lines 1572-1658: the entries of term [np]. *)
Definition writeLevel (out : GasmixOutput) (iGas : nat) (r : R)
    (acc : nat * MediumMagboltz) (src : CsSource) : nat * MediumMagboltz :=
  let '(np, st) := acc in
  let put (model : Z) (loss : R) (descr : string) (type : nat)
          (st : MediumMagboltz) :=
    set_csType (upd (m_csType st) np (nCsTypes * iGas + type)%nat)
      (set_description (upd (m_description st) np descr)
         (set_energyLoss (upd (m_energyLoss st) np loss)
            (set_scatModel (upd (m_scatModel st) np model) st))) in
  let st' :=
    match src with
    | CsElastic =>
        put (g_kEl out 1) 0 (g_scrpt out 1) ElectronCollisionTypeElastic st
    | CsIonisation j =>
        put (g_kEl out 2) (g_eIon out j / r) (g_scrpt out (2 + j))
          ElectronCollisionTypeIonisation
          (set_wOpalBeaty (upd (m_wOpalBeaty st) np (g_eoby out j)) st)
    | CsIonisationGross =>
        put (g_kEl out 2) (g_e out 2 / r) (g_scrpt out 2)
          ElectronCollisionTypeIonisation
          (set_wOpalBeaty (upd (m_wOpalBeaty st) np (g_eoby out 0)) st)
    | CsAttachment =>
        put 0%Z 0 (g_scrpt out (2 + g_nIon out))
          ElectronCollisionTypeAttachment st
    | CsInelastic j =>
        let descr := g_scrpt out (5 + g_nIon out + j) in
        put (g_kIn out j) (g_eIn out j / r) descr
          (inelasticType (nth iGas (m_gas st) "") descr (g_eIn out j)) st
    end in
  (S np, st').

(** Lines 1594-1596 and 1605-1607: ionisation potential and Green-Sawada
    parameters of the gas. *)
Definition writeIonisationPotential (out : GasmixOutput) (iGas : nat)
    (st : MediumMagboltz) : MediumMagboltz :=
  let put (w pot : R) :=
    let par := nth iGas (m_parGreenSawada st) [] in
    set_ionPot (upd (m_ionPot st) iGas pot)
      (set_parGreenSawada
         (upd (m_parGreenSawada st) iGas (upd (upd par 0 w) 4 (2 * pot)))
         st) in
  if (1 <? g_nIon out)%nat then put (g_eoby out 0) (g_eIon out 0)
  else if Rge_dec (m_eFinal st) (g_e out 2) then put (g_eoby out 0) (g_e out 2)
  else st.

(** The frequency and the angular parameters of term [np] in one energy bin:
    [iE] is the row of the Magboltz arrays that is read, [onLogGrid] says
    which table is written (lines 1666-1719 and 1745-1798). *)
Definition fillTerm (onLogGrid : bool) (scatModel : list Z)
    (out : GasmixOutput) (van scale : R) (iE : nat)
    (acc : nat * (list R * list R * list R)) (src : CsSource)
  : nat * (list R * list R * list R) :=
  let '(np, (cf, cut, par)) := acc in
  let model := nth np scatModel 0%Z in
  let put (rate parIn : R) :=
    let '(c, p) := SetScatteringParameters model parIn in
    (upd cf np rate, upd cut np c, upd par np p) in
  let rows :=
    match src with
    | CsElastic => put (g_q out iE 1 * van) (g_pEqEl out iE 1)
    | CsIonisation j => put (g_qIon out iE j * van) (g_pEqIon out iE j)
    | CsIonisationGross => put (g_q out iE 2 * van) (g_pEqEl out iE 2)
    | CsAttachment =>
        (upd cf np (g_q out iE 3 * van), cut,
         if onLogGrid then par else upd par np 0.5)
    | CsInelastic j =>
        put (clampNegative (g_qIn out iE j * van * scale)) (g_pEqIn out iE j)
    end in
  (S np, rows).

Definition fillRow (onLogGrid : bool) (scatModel : list Z)
    (out : GasmixOutput) (van scale : R) (iE np0 : nat)
    (terms : list CsSource) (rows : list R * list R * list R)
  : list R * list R * list R :=
  snd (fold_left (fillTerm onLogGrid scatModel out van scale iE) terms
         (np0, rows)).

(** The loop over the linear grid, lines 1661-1726. *)
Fixpoint fillRowsLin (scatModel : list Z) (out : GasmixOutput)
    (van scale : R) (np0 : nat) (terms : list CsSource) (iE : nat)
    (cf cut par : list (list R))
  : list (list R) * list (list R) * list (list R) :=
  match cf, cut, par with
  | c :: cf', u :: cut', p :: par' =>
      let '(c', u', p') :=
        fillRow false scatModel out van scale iE np0 terms (c, u, p) in
      let '(cf'', cut'', par'') :=
        fillRowsLin scatModel out van scale np0 terms (S iE) cf' cut' par' in
      (c' :: cf'', u' :: cut'', p' :: par'')
  | _, _, _ => (cf, cut, par)
  end.

Definition gasmixInput (st : MediumMagboltz) (ngs : nat) (efinal estep : R)
  : GasmixInput :=
  {| gi_ngs := ngs; gi_efinal := efinal; gi_estep := estep;
     gi_tempc := m_temperature st - ZeroCelsius env;
     gi_torr := m_pressure st;
     gi_nAniso := if m_useAnisotropic st then 2%nat else 0%nat |}.

(** The loop over the logarithmic grid, lines 1735-1802: every bin has its
    own call of [gasmix_], whose last row [imax] is read. *)
Fixpoint fillRowsLog (st : MediumMagboltz) (ngs : nat) (van scale : R)
    (np0 : nat) (withIon : bool) (rLog emax : R)
    (cf cut par : list (list R))
  : list (list R) * list (list R) * list (list R) :=
  match cf, cut, par with
  | c :: cf', u :: cut', p :: par' =>
      let estep := emax / (INR nEnergySteps - 0.5) in
      let efinal := emax + 0.5 * estep in
      let out := gasmix env (gasmixInput st ngs efinal estep) in
      let imax := (nEnergySteps - 1)%nat in
      let '(c', u', p') :=
        fillRow true (m_scatModel st) out van scale imax np0
          (termsOf (m_eFinal st) withIon out) (c, u, p) in
      let '(cf'', cut'', par'') :=
        fillRowsLog st ngs van scale np0 withIon rLog (emax * rLog)
          cf' cut' par' in
      (c' :: cf'', u' :: cut'', p' :: par'')
  | _, _, _ => (cf, cut, par)
  end.

(** One pass of the loop over the gases, lines 1512-1803; [false] when the
    terms of the gas do not fit (lines 1556-1562). *)
Definition mixGas (prefactor : R) (iGas ngs : nat) (st : MediumMagboltz)
  : bool * MediumMagboltz :=
  let out :=
    gasmix env
      (gasmixInput st ngs (Rmin (m_eFinal st) (m_eHigh st)) (m_eStep st)) in
  let np0 := m_nTerms st in
  if (nMaxLevels <=? np0 + g_nIn out + g_nIon out + 1)%nat then (false, st)
  else
    let van := nth iGas (m_fraction st) 0 * prefactor in
    let r := 1 + 0.5 * g_e out 1 in
    let st := set_rgas (upd (m_rgas st) iGas r) st in
    let withIon := hasIonisation (m_eFinal st) out in
    let terms := termsOf (m_eFinal st) withIon out in
    let '(np, st) := fold_left (writeLevel out iGas r) terms (np0, st) in
    let st := writeIonisationPotential out iGas st in
    let st := set_nTerms (np0 + length terms)%nat st in
    let scale := nth iGas (m_scaleExc st) 0 in
    let '(cf, cut, par) :=
      fillRowsLin (m_scatModel st) out van scale np0 terms 0
        (m_cf st) (m_scatCut st) (m_scatPar st) in
    let st := set_scatPar par (set_scatCut cut (set_cf cf st)) in
    if Rle_dec (m_eFinal st) (m_eHigh st) then (true, st)
    else
      let rLog := growthFactor (m_eFinal st) (m_eHigh st) in
      let st := set_lnStep (ln rLog) st in
      let '(cfLog, cutLog, parLog) :=
        fillRowsLog st ngs van scale np0 withIon rLog (m_eHigh st * rLog)
          (m_cfLog st) (m_scatCutLog st) (m_scatParLog st) in
      (true,
       set_scatParLog parLog (set_scatCutLog cutLog (set_cfLog cfLog st))).

Fixpoint mixGases (prefactor : R) (iGas : nat) (numbers : list nat)
    (st : MediumMagboltz) : bool * MediumMagboltz :=
  match numbers with
  | [] => (true, st)
  | ngs :: rest =>
      match mixGas prefactor iGas ngs st with
      | (false, st') => (false, st')
      | (true, st') => mixGases prefactor (S iGas) rest st'
      end
  end.

(** Lines 1867-1877: the largest total rate. *)
Definition largerRate (m x : R) : R := if Rlt_dec m x then x else m.

Definition nullCollisionRate (st : MediumMagboltz) : R :=
  let m := fold_left largerRate (m_cfTot st) 0 in
  if Rlt_dec (m_eHigh st) (m_eFinal st)
  then fold_left largerRate (map exp (m_cfTotLog st)) m
  else m.

(** Lines 1817-1865 on the tables of the session. *)
Definition normaliseTables (st : MediumMagboltz) : MediumMagboltz :=
  let '(cf, cfTot) :=
    mixRowsLin (ElectronMass env) (m_nTerms st) (m_eStep st) 0
      (m_cf st) (m_cfTot st) in
  let st := set_cfTot cfTot (set_cf cf st) in
  if Rlt_dec (m_eHigh st) (m_eFinal st) then
    let rLog := growthFactor (m_eFinal st) (m_eHigh st) in
    let '(cfLog, cfTotLog) :=
      mixRowsLog (ElectronMass env) (m_nTerms st) (m_eHigh st) rLog 0
        (m_cfLog st) (m_cfTotLog st) in
    set_cfTotLog cfTotLog (set_cfLog cfLog st)
  else st.

(** Lines 1899-1907: a level whose three channel arrays differ in length. *)
Definition channelMismatch (dxc : Deexcitation) : bool :=
  negb ((length (dxc_p dxc) =? length (dxc_final dxc))%nat
        && (length (dxc_p dxc) =? length (dxc_type dxc))%nat).

(** Lines 1920-1928. *)
Definition resetPenning (st : MediumMagboltz) : MediumMagboltz :=
  fold_left
    (fun (st : MediumMagboltz) (i : nat) =>
       let st :=
         set_rPenning (upd (m_rPenning st) i (m_rPenningGlobal st)) st in
       let iGas := (nth i (m_csType st) 0%nat / nCsTypes)%nat in
       if Rlt_dec (Small env) (nth iGas (m_rPenningGas st) 0) then
         set_lambdaPenning
           (upd (m_lambdaPenning st) i (nth iGas (m_lambdaPenningGas st) 0))
           (set_rPenning
              (upd (m_rPenning st) i (nth iGas (m_rPenningGas st) 0)) st)
       else st)
    (seq 0 (m_nTerms st)) st.

(** [SetupGreenSawada], lines 1936-1980. *)
Definition greenSawadaFit (gas : string) : option (R * R * R) :=
  if (gas =? "He") || (gas =? "He-3") then Some (15.5, 24.5, -2.25)
  else if gas =? "Ne" then Some (24.3, 21.6, -6.49)
  else if gas =? "Ar" then Some (6.92, 7.85, 6.87)
  else if gas =? "Kr" then Some (7.95, 13.5, 3.90)
  else if gas =? "Xe" then Some (7.93, 11.5, 3.81)
  else if (gas =? "H2") || (gas =? "D2") then Some (7.07, 7.7, 1.87)
  else if gas =? "N2" then Some (13.8, 15.6, 4.71)
  else if gas =? "O2" then Some (18.5, 12.1, 1.86)
  else if gas =? "CH4" then Some (7.06, 12.5, 3.45)
  else if gas =? "H2O" then Some (12.8, 12.6, 1.28)
  else if gas =? "CO" then Some (13.3, 14.0, 2.03)
  else if gas =? "C2H2" then Some (9.28, 5.8, 1.37)
  else if gas =? "NO" then Some (10.4, 9.5, -4.30)
  else if gas =? "CO2" then Some (12.3, 13.8, -2.46)
  else None.

Definition SetupGreenSawada (st : MediumMagboltz) : MediumMagboltz :=
  fold_left
    (fun (st : MediumMagboltz) (i : nat) =>
       let par := nth i (m_parGreenSawada st) [] in
       let ta := 1000 in
       let tb := nth 4 par 0 in
       match greenSawadaFit (nth i (m_gas st) "") with
       | Some (gs, gb, ts) =>
           set_parGreenSawada
             (upd (m_parGreenSawada st) i [gs; gb; ts; ta; tb])
             (set_hasGreenSawada (upd (m_hasGreenSawada st) i true) st)
       | None =>
           set_hasGreenSawada (upd (m_hasGreenSawada st) i false)
             (set_parGreenSawada (upd (m_parGreenSawada st) i (upd par 3 0))
                st)
       end)
    (seq 0 (m_nComponents st)) st.

(** Lines 1806-1808: the smallest ionisation threshold of the mixture. *)
Definition smallestIonPot (st : MediumMagboltz) : R :=
  match firstn (m_nComponents st) (m_ionPot st) with
  | [] => nth 0 (m_ionPot st) 0
  | x :: rest => fold_left Rmin rest x
  end.

(** The part of [Mixer] after the loop over the gases, lines 1806-1933, in
    its stages: the rates and the counters (lines 1806-1881), the
    de-excitation table (lines 1896-1907), the photon table (lines
    1909-1917), the Penning parameters and the Green-Sawada parameters. *)
Definition finishRates (st : MediumMagboltz) : MediumMagboltz :=
  let st := set_minIonPot (smallestIonPot st) st in
  let st := normaliseTables st in
  let st := set_cfNull (nullCollisionRate st) st in
  let st := set_nCollisionsDetailed (repeat 0%Z (m_nTerms st)) st in
  set_nCollisions (repeat 0%Z nCsTypes) st.

Definition deexcitationStage (st : MediumMagboltz) : MediumMagboltz :=
  if m_useDeexcitation st then
    let st := ComputeDeexcitationTable st in
    if existsb channelMismatch (m_deexcitations st)
    then set_useDeexcitation false st
    else st
  else st.

Definition photonStage (st : MediumMagboltz) : MediumMagboltz :=
  match ComputePhotonCollisionTable st with
  | (false, st) =>
      if m_useDeexcitation st then set_useDeexcitation false st else st
  | (true, st) => st
  end.

Definition finishMixer (st : MediumMagboltz) : MediumMagboltz :=
  SetupGreenSawada
    (resetPenning (photonStage (deexcitationStage (finishRates st)))).

Definition Mixer (st : MediumMagboltz) : bool * MediumMagboltz :=
  let dens := numberDensity st in
  let prefactor := dens * SpeedOfLight env * sqrt (2 / ElectronMass env) in
  let st := resetTables st in
  match gasNumbersOf
          (map (fun i => nth i (m_gas st) "") (seq 0 (m_nComponents st))) with
  | None => (false, st)
  | Some numbers =>
      let st := set_nTerms 0%nat st in
      match mixGases prefactor 0 numbers st with
      | (false, st) => (false, st)
      | (true, st) => (true, finishMixer st)
      end
  end.


(** *** Energy range and table update *)

(** [SetMaxElectronEnergy], lines 84-108. *)
Definition SetMaxElectronEnergy (st : MediumMagboltz) (e : R)
  : bool * MediumMagboltz :=
  if Rle_dec e (Small env) then (false, st)
  else
    let st := set_eFinal e st in
    let st :=
      if Rle_dec (m_eFinal st) (m_eHigh st)
      then set_eStep (m_eFinal st / INR nEnergySteps) st
      else set_eStep (m_eHigh st / INR nEnergySteps) st in
    (true, set_isChanged true st).

(** [if (m_isChanged) { if (!Mixer()) return ...; m_isChanged = false; }] *)
Definition updateTable (st : MediumMagboltz) : bool * MediumMagboltz :=
  if m_isChanged st then
    match Mixer st with
    | (false, st') => (false, st')
    | (true, st') => (true, set_isChanged false st')
    end
  else (true, st).

(** [e > m_eFinal && m_useAutoAdjust] *)
Definition exceedsRange (st : MediumMagboltz) (e : R) : bool :=
  Rltb (m_eFinal st) e && m_useAutoAdjust st.

(** *** Collision rates (lines 494-603) *)

Definition GetElectronNullCollisionRate (st : MediumMagboltz)
  : R * MediumMagboltz :=
  match updateTable st with
  | (false, st') => (0, st')
  | (true, st') => (m_cfNull st', st')
  end.

Definition linearBin (st : MediumMagboltz) (e : R) : nat :=
  clampIndex (truncate (e / m_eStep st)) nEnergySteps.

(** [GetElectronCollisionRate(e, band)] *)
Definition GetElectronCollisionRate (st : MediumMagboltz) (e : R)
  : R * MediumMagboltz :=
  if Rle_dec e 0 then (nth 0 (m_cfTot st) 0, st)
  else
    let st :=
      if exceedsRange st e then snd (SetMaxElectronEnergy st (1.05 * e))
      else st in
    match updateTable st with
    | (false, st') => (0, st')
    | (true, st') =>
        if Rle_dec e (m_eHigh st') then
          (nth (linearBin st' e) (m_cfTot st') 0, st')
        else
          let eLog := ln e in
          let iE := truncate ((eLog - m_eHighLog st') / m_lnStep st') in
          let fmax := nth (Z.to_nat iE) (m_cfTotLog st') 0 in
          let fmin :=
            if (iE =? 0)%Z
            then ln (nth (nEnergySteps - 1) (m_cfTot st') 0)
            else nth (Z.to_nat (iE - 1)) (m_cfTotLog st') 0 in
          let emin := m_eHighLog st' + IZR iE * m_lnStep st' in
          let f := fmin + (eLog - emin) * (fmax - fmin) / m_lnStep st' in
          (exp f, st')
    end.

(** [GetElectronCollisionRate(e, level, band)] *)
Definition GetElectronCollisionRateLevel (st : MediumMagboltz) (e : R)
    (level : nat) : R * MediumMagboltz :=
  if Rle_dec e 0 then (0, st)
  else if (m_nTerms st <=? level)%nat then (0, st)
  else
    let '(rate, st') := GetElectronCollisionRate st e in
    let share (row : list R) :=
      if (level =? 0)%nat then nth 0 row 0
      else nth level row 0 - nth (level - 1) row 0 in
    if Rle_dec e (m_eHigh st') then
      (rate * share (nth (linearBin st' e) (m_cf st') []), st')
    else
      let iE := truncate ((ln e - m_eHighLog st') / m_lnStep st') in
      (rate * share (nth (Z.to_nat iE) (m_cfLog st') []), st').

(** *** Collision counters (lines 979-1005 and 1091-1102) *)

Definition ResetCollisionCounters (st : MediumMagboltz) : MediumMagboltz :=
  set_nPhotonCollisions (repeat 0%Z nCsTypesGamma)
    (set_nPenning 0%Z
       (set_nCollisionsDetailed (repeat 0%Z (m_nTerms st))
          (set_nCollisions (repeat 0%Z nCsTypes) st))).

(** Addition of [unsigned int] values. *)
Definition add32 (a b : Z) : Z := ((a + b) mod 2 ^ 32)%Z.

(** [std::accumulate(begin, end, 0)] over the counters. *)
Definition GetNumberOfElectronCollisions (st : MediumMagboltz) : Z :=
  fold_left add32 (m_nCollisions st) 0%Z.

(** The overload that also hands out the six counters: the return value
    and [(nElastic, nIonisation, nAttachment, nInelastic, nExcitation,
    nSuperelastic)]. *)
Definition GetNumberOfElectronCollisionsByType (st : MediumMagboltz)
  : Z * (Z * Z * Z * Z * Z * Z) :=
  let n (type : nat) := nth type (m_nCollisions st) 0%Z in
  let nElastic := n ElectronCollisionTypeElastic in
  let nIonisation := n ElectronCollisionTypeIonisation in
  let nAttachment := n ElectronCollisionTypeAttachment in
  let nInelastic := n ElectronCollisionTypeInelastic in
  let nExcitation := n ElectronCollisionTypeExcitation in
  let nSuperelastic := n ElectronCollisionTypeSuperelastic in
  (add32 (add32 (add32 (add32 (add32 nElastic nIonisation) nAttachment)
                   nInelastic) nExcitation) nSuperelastic,
   (nElastic, nIonisation, nAttachment, nInelastic, nExcitation,
    nSuperelastic)).

(** [GetNumberOfElectronCollisions(level)] *)
Definition GetNumberOfElectronCollisionsLevel (st : MediumMagboltz)
    (level : nat) : Z :=
  if (m_nTerms st <=? level)%nat then 0%Z
  else nth level (m_nCollisionsDetailed st) 0%Z.

(** Lines 683-684. *)
Definition countCollision (type level : nat) (st : MediumMagboltz)
  : MediumMagboltz :=
  set_nCollisionsDetailed
    (upd (m_nCollisionsDetailed st) level
       (increment32 (nth level (m_nCollisionsDetailed st) 0%Z)))
    (set_nCollisions
       (upd (m_nCollisions st) type
          (increment32 (nth type (m_nCollisions st) 0%Z))) st).

(** *** GetElectronCollision (lines 605-827) *)

Definition drawUniform (rc : RandomCursor) : R * RandomCursor :=
  (RndmUniform env (nUniform rc), useUniform rc).

Definition drawUniformPos (rc : RandomCursor) : R * RandomCursor :=
  (RndmUniformPos env (nUniformPos rc), useUniformPos rc).

(** What a successful call hands back through its reference arguments. *)
Record Collision := {
  col_type : nat;
  col_level : nat;
  col_e1 : R;
  col_dx : R;
  col_dy : R;
  col_dz : R;
  col_secondaries : list (IonProdType * R);
  col_ndxc : nat }.

(** Lines 641-677: the level and its angular parameters [(angCut, angPar)]
    for the draw [r]. *)
Definition sampleProcess (st : MediumMagboltz) (e r : R) : nat * R * R :=
  if Rle_dec e (m_eHigh st) then
    let iE := linearBin st e in
    let level := sampleLevel (nth iE (m_cf st) []) (m_nTerms st) r in
    (level, nth level (nth iE (m_scatCut st) []) 0,
     nth level (nth iE (m_scatPar st) []) 0)
  else
    let iE :=
      clampIndex (truncate (ln (e / m_eHigh st) / m_lnStep st))
                 nEnergyStepsLog in
    let level := sampleLevel (nth iE (m_cfLog st) []) (m_nTerms st) r in
    (level, nth level (nth iE (m_scatCutLog st) []) 0,
     nth level (nth iE (m_scatParLog st) []) 0).

(** Lines 693-714: the energy of the secondary electron, for the draw [u]. *)
Definition secondaryEnergy (st : MediumMagboltz) (e loss : R)
    (level igas : nat) (u : R) : R :=
  let esec :=
    if m_useOpalBeaty st then
      let w := nth level (m_wOpalBeaty st) 0 in
      w * tan (u * atan (0.5 * (e - loss) / w))
    else if m_useGreenSawada st then
      let par := nth igas (m_parGreenSawada st) [] in
      let gs := nth 0 par 0 in
      let gb := nth 1 par 0 in
      let w := gs * e / (e + gb) in
      let ts := nth 2 par 0 in
      let ta := nth 3 par 0 in
      let tb := nth 4 par 0 in
      let esec0 := ts - ta / (e + tb) in
      esec0 + w * tan ((u - 1) * atan (esec0 / w) +
                       u * atan ((0.5 * (e - loss) - esec0) / w))
    else u * (e - loss) in
  if Rle_dec esec 0 then Small env else esec.

(** Lines 735-761: the simplified treatment of Penning ionisation. *)
Definition penningTransfer (st : MediumMagboltz) (rc : RandomCursor)
    (level igas : nat) : nat * MediumMagboltz * RandomCursor :=
  let st := set_dxcProducts [] st in
  let threshold :=
    nth level (m_energyLoss st) 0 * nth igas (m_rgas st) 0 in
  if Rlt_dec (m_minIonPot st) threshold then
    let '(u, rc) := drawUniform rc in
    if Rlt_dec u (nth level (m_rPenning st) 0) then
      let esec := threshold - m_minIonPot st in
      let esec := if Rle_dec esec 0 then Small env else esec in
      let lambda := nth level (m_lambdaPenning st) 0 in
      let '(s, rc) :=
        if Rlt_dec (Small env) lambda then
          let '(v, rc) := drawUniformPos rc in
          (lambda * powReal v (1 / 3), rc)
        else (0, rc) in
      let newDxcProd :=
        {| prod_s := s; prod_t := 0; prod_type := DxcProdTypeElectron;
           prod_energy := esec |} in
      (1%nat,
       set_nPenning (increment32 (m_nPenning st))
         (set_dxcProducts (m_dxcProducts st ++ [newDxcProd])%list st),
       rc)
    else (0%nat, st, rc)
  else (0%nat, st, rc).

(** Lines 767-786: the cosine of the scattering angle. *)
Definition sampleCosine (st : MediumMagboltz) (rc : RandomCursor)
    (level : nat) (angCut angPar : R) : R * RandomCursor :=
  let '(u, rc) := drawUniform rc in
  let ctheta0 := 1 - 2 * u in
  if m_useAnisotropic st then
    let model := nth level (m_scatModel st) 0%Z in
    if (model =? 1)%Z then
      let '(u1, rc) := drawUniform rc in
      let c := 1 - u1 * angCut in
      let '(u2, rc) := drawUniform rc in
      (if Rlt_dec angPar u2 then - c else c, rc)
    else if (model =? 2)%Z then
      ((ctheta0 + angPar) / (1 + angPar * ctheta0), rc)
    else (ctheta0, rc)
  else (ctheta0, rc).

(** The call.  [steps] and [draws] bound the cascade
    ([ComputeDeexcitationInternal]); the result is [None] when the cascade
    does not end within them.  Otherwise it is the value handed back
    ([None] for [false]), the session and the random cursor. *)
Definition GetElectronCollision (steps draws : nat) (st : MediumMagboltz)
    (rc : RandomCursor) (e dx dy dz : R)
    (secondaries : list (IonProdType * R))
  : option (option Collision * MediumMagboltz * RandomCursor) :=
  if negb (exceedsRange st e) && (if Rle_dec e 0 then true else false)
  then Some (None, st, rc)
  else
    let st :=
      if exceedsRange st e then snd (SetMaxElectronEnergy st (1.05 * e))
      else st in
    match updateTable st with
    | (false, st) => Some (None, st, rc)
    | (true, st) =>
        let '(r, rc) := drawUniform rc in
        let '(level, angCut, angPar) := sampleProcess st e r in
        let type := (nth level (m_csType st) 0 mod nCsTypes)%nat in
        let igas := (nth level (m_csType st) 0 / nCsTypes)%nat in
        let st := countCollision type level st in
        let loss := nth level (m_energyLoss st) 0 in
        let after :=
          if (type =? ElectronCollisionTypeIonisation)%nat then
            let '(u, rc) := drawUniform rc in
            let esec := secondaryEnergy st e loss level igas u in
            Some (loss + esec,
                  (secondaries ++
                   [(IonProdTypeElectron, esec); (IonProdTypeIon, 0)])%list,
                  0%nat, st, rc)
          else if (type =? ElectronCollisionTypeExcitation)%nat then
            if m_useDeexcitation st
               && (0 <=? nth level (m_iDeexcitation st) 0)%Z
            then
              match ComputeDeexcitationInternal steps draws st rc
                      (nth level (m_iDeexcitation st) 0%Z) with
              | None => None
              | Some (st, rc, _) =>
                  Some (loss, secondaries, length (m_dxcProducts st), st, rc)
              end
            else if m_usePenning st then
              let '(ndxc, st, rc) := penningTransfer st rc level igas in
              Some (loss, secondaries, ndxc, st, rc)
            else Some (loss, secondaries, 0%nat, st, rc)
          else Some (loss, secondaries, 0%nat, st, rc) in
        match after with
        | None => None
        | Some (loss, secondaries, ndxc, st, rc) =>
            let loss := clampLoss e loss in
            let '(ctheta0, rc) := sampleCosine st rc level angCut angPar in
            let s1 := nth igas (m_rgas st) 0 in
            let e1 := collisionEnergy (Small env) e loss s1 ctheta0 in
            let '(ctheta, stheta) :=
              collisionAngle (Small env) e loss s1 ctheta0 in
            let '(u, rc) := drawUniform rc in
            let phi := 2 * PI * u in
            let '(dx', dy', dz') :=
              rotateDirection dx dy dz ctheta stheta phi in
            Some (Some {| col_type := type; col_level := level;
                          col_e1 := e1; col_dx := dx'; col_dy := dy';
                          col_dz := dz'; col_secondaries := secondaries;
                          col_ndxc := ndxc |},
                  st, rc)
        end
    end.


End Session.

(** ** Concrete sessions

    Inputs at which the properties of Part II are evaluated. *)

Section Examples.

Local Open Scope string_scope.

(** A fifty-character description of an excitation term, as Magboltz
    writes it: the level name stands at characters 5 to 11. *)
Definition blanks (n : nat) : string :=
  string_of_list_ascii (repeat " "%char n).

Definition excitationDescription (name : string) : string :=
  " EXC " ++ name ++ blanks 38.

Definition otherDescription (name : string) : string :=
  " " ++ name ++ blanks (49 - String.length name).

(** Cross-sections that do not depend on the energy: an elastic term of
    mass ratio [2m/M = 2.7e-5], an ionisation threshold of 15.7 eV and the
    inelastic terms of [levels], given by description and threshold. *)
Definition constantCrossSections (levels : list (string * R))
  : GasmixOutput :=
  {| g_q := fun _ _ => 1 / 10 ^ 16;
     g_qIn := fun _ _ => 1 / 10 ^ 17;
     g_nIn := length levels;
     g_e := fun k => match k with
                     | 1%nat => 2.7e-5
                     | 2%nat => 15.7
                     | _ => 0
                     end;
     g_eIn := fun j => nth j (map snd levels) 0;
     g_eoby := fun _ => 10;
     g_pEqEl := fun _ _ => 0.5;
     g_pEqIn := fun _ _ => 0.5;
     g_kEl := fun _ => 0%Z;
     g_kIn := fun _ => 0%Z;
     g_qIon := fun _ _ => 1 / 10 ^ 17;
     g_pEqIon := fun _ _ => 0.5;
     g_eIon := fun _ => 15.7;
     g_nIon := 0;
     g_scrpt := fun k =>
       match k with
       | 1%nat => otherDescription "ELASTIC"
       | 2%nat => otherDescription "IONISATION"
       | 3%nat => otherDescription "ATTACHMENT"
       | _ => nth (k - 5) (map fst levels) (blanks 50)
       end |}.

(** Constants in the units of the code (eV, cm, ns), a number density from
    the ideal-gas law, optical data that are available and vanish, and
    random numbers given by [uniform]. *)
Definition exampleEnvironment (cs : GasmixOutput) (uniform : nat -> R)
  : Environment :=
  {| Small := 1 / 10 ^ 20;
     ElectronMass := 510998.91;
     ElectronMassGramme := 9.10938291e-28;
     AtomicMassUnit := 1.660538921e-24;
     SpeedOfLight := 29.9792458;
     BoltzmannConstant := 8.6173324e-5;
     FineStructureConstant := 7.2973525698e-3;
     HbarC := 197.3269718e-7;
     RydbergEnergy := 13.60569253;
     BohrRadius := 0.52917721092e-8;
     ZeroCelsius := 273.15;
     m_nMaxGases := 6;
     GetNumberDensity := fun p T => 2.6867774e19 * (p / 760) * (273.15 / T);
     gasmix := fun _ => cs;
     IsAvailable := fun _ => true;
     GetPhotoabsorptionCrossSection := fun _ _ => (0, 0);
     RndmUniform := uniform;
     RndmUniformPos := fun _ => 1 / 2;
     RndmVoigt := fun _ _ _ _ => 0 |}.

(** The session as the constructor leaves it (lines 33-82), for a gas
    mixture set through the base class.  The constructor does not
    initialise the arrays of the level data, of the counters and of the
    Penning parameters; they are taken to hold zeros here, and Mixer
    writes them before they are read. *)
Definition newSession (gases : list string) (fractions : list R)
  : MediumMagboltz :=
  {| m_nComponents := length gases;
     m_gas := gases;
     m_fraction := fractions;
     m_temperature := 293.15;
     m_pressure := 760;
     m_isChanged := true;
     m_usePenning := false;
     m_rPenningGlobal := 0;
     m_lambdaPenningGlobal := 0;
     m_rPenningGas := repeat 0 6;
     m_lambdaPenningGas := repeat 0 6;
     m_eFinal := 40;
     m_eStep := 40 / INR nEnergySteps;
     m_eHigh := 10000;
     m_eHighLog := ln 10000;
     m_lnStep := 1;
     m_useAutoAdjust := true;
     m_nTerms := 0;
     m_rgas := repeat 0 6;
     m_wOpalBeaty := repeat 0 nMaxLevels;
     m_parGreenSawada := repeat (repeat 0 5) 6;
     m_hasGreenSawada := repeat false 6;
     m_energyLoss := repeat 0 nMaxLevels;
     m_csType := repeat 0%nat nMaxLevels;
     m_useAnisotropic := true;
     m_scatPar := [];
     m_scatCut := [];
     m_scatParLog := [];
     m_scatCutLog := [];
     m_scatModel := repeat 0%Z nMaxLevels;
     m_description := repeat (blanks 50) nMaxLevels;
     m_cfTot := repeat 0 nEnergySteps;
     m_cfTotLog := repeat 0 nEnergyStepsLog;
     m_cfNull := 0;
     m_cf := repeat (repeat 0 nMaxLevels) nEnergySteps;
     m_cfLog := repeat (repeat 0 nMaxLevels) nEnergyStepsLog;
     m_nCollisions := repeat 0%Z nCsTypes;
     m_nCollisionsDetailed := [];
     m_rPenning := repeat 0 nMaxLevels;
     m_lambdaPenning := repeat 0 nMaxLevels;
     m_nPenning := 0;
     m_useDeexcitation := false;
     m_useRadTrap := true;
     m_deexcitations := [];
     m_iDeexcitation := repeat (-1)%Z nMaxLevels;
     m_dxcProducts := [];
     m_ionPot := repeat (-1) 6;
     m_minIonPot := -1;
     m_scaleExc := repeat 1 6;
     m_useOpalBeaty := true;
     m_useGreenSawada := false;
     m_eFinalGamma := 20;
     m_eStepGamma := 20 / INR 5000;
     m_nPhotonTerms := 0;
     m_cfTotGamma := [];
     m_cfGamma := [];
     csTypeGamma := [];
     m_nPhotonCollisions := repeat 0%Z 4 |}.

(** A session with an up-to-date table of two terms, an elastic one and an
    excitation of threshold above the ionisation potential 11 eV, in every
    bin with the cumulative probabilities 1/2 and 1; simplified Penning
    transfer with probability 1 for the excitation. *)
Definition penningSession : MediumMagboltz :=
  set_isChanged false
    (set_usePenning true
       (set_minIonPot 11
          (set_rPenning [0; 1]
             (set_rgas [1.00001]
                (set_energyLoss [0; 13]
                   (set_csType [0%nat; 4%nat]
                      (set_nCollisionsDetailed [0%Z; 0%Z]
                         (set_cf (repeat [1 / 2; 1] nEnergySteps)
                            (set_nTerms 2%nat
                               (newSession ["Ar"] [1])))))))))).

(** Cross-sections with 600 inelastic terms, more than the [nMaxLevels]
    terms a session can hold. *)
Definition crowdedCrossSections : GasmixOutput :=
  constantCrossSections (repeat (otherDescription "VIB", 1) 600).

(** A session that holds tables built earlier, with a total rate of
    5 ns-1 in every bin, and is marked as changed. *)
Definition builtSession : MediumMagboltz :=
  set_isChanged true
    (set_cfNull 5
       (set_cfTot (repeat 5 nEnergySteps) (newSession ["Ar"] [1]))).

(** Argon with two excitation terms in the Magboltz data: the metastable
    level 1S5 and a level whose label, XYZ, is not among the names of
    [levelNamesAr]. *)
Definition unknownLevelCrossSections : GasmixOutput :=
  constantCrossSections
    [(excitationDescription "1S5    ", 11.55);
     (excitationDescription "XYZ    ", 11.62)].

(** A new argon session with de-excitation handling switched on. *)
Definition deexcitationSession : MediumMagboltz :=
  set_useDeexcitation true (newSession ["Ar"] [1]).

(** The 44 excitation terms of argon in the Magboltz data, by label, with
    thresholds that rise from 11.5 eV in steps of 0.1 eV. *)
Definition argonLevels : list (string * R) :=
  [("1S5    ", 11.5); ("1S4    ", 11.6); ("1S3    ", 11.7);
   ("1S2    ", 11.8); ("2P10   ", 11.9); ("2P9    ", 12.0);
   ("2P8    ", 12.1); ("2P7    ", 12.2); ("2P6    ", 12.3);
   ("2P5    ", 12.4); ("2P4    ", 12.5); ("2P3    ", 12.6);
   ("2P2    ", 12.7); ("2P1    ", 12.8); ("3D6    ", 12.9);
   ("3D5    ", 13.0); ("3D3    ", 13.1); ("3D4!   ", 13.2);
   ("3D4    ", 13.3); ("3D1!!  ", 13.4); ("2S5    ", 13.5);
   ("2S4    ", 13.6); ("3D1!   ", 13.7); ("3D2    ", 13.8);
   ("3S1!!!!", 13.9); ("3S1!!  ", 14.0); ("3S1!!! ", 14.1);
   ("2S3    ", 14.2); ("2S2    ", 14.3); ("3S1!   ", 14.4);
   ("4D5    ", 14.5); ("3S4    ", 14.6); ("4D2    ", 14.7);
   ("4S1!   ", 14.8); ("3S2    ", 14.9); ("5D5    ", 15.0);
   ("4S4    ", 15.1); ("5D2    ", 15.2); ("6D5    ", 15.3);
   ("5S1!   ", 15.4); ("4S2    ", 15.5); ("5S4    ", 15.6);
   ("6D2    ", 15.7); ("HIGH   ", 15.8)].

(** An argon session as the loop over the gases leaves it for these data:
    the elastic, the ionisation and the attachment term, then the 44
    excitation terms; de-excitation handling is switched on. *)
Definition argonSession : MediumMagboltz :=
  set_useDeexcitation true
    (set_rgas [1.0000135]
       (set_energyLoss ([0; 15.7; 0] ++ map snd argonLevels)%list
          (set_description
             ([otherDescription "ELASTIC"; otherDescription "IONISATION";
               otherDescription "ATTACHMENT"]
              ++ map (fun l => excitationDescription (fst l)) argonLevels)%list
             (set_csType ([0; 1; 2] ++ repeat 4 44)%nat%list
                (set_nTerms 47%nat (newSession ["Ar"] [1])))))).

(** The constants of [exampleEnvironment] with the uniform random numbers
    [uniform]; the Magboltz data play no role after the loop over the
    gases. *)
Definition argonEnvironment (uniform : nat -> R) : Environment :=
  exampleEnvironment (constantCrossSections []) uniform.

(** The de-excitation table of the argon session. *)
Definition argonTable : list Deexcitation :=
  m_deexcitations
    (ComputeDeexcitationTable (argonEnvironment (fun _ => 1 / 2))
       argonSession).

(** The cumulative branching ratio of channel [k] of entry [i]. *)
Definition branchingRatio (table : list Deexcitation) (i k : nat) : R :=
  match nth_error table i with
  | Some dxc => nth k (dxc_p dxc) 0
  | None => 0
  end.

(** Uniform random numbers that are, in turn, the cumulative branching
    ratio of channel 3 of entry 7 of the argon table and that of channel 4
    of entry 8. *)
Definition alternatingDraws (n : nat) : R :=
  if Nat.even n then branchingRatio argonTable 7 3
  else branchingRatio argonTable 8 4.

(** A table of two levels: the upper one decays to the lower one by
    emission of a photon, the lower one has no channels. *)
Definition twoLevelTable : list Deexcitation :=
  [{| dxc_gas := 0; dxc_level := 4; dxc_label := "upper";
      dxc_energy := 13; dxc_p := [1]; dxc_final := [1%Z];
      dxc_type := [DxcTypeRad]; dxc_osc := 0; dxc_rate := 1;
      dxc_sDoppler := 0; dxc_gPressure := 0; dxc_width := 1; dxc_cf := 0 |};
   {| dxc_gas := 0; dxc_level := 3; dxc_label := "lower";
      dxc_energy := 11.5; dxc_p := []; dxc_final := []; dxc_type := [];
      dxc_osc := 0; dxc_rate := 0; dxc_sDoppler := 0; dxc_gPressure := 0;
      dxc_width := 1; dxc_cf := 0 |}].

(** A session that holds this table. *)
Definition twoLevelSession : MediumMagboltz :=
  set_deexcitations twoLevelTable (newSession ["Ar"] [1]).

(** Cross-sections with 510 inelastic terms and no separate ionisation
    terms. *)
Definition fullCrossSections : GasmixOutput :=
  constantCrossSections (repeat (otherDescription "VIB"%string, 1) 510).

(** A table of two levels as ComputeDeexcitationTable and
    ComputePhotonCollisionTable leave them: the upper one, without
    oscillator strength and hence of width 0, decays to the resonant one by
    emission of a photon; the resonant one, with an oscillator strength and
    a positive width, decays to the ground state. *)
Definition resonanceTable : list Deexcitation :=
  [{| dxc_gas := 0; dxc_level := 4; dxc_label := "upper";
      dxc_energy := 13; dxc_p := [1]; dxc_final := [1%Z];
      dxc_type := [DxcTypeRad]; dxc_osc := 0; dxc_rate := 1;
      dxc_sDoppler := 0; dxc_gPressure := 0; dxc_width := 0; dxc_cf := 0 |};
   {| dxc_gas := 0; dxc_level := 3; dxc_label := "resonant";
      dxc_energy := 11.6; dxc_p := [1]; dxc_final := [(-1)%Z];
      dxc_type := [DxcTypeRad]; dxc_osc := 0.06; dxc_rate := 0.1;
      dxc_sDoppler := 1 / 1000; dxc_gPressure := 1 / 1000;
      dxc_width := 1; dxc_cf := 1 |}].

(** A session that holds this table. *)
Definition resonanceSession : MediumMagboltz :=
  set_deexcitations resonanceTable (newSession ["Ar"] [1]).

End Examples.


(** ** Tables without cycles *)

(** Every channel of the table that leads to a level leads to one of
    smaller rank: no decay path comes back to a level it has visited. *)
Definition acyclicTable (table : list Deexcitation) (rank : nat -> nat)
  : Prop :=
  forall (i : nat) (dxc : Deexcitation) (f : Z),
    nth_error table i = Some dxc -> In f (dxc_final dxc) -> (0 <= f)%Z ->
    (rank (Z.to_nat f) < rank i)%nat.

(** The sampling of a line offset ends where the cascade needs one:
    whenever a uniform random number of the session selects, for a level
    of the table that decays (positive rate, at least one channel), the
    radiative decay to the ground state, the loop of lines 3204-3207 finds
    an offset within [draws] draws, from every position [k] of the stream
    of Voigt-distributed numbers. *)
Definition lineOffsetsEnd (env : Environment) (draws : nat)
    (table : list Deexcitation) : Prop :=
  forall (dxc : Deexcitation) (n k : nat),
    In dxc table -> 0 < dxc_rate dxc -> (0 < length (dxc_p dxc))%nat ->
    snd (selectChannel dxc (RndmUniform env n)) = DxcTypeRad ->
    (fst (selectChannel dxc (RndmUniform env n)) < 0)%Z ->
    sampleLineOffset env draws k dxc <> None.

(** ** Consistency of the collision counters *)

Definition sumZ (l : list Z) : Z := fold_right Z.add 0%Z l.

(** The per-type counters and the per-level counters count the same
    collisions, as 32-bit numbers. *)
Definition countersConsistent (st : MediumMagboltz) : Prop :=
  (sumZ (m_nCollisions st) mod 2 ^ 32
   = sumZ (m_nCollisionsDetailed st) mod 2 ^ 32)%Z.


(** ** What the stages of Mixer leave untouched *)

(** The loop over the gases writes the level arrays and the raw
    frequencies; it does not touch the total rates, the null-collision rate,
    the collision counters, the flags or the gas mixture. *)
Definition keptByGasLoop (st st' : MediumMagboltz) : Prop :=
  m_cfTot st' = m_cfTot st /\
  m_cfTotLog st' = m_cfTotLog st /\
  m_cfNull st' = m_cfNull st /\
  m_nCollisions st' = m_nCollisions st /\
  m_nCollisionsDetailed st' = m_nCollisionsDetailed st /\
  m_isChanged st' = m_isChanged st /\
  m_useDeexcitation st' = m_useDeexcitation st /\
  m_gas st' = m_gas st /\
  m_nComponents st' = m_nComponents st /\
  m_eFinal st' = m_eFinal st /\
  m_eHigh st' = m_eHigh st /\
  m_iDeexcitation st' = m_iDeexcitation st /\
  m_deexcitations st' = m_deexcitations st.

(** The stages that follow the reset of the counters in [finishMixer] (the
    de-excitation table, the photon table, the Penning parameters and the
    Green-Sawada parameters) do not touch the level list or the collision
    counters. *)
Definition keptByLateStages (st st' : MediumMagboltz) : Prop :=
  m_nTerms st' = m_nTerms st /\
  m_csType st' = m_csType st /\
  m_description st' = m_description st /\
  m_energyLoss st' = m_energyLoss st /\
  m_gas st' = m_gas st /\
  m_nComponents st' = m_nComponents st /\
  m_nCollisions st' = m_nCollisions st /\
  m_nCollisionsDetailed st' = m_nCollisionsDetailed st /\
  m_cf st' = m_cf st /\
  m_cfLog st' = m_cfLog st /\
  m_cfTot st' = m_cfTot st /\
  m_cfTotLog st' = m_cfTotLog st /\
  m_cfNull st' = m_cfNull st /\
  m_isChanged st' = m_isChanged st.

(** The stages after the de-excitation table also leave the numbering of
    the de-excitation levels. *)
Definition keptAfterDeexcitation (st st' : MediumMagboltz) : Prop :=
  keptByLateStages st st' /\ m_iDeexcitation st' = m_iDeexcitation st.


(** The counters as the class keeps them: six per-type counters, one
    per-level counter for every term, and the same total in both. *)
Definition countersInvariant (st : MediumMagboltz) : Prop :=
  length (m_nCollisions st) = nCsTypes /\
  length (m_nCollisionsDetailed st) = m_nTerms st /\
  countersConsistent st.


(** ** The gas of a level *)



(** ** Products of a de-excitation cascade *)

(** The products are listed in the order of their times, none before
    [t0]. *)
Fixpoint chronological (t0 : R) (l : list dxcProd) : Prop :=
  match l with
  | [] => True
  | p :: rest => t0 <= prod_t p /\ chronological (prod_t p) rest
  end.

Definition isElectron (p : dxcProd) : bool :=
  match prod_type p with
  | DxcProdTypeElectron => true
  | DxcProdTypePhoton => false
  end.

Definition countElectrons (l : list dxcProd) : nat :=
  length (filter isElectron l).

(** What the loop of [ComputeDeexcitationInternal] keeps: the products
    are in the order of their times and none is later than the elapsed
    time, every product has an energy of at least [small] and no
    displacement, and the Penning counter has grown from [n0] by the
    number of electrons, as a 32-bit number. *)
Definition cascadeInvariant (small : R) (n0 : Z) (c : Cascade) : Prop :=
  0 <= cas_t c /\
  chronological 0 (cas_products c) /\
  Forall (fun p => prod_t p <= cas_t c) (cas_products c) /\
  Forall (fun p => small <= prod_energy p /\ prod_s p = 0) (cas_products c) /\
  (cas_nPenning c mod 2 ^ 32
   = (n0 + Z.of_nat (countElectrons (cas_products c))) mod 2 ^ 32)%Z.


(** ** The settings of a session *)

(** The data members that only the user's calls set: the gas mixture and
    its conditions, the energy ranges, the flags and the Penning parameters,
    with the counter of Penning transfers, the de-excitation products and
    the photon counters, which the queries write. *)
Record Configuration := {
  cfg_nComponents : nat;
  cfg_gas : list string;
  cfg_fraction : list R;
  cfg_temperature : R;
  cfg_pressure : R;
  cfg_isChanged : bool;
  cfg_usePenning : bool;
  cfg_rPenningGlobal : R;
  cfg_lambdaPenningGlobal : R;
  cfg_rPenningGas : list R;
  cfg_lambdaPenningGas : list R;
  cfg_eFinal : R;
  cfg_eStep : R;
  cfg_eHigh : R;
  cfg_eHighLog : R;
  cfg_useAutoAdjust : bool;
  cfg_useAnisotropic : bool;
  cfg_useRadTrap : bool;
  cfg_scaleExc : list R;
  cfg_useOpalBeaty : bool;
  cfg_useGreenSawada : bool;
  cfg_eFinalGamma : R;
  cfg_eStepGamma : R;
  cfg_nPenning : Z;
  cfg_dxcProducts : list dxcProd;
  cfg_nPhotonCollisions : list Z }.

Definition configuration (st : MediumMagboltz) : Configuration :=
  {| cfg_nComponents := m_nComponents st;
     cfg_gas := m_gas st;
     cfg_fraction := m_fraction st;
     cfg_temperature := m_temperature st;
     cfg_pressure := m_pressure st;
     cfg_isChanged := m_isChanged st;
     cfg_usePenning := m_usePenning st;
     cfg_rPenningGlobal := m_rPenningGlobal st;
     cfg_lambdaPenningGlobal := m_lambdaPenningGlobal st;
     cfg_rPenningGas := m_rPenningGas st;
     cfg_lambdaPenningGas := m_lambdaPenningGas st;
     cfg_eFinal := m_eFinal st;
     cfg_eStep := m_eStep st;
     cfg_eHigh := m_eHigh st;
     cfg_eHighLog := m_eHighLog st;
     cfg_useAutoAdjust := m_useAutoAdjust st;
     cfg_useAnisotropic := m_useAnisotropic st;
     cfg_useRadTrap := m_useRadTrap st;
     cfg_scaleExc := m_scaleExc st;
     cfg_useOpalBeaty := m_useOpalBeaty st;
     cfg_useGreenSawada := m_useGreenSawada st;
     cfg_eFinalGamma := m_eFinalGamma st;
     cfg_eStepGamma := m_eStepGamma st;
     cfg_nPenning := m_nPenning st;
     cfg_dxcProducts := m_dxcProducts st;
     cfg_nPhotonCollisions := m_nPhotonCollisions st |}.

(** The Penning parameters of the levels. *)
Definition penningLevels (st : MediumMagboltz) : list R * list R :=
  (m_rPenning st, m_lambdaPenning st).

(** The ionisation thresholds and the level data that the stages after
    the loop over the gases read. *)
Definition ionisationData (st : MediumMagboltz)
  : R * list R * list R * list nat * nat :=
  (m_minIonPot st, m_ionPot st, m_rgas st, m_csType st, m_nTerms st).

(** One pass of the loop of lines 1920-1928 over the levels. *)
Definition resetPenningLevel (small : R) (st : MediumMagboltz) (i : nat)
  : MediumMagboltz :=
  let st := set_rPenning (upd (m_rPenning st) i (m_rPenningGlobal st)) st in
  let iGas := (nth i (m_csType st) 0%nat / nCsTypes)%nat in
  if Rlt_dec small (nth iGas (m_rPenningGas st) 0) then
    set_lambdaPenning
      (upd (m_lambdaPenning st) i (nth iGas (m_lambdaPenningGas st) 0))
      (set_rPenning (upd (m_rPenning st) i (nth iGas (m_rPenningGas st) 0)) st)
  else st.

(** The transfer probability that the loop gives to a level of gas
    [iGas]: that of the gas where it exceeds [small], the global one
    otherwise. *)
Definition penningProbability (small : R) (st : MediumMagboltz) (iGas : nat)
  : R :=
  if Rlt_dec small (nth iGas (m_rPenningGas st) 0)
  then nth iGas (m_rPenningGas st) 0 else m_rPenningGlobal st.


(** ** Settings and queries of the class (lines 110-394, 396-410, 829-977
    and 1007-1118) *)

Definition set_useAutoAdjust :=
  ltac:(mkSetter etaMediumMagboltz m_useAutoAdjust).
Definition set_useAnisotropic :=
  ltac:(mkSetter etaMediumMagboltz m_useAnisotropic).
Definition set_useRadTrap := ltac:(mkSetter etaMediumMagboltz m_useRadTrap).
Definition set_useOpalBeaty := ltac:(mkSetter etaMediumMagboltz m_useOpalBeaty).
Definition set_useGreenSawada :=
  ltac:(mkSetter etaMediumMagboltz m_useGreenSawada).
Definition set_rPenningGlobal :=
  ltac:(mkSetter etaMediumMagboltz m_rPenningGlobal).
Definition set_lambdaPenningGlobal :=
  ltac:(mkSetter etaMediumMagboltz m_lambdaPenningGlobal).
Definition set_rPenningGas := ltac:(mkSetter etaMediumMagboltz m_rPenningGas).
Definition set_lambdaPenningGas :=
  ltac:(mkSetter etaMediumMagboltz m_lambdaPenningGas).
Definition set_scaleExc := ltac:(mkSetter etaMediumMagboltz m_scaleExc).
Definition set_eFinalGamma := ltac:(mkSetter etaMediumMagboltz m_eFinalGamma).
Definition set_eStepGamma := ltac:(mkSetter etaMediumMagboltz m_eStepGamma).

Section Settings.

Variable env : Environment.

(** [MediumGas::GetGasName(input, gasname)] of the base class, whose
    source is not part of the files at hand: the standard name of a gas,
    if the input names one. *)
Variable GetGasName : string -> option string.

(** [TMath::Voigt(x, sigma, lg)] of ROOT. *)
Variable Voigt : R -> R -> R -> R.

(** [SetMaxPhotonEnergy], lines 110-126. *)
Definition SetMaxPhotonEnergy (st : MediumMagboltz) (e : R)
  : bool * MediumMagboltz :=
  if Rle_dec e (Small env) then (false, st)
  else
    let st := set_eFinalGamma e st in
    let st :=
      set_eStepGamma (m_eFinalGamma st / INR nEnergyStepsGamma) st in
    (true, set_isChanged true st).

(** Lines 128-157; the loop of [SetSplittingFunctionGreenSawada] only
    prints. *)
Definition SetSplittingFunctionOpalBeaty (st : MediumMagboltz)
  : MediumMagboltz :=
  set_useGreenSawada false (set_useOpalBeaty true st).

Definition SetSplittingFunctionGreenSawada (st : MediumMagboltz)
  : MediumMagboltz :=
  set_useGreenSawada true (set_useOpalBeaty false st).

Definition SetSplittingFunctionFlat (st : MediumMagboltz) : MediumMagboltz :=
  set_useGreenSawada false (set_useOpalBeaty false st).

(** Lines 159-186 and the inline members of the header. *)
Definition EnableDeexcitation (st : MediumMagboltz) : MediumMagboltz :=
  set_dxcProducts []
    (set_isChanged true (set_useDeexcitation true (set_usePenning false st))).

Definition DisableDeexcitation (st : MediumMagboltz) : MediumMagboltz :=
  set_useDeexcitation false st.

Definition EnableRadiationTrapping (st : MediumMagboltz) : MediumMagboltz :=
  let st := set_useRadTrap true st in
  if negb (m_useDeexcitation st) then st else set_isChanged true st.

Definition DisableRadiationTrapping (st : MediumMagboltz) : MediumMagboltz :=
  set_useRadTrap false st.

(** [if (lambda < Small) ... = 0.; else ... = lambda;] *)
Definition transferDistance (lambda : R) : R :=
  if Rlt_dec lambda (Small env) then 0 else lambda.

(** [r < 0. || r > 1.] *)
Definition outsideUnitInterval (r : R) : bool := Rltb r 0 || Rltb 1 r.

(** [EnablePenningTransfer(r, lambda)], lines 188-219. *)
Definition EnablePenningTransfer (st : MediumMagboltz) (r lambda : R)
  : MediumMagboltz :=
  if outsideUnitInterval r then st
  else
    let st := set_rPenningGlobal r st in
    let st := set_lambdaPenningGlobal (transferDistance lambda) st in
    let st :=
      fold_left
        (fun (st : MediumMagboltz) (i : nat) =>
           set_lambdaPenning
             (upd (m_lambdaPenning st) i (m_lambdaPenningGlobal st))
             (set_rPenning (upd (m_rPenning st) i (m_rPenningGlobal st)) st))
        (seq 0 (m_nTerms st)) st in
    set_usePenning true st.

(** The loops of lines 239-252, 323-332 and 377-384: the first component
    of the mixture with the given name. *)
Fixpoint firstComponentFrom (gases : list string) (name : string) (i n : nat)
  : option nat :=
  match n with
  | O => None
  | S n' =>
      if (nth i gases "" =? name)%string then Some i
      else firstComponentFrom gases name (S i) n'
  end.

Definition firstComponent (st : MediumMagboltz) (name : string)
  : option nat :=
  firstComponentFrom (m_gas st) name 0 (m_nComponents st).

(** [EnablePenningTransfer(r, lambda, gasname)], lines 221-293. *)
Definition EnablePenningTransferGas (st : MediumMagboltz) (r lambda : R)
    (gasname : string) : MediumMagboltz :=
  if outsideUnitInterval r then st
  else
    match GetGasName gasname with
    | None => st
    | Some gasname =>
        match firstComponent st gasname with
        | None => st
        | Some iGas =>
            let st := set_rPenningGas (upd (m_rPenningGas st) iGas r) st in
            let st :=
              set_lambdaPenningGas
                (upd (m_lambdaPenningGas st) iGas (transferDistance lambda))
                st in
            match updateTable env st with
            | (false, st) => st
            | (true, st) =>
                let st :=
                  fold_left
                    (fun (st : MediumMagboltz) (i : nat) =>
                       if negb (nth i (m_csType st) 0 / nCsTypes =? iGas)%nat
                       then st
                       else
                         set_lambdaPenning
                           (upd (m_lambdaPenning st) i
                              (nth iGas (m_lambdaPenningGas st) 0))
                           (set_rPenning
                              (upd (m_rPenning st) i
                                 (nth iGas (m_rPenningGas st) 0)) st))
                    (seq 0 (m_nTerms st)) st in
                set_usePenning true st
            end
        end
    end.

(** [std::array::fill]. *)
Definition fill {A : Type} (l : list A) (x : A) : list A :=
  repeat x (length l).

(** [DisablePenningTransfer()], lines 295-307. *)
Definition DisablePenningTransfer (st : MediumMagboltz) : MediumMagboltz :=
  let st := set_rPenning (fill (m_rPenning st) 0) st in
  let st := set_lambdaPenning (fill (m_lambdaPenning st) 0) st in
  let st := set_rPenningGlobal 0 st in
  let st := set_lambdaPenningGlobal 0 st in
  let st := set_rPenningGas (fill (m_rPenningGas st) 0) st in
  let st := set_lambdaPenningGas (fill (m_lambdaPenningGas st) 0) st in
  set_usePenning false st.

(** [DisablePenningTransfer(gasname)], lines 309-357: the loop over the
    levels carries [nLevelsFound]. *)
Definition DisablePenningTransferGas (st : MediumMagboltz) (gasname : string)
  : MediumMagboltz :=
  match GetGasName gasname with
  | None => st
  | Some gasname =>
      match firstComponent st gasname with
      | None => st
      | Some iGas =>
          let st := set_rPenningGas (upd (m_rPenningGas st) iGas 0) st in
          let st :=
            set_lambdaPenningGas (upd (m_lambdaPenningGas st) iGas 0) st in
          let '(st, nLevelsFound) :=
            fold_left
              (fun (acc : MediumMagboltz * nat) (i : nat) =>
                 let '(st, nLevelsFound) := acc in
                 if (nth i (m_csType st) 0 / nCsTypes =? iGas)%nat then
                   (set_lambdaPenning (upd (m_lambdaPenning st) i 0)
                      (set_rPenning (upd (m_rPenning st) i 0) st),
                    nLevelsFound)
                 else if (nth i (m_csType st) 0 mod nCsTypes
                          =? ElectronCollisionTypeExcitation)%nat
                         && Rltb (Small env) (nth i (m_rPenning st) 0)
                 then (st, S nLevelsFound)
                 else (st, nLevelsFound))
              (seq 0 (m_nTerms st)) (st, 0%nat) in
          if (nLevelsFound =? 0)%nat then set_usePenning false st else st
      end
  end.

(** [SetExcitationScalingFactor], lines 359-394. *)
Definition SetExcitationScalingFactor (st : MediumMagboltz) (r : R)
    (gasname : string) : MediumMagboltz :=
  if Rle_dec r 0 then st
  else
    match GetGasName gasname with
    | None => st
    | Some gasname =>
        match firstComponent st gasname with
        | None => st
        | Some i =>
            set_isChanged true (set_scaleExc (upd (m_scaleExc st) i r) st)
        end
    end.

(** [Initialise], lines 396-410. *)
Definition Initialise (st : MediumMagboltz) : bool * MediumMagboltz :=
  if negb (m_isChanged st) then (true, st)
  else
    match Mixer env st with
    | (false, st) => (false, st)
    | (true, st) => (true, set_isChanged false st)
    end.



(** [GetNumberOfDeexcitationProducts] and [GetDeexcitationProduct],
    lines 829-840. *)
Definition GetNumberOfDeexcitationProducts (st : MediumMagboltz) : nat :=
  length (m_dxcProducts st).

Definition GetDeexcitationProduct (st : MediumMagboltz) (i : nat)
  : option dxcProd :=
  if (length (m_dxcProducts st) <=? i)%nat
     || negb (m_useDeexcitation st || m_usePenning st)
  then None
  else nth_error (m_dxcProducts st) i.

(** [GetNumberOfPenningTransfers]. *)
Definition GetNumberOfPenningTransfers (st : MediumMagboltz) : Z :=
  m_nPenning st.

(** [ComputeDeexcitation(iLevel, fLevel)], lines 3127-3159: the session,
    the random numbers and the value of [fLevel] afterwards; [None] when
    the cascade does not end within the bounds. *)
Definition ComputeDeexcitation (steps draws : nat) (st : MediumMagboltz)
    (rc : RandomCursor) (iLevel fLevel : Z)
  : option (MediumMagboltz * RandomCursor * Z) :=
  if negb (m_useDeexcitation st) then Some (st, rc, fLevel)
  else
    match updateTable env st with
    | (false, st) => Some (st, rc, fLevel)
    | (true, st) =>
        if ((iLevel <? 0) || (Z.of_nat (m_nTerms st) <=? iLevel))%Z
        then Some (st, rc, fLevel)
        else
          let iLevel := nth (Z.to_nat iLevel) (m_iDeexcitation st) 0%Z in
          if ((iLevel <? 0)
              || (Z.of_nat (length (m_deexcitations st)) <=? iLevel))%Z
          then Some (st, rc, fLevel)
          else
            match ComputeDeexcitationInternal env steps draws st rc iLevel with
            | None => None
            | Some (st, rc, fLevel) =>
                if ((0 <=? fLevel)
                    && (fLevel <? Z.of_nat (length (m_deexcitations st))))%Z
                then
                  Some (st, rc,
                        match nth_error (m_deexcitations st)
                                (Z.to_nat fLevel) with
                        | Some dxc => dxc_level dxc
                        | None => fLevel
                        end)
                else Some (st, rc, fLevel)
            end
    end.

(** *** Photon collisions *)

Definition PhotonCollisionTypeExcitation : nat := 3.

(** [GetNumberOfPhotonCollisions()], lines 1105-1109. *)
Definition GetNumberOfPhotonCollisions (st : MediumMagboltz) : Z :=
  fold_left add32 (m_nPhotonCollisions st) 0%Z.

(** The overload of lines 1111-1118: the return value and [(nElastic,
    nIonising, nInelastic)]. *)
Definition GetNumberOfPhotonCollisionsByType (st : MediumMagboltz)
  : Z * (Z * Z * Z) :=
  let nElastic := nth 0 (m_nPhotonCollisions st) 0%Z in
  let nIonising := nth 1 (m_nPhotonCollisions st) 0%Z in
  let nInelastic := nth 2 (m_nPhotonCollisions st) 0%Z in
  (add32 (add32 nElastic nIonising) nInelastic,
   (nElastic, nIonising, nInelastic)).

(** [e > m_eFinalGamma && m_useAutoAdjust] *)
Definition exceedsPhotonRange (st : MediumMagboltz) (e : R) : bool :=
  Rltb (m_eFinalGamma st) e && m_useAutoAdjust st.

Definition photonBin (st : MediumMagboltz) (e : R) : nat :=
  clampIndex (truncate (e / m_eStepGamma st)) nEnergyStepsGamma.

(** [dxc.cf > 0. && fabs(e - dxc.energy) <= dxc.width] *)
Definition absorbsAt (e : R) (dxc : Deexcitation) : bool :=
  Rltb 0 (dxc_cf dxc)
  && negb (Rltb (dxc_width dxc) (Rabs (e - dxc_energy dxc))).

(** The rate of a discrete line at the energy [e]. *)
Definition lineRate (e : R) (dxc : Deexcitation) : R :=
  dxc_cf dxc * Voigt (e - dxc_energy dxc) (dxc_sDoppler dxc)
                 (2 * dxc_gPressure dxc).

(** [m_useDeexcitation && m_useRadTrap && !m_deexcitations.empty()] *)
Definition hasDiscreteLines (st : MediumMagboltz) : bool :=
  m_useDeexcitation st && m_useRadTrap st
  && negb (length (m_deexcitations st) =? 0)%nat.

(** [GetPhotonCollisionRate], lines 842-880. *)
Definition GetPhotonCollisionRate (st : MediumMagboltz) (e : R)
  : R * MediumMagboltz :=
  if Rle_dec e 0 then (nth 0 (m_cfTotGamma st) 0, st)
  else
    let st :=
      if exceedsPhotonRange st e
      then snd (SetMaxPhotonEnergy st (1.05 * e)) else st in
    match updateTable env st with
    | (false, st) => (0, st)
    | (true, st) =>
        let cfSum := nth (photonBin st e) (m_cfTotGamma st) 0 in
        if hasDiscreteLines st then
          (fold_left
             (fun (cfSum : R) (dxc : Deexcitation) =>
                if absorbsAt e dxc then cfSum + lineRate e dxc else cfSum)
             (m_deexcitations st) cfSum, st)
        else (cfSum, st)
    end.

(** What a successful call of [GetPhotonCollision] hands back. *)
Record PhotonCollision := {
  pcol_type : nat;
  pcol_level : option nat;
  pcol_e1 : option R;
  pcol_ctheta : option R;
  pcol_nsec : nat;
  pcol_esec : option R }.

(** Lines 915-924: the lines that absorb at [e], with the running sum
    [pLine] of the rates and the index [iLine]. *)
Fixpoint collectLines (e : R) (i : nat) (table : list Deexcitation) (r : R)
  : R * list (R * nat) :=
  match table with
  | [] => (r, [])
  | dxc :: rest =>
      if absorbsAt e dxc then
        let r := r + lineRate e dxc in
        let '(r', lines) := collectLines e (S i) rest r in
        (r', (r, i) :: lines)
      else collectLines e (S i) rest r
  end.

(** Lines 929-937: the first line with [r <= pLine[i]]. *)
Fixpoint selectLine (lines : list (R * nat)) (r : R) : option nat :=
  match lines with
  | [] => None
  | (p, i) :: rest => if Rle_dec r p then Some i else selectLine rest r
  end.

(** Lines 948-956: the term of the continuum for the value [r]. *)
Definition photonLevel (row : list R) (nTerms : nat) (r : R) : nat :=
  if Rle_dec r (nth 0 row 0) then 0%nat
  else if Rge_dec r (nth (nTerms - 1) row 0) then (nTerms - 1)%nat
  else lower_bound row nTerms r.

Definition countPhotonCollision (type : nat) (st : MediumMagboltz)
  : MediumMagboltz :=
  set_nPhotonCollisions
    (upd (m_nPhotonCollisions st) type
       (increment32 (nth type (m_nPhotonCollisions st) 0%Z))) st.

(** [GetPhotonCollision], lines 882-977.  The result is [None] when the
    cascade of an absorbing line does not end within the bounds; otherwise
    the value handed back ([None] for [false]), the session and the random
    numbers.  The reference arguments that a branch does not assign are
    [None] in the record. *)
Definition GetPhotonCollision (steps draws : nat) (st : MediumMagboltz)
    (rc : RandomCursor) (e : R)
  : option (option PhotonCollision * MediumMagboltz * RandomCursor) :=
  if negb (exceedsPhotonRange st e) && (if Rle_dec e 0 then true else false)
  then Some (None, st, rc)
  else
    let st :=
      if exceedsPhotonRange st e
      then snd (SetMaxPhotonEnergy st (1.05 * e)) else st in
    match updateTable env st with
    | (false, st) => Some (None, st, rc)
    | (true, st) =>
        let iE := photonBin st e in
        let total := nth iE (m_cfTotGamma st) 0 in
        let continuum (r : R) (rc : RandomCursor) :=
          let level :=
            photonLevel (nth iE (m_cfGamma st) []) (m_nPhotonTerms st) r in
          let type := (nth level (csTypeGamma st) 0 mod nCsTypesGamma)%nat in
          let ngas := (nth level (csTypeGamma st) 0 / nCsTypesGamma)%nat in
          let st := countPhotonCollision type st in
          let '(nsec, esec) :=
            if (type =? 1)%nat then
              let esec := e - nth ngas (m_ionPot st) 0 in
              (1%nat, if Rlt_dec esec (Small env) then Small env else esec)
            else (0%nat, 0) in
          let '(u, rc) := drawUniform env rc in
          Some (Some {| pcol_type := type; pcol_level := Some level;
                        pcol_e1 := Some 0; pcol_ctheta := Some (2 * u - 1);
                        pcol_nsec := nsec; pcol_esec := Some esec |},
                st, rc) in
        if hasDiscreteLines st then
          let '(r, lines) := collectLines e 0 (m_deexcitations st) total in
          let '(u, rc) := drawUniform env rc in
          let r := r * u in
          if negb (length lines =? 0)%nat && negb (Rltb r total) then
            match selectLine lines r with
            | Some i =>
                let st :=
                  countPhotonCollision PhotonCollisionTypeExcitation st in
                match ComputeDeexcitationInternal env steps draws st rc
                        (Z.of_nat i) with
                | None => None
                | Some (st, rc, _) =>
                    Some (Some {| pcol_type := PhotonCollisionTypeExcitation;
                                  pcol_level := None; pcol_e1 := None;
                                  pcol_ctheta := None;
                                  pcol_nsec := length (m_dxcProducts st);
                                  pcol_esec := None |},
                          st, rc)
                end
            | None => Some (None, st, rc)
            end
          else continuum r rc
        else
          let '(u, rc) := drawUniform env rc in
          continuum (total * u) rc
    end.

End Settings.

(** The transfer probabilities of the session are probabilities. *)
Definition probabilitiesValid (st : MediumMagboltz) : Prop :=
  0 <= m_rPenningGlobal st <= 1 /\
  Forall (fun r => 0 <= r <= 1) (m_rPenningGas st) /\
  Forall (fun r => 0 <= r <= 1) (m_rPenning st).


(** A session with an up-to-date photon table of two terms for argon, the
    photo-ionisation and the inelastic term, with the cumulative rates 1
    and 2 in every bin. *)
Definition photonSession : MediumMagboltz :=
  set_isChanged false
    (set_ionPot [15.7]
       (set_csTypeGamma [1%nat; 2%nat]
          (set_cfGamma (repeat [1; 2] nEnergyStepsGamma)
             (set_cfTotGamma (repeat 2 nEnergyStepsGamma)
                (set_nPhotonTerms 2%nat (newSession ["Ar"%string] [1])))))).


(** The entries [gb], [ts] and [ta] of a row of Green-Sawada parameters
    vanish. *)
Definition fitParametersVanish (row : list R) : Prop :=
  nth 1 row 0 = 0 /\ nth 2 row 0 = 0 /\ nth 3 row 0 = 0.





(* ================================================================== *)
(** * Part II: properties *)

(** ** Properties of the normalisation loops *)

Lemma clampNegative_nonneg x : 0 <= clampNegative x.
Proof. unfold clampNegative. destruct (Rlt_dec x 0); lra. Qed.

Lemma accumulateRates_fst n : forall row tot,
  fst (accumulateRates n row tot)
  = map clampNegative (firstn n row) ++ skipn n row.
Proof.
  induction n as [|n IH]; intros [|x xs] tot; simpl; try reflexivity.
  specialize (IH xs (tot + clampNegative x)).
  destruct (accumulateRates n xs (tot + clampNegative x)) as [xs' tot'].
  simpl in *. now rewrite IH.
Qed.

Lemma accumulateRates_snd n : forall row tot,
  snd (accumulateRates n row tot)
  = tot + sumR (map clampNegative (firstn n row)).
Proof.
  induction n as [|n IH]; intros [|x xs] tot; simpl; try lra.
  specialize (IH xs (tot + clampNegative x)).
  destruct (accumulateRates n xs (tot + clampNegative x)) as [xs' tot'].
  simpl in *. rewrite IH. lra.
Qed.

Lemma divideRates_eq n : forall row tot,
  divideRates n row tot = map (fun x => x / tot) (firstn n row) ++ skipn n row.
Proof.
  induction n as [|n IH]; intros [|x xs] tot; simpl; try reflexivity.
  now rewrite IH.
Qed.

Lemma nth_cumulateFrom n : forall prev row k,
  (k < n)%nat -> (k < length row)%nat ->
  nth k (cumulateFrom n prev row) 0 = prev + sumR (firstn (S k) row).
Proof.
  induction n as [|n IH]; intros prev [|x xs] k Hk Hl; simpl in *; try lia.
  destruct k as [|k].
  - destruct xs; simpl; lra.
  - rewrite IH by lia. simpl. lra.
Qed.

Lemma nth_cumulateRates n row k :
  (k < n)%nat -> (k < length row)%nat ->
  nth k (cumulateRates n row) 0 = sumR (firstn (S k) row).
Proof.
  destruct n as [|n]; [lia|]. destruct row as [|x xs]; simpl; [lia|].
  intros Hk Hl. destruct k as [|k].
  - destruct xs; simpl; lra.
  - rewrite nth_cumulateFrom by lia. simpl. lra.
Qed.

Lemma sumR_app l1 l2 : sumR (l1 ++ l2) = sumR l1 + sumR l2.
Proof. induction l1 as [|x l1 IH]; simpl; [lra | rewrite IH; lra]. Qed.


Lemma sumR_map_div l t : sumR (map (fun x => x / t) l) = sumR l / t.
Proof.
  induction l as [|x l IH]; simpl; [unfold Rdiv; lra|].
  rewrite IH. unfold Rdiv. lra.
Qed.

Lemma sumR_firstn_nonneg l : forall j,
  Forall (fun x => 0 <= x) l -> 0 <= sumR (firstn j l).
Proof.
  induction l as [|x l IH]; intros [|j] Hl; simpl; try lra.
  inversion Hl; subst. specialize (IH j H2). lra.
Qed.

Lemma sumR_firstn_mono l : forall i j,
  Forall (fun x => 0 <= x) l -> (i <= j)%nat ->
  sumR (firstn i l) <= sumR (firstn j l).
Proof.
  induction l as [|x l IH]; intros i j Hl Hij.
  - rewrite !firstn_nil. lra.
  - inversion Hl; subst. destruct i as [|i].
    + apply (sumR_firstn_nonneg (x :: l) j Hl).
    + destruct j as [|j]; [lia|]. simpl.
      assert (sumR (firstn i l) <= sumR (firstn j l))
        by (apply IH; [assumption|lia]).
      lra.
Qed.

Lemma Forall_clamp l : Forall (fun x => 0 <= x) (map clampNegative l).
Proof.
  apply Forall_map, Forall_forall. intros x _. apply clampNegative_nonneg.
Qed.

Lemma normalisedPrefix_nonneg n row tot0 :
  Forall (fun x => 0 <= x) (normalisedPrefix n row tot0).
Proof.
  unfold normalisedPrefix.
  destruct (Rlt_dec 0 _) as [Hpos|_]; [|apply Forall_clamp].
  apply Forall_map. eapply Forall_impl; [|apply Forall_clamp].
  intros x Hx. simpl. apply Rmult_le_pos; [lra|].
  left. now apply Rinv_0_lt_compat.
Qed.

Lemma normalisedPrefix_length n row tot0 :
  (n <= length row)%nat -> length (normalisedPrefix n row tot0) = n.
Proof.
  intros Hn. unfold normalisedPrefix.
  destruct (Rlt_dec 0 _); rewrite ?length_map, length_firstn; lia.
Qed.

Lemma normaliseRow_fst n row tot0 k :
  (k < n)%nat -> (n <= length row)%nat ->
  nth k (fst (normaliseRow n row tot0)) 0
  = sumR (firstn (S k) (normalisedPrefix n row tot0)).
Proof.
  intros Hk Hn. unfold normaliseRow.
  pose proof (accumulateRates_fst n row tot0) as Hf.
  pose proof (accumulateRates_snd n row tot0) as Hs.
  destruct (accumulateRates n row tot0) as [row1 tot]. simpl in Hf, Hs.
  cbn [fst].
  set (c := map clampNegative (firstn n row)) in *.
  assert (Hc : length c = n)
    by (unfold c; rewrite length_map, length_firstn; lia).
  assert (Hf1 : firstn n row1 = c).
  { subst row1. rewrite firstn_app, Hc, Nat.sub_diag, firstn_O, app_nil_r.
    apply firstn_all2. lia. }
  assert (Hl1 : length row1 = length row).
  { subst row1. rewrite length_app, Hc, length_skipn. lia. }
  unfold normalisedPrefix. fold c. rewrite <- Hs.
  destruct (Rlt_dec 0 tot).
  - rewrite divideRates_eq, Hf1. rewrite nth_cumulateRates.
    + rewrite firstn_app, length_map, Hc.
      replace (S k - n)%nat with O by lia. now rewrite firstn_O, app_nil_r.
    + assumption.
    + rewrite length_app, length_map, Hc. lia.
  - rewrite nth_cumulateRates by lia.
    subst row1. rewrite firstn_app, Hc.
    replace (S k - n)%nat with O by lia. now rewrite firstn_O, app_nil_r.
Qed.

Lemma normaliseRow_snd n row tot0 :
  snd (normaliseRow n row tot0)
  = tot0 + sumR (map clampNegative (firstn n row)).
Proof.
  unfold normaliseRow.
  pose proof (accumulateRates_snd n row tot0) as Hs.
  destruct (accumulateRates n row tot0) as [row1 tot]. exact Hs.
Qed.

Lemma normaliseRow_monotone n row tot0 i j :
  (i <= j)%nat -> (j < n)%nat -> (n <= length row)%nat ->
  nth i (fst (normaliseRow n row tot0)) 0
  <= nth j (fst (normaliseRow n row tot0)) 0.
Proof.
  intros Hij Hj Hn. rewrite !normaliseRow_fst by lia.
  apply sumR_firstn_mono; [apply normalisedPrefix_nonneg | lia].
Qed.

Lemma normaliseRow_last n row :
  (0 < n)%nat -> (n <= length row)%nat ->
  0 < snd (normaliseRow n row 0) ->
  nth (n - 1) (fst (normaliseRow n row 0)) 0 = 1.
Proof.
  intros Hn Hlen Hpos. rewrite normaliseRow_fst by lia.
  rewrite normaliseRow_snd in Hpos.
  replace (S (n - 1)) with n by lia.
  rewrite firstn_all2 by (rewrite normalisedPrefix_length; lia).
  unfold normalisedPrefix. destruct (Rlt_dec 0 _) as [_|Hn0]; [|lra].
  rewrite sumR_map_div. field. lra.
Qed.


Lemma normaliseRow_distribution n row :
  (0 < n)%nat -> (n <= length row)%nat ->
  0 < snd (normaliseRow n row 0) ->
  cumulativeDistribution n (fst (normaliseRow n row 0)).
Proof.
  intros Hn Hlen Hpos. split.
  - intros i j Hij Hj. now apply normaliseRow_monotone.
  - now apply normaliseRow_last.
Qed.




Lemma mixBinLin_eq me n eStep iE row t :
  mixBinLin me n eStep iE row t
  = (fst (normaliseRow n row t),
     scaleTotalLin me eStep iE (snd (normaliseRow n row t))).
Proof. unfold mixBinLin. now destruct (normaliseRow n row t). Qed.

Lemma mixBinLog_eq me n eHigh rLog iE row t :
  mixBinLog me n eHigh rLog iE row t
  = (fst (normaliseRow n row t),
     ln (scaleTotalLog me eHigh rLog iE (snd (normaliseRow n row t)))).
Proof. unfold mixBinLog. now destruct (normaliseRow n row t). Qed.




Lemma clampNegative_pos x : 0 <= x -> clampNegative x = x.
Proof. intros Hx. unfold clampNegative. destruct (Rlt_dec x 0); lra. Qed.

(** ** Choice of the level *)

Lemma lowerBoundLoop_spec row r : forall first len,
  (forall i j, (first <= i)%nat -> (i <= j)%nat -> (j < first + len)%nat ->
               nth i row 0 <= nth j row 0) ->
  (first <= lowerBoundLoop row r first len <= first + len)%nat /\
  (forall j, (first <= j)%nat -> (j < lowerBoundLoop row r first len)%nat ->
             nth j row 0 < r) /\
  (forall j, (lowerBoundLoop row r first len <= j)%nat ->
             (j < first + len)%nat -> r <= nth j row 0).
Proof.
  intros first len.
  apply (lowerBoundLoop_elim
    (fun row r first len k =>
       (forall i j, (first <= i)%nat -> (i <= j)%nat ->
                    (j < first + len)%nat -> nth i row 0 <= nth j row 0) ->
       (first <= k <= first + len)%nat /\
       (forall j, (first <= j)%nat -> (j < k)%nat -> nth j row 0 < r) /\
       (forall j, (k <= j)%nat -> (j < first + len)%nat -> r <= nth j row 0))).
  - intros row0 r0 first0 _. repeat split; intros; lia.
  - intros row0 r0 first0 l Hlt IH _ Hs.
    pose proof (Nat.lt_div2 (S l) ltac:(lia)) as Hhalf.
    set (h := Nat.div2 (S l)) in *. clearbody h.
    destruct IH as (Hk & Hbelow & Habove).
    { intros i j Hi Hij Hj. apply Hs; lia. }
    repeat split; try lia.
    + intros j Hj1 Hj2.
      destruct (Nat.lt_ge_cases j (first0 + h + 1)) as [Hc|Hc].
      * apply Rle_lt_trans with (nth (first0 + h) row0 0);
          [apply Hs; lia | exact Hlt].
      * apply Hbelow; lia.
    + intros j Hj1 Hj2. apply Habove; lia.
  - intros row0 r0 first0 l Hge IH _ Hs.
    pose proof (Nat.lt_div2 (S l) ltac:(lia)) as Hhalf.
    set (h := Nat.div2 (S l)) in *. clearbody h.
    destruct IH as (Hk & Hbelow & Habove).
    { intros i j Hi Hij Hj. apply Hs; lia. }
    repeat split; try lia.
    + intros j Hj1 Hj2. apply Hbelow; lia.
    + intros j Hj1 Hj2.
      destruct (Nat.lt_ge_cases j (first0 + h)) as [Hc|Hc].
      * apply Habove; lia.
      * apply Rle_trans with (nth (first0 + h) row0 0);
          [lra | apply Hs; lia].
Qed.

Lemma lower_bound_first row n r :
  nondecreasing n row -> (0 < n)%nat -> r < nth (n - 1) row 0 ->
  firstLevelAtLeast row n r (lower_bound row n r).
Proof.
  intros Hs Hn Hlast. unfold lower_bound.
  destruct (lowerBoundLoop_spec row r 0 n) as (Hk & Hbelow & Habove).
  { intros i j _ Hij Hj. apply Hs; lia. }
  assert (Hlt : (lowerBoundLoop row r 0 n < n)%nat).
  { destruct (Nat.lt_ge_cases (lowerBoundLoop row r 0 n) n) as [H|H];
      [exact H|].
    specialize (Hbelow (n - 1)%nat ltac:(lia) ltac:(lia)). lra. }
  repeat split.
  - exact Hlt.
  - apply Habove; lia.
  - intros j Hj. apply Hbelow; lia.
Qed.

(** The level that [sampleLevel] hands back for a draw [r] on a vector
    that does not decrease over the levels 0 .. nTerms-1: 0 if [r] is at
    most the first entry; otherwise nTerms-1 if [r] is at or above the last
    entry; otherwise the result of the binary search.  Whenever [r] is at
    most the first entry or below the last one, this is the first index
    whose entry is at least [r]. *)
Lemma sampleLevel_spec :
  forall (row : list R) (nTerms : nat) (r : R),
    (0 < nTerms)%nat ->
    nondecreasing nTerms row ->
    (r <= nth 0 row 0 -> sampleLevel row nTerms r = 0%nat) /\
    (nth 0 row 0 < r -> nth (nTerms - 1) row 0 <= r ->
     sampleLevel row nTerms r = (nTerms - 1)%nat) /\
    (nth 0 row 0 < r -> r < nth (nTerms - 1) row 0 ->
     sampleLevel row nTerms r = lower_bound row nTerms r) /\
    (r <= nth 0 row 0 \/ r < nth (nTerms - 1) row 0 ->
     firstLevelAtLeast row nTerms r (sampleLevel row nTerms r)).
Proof.
  intros row n r Hn Hs. unfold sampleLevel.
  destruct (Rle_dec r (nth 0 row 0)) as [H0|H0];
    [| destruct (Rge_dec r (nth (n - 1) row 0)) as [H1|H1]].
  - split; [intros; reflexivity|]. split; [intros; lra|].
    split; [intros; lra|].
    intros _. repeat split; [lia | assumption | intros j Hj; lia].
  - split; [intros; lra|]. split; [intros; reflexivity|].
    split; [intros; lra|]. intros [H|H]; lra.
  - split; [intros; lra|]. split; [intros; lra|].
    split; [intros; reflexivity|].
    intros _. apply lower_bound_first; try assumption. lra.
Qed.

(** On a row that Mixer has normalised and whose total is positive, a draw
    in [0,1) always selects the first level whose cumulative probability is
    at least the draw. *)
Lemma sampleLevel_on_normalised_row n raw r :
  (0 < n)%nat -> (n <= length raw)%nat ->
  0 < snd (normaliseRow n raw 0) -> r < 1 ->
  firstLevelAtLeast (fst (normaliseRow n raw 0)) n r
    (sampleLevel (fst (normaliseRow n raw 0)) n r).
Proof.
  intros Hn Hlen Hpos Hr.
  destruct (normaliseRow_distribution n raw Hn Hlen Hpos) as [Hs Hlast].
  apply sampleLevel_spec; try assumption.
  right. rewrite Hlast. exact Hr.
Qed.

(** ** The total rate of a bin *)

(** On the linear grid the total rate is the summed frequency times the
    square root of the bin energy, and above 1000 eV times
    [sqrt(1 + 0.5 re) / (1 + re)]. *)
Lemma mixBinLin_total me n eStep iE raw :
  let sum := snd (normaliseRow n raw 0) in
  let ekin := binEnergyLin eStep iE in
  let re := ekin / me in
  snd (mixBinLin me n eStep iE raw 0)
  = if Rlt_dec 1000 ekin
    then sum * sqrt ekin * (sqrt (1 + 0.5 * re) / (1 + re))
    else sum * sqrt ekin.
Proof. intros. rewrite mixBinLin_eq. reflexivity. Qed.

(** The two relativistic factors differ at every positive energy. *)
Lemma relativistic_factors_differ me ekin :
  0 < me -> 0 < ekin ->
  sqrt (1 + ekin / me) / (1 + ekin / me)
  <> sqrt (1 + 0.5 * (ekin / me)) / (1 + ekin / me).
Proof.
  intros Hme Hekin Heq.
  assert (Hre : 0 < ekin / me) by (apply Rdiv_lt_0_compat; assumption).
  assert (Hs : sqrt (1 + ekin / me) = sqrt (1 + 0.5 * (ekin / me))).
  { apply (Rmult_eq_reg_r (/ (1 + ekin / me))).
    - exact Heq.
    - apply Rinv_neq_0_compat. lra. }
  apply sqrt_inj in Hs; lra.
Qed.

(** On the logarithmic grid the loop multiplies the summed frequency by
    [sqrt(ekin) * sqrt(1 + re) / (1 + re)]; for a positive sum this is not
    the value [sqrt(ekin) * sqrt(1 + 0.5 re) / (1 + re)] of the linear
    grid. *)
Lemma mixBinLog_total_differs me n eHigh rLog iE raw :
  0 < me -> 0 < binEnergyLog eHigh rLog iE ->
  0 < snd (normaliseRow n raw 0) ->
  let sum := snd (normaliseRow n raw 0) in
  let ekin := binEnergyLog eHigh rLog iE in
  let re := ekin / me in
  snd (mixBinLog me n eHigh rLog iE raw 0)
    = ln (sum * (sqrt ekin * sqrt (1 + re) / (1 + re))) /\
  sum * (sqrt ekin * sqrt (1 + re) / (1 + re))
    <> sum * sqrt ekin * (sqrt (1 + 0.5 * re) / (1 + re)).
Proof.
  intros Hme Hekin Hsum sum ekin re. split.
  - rewrite mixBinLog_eq. reflexivity.
  - intros Heq.
    apply (relativistic_factors_differ me ekin Hme Hekin).
    fold re.
    assert (Hsq : 0 < sqrt ekin) by (apply sqrt_lt_R0; exact Hekin).
    apply (Rmult_eq_reg_l (sum * sqrt ekin)).
    + unfold Rdiv in *. rewrite <- Heq. ring.
    + apply Rgt_not_eq, Rmult_lt_0_compat; assumption.
Qed.

(** C3.  Mixer with an energy range up to 20000 eV, above the crossover of
    10000 eV: the first bin of the logarithmic grid, one level of
    frequency 1.  The table entry is the logarithm of
    [sum * sqrt(ekin) * sqrt(1 + re) / (1 + re)], which is not the
    [sum * sqrt(ekin) * sqrt(1 + 0.5 re) / (1 + re)] of the claim and of
    the linear grid. *)
Theorem Mixer_log_grid_total_rate :
  let me := 510998.91 in
  let eHigh := 10000 in
  let rLog := growthFactor 20000 eHigh in
  let ekin := binEnergyLog eHigh rLog 0 in
  let re := ekin / me in
  let sum := snd (normaliseRow 1 [1] 0) in
  sum = 1 /\
  snd (mixBinLog me 1 eHigh rLog 0 [1] 0)
    = ln (sum * (sqrt ekin * sqrt (1 + re) / (1 + re))) /\
  sum * (sqrt ekin * sqrt (1 + re) / (1 + re))
    <> sum * sqrt ekin * (sqrt (1 + 0.5 * re) / (1 + re)).
Proof.
  intros me eHigh rLog ekin re sum.
  assert (Hsum : sum = 1).
  { unfold sum. rewrite normaliseRow_snd. simpl.
    rewrite clampNegative_pos; lra. }
  split; [exact Hsum|].
  apply mixBinLog_total_differs.
  - unfold me. lra.
  - unfold binEnergyLog. apply Rmult_lt_0_compat; [unfold eHigh; lra|].
    apply pow_lt. unfold rLog, growthFactor, Rpower. apply exp_pos.
  - fold sum. lra.
Qed.

(** ** Energy after the collision *)

Lemma collisionEnergy_floor Small e loss s1 ctheta0 :
  Small <= collisionEnergy Small e loss s1 ctheta0.
Proof. unfold collisionEnergy. cbv zeta. apply Rmax_r. Qed.

Lemma sqrt_one_plus x : 0 <= x -> sqrt (1 + x) <= 1 + x / 2.
Proof.
  intros Hx.
  rewrite <- (sqrt_square (1 + x / 2)) by lra.
  apply sqrt_le_1; nra.
Qed.

(** The value of line 795 before the floor: at most the incoming energy
    when the level takes energy, and at most the incoming energy plus the
    gain of the level when it gives energy. *)
Lemma collisionEnergy_unfloored Small e L s1 ctheta0 :
  Small <= 1 -> 0 < e -> 1 < s1 -> -1 <= ctheta0 <= 1 ->
  let s2 := (s1 * s1) / (s1 - 1) in
  let d := 1 - ctheta0 * sqrt (kinematicArg Small e L s1) in
  e * (1 - L / (s1 * e) - 2 * d / s2) <= Rmax e (e - L).
Proof.
  intros HS1 He Hs1 Hc s2 d.
  assert (Hs2 : / s2 = (s1 - 1) / (s1 * s1)).
  { unfold s2. field. split; lra. }
  assert (Hexp : e * (1 - L / (s1 * e) - 2 * d / s2)
                 = e - L / s1 - 2 * e * d * ((s1 - 1) / (s1 * s1))).
  { unfold Rdiv at 2. rewrite Hs2. field. split; lra. }
  rewrite Hexp.
  assert (Hk : 0 < (s1 - 1) / (s1 * s1)).
  { apply Rdiv_lt_0_compat; nra. }
  destruct (Rle_dec 0 L) as [HL|HL].
  - (* the level takes energy *)
    apply Rle_trans with e; [|apply Rmax_l].
    assert (Harg1 : kinematicArg Small e L s1 <= 1).
    { unfold kinematicArg. apply Rmax_lub; [|exact HS1].
      assert (0 <= s1 * L / e); [|lra].
      apply Rmult_le_pos; [apply Rmult_le_pos; lra|].
      left. now apply Rinv_0_lt_compat. }
    assert (Hsq0 : 0 <= sqrt (kinematicArg Small e L s1)) by apply sqrt_pos.
    assert (Hsq1 : sqrt (kinematicArg Small e L s1) <= 1).
    { rewrite <- sqrt_1. apply sqrt_le_1_alt. exact Harg1. }
    assert (Hd : 0 <= d) by (unfold d; nra).
    assert (Hl : 0 <= L / s1).
    { apply Rmult_le_pos; [exact HL|]. left. apply Rinv_0_lt_compat. lra. }
    assert (Hq : 0 <= 2 * e * d * ((s1 - 1) / (s1 * s1))).
    { apply Rmult_le_pos; [|lra]. apply Rmult_le_pos; [lra | exact Hd]. }
    lra.
  - (* the level gives energy *)
    apply Rle_trans with (e - L); [|apply Rmax_r].
    assert (HL' : 0 < - L) by lra.
    set (x := s1 * (- L) / e).
    assert (Hx : 0 < x).
    { unfold x. apply Rdiv_lt_0_compat; [nra | exact He]. }
    assert (Harg : kinematicArg Small e L s1 = 1 + x).
    { unfold kinematicArg.
      replace (1 - s1 * L / e) with (1 + x) by (unfold x; field; lra).
      apply Rmax_left. lra. }
    assert (Hsq : sqrt (kinematicArg Small e L s1) <= 1 + x / 2).
    { rewrite Harg. apply sqrt_one_plus. lra. }
    assert (Hsq0 : 0 <= sqrt (kinematicArg Small e L s1)) by apply sqrt_pos.
    assert (Hd : - (x / 2) <= d) by (unfold d; nra).
    assert (Hq : - (2 * e * d * ((s1 - 1) / (s1 * s1)))
                 <= 2 * e * (x / 2) * ((s1 - 1) / (s1 * s1))).
    { assert (0 <= 2 * e * (d + x / 2) * ((s1 - 1) / (s1 * s1))).
      { apply Rmult_le_pos; [|lra]. apply Rmult_le_pos; lra. }
      lra. }
    assert (Hx' : 2 * e * (x / 2) * ((s1 - 1) / (s1 * s1))
                  = (- L) * (s1 - 1) / s1).
    { unfold x. field. split; lra. }
    assert (Hsum : - L / s1 + (- L) * (s1 - 1) / s1 = - L).
    { field. lra. }
    unfold Rdiv in *. lra.
Qed.

(** Two calls at which the energy after the collision exceeds the incoming
    energy.  A super-elastic level (energy loss -1 eV) at an incoming
    energy of 1 eV with a scattering angle of 90 degrees; and an elastic
    collision in forward direction at an incoming energy of half the floor
    Small, where the floor is what the call returns. *)
Lemma collisionEnergy_above_incoming :
  let Small := 1 / 10 ^ 20 in
  1 < collisionEnergy Small 1 (clampLoss 1 (-1)) 1.00001 0 /\
  0 < Small / 2 /\
  collisionEnergy Small (Small / 2) (clampLoss (Small / 2) 0) 1.00001 1
    = Small /\
  Small / 2 < Small.
Proof.
  intros Small.
  assert (HS : 0 < Small) by (unfold Small; lra).
  split; [|split; [lra | split; [|lra]]].
  - unfold clampLoss.
    destruct (Rlt_dec 1 (-1)) as [H|_]; [lra|].
    unfold collisionEnergy. cbv zeta.
    eapply Rlt_le_trans; [|apply Rmax_l].
    rewrite Rmult_0_l. lra.
  - unfold clampLoss.
    destruct (Rlt_dec (Small / 2) 0) as [H|_]; [lra|].
    unfold collisionEnergy, kinematicArg. cbv zeta.
    replace (1 - 1.00001 * 0 / (Small / 2)) with 1 by (field; lra).
    rewrite (Rmax_left 1 Small) by (unfold Small; lra).
    rewrite sqrt_1. apply Rmax_right.
    replace (Small / 2 *
             (1 - 0 / (1.00001 * (Small / 2))
              - 2 * (1 - 1 * 1) / (1.00001 * 1.00001 / (1.00001 - 1))))
      with (Small / 2) by (field; lra).
    lra.
Qed.

(** C4, as amended.  For an incoming energy above 0, a mass factor above 1
    and a cosine in [-1, 1] (the floor Small being positive and at most 1),
    the energy after the collision is at least Small, hence positive, and
    at most the largest of the incoming energy, the incoming energy minus
    the energy loss (the loss after the clamp of line 765, negative for a
    super-elastic level) and Small.  So, for an incoming energy of at least
    Small, it does not exceed the incoming energy when the loss is not
    negative, and it exceeds the incoming energy of a super-elastic
    collision by the energy gain of the level at most. *)
Theorem collisionEnergy_bounds :
  forall (Small e loss s1 ctheta0 : R),
    0 < Small -> Small <= 1 -> 0 < e -> 1 < s1 ->
    -1 <= ctheta0 <= 1 ->
    let L := clampLoss e loss in
    let e1 := collisionEnergy Small e L s1 ctheta0 in
    0 < e1 /\ Small <= e1 /\
    e1 <= Rmax (Rmax e (e - L)) Small /\
    (0 <= L -> Small <= e -> e1 <= e) /\
    (L < 0 -> Small <= e -> e1 <= e - L).
Proof.
  intros Small e loss s1 ctheta0 HS HS1 He Hs1 Hc L e1.
  assert (Hfloor : Small <= e1) by apply collisionEnergy_floor.
  assert (Hup : e1 <= Rmax (Rmax e (e - L)) Small).
  { unfold e1, collisionEnergy. cbv zeta.
    apply Rmax_lub; [|apply Rmax_r].
    eapply Rle_trans; [|apply Rmax_l].
    apply (collisionEnergy_unfloored Small e L s1 ctheta0); assumption. }
  split; [lra|]. split; [exact Hfloor|]. split; [exact Hup|]. split.
  - intros HL He'. eapply Rle_trans; [exact Hup|].
    apply Rmax_lub; [|exact He']. apply Rmax_lub; lra.
  - intros HL He'. eapply Rle_trans; [exact Hup|].
    apply Rmax_lub; [apply Rmax_lub; lra | lra].
Qed.

Lemma collisionEnergy_bounds_witness :
  0 < collisionEnergy (1 / 10 ^ 20) 10 (clampLoss 10 2) 1.00001 (1 / 2) /\
  collisionEnergy (1 / 10 ^ 20) 10 (clampLoss 10 2) 1.00001 (1 / 2) <= 10 /\
  collisionEnergy (1 / 10 ^ 20) 1000 (clampLoss 1000 (-1)) 1.00001 (1 / 2)
    <= 1001.
Proof.
  assert (Hloss : 0 <= clampLoss 10 2)
    by (unfold clampLoss; destruct (Rlt_dec 10 2); lra).
  assert (Hgain : clampLoss 1000 (-1) = -1)
    by (unfold clampLoss; destruct (Rlt_dec 1000 (-1)); lra).
  destruct (collisionEnergy_bounds (1 / 10 ^ 20) 10 2 1.00001 (1 / 2)
              ltac:(lra) ltac:(lra) ltac:(lra) ltac:(lra) ltac:(lra))
    as (H1 & _ & _ & H2 & _).
  destruct (collisionEnergy_bounds (1 / 10 ^ 20) 1000 (-1) 1.00001 (1 / 2)
              ltac:(lra) ltac:(lra) ltac:(lra) ltac:(lra) ltac:(lra))
    as (_ & _ & _ & _ & H3).
  split; [exact H1|]. split; [apply H2; [exact Hloss | lra]|].
  rewrite Hgain in H3 |- *.
  replace 1001 with (1000 - -1) by lra. apply H3; lra.
Defined.

(** ** Queries at a non-positive energy *)

Lemma exceedsRange_nonpositive st e :
  e <= 0 -> 0 < m_eFinal st -> exceedsRange st e = false.
Proof.
  intros He Hf. unfold exceedsRange, Rltb.
  destruct (Rlt_dec (m_eFinal st) e); [lra | reflexivity].
Qed.

Lemma nth_repeat_lt {A} (x d : A) n i : (i < n)%nat -> nth i (repeat x n) d = x.
Proof.
  revert i. induction n as [|n IH]; intros [|i] Hi; simpl; try lia; auto.
  apply IH. lia.
Qed.

Lemma nEnergySteps_pos : (0 < nEnergySteps)%nat.
Proof. unfold nEnergySteps. lia. Qed.

(** A session whose table is up to date and whose first bin has the
    total rate 5: at the energy 0 the rate query hands back 5, the rate of
    the first bin, and not a value that tells the caller of a failure. *)
Lemma GetElectronCollisionRate_at_zero_energy :
  let env := exampleEnvironment (constantCrossSections []) (fun _ => 0) in
  let st :=
    set_cfTot (repeat 5 nEnergySteps)
      (set_isChanged false (newSession ["Ar"%string] [1])) in
  fst (GetElectronCollisionRate env st 0) = 5 /\
  fst (GetElectronCollisionRate env st 0) <> 0.
Proof.
  intros env st.
  assert (H : fst (GetElectronCollisionRate env st 0) = 5).
  { unfold GetElectronCollisionRate.
    destruct (Rle_dec 0 0) as [_|H]; [|lra].
    cbn [fst]. unfold st. cbn [m_cfTot set_cfTot].
    apply nth_repeat_lt, nEnergySteps_pos. }
  split; [exact H | rewrite H; lra].
Qed.

(** C9, as amended.  For every non-positive energy, in a session whose
    energy range is positive, the sampling call returns false, the
    per-level rate query returns 0 and the total-rate query returns the
    total rate of the first bin; none of them changes the session, and
    the sampling call draws no random number. *)
Theorem nonpositive_energy_leaves_session :
  forall (env : Environment) (steps draws : nat) (st : MediumMagboltz)
         (rc : RandomCursor) (e dx dy dz : R)
         (secondaries : list (IonProdType * R)) (level : nat),
    e <= 0 -> 0 < m_eFinal st ->
    GetElectronCollision env steps draws st rc e dx dy dz secondaries
      = Some (None, st, rc) /\
    GetElectronCollisionRate env st e = (nth 0 (m_cfTot st) 0, st) /\
    GetElectronCollisionRateLevel env st e level = (0, st).
Proof.
  intros env steps draws st rc e dx dy dz secondaries level He Hf.
  repeat split.
  - unfold GetElectronCollision.
    rewrite (exceedsRange_nonpositive st e He Hf).
    destruct (Rle_dec e 0); [reflexivity | lra].
  - unfold GetElectronCollisionRate.
    destruct (Rle_dec e 0); [reflexivity | lra].
  - unfold GetElectronCollisionRateLevel.
    destruct (Rle_dec e 0); [reflexivity | lra].
Qed.

Lemma nonpositive_energy_leaves_session_witness :
  let env := exampleEnvironment (constantCrossSections []) (fun _ => 0) in
  let st := newSession ["Ar"%string] [1] in
  let rc := {| nUniform := 0; nUniformPos := 0; nVoigt := 0 |} in
  GetElectronCollision env 1 1 st rc (-1) 0 0 1 [] = Some (None, st, rc).
Proof.
  intros env st rc.
  apply (nonpositive_energy_leaves_session env 1%nat 1%nat st rc (-1) 0 0 1
           [] 0%nat).
  - lra.
  - simpl. lra.
Defined.

(** ** Simplified Penning transfer *)

Lemma countCollision_frame type level st :
  m_energyLoss (countCollision type level st) = m_energyLoss st /\
  m_rgas (countCollision type level st) = m_rgas st /\
  m_minIonPot (countCollision type level st) = m_minIonPot st /\
  m_rPenning (countCollision type level st) = m_rPenning st /\
  m_lambdaPenning (countCollision type level st) = m_lambdaPenning st /\
  m_nPenning (countCollision type level st) = m_nPenning st /\
  m_useDeexcitation (countCollision type level st) = m_useDeexcitation st /\
  m_usePenning (countCollision type level st) = m_usePenning st.
Proof. repeat split. Qed.

(** C8.  Simplified Penning transfer: Penning transfer enabled and
    de-excitation disabled in the session that is sampled (after the
    update of its table, if one is due).  If the sampled level is an
    excitation whose threshold in the gas frame exceeds the smallest
    ionisation potential of the mixture and whose transfer probability is
    1, then for a uniform draw below 1 the call succeeds and leaves exactly
    one de-excitation product: an electron of energy threshold minus
    ionisation potential, to which the floor Small does not apply since it
    is positive. *)
Theorem penning_transfer_one_electron :
  forall (env : Environment) (steps draws : nat) (st st2 : MediumMagboltz)
         (rc : RandomCursor) (e dx dy dz : R)
         (secondaries : list (IonProdType * R)),
    0 < e ->
    updateTable env
      (if exceedsRange st e
       then snd (SetMaxElectronEnergy env st (1.05 * e)) else st)
      = (true, st2) ->
    m_usePenning st2 = true ->
    m_useDeexcitation st2 = false ->
    let level :=
      fst (fst (sampleProcess st2 e (RndmUniform env (nUniform rc)))) in
    let igas := (nth level (m_csType st2) 0 / nCsTypes)%nat in
    let threshold :=
      nth level (m_energyLoss st2) 0 * nth igas (m_rgas st2) 0 in
    (nth level (m_csType st2) 0 mod nCsTypes)%nat
      = ElectronCollisionTypeExcitation ->
    nth level (m_rPenning st2) 0 = 1 ->
    m_minIonPot st2 < threshold ->
    RndmUniform env (S (nUniform rc)) < 1 ->
    exists col st' rc' s,
      GetElectronCollision env steps draws st rc e dx dy dz secondaries
        = Some (Some col, st', rc') /\
      col_level col = level /\
      col_type col = ElectronCollisionTypeExcitation /\
      col_ndxc col = 1%nat /\
      col_secondaries col = secondaries /\
      m_dxcProducts st'
        = [{| prod_s := s; prod_t := 0; prod_type := DxcProdTypeElectron;
              prod_energy := threshold - m_minIonPot st2 |}] /\
      0 < threshold - m_minIonPot st2 /\
      m_nPenning st' = increment32 (m_nPenning st2).
Proof.
  intros env steps draws st st2 rc e dx dy dz secondaries He Hupd Hpen Hdxc
         level igas threshold Htype Hr Hthr Hu.
  unfold GetElectronCollision.
  destruct (Rle_dec e 0) as [Hle|_]; [lra|].
  rewrite andb_false_r, Hupd.
  unfold drawUniform at 1.
  unfold level in *. clear level.
  destruct (sampleProcess st2 e (RndmUniform env (nUniform rc)))
    as [[level angCut] angPar].
  cbn [fst] in *.
  rewrite Htype.
  change (ElectronCollisionTypeExcitation
          =? ElectronCollisionTypeIonisation)%nat with false.
  change (ElectronCollisionTypeExcitation
          =? ElectronCollisionTypeExcitation)%nat with true.
  cbv iota.
  set (st3 := countCollision ElectronCollisionTypeExcitation level st2).
  destruct (countCollision_frame ElectronCollisionTypeExcitation level st2)
    as (Hf1 & Hf2 & Hf3 & Hf4 & Hf5 & Hf6 & Hf7 & Hf8).
  fold st3 in Hf1, Hf2, Hf3, Hf4, Hf5, Hf6, Hf7, Hf8.
  rewrite Hf7, Hdxc, Hf8, Hpen. cbn [andb].
  unfold penningTransfer.
  cbn [m_energyLoss m_rgas m_minIonPot m_rPenning m_lambdaPenning
       m_nPenning m_dxcProducts set_dxcProducts set_nPenning].
  fold igas. rewrite Hf1, Hf2, Hf3, Hf4, Hf5, Hf6. fold threshold.
  destruct (Rlt_dec (m_minIonPot st2) threshold) as [_|Hn]; [|lra].
  unfold drawUniform at 1. cbn [nUniform useUniform].
  rewrite Hr.
  destruct (Rlt_dec (RndmUniform env (S (nUniform rc))) 1) as [_|Hn]; [|lra].
  destruct (Rle_dec (threshold - m_minIonPot st2) 0) as [Hn|_]; [lra|].
  destruct (Rlt_dec (Small env) (nth level (m_lambdaPenning st2) 0)).
  - unfold drawUniformPos.
    destruct (sampleCosine _ _ _ _ _) as [ctheta0 rc1].
    destruct (collisionAngle _ _ _ _ _) as [ctheta stheta].
    unfold drawUniform.
    destruct (rotateDirection _ _ _ _ _ _) as [[dx' dy'] dz'].
    do 4 eexists. split; [reflexivity|].
    cbn. repeat split; try reflexivity. lra.
  - destruct (sampleCosine _ _ _ _ _) as [ctheta0 rc1].
    destruct (collisionAngle _ _ _ _ _) as [ctheta stheta].
    unfold drawUniform.
    destruct (rotateDirection _ _ _ _ _ _) as [[dx' dy'] dz'].
    do 4 eexists. split; [reflexivity|].
    cbn. repeat split; try reflexivity. lra.
Qed.

Lemma clampIndex_lt i n : (0 < n)%nat -> (clampIndex i n < n)%nat.
Proof. intros Hn. unfold clampIndex. lia. Qed.

Lemma sampleLevel_example : sampleLevel [1 / 2; 1] 2 (3 / 4) = 1%nat.
Proof.
  assert (Hs : nondecreasing 2 [1 / 2; 1]).
  { intros i j Hij Hj.
    destruct j as [|[|j]]; destruct i as [|[|i]]; simpl; try lia; lra. }
  destruct (sampleLevel_spec [1 / 2; 1] 2 (3 / 4)
              ltac:(lia) Hs) as (_ & _ & _ & H).
  destruct H as (Hlt & Hge & Hbelow); [right; simpl; lra|].
  destruct (sampleLevel [1 / 2; 1] 2 (3 / 4)) as [|[|k]];
    [simpl in Hge; lra | reflexivity | lia].
Qed.

Lemma penningSession_level :
  fst (fst (sampleProcess penningSession 20 (3 / 4))) = 1%nat.
Proof.
  unfold sampleProcess.
  destruct (Rle_dec 20 (m_eHigh penningSession)) as [_|H];
    [|simpl in H; lra].
  cbn [fst]. change (m_cf penningSession) with (repeat [1 / 2; 1] nEnergySteps).
  rewrite nth_repeat_lt by (apply clampIndex_lt, nEnergySteps_pos).
  exact sampleLevel_example.
Qed.

Lemma penning_transfer_one_electron_witness :
  let env :=
    exampleEnvironment (constantCrossSections []) (fun _ => 3 / 4) in
  let rc := {| nUniform := 0; nUniformPos := 0; nVoigt := 0 |} in
  exists col st' rc' s,
    GetElectronCollision env 1 1 penningSession rc 20 0 0 1 []
      = Some (Some col, st', rc') /\
    col_ndxc col = 1%nat /\
    m_dxcProducts st'
      = [{| prod_s := s; prod_t := 0; prod_type := DxcProdTypeElectron;
            prod_energy := 13 * 1.00001 - 11 |}].
Proof.
  intros env rc.
  assert (Hrange : exceedsRange penningSession 20 = false).
  { unfold exceedsRange, Rltb.
    destruct (Rlt_dec (m_eFinal penningSession) 20) as [H|_];
      [simpl in H; lra | reflexivity]. }
  assert (Hupd :
    updateTable env
      (if exceedsRange penningSession 20
       then snd (SetMaxElectronEnergy env penningSession (1.05 * 20))
       else penningSession) = (true, penningSession)).
  { rewrite Hrange. reflexivity. }
  pose proof penningSession_level as Hlevel.
  destruct (penning_transfer_one_electron env 1%nat 1%nat penningSession
              penningSession rc 20 0 0 1 [] ltac:(lra) Hupd eq_refl eq_refl)
    as (col & st' & rc' & s & Hcall & _ & _ & Hn & _ & Hprod & _).
  - change (RndmUniform env (nUniform rc)) with (3 / 4).
    rewrite Hlevel. reflexivity.
  - change (RndmUniform env (nUniform rc)) with (3 / 4).
    rewrite Hlevel. reflexivity.
  - change (RndmUniform env (nUniform rc)) with (3 / 4).
    rewrite Hlevel. simpl. lra.
  - simpl. lra.
  - exists col, st', rc', s. repeat split; try assumption.
    rewrite Hprod.
    change (RndmUniform env (nUniform rc)) with (3 / 4).
    rewrite Hlevel. reflexivity.
Defined.

(** ** Collision counters *)

Lemma fold_add32 l : forall a,
  (0 <= a < 2 ^ 32)%Z ->
  fold_left add32 l a = ((a + sumZ l) mod 2 ^ 32)%Z.
Proof.
  induction l as [|x l IH]; intros a Ha; simpl.
  - rewrite Z.add_0_r, Z.mod_small; [reflexivity | exact Ha].
  - rewrite IH by (unfold add32; apply Z.mod_pos_bound; lia).
    unfold add32. rewrite Zplus_mod_idemp_l. f_equal. lia.
Qed.

Lemma GetNumberOfElectronCollisions_sum st :
  GetNumberOfElectronCollisions st
  = (sumZ (m_nCollisions st) mod 2 ^ 32)%Z.
Proof.
  unfold GetNumberOfElectronCollisions. rewrite fold_add32 by lia.
  reflexivity.
Qed.

Lemma add32_mod x y : add32 (x mod 2 ^ 32) y = ((x + y) mod 2 ^ 32)%Z.
Proof. unfold add32. apply Zplus_mod_idemp_l. Qed.

Lemma GetNumberOfElectronCollisionsByType_sum st :
  length (m_nCollisions st) = nCsTypes ->
  fst (GetNumberOfElectronCollisionsByType st)
  = (sumZ (m_nCollisions st) mod 2 ^ 32)%Z.
Proof.
  unfold GetNumberOfElectronCollisionsByType. intros Hlen.
  destruct (m_nCollisions st) as [|a [|b [|c [|d [|e [|f [|g l]]]]]]];
    try discriminate Hlen.
  unfold ElectronCollisionTypeElastic, ElectronCollisionTypeIonisation,
    ElectronCollisionTypeAttachment, ElectronCollisionTypeInelastic,
    ElectronCollisionTypeExcitation, ElectronCollisionTypeSuperelastic.
  cbn [fst nth sumZ fold_right].
  unfold add32 at 5. rewrite !add32_mod. f_equal. lia.
Qed.

Lemma sumZ_upd l : forall i v,
  (i < length l)%nat -> sumZ (upd l i v) = (sumZ l - nth i l 0 + v)%Z.
Proof.
  induction l as [|x l IH]; intros [|i] v Hi; simpl in *; try lia.
  rewrite IH by lia. lia.
Qed.

Lemma sumZ_repeat_0 n : sumZ (repeat 0%Z n) = 0%Z.
Proof. induction n as [|n IH]; simpl; [reflexivity | exact IH]. Qed.

Lemma sumZ_increment l i :
  (i < length l)%nat ->
  (sumZ (upd l i (increment32 (nth i l 0))) mod 2 ^ 32
   = (sumZ l + 1) mod 2 ^ 32)%Z.
Proof.
  intros Hi. rewrite sumZ_upd by exact Hi. unfold increment32.
  replace (sumZ l - nth i l 0 + (nth i l 0 + 1) mod 2 ^ 32)%Z
    with ((nth i l 0 + 1) mod 2 ^ 32 + (sumZ l - nth i l 0))%Z by lia.
  rewrite Zplus_mod_idemp_l. f_equal. lia.
Qed.

Lemma countCollision_consistent type level st :
  (type < length (m_nCollisions st))%nat ->
  (level < length (m_nCollisionsDetailed st))%nat ->
  countersConsistent st -> countersConsistent (countCollision type level st).
Proof.
  intros Ht Hl Hc. unfold countersConsistent in *.
  cbn [countCollision m_nCollisions m_nCollisionsDetailed
       set_nCollisions set_nCollisionsDetailed].
  rewrite !sumZ_increment by assumption.
  rewrite <- (Zplus_mod_idemp_l (sumZ (m_nCollisions st))), Hc.
  now rewrite Zplus_mod_idemp_l.
Qed.

(** The cascade and the Penning transfer leave the collision counters. *)
Lemma ComputeDeexcitationInternal_counters env steps draws st rc i st' rc' f :
  ComputeDeexcitationInternal env steps draws st rc i = Some (st', rc', f) ->
  m_nCollisions st' = m_nCollisions st /\
  m_nCollisionsDetailed st' = m_nCollisionsDetailed st /\
  m_nTerms st' = m_nTerms st.
Proof.
  unfold ComputeDeexcitationInternal.
  destruct (cascadeLoop _ _ _ _ _ _ _ _) as [[fl c]|]; [|discriminate].
  intros H. injection H as <- _ _. repeat split.
Qed.

Lemma penningTransfer_counters env st rc level igas :
  m_nCollisions (snd (fst (penningTransfer env st rc level igas)))
    = m_nCollisions st /\
  m_nCollisionsDetailed (snd (fst (penningTransfer env st rc level igas)))
    = m_nCollisionsDetailed st /\
  m_nTerms (snd (fst (penningTransfer env st rc level igas))) = m_nTerms st.
Proof.
  unfold penningTransfer.
  destruct (Rlt_dec _ _); [|repeat split].
  unfold drawUniform. destruct (Rlt_dec _ _); [|repeat split].
  destruct (Rlt_dec _ _); repeat split.
Qed.

(** What a successful call does to the counters. *)
Lemma GetElectronCollision_counts env steps draws st rc e dx dy dz
      secondaries col st' rc' :
  GetElectronCollision env steps draws st rc e dx dy dz secondaries
    = Some (Some col, st', rc') ->
  exists st2,
    updateTable env
      (if exceedsRange st e
       then snd (SetMaxElectronEnergy env st (1.05 * e)) else st)
      = (true, st2) /\
    (col_type col < nCsTypes)%nat /\
    m_nCollisions st'
      = upd (m_nCollisions st2) (col_type col)
            (increment32 (nth (col_type col) (m_nCollisions st2) 0%Z)) /\
    m_nCollisionsDetailed st'
      = upd (m_nCollisionsDetailed st2) (col_level col)
            (increment32 (nth (col_level col) (m_nCollisionsDetailed st2) 0%Z))
    /\ m_nTerms st' = m_nTerms st2.
Proof.
  unfold GetElectronCollision.
  destruct (negb (exceedsRange st e) && _); [discriminate|].
  destruct (updateTable env _) as [[|] st2]; [|discriminate].
  unfold drawUniform at 1.
  destruct (sampleProcess st2 e _) as [[level angCut] angPar].
  set (type := (nth level (m_csType st2) 0 mod nCsTypes)%nat).
  set (igas := (nth level (m_csType st2) 0 / nCsTypes)%nat).
  set (st3 := countCollision type level st2).
  assert (Htype : (type < nCsTypes)%nat)
    by (apply Nat.mod_upper_bound; unfold nCsTypes; lia).
  intros H. exists st2. split; [reflexivity|].
  assert (Hgoal : forall loss sec ndxc st4 rc4,
    m_nCollisions st4 = m_nCollisions st3 ->
    m_nCollisionsDetailed st4 = m_nCollisionsDetailed st3 ->
    m_nTerms st4 = m_nTerms st3 ->
    (let loss0 := clampLoss e loss in
     let '(ctheta0, rc5) := sampleCosine env st4 rc4 level angCut angPar in
     let s1 := nth igas (m_rgas st4) 0 in
     let e1 := collisionEnergy (Small env) e loss0 s1 ctheta0 in
     let '(ctheta, stheta) :=
       collisionAngle (Small env) e loss0 s1 ctheta0 in
     let '(u, rc6) := drawUniform env rc5 in
     let phi := 2 * PI * u in
     let '(dx', dy', dz') := rotateDirection dx dy dz ctheta stheta phi in
     Some (Some {| col_type := type; col_level := level; col_e1 := e1;
                   col_dx := dx'; col_dy := dy'; col_dz := dz';
                   col_secondaries := sec; col_ndxc := ndxc |}, st4, rc6))
    = Some (Some col, st', rc') ->
    (col_type col < nCsTypes)%nat /\
    m_nCollisions st'
      = upd (m_nCollisions st2) (col_type col)
            (increment32 (nth (col_type col) (m_nCollisions st2) 0%Z)) /\
    m_nCollisionsDetailed st'
      = upd (m_nCollisionsDetailed st2) (col_level col)
            (increment32 (nth (col_level col) (m_nCollisionsDetailed st2) 0%Z))
    /\ m_nTerms st' = m_nTerms st2).
  { intros loss sec ndxc st4 rc4 H1 H2 H3. cbv zeta.
    destruct (sampleCosine _ _ _ _ _ _) as [ctheta0 rc5].
    destruct (collisionAngle _ _ _ _ _) as [ctheta stheta].
    unfold drawUniform.
    destruct (rotateDirection _ _ _ _ _ _) as [[dx' dy'] dz'].
    intros Heq. injection Heq as <- <- _.
    cbn [col_type col_level]. rewrite H1, H2, H3.
    repeat split; assumption. }
  destruct (type =? ElectronCollisionTypeIonisation)%nat.
  - unfold drawUniform at 1 in H.
    eapply Hgoal; [| | |exact H]; reflexivity.
  - destruct (type =? ElectronCollisionTypeExcitation)%nat.
    + destruct (m_useDeexcitation st3 && _).
      * destruct (ComputeDeexcitationInternal _ _ _ _ _ _)
          as [[[st4 rc4] f]|] eqn:Hdx; [|discriminate].
        apply ComputeDeexcitationInternal_counters in Hdx.
        destruct Hdx as (H1 & H2 & H3).
        eapply Hgoal; [| | |exact H]; assumption.
      * destruct (m_usePenning st3).
        -- pose proof (penningTransfer_counters env st3 rc
                         level igas) as Hp.
           revert H Hp.
           match goal with
           | |- context [penningTransfer env st3 ?c level igas] =>
               pose proof (penningTransfer_counters env st3 c level igas)
                 as Hp';
               destruct (penningTransfer env st3 c level igas)
                 as [[ndxc st4] rc4]
           end.
           intros H _. destruct Hp' as (H1 & H2 & H3).
           cbn [fst snd] in H1, H2, H3.
           eapply Hgoal; [| | |exact H]; assumption.
        -- eapply Hgoal; [| | |exact H]; reflexivity.
    + eapply Hgoal; [| | |exact H]; reflexivity.
Qed.

(** ** Frames of the stages of Mixer *)

Lemma fold_left_rel {A B : Type} (R : A -> A -> Prop) (f : A -> B -> A) l :
  (forall a, R a a) -> (forall a b c, R a b -> R b c -> R a c) ->
  (forall a b, R a (f a b)) -> forall a, R a (fold_left f l a).
Proof.
  intros Hrefl Htrans Hstep. induction l as [|b l IH]; intros a; simpl.
  - apply Hrefl.
  - eapply Htrans; [apply Hstep | apply IH].
Qed.

Lemma keptByGasLoop_refl st : keptByGasLoop st st.
Proof. repeat split. Qed.

Lemma keptByGasLoop_trans a b c :
  keptByGasLoop a b -> keptByGasLoop b c -> keptByGasLoop a c.
Proof.
  unfold keptByGasLoop. intros H1 H2.
  repeat match goal with H : _ /\ _ |- _ => destruct H end.
  repeat split; congruence.
Qed.

Lemma keptByLateStages_refl st : keptByLateStages st st.
Proof. repeat split. Qed.

Lemma keptByLateStages_trans a b c :
  keptByLateStages a b -> keptByLateStages b c -> keptByLateStages a c.
Proof.
  unfold keptByLateStages. intros H1 H2.
  repeat match goal with H : _ /\ _ |- _ => destruct H end.
  repeat split; congruence.
Qed.

Lemma writeLevel_kept out iGas r acc src :
  keptByGasLoop (snd acc) (snd (writeLevel out iGas r acc src)).
Proof. destruct acc as [np st]. destruct src; repeat split. Qed.

Lemma writeLevels_kept out iGas r terms np st :
  keptByGasLoop st (snd (fold_left (writeLevel out iGas r) terms (np, st))).
Proof.
  apply (fold_left_rel (fun a b => keptByGasLoop (snd a) (snd b))).
  - intros a. apply keptByGasLoop_refl.
  - intros a b c. apply keptByGasLoop_trans.
  - intros a b. apply writeLevel_kept.
Qed.

Lemma writeIonisationPotential_kept out iGas st :
  keptByGasLoop st (writeIonisationPotential out iGas st).
Proof.
  unfold writeIonisationPotential.
  destruct (1 <? g_nIon out)%nat; [repeat split|].
  destruct (Rge_dec _ _); repeat split.
Qed.

Lemma mixGas_kept env prefactor iGas ngs st :
  keptByGasLoop st (snd (mixGas env prefactor iGas ngs st)).
Proof.
  unfold mixGas.
  destruct (nMaxLevels <=? _)%nat; [apply keptByGasLoop_refl|].
  match goal with
  | |- context [fold_left (writeLevel ?o ?i ?r) ?t (?n, ?s)] =>
      pose proof (writeLevels_kept o i r t n s) as Hw;
      destruct (fold_left (writeLevel o i r) t (n, s)) as [np st1]
  end.
  cbn [snd] in Hw.
  pose proof (writeIonisationPotential_kept
                (gasmix env
                   (gasmixInput env st ngs (Rmin (m_eFinal st) (m_eHigh st))
                      (m_eStep st))) iGas st1) as Hi.
  match type of Hi with keptByGasLoop _ ?s => set (st2 := s) in * end.
  assert (H2 : keptByGasLoop st st2).
  { eapply keptByGasLoop_trans; [|exact Hi].
    eapply keptByGasLoop_trans; [|exact Hw]. repeat split. }
  clearbody st2. clear Hw Hi.
  destruct (fillRowsLin _ _ _ _ _ _ _ _ _ _) as [[cf cut] par].
  destruct (Rle_dec _ _).
  - cbn [snd]. eapply keptByGasLoop_trans; [exact H2|]. repeat split.
  - destruct (fillRowsLog _ _ _ _ _ _ _ _ _ _ _ _) as [[cfLog cutLog] parLog].
    cbn [snd]. eapply keptByGasLoop_trans; [exact H2|]. repeat split.
Qed.

Lemma mixGases_kept env prefactor numbers : forall iGas st,
  keptByGasLoop st (snd (mixGases env prefactor iGas numbers st)).
Proof.
  induction numbers as [|ngs rest IH]; intros iGas st; simpl.
  - apply keptByGasLoop_refl.
  - pose proof (mixGas_kept env prefactor iGas ngs st) as Hg.
    destruct (mixGas env prefactor iGas ngs st) as [[|] st1]; cbn [snd] in *.
    + eapply keptByGasLoop_trans; [exact Hg | apply IH].
    + exact Hg.
Qed.

Lemma keptAfterDeexcitation_refl st : keptAfterDeexcitation st st.
Proof. split; [apply keptByLateStages_refl | reflexivity]. Qed.

Lemma keptAfterDeexcitation_trans a b c :
  keptAfterDeexcitation a b -> keptAfterDeexcitation b c ->
  keptAfterDeexcitation a c.
Proof.
  intros [H1 E1] [H2 E2]. split.
  - eapply keptByLateStages_trans; eassumption.
  - congruence.
Qed.

Lemma ComputeDeexcitationTable_kept env st :
  keptByLateStages st (ComputeDeexcitationTable env st).
Proof.
  unfold ComputeDeexcitationTable.
  destruct (mapArgonLevels _) as [iAr mapLevels].
  destruct (countLevels _ _ _ _) as [[lvl iDeexcitation] nDeexcitations].
  destruct (radiativeLoop _ _ _ _ _) as [dxcs complete].
  destruct (negb complete); repeat split.
Qed.

Lemma deexcitationStage_kept env st :
  keptByLateStages st (deexcitationStage env st).
Proof.
  unfold deexcitationStage.
  destruct (m_useDeexcitation st); [|apply keptByLateStages_refl].
  pose proof (ComputeDeexcitationTable_kept env st) as H.
  destruct (existsb _ _); [|exact H].
  eapply keptByLateStages_trans; [exact H|]. repeat split.
Qed.

Lemma photonGases_kept env dens gases : forall st,
  keptAfterDeexcitation st (snd (photonGases env dens gases st)).
Proof.
  induction gases as [|i rest IH]; intros st; simpl.
  - apply keptAfterDeexcitation_refl.
  - destruct (negb (IsAvailable env _)); [apply keptAfterDeexcitation_refl|].
    destruct (photonRows _ _ _ _ _ _ _) as [tot rows].
    eapply keptAfterDeexcitation_trans; [|apply IH].
    repeat split.
Qed.

Lemma ComputePhotonCollisionTable_kept env st :
  keptAfterDeexcitation st (snd (ComputePhotonCollisionTable env st)).
Proof.
  unfold ComputePhotonCollisionTable.
  match goal with
  | |- context [photonGases env ?d ?g ?s] =>
      pose proof (photonGases_kept env d g s) as H;
      destruct (photonGases env d g s) as [[|] st1]
  end; cbn [snd] in *.
  - assert (H0 : keptAfterDeexcitation st st1).
    { eapply keptAfterDeexcitation_trans; [|exact H]. repeat split. }
    destruct (negb _); cbn [snd];
      (eapply keptAfterDeexcitation_trans; [exact H0|]); repeat split.
  - eapply keptAfterDeexcitation_trans; [|exact H]. repeat split.
Qed.

Lemma photonStage_kept env st :
  keptAfterDeexcitation st (photonStage env st).
Proof.
  unfold photonStage.
  pose proof (ComputePhotonCollisionTable_kept env st) as H.
  destruct (ComputePhotonCollisionTable env st) as [[|] st1];
    cbn [snd] in H; [exact H|].
  destruct (m_useDeexcitation st1); [|exact H].
  eapply keptAfterDeexcitation_trans; [exact H|]. repeat split.
Qed.

Lemma resetPenning_kept env st :
  keptAfterDeexcitation st (resetPenning env st).
Proof.
  unfold resetPenning.
  apply (fold_left_rel keptAfterDeexcitation).
  - apply keptAfterDeexcitation_refl.
  - apply keptAfterDeexcitation_trans.
  - intros a i. destruct (Rlt_dec _ _); repeat split.
Qed.

Lemma SetupGreenSawada_kept st :
  keptAfterDeexcitation st (SetupGreenSawada st).
Proof.
  unfold SetupGreenSawada.
  apply (fold_left_rel keptAfterDeexcitation).
  - apply keptAfterDeexcitation_refl.
  - apply keptAfterDeexcitation_trans.
  - intros a i. destruct (greenSawadaFit _) as [[[gs gb] ts]|]; repeat split.
Qed.

Lemma afterDeexcitation_kept env st :
  keptAfterDeexcitation st
    (SetupGreenSawada (resetPenning env (photonStage env st))).
Proof.
  eapply keptAfterDeexcitation_trans; [apply photonStage_kept|].
  eapply keptAfterDeexcitation_trans; [apply resetPenning_kept|].
  apply SetupGreenSawada_kept.
Qed.

Lemma lateStages_kept env st :
  keptByLateStages st
    (SetupGreenSawada
       (resetPenning env (photonStage env (deexcitationStage env st)))).
Proof.
  eapply keptByLateStages_trans; [apply deexcitationStage_kept|].
  apply afterDeexcitation_kept.
Qed.

(** ** Outcomes of Mixer *)

Lemma resetTables_kept env st :
  m_cfNull (resetTables env st) = m_cfNull st /\
  m_nCollisions (resetTables env st) = m_nCollisions st /\
  m_nCollisionsDetailed (resetTables env st) = m_nCollisionsDetailed st /\
  m_isChanged (resetTables env st) = m_isChanged st /\
  m_cfTot (resetTables env st) = repeat 0 nEnergySteps /\
  m_cfTotLog (resetTables env st) = repeat 0 nEnergyStepsLog /\
  m_iDeexcitation (resetTables env st) = repeat (-1)%Z nMaxLevels /\
  m_deexcitations (resetTables env st) = [].
Proof. repeat split. Qed.

(** A call of Mixer that fails hands back the session with its tables
    emptied; the null-collision rate, the counters and the flag
    [m_isChanged] are those of before. *)
Lemma Mixer_failure env st :
  fst (Mixer env st) = false ->
  m_cfTot (snd (Mixer env st)) = repeat 0 nEnergySteps /\
  m_cfTotLog (snd (Mixer env st)) = repeat 0 nEnergyStepsLog /\
  m_cfNull (snd (Mixer env st)) = m_cfNull st /\
  m_nCollisions (snd (Mixer env st)) = m_nCollisions st /\
  m_nCollisionsDetailed (snd (Mixer env st)) = m_nCollisionsDetailed st /\
  m_isChanged (snd (Mixer env st)) = m_isChanged st.
Proof.
  unfold Mixer.
  destruct (gasNumbersOf _) as [numbers|]; [|intros _; repeat split].
  match goal with
  | |- context [mixGases env ?p ?i ?n ?s] =>
      pose proof (mixGases_kept env p n i s) as H;
      destruct (mixGases env p i n s) as [[|] st1]
  end; cbn [fst snd] in *; [discriminate|].
  intros _. unfold keptByGasLoop in H.
  repeat match goal with H : _ /\ _ |- _ => destruct H end.
  repeat split; try assumption;
    match goal with H : ?p st1 = _ |- ?p st1 = _ => rewrite H end;
    reflexivity.
Qed.

(** A call of Mixer that succeeds hands back the session with all counters
    at zero, one per-level counter for every term. *)
Lemma finishMixer_counters env st :
  m_nCollisions (finishMixer env st) = repeat 0%Z nCsTypes /\
  m_nCollisionsDetailed (finishMixer env st)
    = repeat 0%Z (m_nTerms (finishMixer env st)).
Proof.
  unfold finishMixer.
  pose proof (lateStages_kept env (finishRates env st)) as H.
  unfold keptByLateStages in H.
  repeat match goal with H : _ /\ _ |- _ => destruct H end.
  split.
  - match goal with H : m_nCollisions _ = _ |- _ => rewrite H end.
    reflexivity.
  - match goal with H : m_nCollisionsDetailed _ = _ |- _ => rewrite H end.
    match goal with H : m_nTerms _ = _ |- _ => rewrite H end.
    unfold finishRates. cbn. reflexivity.
Qed.

Lemma Mixer_success env st :
  fst (Mixer env st) = true ->
  m_nCollisions (snd (Mixer env st)) = repeat 0%Z nCsTypes /\
  m_nCollisionsDetailed (snd (Mixer env st))
    = repeat 0%Z (m_nTerms (snd (Mixer env st))).
Proof.
  unfold Mixer.
  destruct (gasNumbersOf _) as [numbers|]; [|discriminate].
  destruct (mixGases _ _ _ _ _) as [[|] st1]; cbn [fst snd];
    [|discriminate].
  intros _. apply finishMixer_counters.
Qed.

(** ** The counters over the calls of the class *)

Lemma length_upd {A} (l : list A) : forall i x, length (upd l i x) = length l.
Proof.
  induction l as [|h t IH]; intros [|i] x; simpl; try reflexivity.
  now rewrite IH.
Qed.

Lemma nth_upd_same {A} (l : list A) : forall i x d,
  (i < length l)%nat -> nth i (upd l i x) d = x.
Proof.
  induction l as [|h t IH]; intros [|i] x d Hi; simpl in *;
    [lia | lia | reflexivity | apply IH; lia].
Qed.

Lemma nth_upd_other {A} (l : list A) : forall i j x d,
  i <> j -> nth j (upd l i x) d = nth j l d.
Proof.
  induction l as [|h t IH]; intros [|i] [|j] x d Hij; simpl;
    try reflexivity; try congruence.
  apply IH. congruence.
Qed.

Lemma zero_counters_invariant st :
  m_nCollisions st = repeat 0%Z nCsTypes ->
  m_nCollisionsDetailed st = repeat 0%Z (m_nTerms st) ->
  countersInvariant st.
Proof.
  intros H1 H2. unfold countersInvariant, countersConsistent.
  rewrite H1, H2, !repeat_length, !sumZ_repeat_0. repeat split.
Qed.

Lemma SetMaxElectronEnergy_invariant env st e :
  (m_isChanged st = false -> countersInvariant st) ->
  m_isChanged (snd (SetMaxElectronEnergy env st e)) = false ->
  countersInvariant (snd (SetMaxElectronEnergy env st e)).
Proof.
  intros H. unfold SetMaxElectronEnergy.
  destruct (Rle_dec e (Small env)); [exact H|].
  cbn [snd m_eFinal m_eHigh set_eFinal].
  destruct (Rle_dec _ _); discriminate.
Qed.

(** An update of the table that succeeds leaves consistent counters: a
    rebuild zeroes them, whatever they held, and a table that is up to date
    is left as it is. *)
Lemma updateTable_invariant env st st2 :
  (m_isChanged st = false -> countersInvariant st) ->
  updateTable env st = (true, st2) ->
  countersInvariant st2.
Proof.
  intros H. unfold updateTable.
  destruct (m_isChanged st).
  - pose proof (Mixer_success env st) as Hm.
    destruct (Mixer env st) as [[|] st1]; [|discriminate].
    intros Heq. injection Heq as <-.
    destruct (Hm eq_refl) as [H1 H2]. cbn [snd] in H1, H2.
    apply zero_counters_invariant; assumption.
  - intros Heq. injection Heq as <-. apply H. reflexivity.
Qed.

(** C10.  The collision counters are kept mutually consistent, as 32-bit
    unsigned numbers.  ResetCollisionCounters zeroes the six per-type
    counters, all per-level counters, the Penning counter and the photon
    counters together.  In a session with six per-type counters, one
    per-level counter for every term and the same total in both, the
    aggregate returned by GetNumberOfElectronCollisions() is the sum of the
    six per-type counters, which the overload with six outputs returns as
    well, and it is the sum of the per-level counters.  Every successful
    GetElectronCollision that samples one of the terms increments, after the
    update of the table if one is due (which leaves all counters at zero),
    exactly one of the six per-type counters and exactly one per-level
    counter, so that the session keeps these properties and the aggregate
    grows by one.  For a session whose table is still to be built
    ([m_isChanged] set, as the constructor leaves it) nothing is assumed
    about the counters. *)
Theorem collision_counters_consistent :
  forall (env : Environment) (st : MediumMagboltz),
    (let st0 := ResetCollisionCounters st in
     m_nCollisions st0 = repeat 0%Z nCsTypes /\
     m_nCollisionsDetailed st0 = repeat 0%Z (m_nTerms st0) /\
     m_nPenning st0 = 0%Z /\
     m_nPhotonCollisions st0 = repeat 0%Z nCsTypesGamma /\
     GetNumberOfElectronCollisions st0 = 0%Z /\
     countersInvariant st0) /\
    (countersInvariant st ->
     GetNumberOfElectronCollisions st
       = (sumZ (m_nCollisions st) mod 2 ^ 32)%Z /\
     fst (GetNumberOfElectronCollisionsByType st)
       = GetNumberOfElectronCollisions st /\
     GetNumberOfElectronCollisions st
       = (sumZ (m_nCollisionsDetailed st) mod 2 ^ 32)%Z) /\
    (forall (steps draws : nat) (rc : RandomCursor) (e dx dy dz : R)
            (secondaries : list (IonProdType * R)) (col : Collision)
            (st' : MediumMagboltz) (rc' : RandomCursor),
       (m_isChanged st = false -> countersInvariant st) ->
       GetElectronCollision env steps draws st rc e dx dy dz secondaries
         = Some (Some col, st', rc') ->
       (col_level col < m_nTerms st')%nat ->
       exists st2,
         updateTable env
           (if exceedsRange st e
            then snd (SetMaxElectronEnergy env st (1.05 * e)) else st)
           = (true, st2) /\
         countersInvariant st2 /\
         (col_type col < nCsTypes)%nat /\
         (forall type,
            nth type (m_nCollisions st') 0%Z
            = if (type =? col_type col)%nat
              then increment32 (nth type (m_nCollisions st2) 0%Z)
              else nth type (m_nCollisions st2) 0%Z) /\
         (forall level,
            nth level (m_nCollisionsDetailed st') 0%Z
            = if (level =? col_level col)%nat
              then increment32 (nth level (m_nCollisionsDetailed st2) 0%Z)
              else nth level (m_nCollisionsDetailed st2) 0%Z) /\
         countersInvariant st' /\
         GetNumberOfElectronCollisions st'
           = ((GetNumberOfElectronCollisions st2 + 1) mod 2 ^ 32)%Z).
Proof.
  intros env st. split; [|split].
  - cbv zeta.
    assert (Hinv : countersInvariant (ResetCollisionCounters st))
      by (apply zero_counters_invariant; reflexivity).
    repeat split; apply Hinv.
  - intros (Hlen & _ & Hc).
    rewrite GetNumberOfElectronCollisionsByType_sum by exact Hlen.
    rewrite GetNumberOfElectronCollisions_sum.
    repeat split. exact Hc.
  - intros steps draws rc e dx dy dz secondaries col st' rc' Hinv Hcall Hlevel.
    destruct (GetElectronCollision_counts env steps draws st rc e dx dy dz
                secondaries col st' rc' Hcall)
      as (st2 & Hupd & Htype & Hc1 & Hc2 & Hn).
    assert (Hinv2 : countersInvariant st2).
    { eapply updateTable_invariant; [|exact Hupd].
      destruct (exceedsRange st e);
        [apply SetMaxElectronEnergy_invariant|]; exact Hinv. }
    destruct Hinv2 as (Hl1 & Hl2 & Hcons).
    assert (Ht : (col_type col < length (m_nCollisions st2))%nat)
      by (rewrite Hl1; exact Htype).
    assert (Hl : (col_level col < length (m_nCollisionsDetailed st2))%nat)
      by (rewrite Hl2, <- Hn; exact Hlevel).
    assert (Hsum :
      (sumZ (m_nCollisions st') mod 2 ^ 32
       = (sumZ (m_nCollisions st2) + 1) mod 2 ^ 32)%Z)
      by (rewrite Hc1; apply sumZ_increment; exact Ht).
    exists st2. split; [exact Hupd|].
    split; [repeat split; assumption|].
    split; [exact Htype|].
    split; [|split; [|split]].
    + intros type. rewrite Hc1.
      destruct (Nat.eqb_spec type (col_type col)) as [->|Hne].
      * apply nth_upd_same. exact Ht.
      * apply nth_upd_other. congruence.
    + intros level. rewrite Hc2.
      destruct (Nat.eqb_spec level (col_level col)) as [->|Hne].
      * apply nth_upd_same. exact Hl.
      * apply nth_upd_other. congruence.
    + unfold countersInvariant, countersConsistent.
      rewrite Hsum. rewrite Hc1, Hc2, !length_upd, Hn.
      repeat split; try assumption.
      rewrite sumZ_increment by exact Hl.
      rewrite <- (Zplus_mod_idemp_l (sumZ (m_nCollisions st2))), Hcons.
      now rewrite Zplus_mod_idemp_l.
    + rewrite !GetNumberOfElectronCollisions_sum, Hsum.
      now rewrite Zplus_mod_idemp_l.
Qed.

(** Without the de-excitation cascade the call always returns: a positive
    energy and a table that is up to date or can be rebuilt give a
    collision, at the level that the first uniform draw selects. *)
Lemma GetElectronCollision_without_cascade env steps draws st st2 rc e
      dx dy dz secondaries :
  0 < e ->
  updateTable env
    (if exceedsRange st e
     then snd (SetMaxElectronEnergy env st (1.05 * e)) else st)
    = (true, st2) ->
  m_useDeexcitation st2 = false ->
  exists col st' rc',
    GetElectronCollision env steps draws st rc e dx dy dz secondaries
      = Some (Some col, st', rc') /\
    col_level col
      = fst (fst (sampleProcess st2 e (RndmUniform env (nUniform rc)))).
Proof.
  intros He Hupd Hdxc. unfold GetElectronCollision.
  destruct (Rle_dec e 0) as [Hle|_]; [lra|].
  rewrite andb_false_r, Hupd.
  unfold drawUniform at 1.
  destruct (sampleProcess st2 e (RndmUniform env (nUniform rc)))
    as [[level angCut] angPar].
  cbn [fst].
  set (type := (nth level (m_csType st2) 0 mod nCsTypes)%nat).
  set (st3 := countCollision type level st2).
  assert (Hdxc3 : m_useDeexcitation st3 = false) by exact Hdxc.
  assert (Hend : forall loss sec ndxc st4 rc4,
    exists col st' rc',
      (let loss0 := clampLoss e loss in
       let '(ctheta0, rc5) := sampleCosine env st4 rc4 level angCut angPar in
       let s1 :=
         nth (nth level (m_csType st2) 0 / nCsTypes)%nat (m_rgas st4) 0 in
       let e1 := collisionEnergy (Small env) e loss0 s1 ctheta0 in
       let '(ctheta, stheta) :=
         collisionAngle (Small env) e loss0 s1 ctheta0 in
       let '(u, rc6) := drawUniform env rc5 in
       let phi := 2 * PI * u in
       let '(dx', dy', dz') := rotateDirection dx dy dz ctheta stheta phi in
       Some (Some {| col_type := type; col_level := level; col_e1 := e1;
                     col_dx := dx'; col_dy := dy'; col_dz := dz';
                     col_secondaries := sec; col_ndxc := ndxc |}, st4, rc6))
      = Some (Some col, st', rc') /\ col_level col = level).
  { intros loss sec ndxc st4 rc4. cbv zeta.
    destruct (sampleCosine _ _ _ _ _ _) as [ctheta0 rc5].
    destruct (collisionAngle _ _ _ _ _) as [ctheta stheta].
    unfold drawUniform.
    destruct (rotateDirection _ _ _ _ _ _) as [[dx' dy'] dz'].
    do 3 eexists. split; reflexivity. }
  destruct (type =? ElectronCollisionTypeIonisation)%nat.
  - unfold drawUniform at 1. apply Hend.
  - destruct (type =? ElectronCollisionTypeExcitation)%nat; [|apply Hend].
    rewrite Hdxc3. cbn [andb].
    destruct (m_usePenning st3); [|apply Hend].
    destruct (penningTransfer env st3 _ level _) as [[ndxc st4] rc4].
    apply Hend.
Qed.

Lemma penningSession_invariant : countersInvariant penningSession.
Proof. repeat split. Qed.

Lemma collision_counters_consistent_witness :
  let env :=
    exampleEnvironment (constantCrossSections []) (fun _ => 3 / 4) in
  let rc := {| nUniform := 0; nUniformPos := 0; nVoigt := 0 |} in
  exists col st' rc',
    GetElectronCollision env 1 1 penningSession rc 20 0 0 1 []
      = Some (Some col, st', rc') /\
    countersInvariant st' /\
    GetNumberOfElectronCollisions st' = 1%Z.
Proof.
  intros env rc.
  assert (Hrange : exceedsRange penningSession 20 = false).
  { unfold exceedsRange, Rltb.
    destruct (Rlt_dec (m_eFinal penningSession) 20) as [H|_];
      [simpl in H; lra | reflexivity]. }
  assert (Hupd :
    updateTable env
      (if exceedsRange penningSession 20
       then snd (SetMaxElectronEnergy env penningSession (1.05 * 20))
       else penningSession) = (true, penningSession)).
  { rewrite Hrange. reflexivity. }
  destruct (GetElectronCollision_without_cascade env 1%nat 1%nat
              penningSession penningSession rc 20 0 0 1 []
              ltac:(lra) Hupd eq_refl)
    as (col & st' & rc' & Hcall & Hlevel).
  change (RndmUniform env (nUniform rc)) with (3 / 4) in Hlevel.
  rewrite penningSession_level in Hlevel.
  destruct (collision_counters_consistent env penningSession)
    as (_ & _ & Hstep).
  destruct (Hstep 1%nat 1%nat rc 20 0 0 1 [] col st' rc'
              (fun _ => penningSession_invariant) Hcall)
    as (st2 & Hupd2 & _ & _ & _ & _ & Hinv & Hsum).
  - rewrite Hlevel.
    destruct (GetElectronCollision_counts env 1%nat 1%nat penningSession rc
                20 0 0 1 [] col st' rc' Hcall)
      as (st3 & Hupd3 & _ & _ & _ & Hn).
    rewrite Hn. rewrite Hupd in Hupd3. injection Hupd3 as <-.
    simpl. lia.
  - exists col, st', rc'. split; [exact Hcall|]. split; [exact Hinv|].
    rewrite Hsum. rewrite Hupd in Hupd2. injection Hupd2 as <-.
    reflexivity.
Defined.

(** ** A rebuild that does not fit *)

(** The test of lines 1556-1562: a gas whose terms do not fit ends the
    call, and the session is handed back as the loop found it. *)
Lemma mixGas_full env prefactor iGas ngs st :
  (nMaxLevels <=
   m_nTerms st
   + g_nIn (gasmix env (gasmixInput env st ngs
                          (Rmin (m_eFinal st) (m_eHigh st)) (m_eStep st)))
   + g_nIon (gasmix env (gasmixInput env st ngs
                           (Rmin (m_eFinal st) (m_eHigh st)) (m_eStep st)))
   + 1)%nat ->
  mixGas env prefactor iGas ngs st = (false, st).
Proof.
  intros H. unfold mixGas.
  apply Nat.leb_le in H. rewrite H. reflexivity.
Qed.

(** A first gas whose terms do not fit: Mixer hands back the emptied
    session. *)
Lemma Mixer_first_gas_full env st ngs rest :
  gasNumbersOf
    (map (fun i => nth i (m_gas st) ""%string) (seq 0 (m_nComponents st)))
  = Some (ngs :: rest) ->
  (nMaxLevels <=
   g_nIn (gasmix env (gasmixInput env st ngs
                        (Rmin (m_eFinal st) (m_eHigh st)) (m_eStep st)))
   + g_nIon (gasmix env (gasmixInput env st ngs
                           (Rmin (m_eFinal st) (m_eHigh st)) (m_eStep st)))
   + 1)%nat ->
  Mixer env st = (false, set_nTerms 0%nat (resetTables env st)).
Proof.
  intros Hgas Hfull. unfold Mixer. cbv zeta.
  change (m_gas (resetTables env st)) with (m_gas st).
  change (m_nComponents (resetTables env st)) with (m_nComponents st).
  rewrite Hgas. cbn [mixGases].
  rewrite mixGas_full; [reflexivity|]. exact Hfull.
Qed.

Lemma crowded_Mixer :
  let env := exampleEnvironment crowdedCrossSections (fun _ => 1 / 2) in
  Mixer env builtSession
  = (false, set_nTerms 0%nat (resetTables env builtSession)).
Proof.
  intros env.
  apply (Mixer_first_gas_full env builtSession 2%nat []).
  - cbn [m_gas m_nComponents builtSession set_isChanged set_cfNull
         set_cfTot newSession].
    reflexivity.
  - unfold env.
    cbn [gasmix exampleEnvironment g_nIn g_nIon crowdedCrossSections
         constantCrossSections].
    rewrite repeat_length. unfold nMaxLevels. lia.
Qed.

Lemma repeat_neq (x y : R) n :
  (0 < n)%nat -> x <> y -> repeat x n <> repeat y n.
Proof.
  intros Hn Hxy H. destruct n as [|n]; [lia|].
  simpl in H. injection H as H _. contradiction.
Qed.

(** The call fails on terms that do not fit, and the total rates of the
    earlier tables are gone. *)
Lemma Mixer_capacity_abort_empties_tables :
  let env := exampleEnvironment crowdedCrossSections (fun _ => 1 / 2) in
  fst (Mixer env builtSession) = false /\
  m_cfTot builtSession = repeat 5 nEnergySteps /\
  m_cfTot (snd (Mixer env builtSession)) = repeat 0 nEnergySteps /\
  m_cf (snd (Mixer env builtSession))
    = repeat (repeat 0 nMaxLevels) nEnergySteps /\
  m_cfTot (snd (Mixer env builtSession)) <> m_cfTot builtSession.
Proof.
  intros env. pose proof crowded_Mixer as H. cbv zeta in H. fold env in H.
  rewrite H. cbn [fst snd].
  split; [reflexivity|]. split; [reflexivity|]. split; [reflexivity|].
  split; [reflexivity|].
  change (repeat 0 nEnergySteps <> repeat 5 nEnergySteps).
  apply repeat_neq; [apply nEnergySteps_pos | lra].
Qed.

(** C6.  When Mixer fails, as it does when the cross-section terms of a
    gas do not fit into the [nMaxLevels] levels, it has emptied the rate
    tables before (lines 1434-1455): the total rates are zero in every bin
    of the linear and of the logarithmic grid.  The null-collision rate,
    the collision counters and the flag [m_isChanged] are those of before
    the call.  When it is the first gas whose terms do not fit, the call
    fails with a per-level table that is zero throughout and without
    terms. *)
Theorem Mixer_failure_leaves_empty_tables :
  forall (env : Environment) (st : MediumMagboltz),
    (fst (Mixer env st) = false ->
     m_cfTot (snd (Mixer env st)) = repeat 0 nEnergySteps /\
     m_cfTotLog (snd (Mixer env st)) = repeat 0 nEnergyStepsLog /\
     m_cfNull (snd (Mixer env st)) = m_cfNull st /\
     m_nCollisions (snd (Mixer env st)) = m_nCollisions st /\
     m_nCollisionsDetailed (snd (Mixer env st)) = m_nCollisionsDetailed st /\
     m_isChanged (snd (Mixer env st)) = m_isChanged st) /\
    (forall (ngs : nat) (rest : list nat),
       gasNumbersOf
         (map (fun i => nth i (m_gas st) ""%string)
            (seq 0 (m_nComponents st)))
       = Some (ngs :: rest) ->
       (nMaxLevels <=
        g_nIn (gasmix env (gasmixInput env st ngs
                             (Rmin (m_eFinal st) (m_eHigh st)) (m_eStep st)))
        + g_nIon (gasmix env (gasmixInput env st ngs
                                (Rmin (m_eFinal st) (m_eHigh st))
                                (m_eStep st)))
        + 1)%nat ->
       fst (Mixer env st) = false /\
       m_cf (snd (Mixer env st)) = repeat (repeat 0 nMaxLevels) nEnergySteps /\
       m_nTerms (snd (Mixer env st)) = 0%nat).
Proof.
  intros env st. split; [apply Mixer_failure|].
  intros ngs rest Hgas Hfull.
  rewrite (Mixer_first_gas_full env st ngs rest Hgas Hfull).
  repeat split.
Qed.

Lemma Mixer_failure_leaves_empty_tables_witness :
  let env := exampleEnvironment crowdedCrossSections (fun _ => 1 / 2) in
  fst (Mixer env builtSession) = false /\
  m_cfTot (snd (Mixer env builtSession)) = repeat 0 nEnergySteps /\
  m_cfNull (snd (Mixer env builtSession)) = 5 /\
  m_isChanged (snd (Mixer env builtSession)) = true.
Proof.
  intros env.
  destruct (Mixer_failure_leaves_empty_tables env builtSession)
    as [Hkept Hfull].
  destruct (Hfull 2%nat []) as (Hfail & _ & _).
  - cbn [m_gas m_nComponents builtSession set_isChanged set_cfNull
         set_cfTot newSession].
    reflexivity.
  - unfold env.
    cbn [gasmix exampleEnvironment g_nIn g_nIon crowdedCrossSections
         constantCrossSections].
    rewrite repeat_length. unfold nMaxLevels. lia.
  - destruct (Hkept Hfail) as (H1 & _ & H2 & _ & _ & H3).
    repeat split; assumption.
Defined.

(** ** Levels without de-excitation data *)

Lemma mapSet_In {A} (m : list (string * A)) k v : forall k' v',
  In (k', v') (mapSet m k v) -> (k', v') = (k, v) \/ In (k', v') m.
Proof.
  induction m as [|[k0 v0] t IH]; intros k' v' H; simpl in H.
  - destruct H as [H|[]]. left. now symmetry.
  - destruct (String.compare k k0).
    + destruct H as [H|H]; [left; now symmetry | right; now right].
    + destruct H as [H|H]; [left; now symmetry | right; exact H].
    + destruct H as [H|H]; [right; now left|].
      destruct (IH _ _ H) as [H'|H']; [now left | right; now right].
Qed.

(** Only levels whose label is known enter the map of the levels. *)
Lemma mapArgonLevels_known st :
  forall name i,
    In (name, i) (snd (mapArgonLevels st)) ->
    mapFind levelNamesAr
      (excitationLevelName (nth i (m_description st) ""%string))
    = Some name.
Proof.
  unfold mapArgonLevels.
  set (P := fun acc : option nat * list (string * nat) =>
              forall name i, In (name, i) (snd acc) ->
                mapFind levelNamesAr
                  (excitationLevelName (nth i (m_description st) ""%string))
                = Some name).
  change (P (fold_left
               (fun (acc : option nat * list (string * nat)) (i : nat) =>
                  let '(iAr, mapLevels) := acc in
                  if negb (Nat.eqb (nth i (m_csType st) 0%nat mod nCsTypes)
                                   ElectronCollisionTypeExcitation)
                  then acc
                  else
                    let ngas := (nth i (m_csType st) 0%nat / nCsTypes)%nat in
                    if (nth ngas (m_gas st) "" =? "Ar")%string then
                      let iAr' :=
                        match iAr with None => Some ngas | Some _ => iAr end in
                      match mapFind levelNamesAr
                              (excitationLevelName
                                 (nth i (m_description st) ""%string)) with
                      | Some name => (iAr', mapSet mapLevels name i)
                      | None => (iAr', mapLevels)
                      end
                    else acc)
               (seq 0 (m_nTerms st)) (None, []))).
  apply (fold_left_rel (fun a b => P a -> P b)).
  - intros a H. exact H.
  - intros a b c Hab Hbc Ha. apply Hbc, Hab, Ha.
  - intros [iAr mapLevels] j Hacc.
    destruct (negb _); [exact Hacc|].
    cbv zeta. destruct (_ =? _)%string; [|exact Hacc].
    destruct (mapFind levelNamesAr _) as [known|] eqn:Hfind; [|exact Hacc].
    intros n k Hin. cbn [snd] in Hin.
    destruct (mapSet_In _ _ _ _ _ Hin) as [Heq|Hold].
    + injection Heq as -> ->. exact Hfind.
    + apply Hacc. exact Hold.
  - intros n k [].
Qed.

Lemma countLevels_untouched i (d : Z) : forall mapLevels lvl iD n,
  (forall name, ~ In (name, i) mapLevels) ->
  nth i (snd (fst (countLevels mapLevels lvl iD n))) d = nth i iD d.
Proof.
  induction mapLevels as [|[level j] rest IH]; intros lvl iD n Hnot; simpl.
  - reflexivity.
  - rewrite IH by (intros name Hin; apply (Hnot name); now right).
    apply nth_upd_other. intros ->. apply (Hnot level). now left.
Qed.

(** A level whose label is not among the names of [levelNamesAr] gets no
    entry in the de-excitation table: its index stays at -1. *)
Lemma ComputeDeexcitationTable_unknown env st i :
  knownLevelName st i = None ->
  nth i (m_iDeexcitation (ComputeDeexcitationTable env st)) (-1)%Z = (-1)%Z.
Proof.
  intros Hunknown. unfold knownLevelName in Hunknown.
  unfold ComputeDeexcitationTable.
  set (st0 := set_deexcitations []
                (set_iDeexcitation (repeat (-1)%Z nMaxLevels) st)).
  pose proof (fun name => mapArgonLevels_known st0 name i) as Hknown.
  destruct (mapArgonLevels st0) as [iAr mapLevels]. cbn [snd] in Hknown.
  pose proof (countLevels_untouched i (-1)%Z mapLevels []
                (m_iDeexcitation st0) 0) as Hcount.
  destruct (countLevels mapLevels [] (m_iDeexcitation st0) 0)
    as [[lvl iDeexcitation] nDeexcitations].
  cbn [fst snd] in Hcount.
  assert (Hi : nth i iDeexcitation (-1)%Z = (-1)%Z).
  { rewrite Hcount.
    - apply nth_repeat.
    - intros name Hin. specialize (Hknown name Hin).
      change (m_description st0) with (m_description st) in Hknown.
      congruence. }
  destruct (radiativeLoop _ _ _ _ _) as [dxcs complete].
  destruct (negb complete); exact Hi.
Qed.

(** ** The build with a level that has no de-excitation data *)

Lemma finishRates_kept env st :
  m_description (finishRates env st) = m_description st /\
  m_csType (finishRates env st) = m_csType st /\
  m_gas (finishRates env st) = m_gas st /\
  m_nTerms (finishRates env st) = m_nTerms st /\
  m_useDeexcitation (finishRates env st) = m_useDeexcitation st /\
  m_iDeexcitation (finishRates env st) = m_iDeexcitation st.
Proof.
  unfold finishRates, normaliseTables.
  destruct (mixRowsLin _ _ _ _ _ _) as [cf cfTot].
  cbn [m_eHigh m_eFinal set_cfTot set_cf set_minIonPot].
  destruct (Rlt_dec _ _); [|repeat split].
  destruct (mixRowsLog _ _ _ _ _ _ _) as [cfLog cfTotLog].
  repeat split.
Qed.

(** The session that Mixer hands back has the levels that the loop over
    the gases wrote. *)
Lemma finishMixer_levels env st :
  m_description (finishMixer env st) = m_description st /\
  m_csType (finishMixer env st) = m_csType st /\
  m_gas (finishMixer env st) = m_gas st /\
  m_nTerms (finishMixer env st) = m_nTerms st.
Proof.
  unfold finishMixer.
  pose proof (lateStages_kept env (finishRates env st)) as H.
  destruct (finishRates_kept env st) as (H1 & H2 & H3 & H4 & _).
  unfold keptByLateStages in H.
  repeat match goal with H : _ /\ _ |- _ => destruct H end.
  repeat split; congruence.
Qed.

Lemma set_useDeexcitation_iDeexcitation b st :
  m_iDeexcitation (set_useDeexcitation b st) = m_iDeexcitation st.
Proof. reflexivity. Qed.

Lemma deexcitationStage_unknown env st i :
  m_iDeexcitation st = repeat (-1)%Z nMaxLevels ->
  knownLevelName st i = None ->
  nth i (m_iDeexcitation (deexcitationStage env st)) (-1)%Z = (-1)%Z.
Proof.
  intros Hreset Hunknown. unfold deexcitationStage.
  destruct (m_useDeexcitation st).
  - pose proof (ComputeDeexcitationTable_unknown env st i Hunknown) as H.
    destruct (existsb _ _).
    + rewrite set_useDeexcitation_iDeexcitation. exact H.
    + exact H.
  - rewrite Hreset. apply nth_repeat.
Qed.

Lemma knownLevelName_description st st' i :
  m_description st' = m_description st ->
  knownLevelName st' i = knownLevelName st i.
Proof. intros H. unfold knownLevelName. rewrite H. reflexivity. Qed.

Lemma finishMixer_unknown env st i :
  m_iDeexcitation st = repeat (-1)%Z nMaxLevels ->
  knownLevelName st i = None ->
  nth i (m_iDeexcitation (finishMixer env st)) (-1)%Z = (-1)%Z.
Proof.
  intros Hreset Hunknown. unfold finishMixer.
  destruct (afterDeexcitation_kept env
              (deexcitationStage env (finishRates env st))) as [_ Hi].
  rewrite Hi.
  destruct (finishRates_kept env st) as (Hd & _ & _ & _ & _ & Hr).
  apply deexcitationStage_unknown.
  - rewrite Hr. exact Hreset.
  - rewrite (knownLevelName_description _ _ i Hd). exact Hunknown.
Qed.

Lemma mixGases_reset env prefactor numbers iGas st st1 :
  mixGases env prefactor iGas numbers st = (true, st1) ->
  m_iDeexcitation st1 = m_iDeexcitation st.
Proof.
  intros H. pose proof (mixGases_kept env prefactor numbers iGas st) as Hk.
  rewrite H in Hk. unfold keptByGasLoop in Hk. cbn [snd] in Hk.
  repeat match goal with H : _ /\ _ |- _ => destruct H end.
  assumption.
Qed.

Lemma resetTables_iDeexcitation env st :
  m_iDeexcitation (set_nTerms 0%nat (resetTables env st))
  = repeat (-1)%Z nMaxLevels.
Proof. reflexivity. Qed.

(** What a successful call of Mixer is made of. *)
Lemma Mixer_true env st st' :
  Mixer env st = (true, st') ->
  exists numbers st1,
    gasNumbersOf
      (map (fun i => nth i (m_gas st) ""%string) (seq 0 (m_nComponents st)))
    = Some numbers /\
    mixGases env
      (numberDensity env st * SpeedOfLight env * sqrt (2 / ElectronMass env))
      0 numbers (set_nTerms 0%nat (resetTables env st)) = (true, st1) /\
    st' = finishMixer env st1.
Proof.
  unfold Mixer. cbv zeta.
  change (m_gas (resetTables env st)) with (m_gas st).
  change (m_nComponents (resetTables env st)) with (m_nComponents st).
  destruct (gasNumbersOf _) as [numbers|]; [|discriminate].
  destruct (mixGases _ _ _ _ _) as [[|] st1] eqn:Hloop; [|discriminate].
  intros Heq. injection Heq as <-. exists numbers, st1.
  split; [reflexivity|]. split; [exact Hloop | reflexivity].
Qed.

(** In the session that a successful Mixer hands back, a level whose
    label is not known has no de-excitation entry. *)
Lemma Mixer_unknown env st st' i :
  Mixer env st = (true, st') ->
  knownLevelName st' i = None ->
  nth i (m_iDeexcitation st') (-1)%Z = (-1)%Z.
Proof.
  intros HM Hunknown.
  destruct (Mixer_true env st st' HM) as (numbers & st1 & _ & Hloop & ->).
  destruct (finishMixer_levels env st1) as (Hd & _).
  rewrite (knownLevelName_description _ _ i Hd) in Hunknown.
  apply finishMixer_unknown; [|exact Hunknown].
  rewrite (mixGases_reset _ _ _ _ _ _ Hloop).
  apply resetTables_iDeexcitation.
Qed.

(** Mixer succeeds exactly when all gases are known to Magboltz and the
    terms of every gas fit; nothing after the loop over the gases makes
    it fail. *)
Lemma Mixer_outcome env st :
  fst (Mixer env st)
  = match gasNumbersOf
            (map (fun i => nth i (m_gas st) ""%string)
               (seq 0 (m_nComponents st))) with
    | None => false
    | Some numbers =>
        fst (mixGases env
               (numberDensity env st * SpeedOfLight env
                * sqrt (2 / ElectronMass env))
               0 numbers (set_nTerms 0%nat (resetTables env st)))
    end.
Proof.
  unfold Mixer. cbv zeta.
  change (m_gas (resetTables env st)) with (m_gas st).
  change (m_nComponents (resetTables env st)) with (m_nComponents st).
  destruct (gasNumbersOf _) as [numbers|]; [|reflexivity].
  destruct (mixGases _ _ _ _ _) as [[|] st1]; reflexivity.
Qed.

Lemma fst_mixGas env prefactor iGas ngs st :
  fst (mixGas env prefactor iGas ngs st)
  = negb (nMaxLevels <=?
          m_nTerms st
          + g_nIn (gasmix env (gasmixInput env st ngs
                                 (Rmin (m_eFinal st) (m_eHigh st))
                                 (m_eStep st)))
          + g_nIon (gasmix env (gasmixInput env st ngs
                                  (Rmin (m_eFinal st) (m_eHigh st))
                                  (m_eStep st)))
          + 1)%nat.
Proof.
  unfold mixGas.
  destruct (nMaxLevels <=? _)%nat; [reflexivity|].
  destruct (fold_left _ _ _) as [np st1].
  destruct (fillRowsLin _ _ _ _ _ _ _ _ _ _) as [[cf cut] par].
  destruct (Rle_dec _ _); [reflexivity|].
  destruct (fillRowsLog _ _ _ _ _ _ _ _ _ _ _ _) as [[cfLog cutLog] parLog].
  reflexivity.
Qed.

(** The description and the type that [writeLevel] gives to a term. *)
Lemma writeLevel_level out iGas r np st src :
  fst (writeLevel out iGas r (np, st) src) = S np /\
  m_gas (snd (writeLevel out iGas r (np, st) src)) = m_gas st /\
  m_description (snd (writeLevel out iGas r (np, st) src))
  = upd (m_description st) np
      match src with
      | CsElastic => g_scrpt out 1
      | CsIonisation j => g_scrpt out (2 + j)
      | CsIonisationGross => g_scrpt out 2
      | CsAttachment => g_scrpt out (2 + g_nIon out)
      | CsInelastic j => g_scrpt out (5 + g_nIon out + j)
      end /\
  m_csType (snd (writeLevel out iGas r (np, st) src))
  = upd (m_csType st) np
      (nCsTypes * iGas +
       match src with
       | CsElastic => ElectronCollisionTypeElastic
       | CsIonisation _ | CsIonisationGross => ElectronCollisionTypeIonisation
       | CsAttachment => ElectronCollisionTypeAttachment
       | CsInelastic j =>
           inelasticType (nth iGas (m_gas st) ""%string)
             (g_scrpt out (5 + g_nIon out + j)) (g_eIn out j)
       end)%nat.
Proof. destruct src; repeat split. Qed.

Lemma writeLevels_below out iGas r : forall terms np st j,
  (j < np)%nat ->
  let st' := snd (fold_left (writeLevel out iGas r) terms (np, st)) in
  m_gas st' = m_gas st /\
  nth j (m_description st') ""%string = nth j (m_description st) ""%string /\
  nth j (m_csType st') 0%nat = nth j (m_csType st) 0%nat.
Proof.
  induction terms as [|src terms IH]; intros np st j Hj; [repeat split|].
  cbn [fold_left].
  destruct (writeLevel_level out iGas r np st src) as (Hn & Hg & Hd & Hc).
  destruct (writeLevel out iGas r (np, st) src) as [np' st'].
  cbn [fst snd] in Hn, Hg, Hd, Hc. subst np'.
  destruct (IH (S np) st' j ltac:(lia)) as (IHg & IHd & IHc).
  cbv zeta. rewrite IHg, IHd, IHc, Hg, Hd, Hc.
  repeat split; apply nth_upd_other; lia.
Qed.

(** Term [k] of a gas is described and typed as its source says. *)
Lemma writeLevels_level out iGas r : forall terms np st k src,
  nth_error terms k = Some src ->
  (np + k < length (m_description st))%nat ->
  (np + k < length (m_csType st))%nat ->
  let st' := snd (fold_left (writeLevel out iGas r) terms (np, st)) in
  nth (np + k) (m_description st') ""%string
  = match src with
    | CsElastic => g_scrpt out 1
    | CsIonisation j => g_scrpt out (2 + j)
    | CsIonisationGross => g_scrpt out 2
    | CsAttachment => g_scrpt out (2 + g_nIon out)
    | CsInelastic j => g_scrpt out (5 + g_nIon out + j)
    end /\
  nth (np + k) (m_csType st') 0%nat
  = (nCsTypes * iGas +
     match src with
     | CsElastic => ElectronCollisionTypeElastic
     | CsIonisation _ | CsIonisationGross => ElectronCollisionTypeIonisation
     | CsAttachment => ElectronCollisionTypeAttachment
     | CsInelastic j =>
         inelasticType (nth iGas (m_gas st) ""%string)
           (g_scrpt out (5 + g_nIon out + j)) (g_eIn out j)
     end)%nat.
Proof.
  induction terms as [|src0 terms IH]; intros np st k src Hk Hlen1 Hlen2;
    [destruct k; discriminate|].
  cbn [fold_left].
  destruct (writeLevel_level out iGas r np st src0) as (Hn & Hg & Hd & Hc).
  destruct (writeLevel out iGas r (np, st) src0) as [np' st'].
  cbn [fst snd] in Hn, Hg, Hd, Hc. subst np'.
  destruct k as [|k].
  - injection Hk as ->. rewrite Nat.add_0_r in *.
    destruct (writeLevels_below out iGas r terms (S np) st' np ltac:(lia))
      as (_ & Bd & Bc).
    cbv zeta. rewrite Bd, Bc, Hd, Hc.
    split; apply nth_upd_same; assumption.
  - replace (np + S k)%nat with (S np + k)%nat by lia.
    rewrite <- Hg.
    apply IH; [exact Hk | rewrite Hd, length_upd; lia
              | rewrite Hc, length_upd; lia].
Qed.

(** A single gas whose terms fit. *)
Lemma Mixer_single_gas env st ngs :
  let s0 := set_nTerms 0%nat (resetTables env st) in
  let prefactor :=
    numberDensity env st * SpeedOfLight env * sqrt (2 / ElectronMass env) in
  gasNumbersOf
    (map (fun i => nth i (m_gas st) ""%string) (seq 0 (m_nComponents st)))
  = Some [ngs] ->
  fst (mixGas env prefactor 0 ngs s0) = true ->
  Mixer env st = (true, finishMixer env (snd (mixGas env prefactor 0 ngs s0))).
Proof.
  intros s0 prefactor Hgas Hfit. unfold Mixer. cbv zeta.
  change (m_gas (resetTables env st)) with (m_gas st).
  change (m_nComponents (resetTables env st)) with (m_nComponents st).
  rewrite Hgas. cbn [mixGases]. fold s0. fold prefactor.
  destruct (mixGas env prefactor 0 ngs s0) as [[|] st1];
    [reflexivity | discriminate].
Qed.

Lemma hasIonisation_single eFinal out :
  g_nIon out = 0%nat -> g_e out 2 <= eFinal ->
  hasIonisation eFinal out = true /\
  termsOf eFinal true out
  = (CsElastic :: CsIonisationGross :: CsAttachment
     :: map CsInelastic (seq 0 (g_nIn out))).
Proof.
  intros Hn He. unfold hasIonisation, termsOf. rewrite Hn.
  cbn [Nat.ltb Nat.leb app].
  destruct (Rge_dec eFinal (g_e out 2)) as [_|H]; [split; reflexivity | lra].
Qed.

(** The levels that one pass of the loop over the gases leaves are those
    that [writeLevel] wrote. *)
Lemma mixGas_levels env prefactor iGas ngs st :
  let out :=
    gasmix env
      (gasmixInput env st ngs (Rmin (m_eFinal st) (m_eHigh st)) (m_eStep st)) in
  let r := 1 + 0.5 * g_e out 1 in
  let written :=
    snd (fold_left (writeLevel out iGas r)
           (termsOf (m_eFinal st) (hasIonisation (m_eFinal st) out) out)
           (m_nTerms st, set_rgas (upd (m_rgas st) iGas r) st)) in
  fst (mixGas env prefactor iGas ngs st) = true ->
  m_description (snd (mixGas env prefactor iGas ngs st))
    = m_description written /\
  m_csType (snd (mixGas env prefactor iGas ngs st)) = m_csType written.
Proof.
  intros out r written. unfold mixGas. fold out. fold r.
  destruct (nMaxLevels <=? _)%nat; [discriminate|]. intros _.
  cbn [m_eFinal set_rgas]. unfold written. clear written.
  destruct (fold_left _ _ _) as [np st1]. cbn [snd].
  assert (Hw : m_description (writeIonisationPotential out iGas st1)
               = m_description st1 /\
               m_csType (writeIonisationPotential out iGas st1)
               = m_csType st1).
  { unfold writeIonisationPotential.
    destruct (1 <? g_nIon out)%nat; [split; reflexivity|].
    destruct (Rge_dec _ _); split; reflexivity. }
  destruct (fillRowsLin _ _ _ _ _ _ _ _ _ _) as [[cf cut] par].
  destruct (Rle_dec _ _); [exact Hw|].
  destruct (fillRowsLog _ _ _ _ _ _ _ _ _ _ _ _) as [[cfLog cutLog] parLog].
  exact Hw.
Qed.

Lemma nth_error_inelastic n j :
  (j < n)%nat ->
  nth_error (CsElastic :: CsIonisationGross :: CsAttachment
             :: map CsInelastic (seq 0 n)) (3 + j)
  = Some (CsInelastic j).
Proof.
  intros Hj. cbn [Nat.add nth_error].
  rewrite nth_error_map, nth_error_seq.
  apply Nat.ltb_lt in Hj. rewrite Hj. reflexivity.
Qed.

(** Mixer on a single gas without separate ionisation terms, whose
    ionisation threshold is within the energy range and whose terms fit:
    the call succeeds, and inelastic term [j] of the Magboltz data is
    level [3 + j] of the session. *)
Lemma Mixer_single_gas_levels env st ngs out j :
  (forall input, gasmix env input = out) ->
  gasNumbersOf
    (map (fun i => nth i (m_gas st) ""%string) (seq 0 (m_nComponents st)))
  = Some [ngs] ->
  g_nIon out = 0%nat -> (g_nIn out + 1 < nMaxLevels)%nat ->
  g_e out 2 <= m_eFinal st -> (j < g_nIn out)%nat ->
  (3 + j < length (m_description st))%nat ->
  (3 + j < length (m_csType st))%nat ->
  exists st',
    Mixer env st = (true, st') /\
    nth (3 + j) (m_description st') ""%string = g_scrpt out (5 + j) /\
    nth (3 + j) (m_csType st') 0%nat
    = inelasticType (nth 0 (m_gas st) ""%string) (g_scrpt out (5 + j))
        (g_eIn out j).
Proof.
  intros Hout Hgas Hion Hfit He Hj Hlen1 Hlen2.
  set (s0 := set_nTerms 0%nat (resetTables env st)).
  set (prefactor :=
         numberDensity env st * SpeedOfLight env
         * sqrt (2 / ElectronMass env)).
  assert (Hok : fst (mixGas env prefactor 0 ngs s0) = true).
  { rewrite fst_mixGas, !Hout, Hion.
    change (m_nTerms s0) with 0%nat.
    apply negb_true_iff, Nat.leb_gt. lia. }
  exists (finishMixer env (snd (mixGas env prefactor 0 ngs s0))).
  split; [apply Mixer_single_gas; assumption|].
  destruct (finishMixer_levels env (snd (mixGas env prefactor 0 ngs s0)))
    as (Hd & Hc & _).
  rewrite Hd, Hc.
  destruct (mixGas_levels env prefactor 0 ngs s0 Hok) as (Hd1 & Hc1).
  rewrite Hd1, Hc1. clear Hd Hc Hd1 Hc1.
  rewrite !Hout.
  change (m_eFinal s0) with (m_eFinal st).
  change (m_nTerms s0) with 0%nat.
  destruct (hasIonisation_single (m_eFinal st) out Hion He) as (-> & ->).
  pose proof (writeLevels_level out 0 (1 + 0.5 * g_e out 1)
                (CsElastic :: CsIonisationGross :: CsAttachment
                 :: map CsInelastic (seq 0 (g_nIn out)))
                0 (set_rgas (upd (m_rgas s0) 0 (1 + 0.5 * g_e out 1)) s0)
                (3 + j) (CsInelastic j) (nth_error_inelastic _ _ Hj))
    as Hlevel.
  cbv zeta in Hlevel. rewrite Hion in Hlevel.
  change (0 + (3 + j))%nat with (3 + j)%nat in Hlevel.
  change (5 + 0 + j)%nat with (5 + j)%nat in Hlevel.
  apply Hlevel.
  - exact Hlen1.
  - exact Hlen2.
Qed.

Lemma Mixer_gas env st st' :
  Mixer env st = (true, st') -> m_gas st' = m_gas st.
Proof.
  intros HM.
  destruct (Mixer_true env st st' HM) as (numbers & st1 & _ & Hloop & ->).
  destruct (finishMixer_levels env st1) as (_ & _ & Hg & _).
  rewrite Hg.
  pose proof (mixGases_kept env
                (numberDensity env st * SpeedOfLight env
                 * sqrt (2 / ElectronMass env))
                numbers 0 (set_nTerms 0%nat (resetTables env st))) as Hk.
  rewrite Hloop in Hk. unfold keptByGasLoop in Hk. cbn [snd] in Hk.
  repeat match goal with H : _ /\ _ |- _ => destruct H end.
  match goal with H : m_gas st1 = _ |- _ => rewrite H end.
  reflexivity.
Qed.

(** The argon session whose Magboltz data have a level of unknown label:
    Mixer succeeds, and level 4 of the session it hands back is that
    level, an excitation of argon. *)
Lemma unknownLevel_session :
  let env := exampleEnvironment unknownLevelCrossSections (fun _ => 1 / 2) in
  exists st',
    Mixer env deexcitationSession = (true, st') /\
    nth 4 (m_description st') ""%string = excitationDescription "XYZ    " /\
    (nth 4 (m_csType st') 0 mod nCsTypes)%nat
      = ElectronCollisionTypeExcitation /\
    nth (nth 4 (m_csType st') 0 / nCsTypes)%nat (m_gas st') ""%string
      = "Ar"%string /\
    knownLevelName st' 4 = None.
Proof.
  intros env.
  destruct (Mixer_single_gas_levels env deexcitationSession 2
              unknownLevelCrossSections 1)
    as (st' & HM & Hd & Hc).
  - intros input. reflexivity.
  - cbn [m_gas m_nComponents deexcitationSession set_useDeexcitation
         newSession].
    reflexivity.
  - reflexivity.
  - cbn [g_nIn unknownLevelCrossSections constantCrossSections length].
    unfold nMaxLevels. lia.
  - cbn [g_e unknownLevelCrossSections constantCrossSections m_eFinal
         deexcitationSession set_useDeexcitation newSession].
    lra.
  - cbn [g_nIn unknownLevelCrossSections constantCrossSections length]. lia.
  - cbn [m_description deexcitationSession set_useDeexcitation newSession].
    rewrite repeat_length. unfold nMaxLevels. lia.
  - cbn [m_csType deexcitationSession set_useDeexcitation newSession].
    rewrite repeat_length. unfold nMaxLevels. lia.
  - exists st'. split; [exact HM|].
    change (3 + 1)%nat with 4%nat in Hd, Hc.
    assert (Hdescr : nth 4 (m_description st') ""%string
                     = excitationDescription "XYZ    ")
      by (rewrite Hd; reflexivity).
    assert (Htype : nth 4 (m_csType st') 0%nat = 4%nat)
      by (rewrite Hc; reflexivity).
    split; [exact Hdescr|].
    rewrite Htype, (Mixer_gas _ _ _ HM).
    split; [reflexivity|]. split; [reflexivity|].
    unfold knownLevelName. rewrite Hdescr. reflexivity.
Qed.

(** Mixer succeeds although an excitation level of argon has a label
    without de-excitation data, with de-excitation handling switched on. *)
Lemma Mixer_succeeds_with_unknown_level :
  let env := exampleEnvironment unknownLevelCrossSections (fun _ => 1 / 2) in
  m_useDeexcitation deexcitationSession = true /\
  exists st',
    Mixer env deexcitationSession = (true, st') /\
    nth 4 (m_description st') ""%string = excitationDescription "XYZ    " /\
    (nth 4 (m_csType st') 0 mod nCsTypes)%nat
      = ElectronCollisionTypeExcitation /\
    nth (nth 4 (m_csType st') 0 / nCsTypes)%nat (m_gas st') ""%string
      = "Ar"%string /\
    knownLevelName st' 4 = None.
Proof.
  intros env. split; [reflexivity|]. apply unknownLevel_session.
Qed.

(** C7.  During the construction of the de-excitation table, a level
    whose label has no entry among the names of the knowledge base
    ([levelNamesAr]) is left out: its index in [m_iDeexcitation] is -1
    after ComputeDeexcitationTable, so that no cascade starts from it, and
    it is -1 in the session that a successful Mixer hands back.  The
    construction is not a failure of the build: Mixer returns true exactly
    when all gases are known to Magboltz and the loop over the gases
    succeeds, whatever the labels of the levels. *)
Theorem unknown_level_is_skipped :
  forall (env : Environment) (st : MediumMagboltz),
    (forall i,
       knownLevelName st i = None ->
       nth i (m_iDeexcitation (ComputeDeexcitationTable env st)) (-1)%Z
       = (-1)%Z) /\
    (forall st' i,
       Mixer env st = (true, st') ->
       knownLevelName st' i = None ->
       nth i (m_iDeexcitation st') (-1)%Z = (-1)%Z) /\
    fst (Mixer env st)
    = match gasNumbersOf
              (map (fun i => nth i (m_gas st) ""%string)
                 (seq 0 (m_nComponents st))) with
      | None => false
      | Some numbers =>
          fst (mixGases env
                 (numberDensity env st * SpeedOfLight env
                  * sqrt (2 / ElectronMass env))
                 0 numbers (set_nTerms 0%nat (resetTables env st)))
      end.
Proof.
  intros env st. split; [|split].
  - intros i. apply ComputeDeexcitationTable_unknown.
  - intros st' i. apply Mixer_unknown.
  - apply Mixer_outcome.
Qed.

Lemma unknown_level_is_skipped_witness :
  let env := exampleEnvironment unknownLevelCrossSections (fun _ => 1 / 2) in
  exists st',
    Mixer env deexcitationSession = (true, st') /\
    knownLevelName st' 4 = None /\
    nth 4 (m_iDeexcitation st') (-1)%Z = (-1)%Z.
Proof.
  intros env.
  destruct unknownLevel_session as (st' & HM & _ & _ & _ & Hunknown).
  fold env in HM.
  destruct (unknown_level_is_skipped env deexcitationSession)
    as (_ & Hskip & _).
  exists st'. split; [exact HM|]. split; [exact Hunknown|].
  apply (Hskip st' 4%nat HM Hunknown).
Defined.

(** ** The cascade *)

(** *** Cumulative branching ratios *)

Lemma sumFirst_eq n : forall p acc,
  sumFirst n p acc = acc + sumR (firstn n p).
Proof.
  induction n as [|n IH]; intros [|x p] acc; simpl; try lra.
  rewrite IH. lra.
Qed.

Lemma branchingFrom_nth n rate : forall p prev j,
  (j < n)%nat -> (j < length p)%nat ->
  nth j (branchingFrom n rate prev p) 0
  = prev + sumR (firstn (S j) p) / rate.
Proof.
  induction n as [|n IH]; intros [|x p] prev j Hn Hp; simpl in *; try lia.
  destruct j as [|j].
  - simpl. unfold Rdiv. lra.
  - rewrite IH by lia. simpl. unfold Rdiv. lra.
Qed.

Lemma branchingCumulative_nth n rate p j :
  (j < n)%nat -> (j < length p)%nat ->
  nth j (branchingCumulative n rate p) 0 = sumR (firstn (S j) p) / rate.
Proof.
  intros Hn Hp. destruct n as [|n]; [lia|].
  destruct p as [|x p]; [simpl in Hp; lia|].
  unfold branchingCumulative. destruct j as [|j].
  - simpl. unfold Rdiv. lra.
  - cbn [nth]. rewrite branchingFrom_nth by (simpl in Hp; lia).
    simpl. unfold Rdiv. lra.
Qed.

Lemma length_branchingFrom n rate : forall p prev,
  length (branchingFrom n rate prev p) = length p.
Proof.
  induction n as [|n IH]; intros [|x p] prev; simpl; try reflexivity.
  now rewrite IH.
Qed.

Lemma length_branchingCumulative n rate p :
  length (branchingCumulative n rate p) = length p.
Proof.
  destruct n as [|n]; destruct p as [|x p]; simpl; try reflexivity.
  now rewrite length_branchingFrom.
Qed.

Lemma sumR_firstn_S (p : list R) k :
  (k < length p)%nat ->
  sumR (firstn (S k) p) = sumR (firstn k p) + nth k p 0.
Proof.
  revert k. induction p as [|x p IH]; intros k Hk; simpl in Hk; [lia|].
  destruct k as [|k].
  - simpl. lra.
  - cbn [firstn sumR fold_right nth] in *.
    change (fold_right Rplus 0 (firstn (S k) p)) with (sumR (firstn (S k) p)).
    rewrite IH by lia. unfold sumR. lra.
Qed.

(** What the normalisation leaves of an entry with non-negative rates, one
    of which is positive. *)
Lemma normaliseDeexcitation_channels dxc k :
  (k < length (dxc_type dxc))%nat ->
  (length (dxc_type dxc) <= length (dxc_p dxc))%nat ->
  Forall (fun x => 0 <= x) (dxc_p dxc) ->
  0 < nth k (dxc_p dxc) 0 ->
  let dxc' := normaliseDeexcitation dxc in
  0 < dxc_rate dxc' /\
  length (dxc_p dxc') = length (dxc_p dxc) /\
  dxc_final dxc' = dxc_final dxc /\
  dxc_type dxc' = dxc_type dxc /\
  dxc_label dxc' = dxc_label dxc /\
  forall j, (j < length (dxc_type dxc))%nat ->
    nth j (dxc_p dxc') 0 = sumR (firstn (S j) (dxc_p dxc)) / dxc_rate dxc'.
Proof.
  intros Hk Hlen Hpos Hpk. cbv zeta. unfold normaliseDeexcitation.
  set (n := length (dxc_type dxc)) in *.
  rewrite sumFirst_eq, Rplus_0_l.
  assert (Hrate : 0 < sumR (firstn n (dxc_p dxc))).
  { apply Rlt_le_trans with (sumR (firstn (S k) (dxc_p dxc))).
    - rewrite sumR_firstn_S by lia.
      pose proof (sumR_firstn_nonneg (dxc_p dxc) k Hpos). lra.
    - apply sumR_firstn_mono; [exact Hpos | lia]. }
  destruct (Rlt_dec 0 (sumR (firstn n (dxc_p dxc)))) as [_|Hn]; [|lra].
  cbn [dxc_rate dxc_p dxc_final dxc_type dxc_label set_dxc_p set_dxc_rate].
  split; [exact Hrate|].
  split; [apply length_branchingCumulative|].
  repeat split.
  intros j Hj. apply branchingCumulative_nth; lia.
Qed.

(** *** Choice of the channel *)

Lemma selectChannelFrom_pick dxc r : forall ps j0 k,
  (k < length ps)%nat ->
  (forall j, (j < k)%nat -> nth j ps 0 < r) ->
  r <= nth k ps 0 ->
  selectChannelFrom j0 ps dxc r
  = (nth (j0 + k) (dxc_final dxc) (-1)%Z,
     nth (j0 + k) (dxc_type dxc) DxcTypeRad).
Proof.
  induction ps as [|p ps IH]; intros j0 k Hk Hbelow Hat; simpl in Hk; [lia|].
  cbn [selectChannelFrom]. destruct k as [|k].
  - simpl in Hat. destruct (Rle_dec r p) as [_|Hn]; [|lra].
    now rewrite Nat.add_0_r.
  - pose proof (Hbelow 0%nat ltac:(lia)) as H0. simpl in H0.
    destruct (Rle_dec r p) as [Hle|_]; [lra|].
    replace (j0 + S k)%nat with (S j0 + k)%nat by lia.
    apply IH; [lia| |exact Hat].
    intros j Hj. apply (Hbelow (S j)). lia.
Qed.

(** The draw that equals the cumulative branching ratio of a channel of
    positive rate selects that channel. *)
Lemma selectChannel_normalised dxc k :
  (k < length (dxc_type dxc))%nat ->
  (length (dxc_type dxc) <= length (dxc_p dxc))%nat ->
  Forall (fun x => 0 <= x) (dxc_p dxc) ->
  0 < nth k (dxc_p dxc) 0 ->
  let dxc' := normaliseDeexcitation dxc in
  selectChannel dxc' (nth k (dxc_p dxc') 0)
  = (nth k (dxc_final dxc) (-1)%Z, nth k (dxc_type dxc) DxcTypeRad).
Proof.
  intros Hk Hlen Hpos Hpk dxc'.
  destruct (normaliseDeexcitation_channels dxc k Hk Hlen Hpos Hpk)
    as (Hrate & Hl & Hf & Ht & _ & Hp).
  fold dxc' in Hrate, Hl, Hf, Ht, Hp.
  unfold selectChannel.
  rewrite (selectChannelFrom_pick dxc' _ (dxc_p dxc') 0 k).
  - rewrite Hf, Ht. reflexivity.
  - lia.
  - intros j Hj. rewrite !Hp by lia.
    apply Rmult_lt_compat_r; [apply Rinv_0_lt_compat; exact Hrate|].
    apply Rle_lt_trans with (sumR (firstn k (dxc_p dxc))).
    + apply sumR_firstn_mono; [exact Hpos | lia].
    + rewrite (sumR_firstn_S _ k) by lia. lra.
  - lra.
Qed.

(** Such a draw is one that [RndmUniform] can give when a later channel
    has a positive rate as well: it lies between 0 and 1. *)
Lemma branchingRatio_range dxc k :
  (S k < length (dxc_type dxc))%nat ->
  (length (dxc_type dxc) <= length (dxc_p dxc))%nat ->
  Forall (fun x => 0 <= x) (dxc_p dxc) ->
  0 < nth k (dxc_p dxc) 0 -> 0 < nth (S k) (dxc_p dxc) 0 ->
  0 < nth k (dxc_p (normaliseDeexcitation dxc)) 0 < 1.
Proof.
  intros Hk Hlen Hpos Hpk Hpk1.
  destruct (normaliseDeexcitation_channels dxc k ltac:(lia) Hlen Hpos Hpk)
    as (Hrate & _ & _ & _ & _ & Hp).
  rewrite Hp by lia.
  assert (Hnum : 0 < sumR (firstn (S k) (dxc_p dxc))).
  { rewrite sumR_firstn_S by lia.
    pose proof (sumR_firstn_nonneg (dxc_p dxc) k Hpos). lra. }
  assert (Hbelow : sumR (firstn (S k) (dxc_p dxc))
                   < dxc_rate (normaliseDeexcitation dxc)).
  { apply Rlt_le_trans with (sumR (firstn (S (S k)) (dxc_p dxc))).
    - rewrite (sumR_firstn_S _ (S k)) by lia. lra.
    - unfold normaliseDeexcitation.
      rewrite sumFirst_eq, Rplus_0_l.
      destruct (Rlt_dec _ _);
        cbn [dxc_rate set_dxc_p set_dxc_rate];
        (apply sumR_firstn_mono; [exact Hpos | lia]). }
  assert (Hinv : 0 < / dxc_rate (normaliseDeexcitation dxc))
    by (apply Rinv_0_lt_compat; exact Hrate).
  unfold Rdiv. split.
  - apply Rmult_lt_0_compat; assumption.
  - rewrite <- (Rinv_r (dxc_rate (normaliseDeexcitation dxc))) by lra.
    apply Rmult_lt_compat_r; assumption.
Qed.

(** *** Steps of the loop *)

Lemma cascadeLoop_outside env steps draws table minIonPot iLevel fLevel c :
  (iLevel < 0)%Z ->
  cascadeLoop env (S steps) draws table minIonPot iLevel fLevel c
  = Some (fLevel, c).
Proof.
  intros Hneg. cbn [cascadeLoop].
  replace (0 <=? iLevel)%Z with false by (symmetry; apply Z.leb_gt; lia).
  reflexivity.
Qed.

(** One pass of the loop through a collisional channel without
    ionisation. *)
Lemma cascadeLoop_nonion env steps draws table minIonPot i fLevel c dxc f :
  nth_error table i = Some dxc ->
  0 < dxc_rate dxc -> (0 < length (dxc_p dxc))%nat ->
  selectChannel dxc (RndmUniform env (nUniform (cas_random c)))
  = (f, DxcTypeCollNonIon) ->
  cascadeLoop env (S steps) draws table minIonPot (Z.of_nat i) fLevel c
  = cascadeLoop env steps draws table minIonPot f f
      {| cas_t := cas_t c
                  + - ln (RndmUniformPos env (nUniformPos (cas_random c)))
                    / dxc_rate dxc;
         cas_products := cas_products c;
         cas_nPenning := cas_nPenning c;
         cas_random := useUniform (useUniformPos (cas_random c)) |}.
Proof.
  intros Hentry Hrate Hp Hsel. cbn [cascadeLoop].
  assert (Hi : (i < length table)%nat)
    by (apply nth_error_Some; rewrite Hentry; discriminate).
  replace (0 <=? Z.of_nat i)%Z with true by (symmetry; apply Z.leb_le; lia).
  replace (Z.of_nat i <? Z.of_nat (length table))%Z with true
    by (symmetry; apply Z.ltb_lt; lia).
  cbn [andb]. rewrite Nat2Z.id, Hentry.
  destruct (Rle_dec (dxc_rate dxc) 0) as [Hle|_]; [lra|].
  replace (length (dxc_p dxc) <=? 0)%nat with false
    by (symmetry; apply Nat.leb_gt; exact Hp).
  cbn [nUniform useUniformPos]. rewrite Hsel.
  reflexivity.
Qed.

(** Two entries that lead to each other through such channels: with draws
    that select these channels the loop does not end. *)
Lemma cascadeLoop_two_cycle env draws table minIonPot a b dA dB :
  nth_error table a = Some dA -> nth_error table b = Some dB ->
  0 < dxc_rate dA -> 0 < dxc_rate dB ->
  (0 < length (dxc_p dA))%nat -> (0 < length (dxc_p dB))%nat ->
  (forall n, Nat.even n = true ->
     selectChannel dA (RndmUniform env n)
     = (Z.of_nat b, DxcTypeCollNonIon)) ->
  (forall n, Nat.even n = false ->
     selectChannel dB (RndmUniform env n)
     = (Z.of_nat a, DxcTypeCollNonIon)) ->
  forall steps fLevel c,
    (Nat.even (nUniform (cas_random c)) = true ->
     cascadeLoop env steps draws table minIonPot (Z.of_nat a) fLevel c
     = None) /\
    (Nat.even (nUniform (cas_random c)) = false ->
     cascadeLoop env steps draws table minIonPot (Z.of_nat b) fLevel c
     = None).
Proof.
  intros HA HB HrA HrB HpA HpB HselA HselB.
  induction steps as [|steps IH]; intros fLevel c; [split; reflexivity|].
  split; intros Heven.
  - rewrite (cascadeLoop_nonion env steps draws table minIonPot a fLevel c
               dA (Z.of_nat b) HA HrA HpA (HselA _ Heven)).
    apply IH. cbn [cas_random nUniform useUniform useUniformPos].
    rewrite Nat.even_succ, <- Nat.negb_even, Heven. reflexivity.
  - rewrite (cascadeLoop_nonion env steps draws table minIonPot b fLevel c
               dB (Z.of_nat a) HB HrB HpB (HselB _ Heven)).
    apply IH. cbn [cas_random nUniform useUniform useUniformPos].
    rewrite Nat.even_succ, <- Nat.negb_even, Heven. reflexivity.
Qed.

(** *** Tables without cycles *)

Lemma selectChannelFrom_final dxc r : forall ps j,
  fst (selectChannelFrom j ps dxc r) = (-1)%Z \/
  In (fst (selectChannelFrom j ps dxc r)) (dxc_final dxc).
Proof.
  induction ps as [|p ps IH]; intros j; cbn [selectChannelFrom].
  - left. reflexivity.
  - destruct (Rle_dec r p); [|apply IH]. cbn [fst].
    destruct (Nat.lt_ge_cases j (length (dxc_final dxc))) as [Hj|Hj].
    + right. apply nth_In. exact Hj.
    + left. apply nth_overflow. exact Hj.
Qed.

Lemma cascadeLoop_returns env table rank draws minIonPot :
  acyclicTable table rank ->
  (forall dxc k, In dxc table -> sampleLineOffset env draws k dxc <> None) ->
  forall steps iLevel fLevel c,
    (rank (Z.to_nat iLevel) + 2 <= steps)%nat ->
    exists result,
      cascadeLoop env steps draws table minIonPot iLevel fLevel c
      = Some result.
Proof.
  intros Hacyclic Hoffset.
  induction steps as [|steps IH]; intros iLevel fLevel c Hsteps; [lia|].
  cbn [cascadeLoop].
  destruct ((0 <=? iLevel)%Z && (iLevel <? Z.of_nat (length table))%Z)
    eqn:Hin; [|eexists; reflexivity].
  apply andb_prop in Hin. destruct Hin as [Hlow _].
  apply Z.leb_le in Hlow.
  destruct (nth_error table (Z.to_nat iLevel)) as [dxc|] eqn:Hentry;
    [|eexists; reflexivity].
  destruct (Rle_dec (dxc_rate dxc) 0); [eexists; reflexivity|].
  destruct (length (dxc_p dxc) <=? 0)%nat; [eexists; reflexivity|].
  set (r := RndmUniform env (nUniform (useUniformPos (cas_random c)))).
  pose proof (selectChannelFrom_final dxc r (dxc_p dxc) 0) as Hfinal.
  fold (selectChannel dxc r) in Hfinal.
  destruct (selectChannel dxc r) as [f type]. cbn [fst] in Hfinal.
  assert (Hnext : forall fl c',
    (0 <= f)%Z ->
    exists result,
      cascadeLoop env steps draws table minIonPot f fl c' = Some result).
  { intros fl c' Hf. apply IH.
    destruct Hfinal as [->|Hfinal]; [lia|].
    pose proof (Hacyclic _ _ _ Hentry Hfinal Hf). lia. }
  destruct (type =? DxcTypeRad)%Z.
  - destruct (0 <=? f)%Z eqn:Hf; [apply Hnext; apply Z.leb_le; exact Hf|].
    destruct (sampleLineOffset env draws _ dxc) as [[delta k]|] eqn:Hline;
      [eexists; reflexivity|].
    exfalso. apply (Hoffset dxc _ (nth_error_In _ _ Hentry) Hline).
  - destruct (type =? DxcTypeCollIon)%Z.
    + destruct (0 <=? f)%Z eqn:Hf; [apply Hnext; apply Z.leb_le; exact Hf|].
      eexists; reflexivity.
    + destruct (type =? DxcTypeCollNonIon)%Z; [|eexists; reflexivity].
      destruct (Z.le_gt_cases 0 f) as [Hf|Hf]; [apply Hnext; exact Hf|].
      destruct steps as [|steps']; [lia|].
      rewrite cascadeLoop_outside by lia. eexists; reflexivity.
Qed.

(** *** The argon table *)

Ltac evalTable :=
  lazy -[normaliseDeexcitation IZR Rplus Rmult Rdiv Rminus Rinv Ropp].

(** Entry 7 of the argon table is the level 2P3; its channel 3, a
    collisional transfer with a positive rate, leads to entry 8. *)
Lemma argonTable_2P3 :
  exists dxc,
    nth_error argonTable 7 = Some (normaliseDeexcitation dxc) /\
    dxc_label dxc = "Ar_2P3"%string /\
    nth 3 (dxc_final dxc) (-1)%Z = 8%Z /\
    nth 3 (dxc_type dxc) DxcTypeRad = DxcTypeCollNonIon /\
    (3 < length (dxc_final dxc))%nat /\
    (3 < length (dxc_type dxc))%nat /\
    (length (dxc_type dxc) <= length (dxc_p dxc))%nat /\
    Forall (fun x => 0 <= x) (dxc_p dxc) /\
    0 < nth 3 (dxc_p dxc) 0 /\
    (4 < length (dxc_type dxc))%nat /\
    0 < nth 4 (dxc_p dxc) 0.
Proof.
  eexists. split; [unfold argonTable; evalTable; reflexivity|].
  cbn [dxc_label dxc_final dxc_type dxc_p nth length].
  split; [reflexivity|]. split; [reflexivity|]. split; [reflexivity|].
  split; [lia|]. split; [lia|]. split; [lia|].
  split; [repeat constructor; lra|].
  split; [lra|]. split; [lia | lra].
Qed.

(** Entry 8 is the level 2P4; its channel 4, a collisional transfer with
    a positive rate, leads back to entry 7. *)
Lemma argonTable_2P4 :
  exists dxc,
    nth_error argonTable 8 = Some (normaliseDeexcitation dxc) /\
    dxc_label dxc = "Ar_2P4"%string /\
    nth 4 (dxc_final dxc) (-1)%Z = 7%Z /\
    nth 4 (dxc_type dxc) DxcTypeRad = DxcTypeCollNonIon /\
    (4 < length (dxc_final dxc))%nat /\
    (4 < length (dxc_type dxc))%nat /\
    (length (dxc_type dxc) <= length (dxc_p dxc))%nat /\
    Forall (fun x => 0 <= x) (dxc_p dxc) /\
    0 < nth 4 (dxc_p dxc) 0 /\
    (5 < length (dxc_type dxc))%nat /\
    0 < nth 5 (dxc_p dxc) 0.
Proof.
  eexists. split; [unfold argonTable; evalTable; reflexivity|].
  cbn [dxc_label dxc_final dxc_type dxc_p nth length].
  split; [reflexivity|]. split; [reflexivity|]. split; [reflexivity|].
  split; [lia|]. split; [lia|]. split; [lia|].
  split; [repeat constructor; lra|].
  split; [lra|]. split; [lia | lra].
Qed.

(** The table does not depend on the random numbers. *)
Lemma argonTable_any_draws uniform :
  m_deexcitations
    (ComputeDeexcitationTable (argonEnvironment uniform) argonSession)
  = argonTable.
Proof. unfold argonTable. evalTable. reflexivity. Qed.

(** Term 14 of the argon session, the excitation of 2P3, has entry 7. *)
Lemma argonTable_index uniform :
  nth 14
    (m_iDeexcitation
       (ComputeDeexcitationTable (argonEnvironment uniform) argonSession))
    (-1)%Z
  = 7%Z.
Proof. evalTable. reflexivity. Qed.

(** No rank decreases along the channels of the argon table. *)
Lemma argonTable_not_acyclic rank : ~ acyclicTable argonTable rank.
Proof.
  intros Hacyclic.
  destruct argonTable_2P3
    as (A & HA & _ & HfA & _ & HnA & HkA & HlenA & HposA & HpA & _).
  destruct argonTable_2P4
    as (B & HB & _ & HfB & _ & HnB & HkB & HlenB & HposB & HpB & _).
  destruct (normaliseDeexcitation_channels A 3 HkA HlenA HposA HpA)
    as (_ & _ & HfinA & _).
  destruct (normaliseDeexcitation_channels B 4 HkB HlenB HposB HpB)
    as (_ & _ & HfinB & _).
  assert (H78 : (rank 8 < rank 7)%nat).
  { apply (Hacyclic 7%nat _ 8%Z HA); [|lia].
    rewrite HfinA, <- HfA. apply nth_In. exact HnA. }
  assert (H87 : (rank 7 < rank 8)%nat).
  { apply (Hacyclic 8%nat _ 7%Z HB); [|lia].
    rewrite HfinB, <- HfB. apply nth_In. exact HnB. }
  lia.
Qed.


(** In the table that ComputeDeexcitationTable builds for argon, the
    levels 2P3 and 2P4 lead to each other, so that no rank decreases along
    its channels, and for uniform draws between 0 and 1 that select these
    two channels ComputeDeexcitationInternal, started from the excitation
    of 2P3, does not end within any number of steps. *)
Lemma argon_cascade_revisits_levels :
  let env := argonEnvironment alternatingDraws in
  let st := ComputeDeexcitationTable env argonSession in
  let rc := {| nUniform := 0; nUniformPos := 0; nVoigt := 0 |} in
  (exists dA dB,
     nth_error (m_deexcitations st) 7 = Some dA /\
     nth_error (m_deexcitations st) 8 = Some dB /\
     dxc_label dA = "Ar_2P3"%string /\ dxc_label dB = "Ar_2P4"%string /\
     In 8%Z (dxc_final dA) /\ In 7%Z (dxc_final dB)) /\
  (forall rank, ~ acyclicTable (m_deexcitations st) rank) /\
  nth 14 (m_iDeexcitation st) (-1)%Z = 7%Z /\
  (forall n, 0 < RndmUniform env n < 1) /\
  forall steps draws,
    ComputeDeexcitationInternal env steps draws st rc 7 = None.
Proof.
  intros env st rc.
  assert (Htable : m_deexcitations st = argonTable)
    by apply argonTable_any_draws.
  destruct argonTable_2P3
    as (A & HA & HlA & HfA & HtA & HnA & HkA & HlenA & HposA & HpA
        & HkA' & HpA').
  destruct argonTable_2P4
    as (B & HB & HlB & HfB & HtB & HnB & HkB & HlenB & HposB & HpB
        & HkB' & HpB').
  destruct (normaliseDeexcitation_channels A 3 HkA HlenA HposA HpA)
    as (HrateA & HlpA & HfinA & _ & HlabA & _).
  destruct (normaliseDeexcitation_channels B 4 HkB HlenB HposB HpB)
    as (HrateB & HlpB & HfinB & _ & HlabB & _).
  split; [|split; [|split; [|split]]].
  - exists (normaliseDeexcitation A), (normaliseDeexcitation B).
    rewrite Htable, HlabA, HlabB, HfinA, HfinB.
    repeat split; try assumption.
    + rewrite <- HfA. apply nth_In. exact HnA.
    + rewrite <- HfB. apply nth_In. exact HnB.
  - intros rank. rewrite Htable. apply argonTable_not_acyclic.
  - apply argonTable_index.
  - intros n. change (RndmUniform env n) with (alternatingDraws n).
    unfold alternatingDraws, branchingRatio.
    destruct (Nat.even n).
    + rewrite HA. apply branchingRatio_range; assumption.
    + rewrite HB. apply branchingRatio_range; assumption.
  - intros steps draws.
    assert (HlenA' : (0 < length (dxc_p (normaliseDeexcitation A)))%nat)
      by (rewrite HlpA; lia).
    assert (HlenB' : (0 < length (dxc_p (normaliseDeexcitation B)))%nat)
      by (rewrite HlpB; lia).
    assert (HselA : forall n, Nat.even n = true ->
              selectChannel (normaliseDeexcitation A) (RndmUniform env n)
              = (Z.of_nat 8, DxcTypeCollNonIon)).
    { intros n Heven.
      change (RndmUniform env n) with (alternatingDraws n).
      unfold alternatingDraws, branchingRatio. rewrite Heven, HA.
      rewrite (selectChannel_normalised A 3 HkA HlenA HposA HpA).
      rewrite HfA, HtA. reflexivity. }
    assert (HselB : forall n, Nat.even n = false ->
              selectChannel (normaliseDeexcitation B) (RndmUniform env n)
              = (Z.of_nat 7, DxcTypeCollNonIon)).
    { intros n Heven.
      change (RndmUniform env n) with (alternatingDraws n).
      unfold alternatingDraws, branchingRatio. rewrite Heven, HB.
      rewrite (selectChannel_normalised B 4 HkB HlenB HposB HpB).
      rewrite HfB, HtB. reflexivity. }
    unfold ComputeDeexcitationInternal. rewrite Htable.
    destruct (cascadeLoop_two_cycle env draws argonTable (m_minIonPot st)
                7 8 (normaliseDeexcitation A) (normaliseDeexcitation B)
                HA HB HrateA HrateB HlenA' HlenB' HselA HselB steps 7%Z
                {| cas_t := 0; cas_products := [];
                   cas_nPenning := m_nPenning st; cas_random := rc |})
      as [Hloop _].
    change 7%Z with (Z.of_nat 7) at 1. rewrite Hloop; reflexivity.
Qed.

Lemma twoLevelTable_acyclic : acyclicTable twoLevelTable (fun i => 1 - i)%nat.
Proof.
  intros i dxc f Hentry Hin Hf.
  destruct i as [|[|i]]; cbn in Hentry.
  - injection Hentry as <-. cbn in Hin. destruct Hin as [<-|[]].
    change (Z.to_nat 1) with 1%nat. lia.
  - injection Hentry as <-. destruct Hin.
  - destruct i; discriminate.
Qed.

Lemma twoLevelTable_offsets k dxc :
  In dxc twoLevelTable ->
  sampleLineOffset (argonEnvironment (fun _ => 1 / 2)) 1 k dxc <> None.
Proof.
  intros [<-|[<-|[]]]; cbn [sampleLineOffset];
    cbn [RndmVoigt Small argonEnvironment exampleEnvironment dxc_energy
         dxc_width dxc_sDoppler dxc_gPressure];
    rewrite Rabs_R0;
    (destruct (Rlt_dec _ _) as [H|_]; [exfalso; lra|]);
    (destruct (Rge_dec _ _) as [H|_]; [exfalso; lra|]);
    discriminate.
Qed.

(** With a table without cycles, and line offsets that are found where
    the loop needs them, [rank + 2] passes suffice. *)
Lemma cascadeLoop_ends env table rank draws minIonPot :
  acyclicTable table rank ->
  lineOffsetsEnd env draws table ->
  forall steps iLevel fLevel c,
    (rank (Z.to_nat iLevel) + 2 <= steps)%nat ->
    exists result,
      cascadeLoop env steps draws table minIonPot iLevel fLevel c
      = Some result.
Proof.
  intros Hacyclic Hoffset.
  induction steps as [|steps IH]; intros iLevel fLevel c Hsteps; [lia|].
  cbn [cascadeLoop].
  destruct ((0 <=? iLevel)%Z && (iLevel <? Z.of_nat (length table))%Z)
    eqn:Hin; [|eexists; reflexivity].
  apply andb_prop in Hin. destruct Hin as [Hlow _].
  apply Z.leb_le in Hlow.
  destruct (nth_error table (Z.to_nat iLevel)) as [dxc|] eqn:Hentry;
    [|eexists; reflexivity].
  destruct (Rle_dec (dxc_rate dxc) 0) as [|Hrate]; [eexists; reflexivity|].
  destruct (Nat.leb_spec (length (dxc_p dxc)) 0) as [|Hlen];
    [eexists; reflexivity|].
  set (r := RndmUniform env (nUniform (useUniformPos (cas_random c)))).
  pose proof (selectChannelFrom_final dxc r (dxc_p dxc) 0) as Hfinal.
  fold (selectChannel dxc r) in Hfinal.
  pose proof (Hoffset dxc (nUniform (useUniformPos (cas_random c)))) as Hoff.
  fold r in Hoff.
  destruct (selectChannel dxc r) as [f type]. cbn [fst snd] in Hfinal, Hoff.
  assert (Hnext : forall fl c',
    (0 <= f)%Z ->
    exists result,
      cascadeLoop env steps draws table minIonPot f fl c' = Some result).
  { intros fl c' Hf. apply IH.
    destruct Hfinal as [->|Hfinal]; [lia|].
    pose proof (Hacyclic _ _ _ Hentry Hfinal Hf). lia. }
  destruct (Z.eqb_spec type DxcTypeRad) as [Hrad|_].
  - destruct (0 <=? f)%Z eqn:Hf; [apply Hnext; apply Z.leb_le; exact Hf|].
    apply Z.leb_gt in Hf.
    destruct (sampleLineOffset env draws _ dxc) as [[delta k]|] eqn:Hline;
      [eexists; reflexivity|].
    exfalso.
    apply (Hoff _ (nth_error_In _ _ Hentry) ltac:(lra) Hlen Hrad Hf Hline).
  - destruct (type =? DxcTypeCollIon)%Z.
    + destruct (0 <=? f)%Z eqn:Hf; [apply Hnext; apply Z.leb_le; exact Hf|].
      eexists; reflexivity.
    + destruct (type =? DxcTypeCollNonIon)%Z; [|eexists; reflexivity].
      destruct (Z.le_gt_cases 0 f) as [Hf|Hf]; [apply Hnext; exact Hf|].
      destruct steps as [|steps']; [lia|].
      rewrite cascadeLoop_outside by lia. eexists; reflexivity.
Qed.

Lemma resonanceTable_acyclic :
  acyclicTable resonanceTable (fun i => 1 - i)%nat.
Proof.
  intros i dxc f Hentry Hin Hf.
  destruct i as [|[|i]]; cbn in Hentry.
  - injection Hentry as <-. cbn in Hin. destruct Hin as [<-|[]].
    change (Z.to_nat 1) with 1%nat. lia.
  - injection Hentry as <-. cbn in Hin. destruct Hin as [<-|[]]. lia.
  - destruct i; discriminate.
Qed.

(** In the table of two levels the offset of the resonance line is found
    at the first draw, and no draw of 1/2 selects a decay of the upper
    level to the ground state. *)
Lemma resonanceTable_offsets :
  lineOffsetsEnd (argonEnvironment (fun _ => 1 / 2)) 1 resonanceTable.
Proof.
  intros dxc n k [<-|[<-|[]]] _ _.
  - change (RndmUniform (argonEnvironment (fun _ => 1 / 2)) n) with (1 / 2).
    unfold selectChannel.
    cbn [selectChannelFrom dxc_p dxc_final dxc_type nth fst snd].
    destruct (Rle_dec (1 / 2) 1) as [_|H]; [|lra].
    cbn [fst snd]. intros _ H. lia.
  - intros _ _. cbn [sampleLineOffset].
    cbn [RndmVoigt Small argonEnvironment exampleEnvironment dxc_energy
         dxc_width dxc_sDoppler dxc_gPressure].
    rewrite Rabs_R0.
    destruct (Rlt_dec _ _) as [H|_]; [exfalso; lra|].
    destruct (Rge_dec _ _) as [H|_]; [exfalso; lra|].
    discriminate.
Qed.

(** C5, as amended.  In a session whose de-excitation table has no cycles,
    that is, with a rank of the levels that decreases along every channel
    which leads to a level, and in which the offset of a line is found
    within [draws] draws wherever a random number selects the radiative
    decay of a level to the ground state, ComputeDeexcitationInternal
    returns for every start level after at most rank + 2 passes of its
    loop: that number of steps suffices to produce its result. *)
Theorem cascade_terminates_on_acyclic_table :
  forall (env : Environment) (st : MediumMagboltz) (rank : nat -> nat)
         (draws : nat),
    acyclicTable (m_deexcitations st) rank ->
    lineOffsetsEnd env draws (m_deexcitations st) ->
    forall (steps : nat) (rc : RandomCursor) (iLevel : Z),
      (rank (Z.to_nat iLevel) + 2 <= steps)%nat ->
      exists st' rc' fLevel,
        ComputeDeexcitationInternal env steps draws st rc iLevel
        = Some (st', rc', fLevel).
Proof.
  intros env st rank draws Hacyclic Hoffset steps rc iLevel Hsteps.
  unfold ComputeDeexcitationInternal.
  destruct (cascadeLoop_ends env (m_deexcitations st) rank draws
              (m_minIonPot st) Hacyclic Hoffset steps iLevel iLevel
              {| cas_t := 0; cas_products := [];
                 cas_nPenning := m_nPenning st; cas_random := rc |} Hsteps)
    as [[fLevel c] Hloop].
  rewrite Hloop. do 3 eexists. reflexivity.
Qed.

(** The cascade from the upper level of the table of two levels: a photon
    of the transition to the resonant level, then the photon of the
    resonance line, whose offset is drawn once. *)
Lemma resonanceSession_cascade :
  exists st' rc',
    ComputeDeexcitationInternal (argonEnvironment (fun _ => 1 / 2)) 3 1
      resonanceSession {| nUniform := 0; nUniformPos := 0; nVoigt := 0 |} 0
    = Some (st', rc', 1%Z) /\
    map prod_energy (m_dxcProducts st') = [13 - 11.6; 11.6 + 0] /\
    nVoigt rc' = 1%nat.
Proof.
  unfold ComputeDeexcitationInternal.
  change (m_deexcitations resonanceSession) with resonanceTable.
  set (env := argonEnvironment (fun _ => 1 / 2)).
  cbn [cascadeLoop resonanceTable length Z.of_nat Z.leb Z.ltb Z.compare
       andb Z.to_nat nth_error Pos.of_succ_nat Pos.succ Pos.compare
       Pos.compare_cont].
  cbn [dxc_rate dxc_p length Nat.leb].
  destruct (Rle_dec 1 0) as [H|_]; [lra|].
  change (RndmUniform env _) with (1 / 2).
  unfold selectChannel at 1.
  cbn [selectChannelFrom dxc_p dxc_final dxc_type nth].
  destruct (Rle_dec (1 / 2) 1) as [_|H]; [|lra].
  cbn [Z.eqb DxcTypeRad Z.leb Z.compare Pos.eqb].
  change (Z.to_nat 1) with 1%nat.
  cbn [andb Z.ltb Z.compare Pos.compare Pos.compare_cont
       nth_error nth resonanceTable dxc_rate dxc_p length Nat.leb].
  destruct (Rle_dec 0.1 0) as [H|_]; [lra|].
  change (RndmUniform env _) with (1 / 2).
  unfold selectChannel at 1.
  cbn [selectChannelFrom dxc_p dxc_final dxc_type nth].
  destruct (Rle_dec (1 / 2) 1) as [_|H]; [|lra].
  cbn [Z.eqb DxcTypeRad Z.leb Z.compare Pos.eqb].
  cbn [sampleLineOffset dxc_energy dxc_width dxc_sDoppler dxc_gPressure].
  change (RndmVoigt env _ _ _ _) with 0.
  destruct (Rlt_dec (11.6 + 0) (Small env)) as [H|_].
  { exfalso. revert H. cbn [Small env argonEnvironment exampleEnvironment].
    lra. }
  rewrite Rabs_R0.
  destruct (Rge_dec 0 1) as [H|_]; [lra|].
  do 2 eexists. split; [reflexivity|].
  cbn [m_dxcProducts set_nPenning set_dxcProducts cas_products cas_random
       setVoigt nVoigt app map prod_energy].
  split; [|reflexivity].
  unfold floorSmall. cbn [dxc_energy].
  destruct (Rlt_dec (13 - 11.6) (Small env)) as [H|_]; [|reflexivity].
  exfalso. revert H. cbn [Small env argonEnvironment exampleEnvironment].
  lra.
Qed.

Lemma cascade_terminates_on_acyclic_table_witness :
  exists st' rc' fLevel,
    ComputeDeexcitationInternal (argonEnvironment (fun _ => 1 / 2)) 3 1
      resonanceSession {| nUniform := 0; nUniformPos := 0; nVoigt := 0 |} 0
    = Some (st', rc', fLevel) /\
    fLevel = 1%Z /\
    map prod_energy (m_dxcProducts st') = [13 - 11.6; 11.6 + 0] /\
    nVoigt rc' = 1%nat.
Proof.
  destruct (cascade_terminates_on_acyclic_table
              (argonEnvironment (fun _ => 1 / 2)) resonanceSession
              (fun i => 1 - i)%nat 1%nat resonanceTable_acyclic
              resonanceTable_offsets 3%nat
              {| nUniform := 0; nUniformPos := 0; nVoigt := 0 |} 0%Z)
    as (st' & rc' & fLevel & Hcall).
  - change (Z.to_nat 0) with 0%nat. cbn. lia.
  - exists st', rc', fLevel. split; [exact Hcall|].
    destruct resonanceSession_cascade as (s & r & Hc & He & Hv).
    rewrite Hc in Hcall. injection Hcall as <- <- <-.
    split; [reflexivity|]. split; assumption.
Defined.

(** * Part III: further properties of the code *)

(** ** The linear energy grid *)

Lemma truncate_nonneg x :
  0 <= x -> (0 <= truncate x)%Z /\ IZR (truncate x) <= x < IZR (truncate x) + 1.
Proof.
  intros Hx. unfold truncate. destruct (Rle_dec 0 x) as [_|H]; [|lra].
  destruct (base_Int_part x) as [H1 H2].
  split; [|lra].
  apply le_IZR. apply Rnot_lt_le. intros Hneg.
  assert (IZR (Int_part x) <= -1).
  { apply IZR_le. apply lt_IZR in Hneg. lia. }
  lra.
Qed.

Lemma truncate_nonpos x : x <= 0 -> (truncate x <= 0)%Z.
Proof.
  intros Hx. unfold truncate. destruct (Rle_dec 0 x) as [H|H].
  - assert (x = 0) by lra. subst x.
    destruct (base_Int_part 0) as [H1 H2].
    apply le_IZR. exact H1.
  - assert (H0 : 0 <= - x) by lra.
    destruct (base_Int_part (- x)) as [H1 H2].
    assert (0 <= Int_part (- x))%Z; [|lia].
    apply le_IZR. apply Rnot_lt_le. intros Hneg.
    assert (IZR (Int_part (- x)) <= -1).
    { apply IZR_le. apply lt_IZR in Hneg. lia. }
    lra.
Qed.

(** An energy within the linear grid is put into the bin that contains
    it. *)
Lemma linearBin_inside (st : MediumMagboltz) (e : R) :
  0 < m_eStep st -> 0 <= e -> e < INR nEnergySteps * m_eStep st ->
  INR (linearBin st e) * m_eStep st <= e
  < (INR (linearBin st e) + 1) * m_eStep st.
Proof.
  intros Hstep He Hin. unfold linearBin.
  assert (Hinv : 0 < / m_eStep st) by (apply Rinv_0_lt_compat; exact Hstep).
  assert (Hx : 0 <= e / m_eStep st)
    by (apply Rmult_le_pos; [exact He | lra]).
  destruct (truncate_nonneg _ Hx) as (Hk & Hlo & Hhi).
  set (k := truncate (e / m_eStep st)) in *.
  assert (Hkn : (k < Z.of_nat nEnergySteps)%Z).
  { apply lt_IZR. rewrite <- INR_IZR_INZ.
    apply Rle_lt_trans with (e / m_eStep st); [exact Hlo|].
    apply (Rmult_lt_reg_r (m_eStep st)); [exact Hstep|].
    unfold Rdiv. rewrite Rmult_assoc, Rinv_l by lra. lra. }
  unfold clampIndex.
  replace (Z.min (Z.max k 0) (Z.of_nat nEnergySteps - 1)) with k by lia.
  rewrite INR_IZR_INZ, Z2Nat.id by exact Hk.
  assert (He' : e = e / m_eStep st * m_eStep st)
    by (unfold Rdiv; rewrite Rmult_assoc, Rinv_l by lra; lra).
  split.
  - apply Rle_trans with (e / m_eStep st * m_eStep st); [|lra].
    apply Rmult_le_compat_r; lra.
  - apply Rle_lt_trans with (e / m_eStep st * m_eStep st); [lra|].
    apply Rmult_lt_compat_r; lra.
Qed.

(** X1.  The bin of the linear grid (lines 533-537, 572-574 and 645): the
    index always lies in the table; for an energy within the grid,
    [0 <= e < nEnergySteps * m_eStep], it is the bin that contains [e];
    an energy at or above the end of the grid is put into the last bin, a
    negative one into the first. *)
Theorem linearBin_contains_energy :
  forall (st : MediumMagboltz) (e : R),
    0 < m_eStep st ->
    (linearBin st e < nEnergySteps)%nat /\
    (0 <= e -> e < INR nEnergySteps * m_eStep st ->
     INR (linearBin st e) * m_eStep st <= e
     < (INR (linearBin st e) + 1) * m_eStep st) /\
    (INR nEnergySteps * m_eStep st <= e ->
     linearBin st e = (nEnergySteps - 1)%nat) /\
    (e <= 0 -> linearBin st e = 0%nat).
Proof.
  intros st e Hstep.
  pose proof nEnergySteps_pos as Hn.
  split; [apply clampIndex_lt; exact Hn|].
  assert (Hinv : 0 < / m_eStep st) by (apply Rinv_0_lt_compat; exact Hstep).
  split; [intros He Hin; apply linearBin_inside; assumption|].
  unfold linearBin. split.
  - intros Hout.
    assert (Hx : INR nEnergySteps <= e / m_eStep st).
    { apply (Rmult_le_reg_r (m_eStep st)); [exact Hstep|].
      unfold Rdiv. rewrite Rmult_assoc, Rinv_l by lra. lra. }
    assert (Hx0 : 0 <= e / m_eStep st)
      by (pose proof (pos_INR nEnergySteps); lra).
    destruct (truncate_nonneg _ Hx0) as (Hk & Hlo & Hhi).
    set (k := truncate (e / m_eStep st)) in *.
    assert (Hkn : (Z.of_nat nEnergySteps < k + 1)%Z).
    { apply lt_IZR. rewrite plus_IZR, <- INR_IZR_INZ. lra. }
    unfold clampIndex.
    replace (Z.min (Z.max k 0) (Z.of_nat nEnergySteps - 1))
      with (Z.of_nat nEnergySteps - 1)%Z by lia.
    lia.
  - intros Hneg.
    assert (Hx : e / m_eStep st <= 0).
    { unfold Rdiv. replace 0 with (0 * / m_eStep st) by lra.
      apply Rmult_le_compat_r; lra. }
    pose proof (truncate_nonpos _ Hx) as Hk.
    unfold clampIndex.
    replace (Z.min (Z.max (truncate (e / m_eStep st)) 0)
               (Z.of_nat nEnergySteps - 1)) with 0%Z by lia.
    reflexivity.
Qed.

Lemma linearBin_contains_energy_witness :
  (linearBin penningSession 20 < nEnergySteps)%nat.
Proof.
  apply (linearBin_contains_energy penningSession 20).
  cbn [m_eStep penningSession set_isChanged set_usePenning set_minIonPot
       set_rPenning set_rgas set_energyLoss set_csType
       set_nCollisionsDetailed set_cf set_nTerms newSession].
  apply Rmult_lt_0_compat; [lra|].
  apply Rinv_0_lt_compat. apply lt_0_INR. exact nEnergySteps_pos.
Defined.

(** ** The energy range *)

Lemma SetMaxElectronEnergy_spec :
  forall (env : Environment) (st : MediumMagboltz) (e : R),
    (e <= Small env -> SetMaxElectronEnergy env st e = (false, st)) /\
    (Small env < e ->
     let st' := snd (SetMaxElectronEnergy env st e) in
     fst (SetMaxElectronEnergy env st e) = true /\
     m_eFinal st' = e /\
     INR nEnergySteps * m_eStep st' = Rmin e (m_eHigh st) /\
     m_isChanged st' = true /\
     m_cfTot st' = m_cfTot st /\ m_cf st' = m_cf st /\
     m_cfNull st' = m_cfNull st /\ m_nTerms st' = m_nTerms st /\
     m_nCollisions st' = m_nCollisions st /\
     m_nCollisionsDetailed st' = m_nCollisionsDetailed st).
Proof.
  intros env st e. unfold SetMaxElectronEnergy. split.
  - intros He. destruct (Rle_dec e (Small env)) as [_|H]; [reflexivity|lra].
  - intros He. destruct (Rle_dec e (Small env)) as [H|_]; [lra|].
    cbn [m_eFinal m_eHigh set_eFinal].
    assert (Hn : INR nEnergySteps <> 0).
    { apply Rgt_not_eq. apply lt_0_INR. exact nEnergySteps_pos. }
    destruct (Rle_dec e (m_eHigh st)) as [Hle|Hgt];
      cbn [fst snd m_eFinal m_eStep m_eHigh m_isChanged m_cfTot m_cf m_cfNull
           m_nTerms m_nCollisions m_nCollisionsDetailed
           set_eStep set_isChanged set_eFinal];
      repeat split.
    + rewrite Rmin_left by exact Hle. field. exact Hn.
    + rewrite Rmin_right by lra. field. exact Hn.
Qed.

(** X2.  SetMaxElectronEnergy (lines 84-108) refuses an energy that does
    not exceed [Small] and leaves the session as it is.  Otherwise the new
    range is stored and the tables are marked for a rebuild, while the
    tables themselves and the counters are not touched; the step is chosen
    such that the [nEnergySteps] bins of the linear grid cover the energies
    up to the smaller of the new range and [m_eHigh]: every energy below
    that end is put into the bin that contains it. *)
Theorem SetMaxElectronEnergy_grid :
  forall (env : Environment) (st : MediumMagboltz) (e : R),
    (e <= Small env -> SetMaxElectronEnergy env st e = (false, st)) /\
    (Small env < e ->
     let st' := snd (SetMaxElectronEnergy env st e) in
     fst (SetMaxElectronEnergy env st e) = true /\
     m_eFinal st' = e /\
     INR nEnergySteps * m_eStep st' = Rmin e (m_eHigh st) /\
     m_isChanged st' = true /\
     m_cfTot st' = m_cfTot st /\ m_cf st' = m_cf st /\
     m_cfNull st' = m_cfNull st /\ m_nTerms st' = m_nTerms st /\
     m_nCollisions st' = m_nCollisions st /\
     m_nCollisionsDetailed st' = m_nCollisionsDetailed st /\
     (0 < e -> 0 < m_eHigh st ->
      forall e' : R, 0 <= e' < Rmin e (m_eHigh st) ->
        INR (linearBin st' e') * m_eStep st' <= e'
        < (INR (linearBin st' e') + 1) * m_eStep st')).
Proof.
  intros env st e.
  destruct (SetMaxElectronEnergy_spec env st e) as [Hrej Hacc].
  split; [exact Hrej|].
  intros He st'. specialize (Hacc He).
  destruct Hacc as (H1 & H2 & H3 & H4 & H5 & H6 & H7 & H8 & H9 & H10).
  fold st' in H2, H3, H4, H5, H6, H7, H8, H9, H10.
  repeat (split; [assumption|]).
  intros Hpos Hhigh e' [Hlo Hhi].
  assert (Hn : 0 < INR nEnergySteps)
    by (apply lt_0_INR; exact nEnergySteps_pos).
  assert (Hmin : 0 < Rmin e (m_eHigh st)) by (apply Rmin_glb_lt; assumption).
  assert (Hstep : 0 < m_eStep st').
  { apply (Rmult_lt_reg_l (INR nEnergySteps)); [exact Hn|]. lra. }
  apply linearBin_inside; [exact Hstep | lra | lra].
Qed.

Lemma SetMaxElectronEnergy_grid_witness :
  let env := exampleEnvironment (constantCrossSections []) (fun _ => 1 / 2) in
  m_eFinal (snd (SetMaxElectronEnergy env penningSession 200)) = 200.
Proof.
  intros env.
  destruct (SetMaxElectronEnergy_grid env penningSession 200) as [_ H].
  apply H. unfold env. cbn [Small exampleEnvironment].
  assert (0 < 10 ^ 20) by (apply pow_lt; lra).
  apply Rlt_trans with 1; [|lra].
  apply (Rmult_lt_reg_r (10 ^ 20)); [assumption|].
  unfold Rdiv. rewrite Rmult_assoc, Rinv_l by lra. 
  assert (1 <= 10 ^ 20) by (apply pow_R1_Rle; lra). 
  assert (1 < 10 ^ 20); [|lra].
  apply Rlt_le_trans with (10 ^ 1); [lra|]. apply Rle_pow; [lra|lia].
Defined.

(** ** Partial rates *)




(** A query at a positive energy within the range of an up-to-date table
    does not change the session. *)
Lemma updateTable_current env st :
  m_isChanged st = false -> updateTable env st = (true, st).
Proof. intros H. unfold updateTable. rewrite H. reflexivity. Qed.




Lemma exceedsRange_penningSession : exceedsRange penningSession 20 = false.
Proof.
  unfold exceedsRange, Rltb.
  destruct (Rlt_dec (m_eFinal penningSession) 20) as [H|_]; [|reflexivity].
  exfalso. revert H.
  cbn [m_eFinal penningSession set_isChanged set_usePenning set_minIonPot
       set_rPenning set_rgas set_energyLoss set_csType
       set_nCollisionsDetailed set_cf set_nTerms newSession].
  lra.
Qed.


(** ** A rebuild that fails *)

Lemma updateTable_failure env st :
  m_isChanged st = true -> fst (Mixer env st) = false ->
  updateTable env st = (false, snd (Mixer env st)).
Proof.
  intros Hc Hm. unfold updateTable. rewrite Hc.
  destruct (Mixer env st) as [[|] st1]; cbn [fst snd] in *;
    [discriminate | reflexivity].
Qed.

(** X4.  Queries on a table that cannot be rebuilt (lines 497-503, 531-537
    and 626-632): where the session is marked as changed and Mixer fails,
    the null-collision rate and the collision rate are reported as 0 and
    GetElectronCollision returns false without drawing a random number or
    counting a collision.  The session is handed back as Mixer left it and
    is still marked as changed, so the next query calls Mixer again. *)
Theorem queries_fail_when_rebuild_fails :
  forall (env : Environment) (steps draws : nat) (st : MediumMagboltz)
         (rc : RandomCursor) (e dx dy dz : R)
         (secondaries : list (IonProdType * R)),
    m_isChanged st = true -> fst (Mixer env st) = false ->
    0 < e -> exceedsRange st e = false ->
    let st' := snd (Mixer env st) in
    GetElectronNullCollisionRate env st = (0, st') /\
    GetElectronCollisionRate env st e = (0, st') /\
    GetElectronCollision env steps draws st rc e dx dy dz secondaries
      = Some (None, st', rc) /\
    m_isChanged st' = true /\
    m_nCollisions st' = m_nCollisions st /\
    m_nCollisionsDetailed st' = m_nCollisionsDetailed st.
Proof.
  intros env steps draws st rc e dx dy dz secondaries Hc Hm He Hr st'.
  pose proof (updateTable_failure env st Hc Hm) as Hupd. fold st' in Hupd.
  destruct (Mixer_failure env st Hm) as (_ & _ & _ & Hn & Hd & Hch).
  fold st' in Hn, Hd, Hch.
  split; [|split; [|split; [|split; [|split]]]].
  - unfold GetElectronNullCollisionRate. rewrite Hupd. reflexivity.
  - unfold GetElectronCollisionRate.
    destruct (Rle_dec e 0) as [H|_]; [lra|].
    rewrite Hr, Hupd. reflexivity.
  - unfold GetElectronCollision.
    rewrite Hr. cbn [negb andb].
    destruct (Rle_dec e 0) as [H|_]; [lra|].
    rewrite Hupd. reflexivity.
  - rewrite Hch. exact Hc.
  - exact Hn.
  - exact Hd.
Qed.

Lemma exceedsRange_builtSession : exceedsRange builtSession 20 = false.
Proof.
  unfold exceedsRange, Rltb.
  destruct (Rlt_dec (m_eFinal builtSession) 20) as [H|_]; [|reflexivity].
  exfalso. revert H.
  cbn [m_eFinal builtSession set_isChanged set_cfNull set_cfTot newSession].
  lra.
Qed.

Lemma queries_fail_when_rebuild_fails_witness :
  let env := exampleEnvironment crowdedCrossSections (fun _ => 1 / 2) in
  let rc := {| nUniform := 0; nUniformPos := 0; nVoigt := 0 |} in
  GetElectronCollision env 0 0 builtSession rc 20 0 0 1 []
  = Some (None, snd (Mixer env builtSession), rc).
Proof.
  intros env rc.
  apply (queries_fail_when_rebuild_fails env 0 0 builtSession rc 20 0 0 1 []).
  - reflexivity.
  - unfold env. rewrite crowded_Mixer. reflexivity.
  - lra.
  - exact exceedsRange_builtSession.
Defined.

(** ** The null-collision rate *)

Lemma largerRate_ge m x : m <= largerRate m x /\ x <= largerRate m x.
Proof. unfold largerRate. destruct (Rlt_dec m x); lra. Qed.

Lemma fold_largerRate_init l : forall m, m <= fold_left largerRate l m.
Proof.
  induction l as [|x l IH]; intros m; simpl; [lra|].
  apply Rle_trans with (largerRate m x); [apply largerRate_ge | apply IH].
Qed.

Lemma fold_largerRate_In l x : forall m,
  In x l -> x <= fold_left largerRate l m.
Proof.
  induction l as [|y l IH]; intros m Hin; simpl; [contradiction|].
  destruct Hin as [->|Hin]; [|apply IH; exact Hin].
  apply Rle_trans with (largerRate m x);
    [apply largerRate_ge | apply fold_largerRate_init].
Qed.

Lemma nullCollisionRate_bounds st :
  0 <= nullCollisionRate st /\
  (forall i : nat, nth i (m_cfTot st) 0 <= nullCollisionRate st) /\
  (m_eHigh st < m_eFinal st ->
   forall i : nat, (i < length (m_cfTotLog st))%nat ->
     exp (nth i (m_cfTotLog st) 0) <= nullCollisionRate st).
Proof.
  unfold nullCollisionRate.
  set (m := fold_left largerRate (m_cfTot st) 0).
  assert (H0 : 0 <= m) by apply fold_largerRate_init.
  assert (Hlin : forall i, nth i (m_cfTot st) 0 <= m).
  { intros i. destruct (Nat.lt_ge_cases i (length (m_cfTot st))) as [Hi|Hi].
    - apply fold_largerRate_In. apply nth_In. exact Hi.
    - rewrite nth_overflow by exact Hi. exact H0. }
  destruct (Rlt_dec (m_eHigh st) (m_eFinal st)) as [Hlog|Hlin'].
  - pose proof (fold_largerRate_init (map exp (m_cfTotLog st)) m) as Hm.
    split; [lra|]. split.
    + intros i. specialize (Hlin i). lra.
    + intros _ i Hi. apply fold_largerRate_In.
      apply in_map. apply nth_In. exact Hi.
  - split; [exact H0|]. split; [exact Hlin|]. intros H. lra.
Qed.

Lemma normaliseTables_range env st :
  m_eHigh (normaliseTables env st) = m_eHigh st /\
  m_eFinal (normaliseTables env st) = m_eFinal st.
Proof.
  unfold normaliseTables.
  destruct (mixRowsLin _ _ _ _ _ _) as [cf cfTot].
  cbn [m_eHigh m_eFinal set_cfTot set_cf].
  destruct (Rlt_dec _ _); [|split; reflexivity].
  destruct (mixRowsLog _ _ _ _ _ _ _) as [cfLog cfTotLog].
  split; reflexivity.
Qed.

Lemma finishRates_cfNull env st :
  0 <= m_cfNull (finishRates env st) /\
  (forall i : nat,
     nth i (m_cfTot (finishRates env st)) 0 <= m_cfNull (finishRates env st)) /\
  (m_eHigh st < m_eFinal st ->
   forall i : nat, (i < length (m_cfTotLog (finishRates env st)))%nat ->
     exp (nth i (m_cfTotLog (finishRates env st)) 0)
     <= m_cfNull (finishRates env st)).
Proof.
  unfold finishRates. cbv zeta.
  set (st1 := normaliseTables env (set_minIonPot (smallestIonPot st) st)).
  cbn [m_cfNull m_cfTot m_cfTotLog set_nCollisions set_nCollisionsDetailed
       set_cfNull].
  destruct (nullCollisionRate_bounds st1) as (H0 & Hlin & Hlog).
  split; [exact H0|]. split; [exact Hlin|].
  intros H. apply Hlog.
  destruct (normaliseTables_range env
              (set_minIonPot (smallestIonPot st) st)) as [E1 E2].
  fold st1 in E1, E2. rewrite E1, E2. exact H.
Qed.

Lemma finishMixer_cfNull env st :
  0 <= m_cfNull (finishMixer env st) /\
  (forall i : nat,
     nth i (m_cfTot (finishMixer env st)) 0 <= m_cfNull (finishMixer env st)) /\
  (m_eHigh st < m_eFinal st ->
   forall i : nat, (i < length (m_cfTotLog (finishMixer env st)))%nat ->
     exp (nth i (m_cfTotLog (finishMixer env st)) 0)
     <= m_cfNull (finishMixer env st)).
Proof.
  unfold finishMixer.
  pose proof (lateStages_kept env (finishRates env st)) as H.
  unfold keptByLateStages in H.
  destruct H as (_ & _ & _ & _ & _ & _ & _ & _ & _ & _ & H1 & H2 & H3 & _).
  rewrite H1, H2, H3. apply finishRates_cfNull.
Qed.

Lemma Mixer_cfNull env st :
  fst (Mixer env st) = true ->
  0 <= m_cfNull (snd (Mixer env st)) /\
  (forall i : nat,
     nth i (m_cfTot (snd (Mixer env st))) 0 <= m_cfNull (snd (Mixer env st))) /\
  (m_eHigh st < m_eFinal st ->
   forall i : nat, (i < length (m_cfTotLog (snd (Mixer env st))))%nat ->
     exp (nth i (m_cfTotLog (snd (Mixer env st))) 0)
     <= m_cfNull (snd (Mixer env st))).
Proof.
  unfold Mixer. cbv zeta.
  destruct (gasNumbersOf _) as [numbers|]; [|discriminate].
  match goal with
  | |- context [mixGases env ?p ?i ?n ?s] =>
      pose proof (mixGases_kept env p n i s) as H;
      destruct (mixGases env p i n s) as [[|] st1]
  end; cbn [fst snd] in *; [|discriminate].
  intros _.
  destruct (finishMixer_cfNull env st1) as (H0 & Hlin & Hlog).
  split; [exact H0|]. split; [exact Hlin|].
  intros Hr. apply Hlog.
  unfold keptByGasLoop in H.
  destruct H as (_ & _ & _ & _ & _ & _ & _ & _ & _ & E1 & E2 & _).
  rewrite E1, E2. exact Hr.
Qed.

Lemma updateTable_rebuilt env st st' :
  m_isChanged st = true -> updateTable env st = (true, st') ->
  fst (Mixer env st) = true /\ st' = set_isChanged false (snd (Mixer env st)).
Proof.
  intros Hc. unfold updateTable. rewrite Hc.
  destruct (Mixer env st) as [[|] st1]; cbn [fst snd]; [|discriminate].
  intros H. injection H as <-. split; reflexivity.
Qed.

(** X5.  The null-collision rate (lines 1867-1877) bounds the collision
    rates.  In the session that a rebuild of the table hands back,
    [m_cfNull] is not negative and not below the total rate of any bin of
    the linear grid, nor, where the range extends beyond [m_eHigh], below
    the exponential of an entry of the logarithmic table.  The rate that
    GetElectronCollisionRate reports for an energy of the linear grid
    therefore never exceeds the one that GetElectronNullCollisionRate
    reports. *)
Theorem collision_rate_below_null_collision_rate :
  forall (env : Environment) (st st' : MediumMagboltz),
    m_isChanged st = true -> updateTable env st = (true, st') ->
    0 <= m_cfNull st' /\
    (forall i : nat, nth i (m_cfTot st') 0 <= m_cfNull st') /\
    (m_eHigh st < m_eFinal st ->
     forall i : nat, (i < length (m_cfTotLog st'))%nat ->
       exp (nth i (m_cfTotLog st') 0) <= m_cfNull st') /\
    (forall e : R, e <= m_eHigh st' -> exceedsRange st' e = false ->
       fst (GetElectronCollisionRate env st' e)
       <= fst (GetElectronNullCollisionRate env st')).
Proof.
  intros env st st' Hc Hupd.
  destruct (updateTable_rebuilt env st st' Hc Hupd) as [Hm ->].
  destruct (Mixer_cfNull env st Hm) as (H0 & Hlin & Hlog).
  set (st1 := snd (Mixer env st)) in *.
  cbn [m_cfNull m_cfTot m_cfTotLog m_eHigh set_isChanged].
  split; [exact H0|]. split; [exact Hlin|]. split; [exact Hlog|].
  intros e He Hr.
  unfold GetElectronNullCollisionRate, GetElectronCollisionRate.
  rewrite Hr, updateTable_current by reflexivity.
  cbn [fst m_cfNull m_cfTot m_eHigh set_isChanged].
  destruct (Rle_dec e 0); [apply Hlin|].
  destruct (Rle_dec e (m_eHigh st1)) as [_|H]; [|lra].
  cbn [fst m_cfTot set_isChanged]. apply Hlin.
Qed.

Lemma collision_rate_below_null_collision_rate_witness :
  let env := exampleEnvironment unknownLevelCrossSections (fun _ => 1 / 2) in
  exists st',
    updateTable env deexcitationSession = (true, st') /\
    forall i : nat, nth i (m_cfTot st') 0 <= m_cfNull st'.
Proof.
  intros env.
  destruct unknownLevel_session as (st1 & HM & _). fold env in HM.
  exists (set_isChanged false st1).
  assert (Hupd : updateTable env deexcitationSession
                 = (true, set_isChanged false st1)).
  { unfold updateTable.
    replace (m_isChanged deexcitationSession) with true by reflexivity.
    rewrite HM. reflexivity. }
  split; [exact Hupd|].
  apply (collision_rate_below_null_collision_rate env deexcitationSession
           (set_isChanged false st1)); [reflexivity | exact Hupd].
Defined.

(** ** The direction after a collision *)

Lemma collisionAngle_unit Small e loss s1 ctheta0 :
  fst (collisionAngle Small e loss s1 ctheta0)
    * fst (collisionAngle Small e loss s1 ctheta0)
  + snd (collisionAngle Small e loss s1 ctheta0)
    * snd (collisionAngle Small e loss s1 ctheta0) = 1.
Proof.
  unfold collisionAngle. cbv zeta.
  set (theta := asin _).
  pose proof (sin2_cos2 theta) as H. unfold Rsqr in H.
  destruct (Rlt_dec ctheta0 0); [destruct (Rlt_dec _ _)|];
    cbn [fst snd]; lra.
Qed.

Lemma rotateDirection_unit dx dy dz ctheta stheta phi :
  dx * dx + dy * dy + dz * dz = 1 ->
  ctheta * ctheta + stheta * stheta = 1 ->
  let '(dx1, dy1, dz1) := rotateDirection dx dy dz ctheta stheta phi in
  dx1 * dx1 + dy1 * dy1 + dz1 * dz1 = 1.
Proof.
  intros Hd Hc. unfold rotateDirection. cbv zeta.
  pose proof (sin2_cos2 phi) as Hphi. unfold Rsqr in Hphi.
  destruct (Req_dec_T (sqrt (dx * dx + dy * dy)) 0) as [H0|Hne].
  - nra.
  - assert (Hdz : Rmin dz 1 = dz).
    { apply Rmin_left. nra. }
    rewrite Hdz.
    assert (Hxy : 0 <= dx * dx + dy * dy) by nra.
    pose proof (sqrt_sqrt _ Hxy) as Hrho.
    set (rho := sqrt (dx * dx + dy * dy)) in *.
    set (a := stheta / rho).
    assert (Ha : a * rho = stheta) by (unfold a; field; exact Hne).
    set (cphi := cos phi) in *. set (sphi := sin phi) in *.
    clearbody a rho cphi sphi.
    replace ((dx * ctheta - a * (dy * cphi + dx * dz * sphi)) *
             (dx * ctheta - a * (dy * cphi + dx * dz * sphi)) +
             (dy * ctheta + a * (dx * cphi - dy * dz * sphi)) *
             (dy * ctheta + a * (dx * cphi - dy * dz * sphi)) +
             (dz * ctheta + rho * stheta * sphi) *
             (dz * ctheta + rho * stheta * sphi))
      with ((dx * dx + dy * dy + dz * dz) * (ctheta * ctheta)
            + (a * a) * (dx * dx + dy * dy) * (cphi * cphi + dz * dz * (sphi * sphi))
            + rho * rho * (stheta * stheta) * (sphi * sphi)
            + 2 * ctheta * dz * sphi * (rho * stheta - a * (dx * dx + dy * dy)))
      by ring.
    rewrite <- Hrho.
    replace (a * a * (rho * rho)) with ((a * rho) * (a * rho)) by ring.
    replace (rho * stheta - a * (rho * rho)) with (rho * (stheta - a * rho))
      by ring.
    rewrite Ha.
    replace (rho * rho * (stheta * stheta) * (sphi * sphi))
      with ((rho * rho) * (stheta * stheta) * (sphi * sphi)) by ring.
    rewrite Hrho.
    replace (dx * dx + dy * dy) with (1 - dz * dz) by lra.
    replace (stheta * stheta) with (1 - ctheta * ctheta) by lra.
    replace (cphi * cphi) with (1 - sphi * sphi) by lra.
    ring.
Qed.

(** The energy and the direction that a successful call hands back are
    those of [collisionEnergy], [collisionAngle] and [rotateDirection] for
    some energy loss, mass ratio, cosine and azimuth. *)
Lemma GetElectronCollision_kinematics env steps draws st rc e dx dy dz
      secondaries col st' rc' :
  GetElectronCollision env steps draws st rc e dx dy dz secondaries
    = Some (Some col, st', rc') ->
  exists loss s1 ctheta0 phi,
    col_e1 col = collisionEnergy (Small env) e loss s1 ctheta0 /\
    (col_dx col, col_dy col, col_dz col)
    = rotateDirection dx dy dz
        (fst (collisionAngle (Small env) e loss s1 ctheta0))
        (snd (collisionAngle (Small env) e loss s1 ctheta0)) phi.
Proof.
  unfold GetElectronCollision.
  destruct (negb (exceedsRange st e) && _); [discriminate|].
  destruct (updateTable env _) as [[|] st2]; [|discriminate].
  unfold drawUniform at 1.
  destruct (sampleProcess st2 e _) as [[level angCut] angPar].
  set (type := (nth level (m_csType st2) 0 mod nCsTypes)%nat).
  set (igas := (nth level (m_csType st2) 0 / nCsTypes)%nat).
  set (st3 := countCollision type level st2).
  intros H.
  assert (Hgoal : forall loss sec ndxc st4 rc4,
    (let loss0 := clampLoss e loss in
     let '(ctheta0, rc5) := sampleCosine env st4 rc4 level angCut angPar in
     let s1 := nth igas (m_rgas st4) 0 in
     let e1 := collisionEnergy (Small env) e loss0 s1 ctheta0 in
     let '(ctheta, stheta) :=
       collisionAngle (Small env) e loss0 s1 ctheta0 in
     let '(u, rc6) := drawUniform env rc5 in
     let phi := 2 * PI * u in
     let '(dx', dy', dz') := rotateDirection dx dy dz ctheta stheta phi in
     Some (Some {| col_type := type; col_level := level; col_e1 := e1;
                   col_dx := dx'; col_dy := dy'; col_dz := dz';
                   col_secondaries := sec; col_ndxc := ndxc |}, st4, rc6))
    = Some (Some col, st', rc') ->
    exists loss s1 ctheta0 phi,
      col_e1 col = collisionEnergy (Small env) e loss s1 ctheta0 /\
      (col_dx col, col_dy col, col_dz col)
      = rotateDirection dx dy dz
          (fst (collisionAngle (Small env) e loss s1 ctheta0))
          (snd (collisionAngle (Small env) e loss s1 ctheta0)) phi).
  { intros loss sec ndxc st4 rc4. cbv zeta.
    destruct (sampleCosine _ _ _ _ _ _) as [ctheta0 rc5].
    destruct (collisionAngle _ _ _ _ _) as [ctheta stheta] eqn:Hang.
    unfold drawUniform.
    destruct (rotateDirection _ _ _ _ _ _) as [[dx' dy'] dz'] eqn:Hrot.
    intros Heq. injection Heq as <- _ _.
    exists (clampLoss e loss), (nth igas (m_rgas st4) 0), ctheta0,
      (2 * PI * RndmUniform env (nUniform rc5)).
    cbn [col_e1 col_dx col_dy col_dz]. rewrite Hang. cbn [fst snd].
    split; [reflexivity | symmetry; exact Hrot]. }
  destruct (type =? ElectronCollisionTypeIonisation)%nat.
  - unfold drawUniform at 1 in H. eapply Hgoal; exact H.
  - destruct (type =? ElectronCollisionTypeExcitation)%nat.
    + destruct (m_useDeexcitation st3 && _).
      * destruct (ComputeDeexcitationInternal _ _ _ _ _ _)
          as [[[st4 rc4] f]|]; [|discriminate].
        eapply Hgoal; exact H.
      * destruct (m_usePenning st3).
        -- destruct (penningTransfer _ _ _ _ _) as [[ndxc st4] rc4].
           eapply Hgoal; exact H.
        -- eapply Hgoal; exact H.
    + eapply Hgoal; exact H.
Qed.

(** X6.  The direction after a collision (lines 798-824): whatever process
    is sampled, a call of GetElectronCollision that succeeds turns a unit
    vector [(dx, dy, dz)] into a unit vector. *)
Theorem collision_keeps_direction_normalised :
  forall (env : Environment) (steps draws : nat) (st st' : MediumMagboltz)
         (rc rc' : RandomCursor) (e dx dy dz : R)
         (secondaries : list (IonProdType * R)) (col : Collision),
    GetElectronCollision env steps draws st rc e dx dy dz secondaries
      = Some (Some col, st', rc') ->
    dx * dx + dy * dy + dz * dz = 1 ->
    col_dx col * col_dx col + col_dy col * col_dy col
      + col_dz col * col_dz col = 1.
Proof.
  intros env steps draws st st' rc rc' e dx dy dz secondaries col H Hd.
  destruct (GetElectronCollision_kinematics _ _ _ _ _ _ _ _ _ _ _ _ _ H)
    as (loss & s1 & ctheta0 & phi & _ & Hrot).
  pose proof (rotateDirection_unit dx dy dz _ _ phi Hd
                (collisionAngle_unit (Small env) e loss s1 ctheta0)) as Hu.
  rewrite <- Hrot in Hu. exact Hu.
Qed.

(** A collision in the session with the two-term table. *)
Lemma penningSession_collision :
  let env :=
    exampleEnvironment (constantCrossSections []) (fun _ => 3 / 4) in
  let rc := {| nUniform := 0; nUniformPos := 0; nVoigt := 0 |} in
  exists col st' rc',
    GetElectronCollision env 1 1 penningSession rc 20 0 0 1 []
      = Some (Some col, st', rc').
Proof.
  intros env rc.
  assert (Hupd :
    updateTable env
      (if exceedsRange penningSession 20
       then snd (SetMaxElectronEnergy env penningSession (1.05 * 20))
       else penningSession) = (true, penningSession)).
  { rewrite exceedsRange_penningSession. reflexivity. }
  destruct (GetElectronCollision_without_cascade env 1%nat 1%nat
              penningSession penningSession rc 20 0 0 1 []
              ltac:(lra) Hupd eq_refl)
    as (col & st' & rc' & Hcall & _).
  exists col, st', rc'. exact Hcall.
Qed.

Lemma collision_keeps_direction_normalised_witness :
  let env :=
    exampleEnvironment (constantCrossSections []) (fun _ => 3 / 4) in
  let rc := {| nUniform := 0; nUniformPos := 0; nVoigt := 0 |} in
  exists col st' rc',
    GetElectronCollision env 1 1 penningSession rc 20 0 0 1 []
      = Some (Some col, st', rc') /\
    col_dx col * col_dx col + col_dy col * col_dy col
      + col_dz col * col_dz col = 1.
Proof.
  intros env rc.
  destruct penningSession_collision as (col & st' & rc' & Hcall).
  fold env rc in Hcall.
  exists col, st', rc'. split; [exact Hcall|].
  apply (collision_keeps_direction_normalised env 1 1 penningSession st'
           rc rc' 20 0 0 1 [] col Hcall).
  lra.
Defined.

(** ** The secondary electron of an ionisation *)

Lemma secondaryEnergy_floor env st e loss level igas u :
  0 < Small env -> 0 < secondaryEnergy env st e loss level igas u.
Proof.
  intros Hs. unfold secondaryEnergy. cbv zeta.
  destruct (Rle_dec _ 0) as [H|H]; [exact Hs | lra].
Qed.

Lemma tan_scaled_atan (u x : R) :
  0 <= u <= 1 -> 0 <= x -> 0 <= tan (u * atan x) <= x.
Proof.
  intros [Hu0 Hu1] Hx.
  pose proof (atan_bound x) as [Hlo Hhi].
  assert (Ha : 0 <= atan x).
  { destruct Hx as [Hx| <-]; [|rewrite atan_0; lra].
    rewrite <- atan_0. left. apply atan_increasing. exact Hx. }
  assert (H1 : 0 <= u * atan x) by (apply Rmult_le_pos; assumption).
  assert (H2 : u * atan x <= atan x) by nra.
  split.
  - destruct H1 as [H1| <-]; [|rewrite tan_0; lra].
    left. rewrite <- tan_0. apply tan_increasing; lra.
  - rewrite <- (tan_atan x) at 2.
    destruct H2 as [H2|H2]; [|rewrite H2; lra].
    left. apply tan_increasing; lra.
Qed.

(** X7.  The energy of the secondary electron (lines 693-714), for a
    random number [0 <= u <= 1] and an energy loss that does not exceed the
    energy.  It is positive: a sampled value that is not positive is
    replaced by [Small].  With the Opal-Beaty splitting function and a
    positive splitting parameter it is at most half of the energy that is
    left after the loss, and with the flat distribution at most that
    energy (or [Small], where that is larger). *)
Theorem secondaryEnergy_bounds :
  forall (env : Environment) (st : MediumMagboltz) (e loss : R)
         (level igas : nat) (u : R),
    0 < Small env -> 0 <= u <= 1 -> loss <= e ->
    let esec := secondaryEnergy env st e loss level igas u in
    0 < esec /\
    (m_useOpalBeaty st = true -> 0 < nth level (m_wOpalBeaty st) 0 ->
     esec <= Rmax (Small env) (0.5 * (e - loss))) /\
    (m_useOpalBeaty st = false -> m_useGreenSawada st = false ->
     esec <= Rmax (Small env) (e - loss)).
Proof.
  intros env st e loss level igas u Hs Hu Hl esec.
  split; [apply secondaryEnergy_floor; exact Hs|]. split.
  - intros Hob Hw. unfold esec, secondaryEnergy. cbv zeta. rewrite Hob.
    set (w := nth level (m_wOpalBeaty st) 0) in *.
    destruct (Rle_dec _ 0) as [H|H]; [apply Rmax_l|].
    apply Rle_trans with (0.5 * (e - loss)); [|apply Rmax_r].
    assert (Hx : 0 <= 0.5 * (e - loss) / w).
    { apply Rmult_le_pos; [lra|]. left. apply Rinv_0_lt_compat. exact Hw. }
    destruct (tan_scaled_atan u _ Hu Hx) as [_ Ht].
    replace (0.5 * (e - loss)) with (w * (0.5 * (e - loss) / w)) at 2
      by (field; lra).
    apply Rmult_le_compat_l; [lra | exact Ht].
  - intros Hob Hgs. unfold esec, secondaryEnergy. cbv zeta.
    rewrite Hob, Hgs.
    destruct (Rle_dec _ 0) as [H|H]; [apply Rmax_l|].
    apply Rle_trans with (e - loss); [|apply Rmax_r]. nra.
Qed.

Lemma secondaryEnergy_bounds_witness :
  let env := exampleEnvironment (constantCrossSections []) (fun _ => 1 / 2) in
  0 < secondaryEnergy env penningSession 20 15.7 1 0 (1 / 2).
Proof.
  intros env.
  apply (secondaryEnergy_bounds env penningSession 20 15.7 1 0 (1 / 2)).
  - unfold env. cbn [Small exampleEnvironment].
    apply Rdiv_lt_0_compat; [lra | apply pow_lt; lra].
  - lra.
  - lra.
Defined.

(** The ionisation products of a successful call. *)
Lemma GetElectronCollision_secondaries env steps draws st rc e dx dy dz
      secondaries col st' rc' :
  GetElectronCollision env steps draws st rc e dx dy dz secondaries
    = Some (Some col, st', rc') ->
  if (col_type col =? ElectronCollisionTypeIonisation)%nat then
    exists st3 loss igas u,
      col_secondaries col
      = (secondaries ++
         [(IonProdTypeElectron,
           secondaryEnergy env st3 e loss (col_level col) igas u);
          (IonProdTypeIon, 0)])%list /\
      col_ndxc col = 0%nat
  else col_secondaries col = secondaries.
Proof.
  unfold GetElectronCollision.
  destruct (negb (exceedsRange st e) && _); [discriminate|].
  destruct (updateTable env _) as [[|] st2]; [|discriminate].
  unfold drawUniform at 1.
  destruct (sampleProcess st2 e _) as [[level angCut] angPar].
  set (type := (nth level (m_csType st2) 0 mod nCsTypes)%nat).
  set (igas := (nth level (m_csType st2) 0 / nCsTypes)%nat).
  set (st3 := countCollision type level st2).
  intros H.
  assert (Hgoal : forall loss sec ndxc st4 rc4,
    (let loss0 := clampLoss e loss in
     let '(ctheta0, rc5) := sampleCosine env st4 rc4 level angCut angPar in
     let s1 := nth igas (m_rgas st4) 0 in
     let e1 := collisionEnergy (Small env) e loss0 s1 ctheta0 in
     let '(ctheta, stheta) :=
       collisionAngle (Small env) e loss0 s1 ctheta0 in
     let '(u, rc6) := drawUniform env rc5 in
     let phi := 2 * PI * u in
     let '(dx', dy', dz') := rotateDirection dx dy dz ctheta stheta phi in
     Some (Some {| col_type := type; col_level := level; col_e1 := e1;
                   col_dx := dx'; col_dy := dy'; col_dz := dz';
                   col_secondaries := sec; col_ndxc := ndxc |}, st4, rc6))
    = Some (Some col, st', rc') ->
    col_type col = type /\ col_level col = level /\
    col_secondaries col = sec /\ col_ndxc col = ndxc).
  { intros loss sec ndxc st4 rc4. cbv zeta.
    destruct (sampleCosine _ _ _ _ _ _) as [ctheta0 rc5].
    destruct (collisionAngle _ _ _ _ _) as [ctheta stheta].
    unfold drawUniform.
    destruct (rotateDirection _ _ _ _ _ _) as [[dx' dy'] dz'].
    intros Heq. injection Heq as <- _ _. repeat split. }
  destruct (type =? ElectronCollisionTypeIonisation)%nat eqn:Hion.
  - unfold drawUniform at 1 in H.
    apply Hgoal in H. destruct H as (Ht & Hl & Hs & Hn).
    rewrite Ht, Hion, Hl, Hs, Hn.
    exists st3, (nth level (m_energyLoss st3) 0), igas,
      (RndmUniform env (nUniform (useUniform rc))).
    split; reflexivity.
  - assert (Hother : forall loss ndxc st4 rc4,
      (let loss0 := clampLoss e loss in
       let '(ctheta0, rc5) := sampleCosine env st4 rc4 level angCut angPar in
       let s1 := nth igas (m_rgas st4) 0 in
       let e1 := collisionEnergy (Small env) e loss0 s1 ctheta0 in
       let '(ctheta, stheta) :=
         collisionAngle (Small env) e loss0 s1 ctheta0 in
       let '(u, rc6) := drawUniform env rc5 in
       let phi := 2 * PI * u in
       let '(dx', dy', dz') := rotateDirection dx dy dz ctheta stheta phi in
       Some (Some {| col_type := type; col_level := level; col_e1 := e1;
                     col_dx := dx'; col_dy := dy'; col_dz := dz';
                     col_secondaries := secondaries; col_ndxc := ndxc |},
             st4, rc6))
      = Some (Some col, st', rc') ->
      if (col_type col =? ElectronCollisionTypeIonisation)%nat then
        exists st3 loss igas u,
          col_secondaries col
          = (secondaries ++
             [(IonProdTypeElectron,
               secondaryEnergy env st3 e loss (col_level col) igas u);
              (IonProdTypeIon, 0)])%list /\
          col_ndxc col = 0%nat
      else col_secondaries col = secondaries).
    { intros loss ndxc st4 rc4 Heq. apply Hgoal in Heq.
      destruct Heq as (Ht & _ & Hs & _). rewrite Ht, Hion. exact Hs. }
    destruct (type =? ElectronCollisionTypeExcitation)%nat.
    + destruct (m_useDeexcitation st3 && _).
      * destruct (ComputeDeexcitationInternal _ _ _ _ _ _)
          as [[[st4 rc4] f]|]; [|discriminate].
        eapply Hother; exact H.
      * destruct (m_usePenning st3).
        -- destruct (penningTransfer _ _ _ _ _) as [[ndxc st4] rc4].
           eapply Hother; exact H.
        -- eapply Hother; exact H.
    + eapply Hother; exact H.
Qed.

(** X8.  The ionisation products of a collision (lines 690-714): a call
    of GetElectronCollision that succeeds with an ionisation appends two
    entries to the list of secondaries, the secondary electron with a
    positive energy and then the ion with energy 0, and reports no
    de-excitation product; a collision of any other type leaves the list
    as it was. *)
Theorem ionisation_adds_electron_and_ion :
  forall (env : Environment) (steps draws : nat) (st st' : MediumMagboltz)
         (rc rc' : RandomCursor) (e dx dy dz : R)
         (secondaries : list (IonProdType * R)) (col : Collision),
    0 < Small env ->
    GetElectronCollision env steps draws st rc e dx dy dz secondaries
      = Some (Some col, st', rc') ->
    (col_type col = ElectronCollisionTypeIonisation ->
     exists esec : R,
       0 < esec /\
       col_secondaries col
       = (secondaries ++
          [(IonProdTypeElectron, esec); (IonProdTypeIon, 0)])%list /\
       col_ndxc col = 0%nat) /\
    (col_type col <> ElectronCollisionTypeIonisation ->
     col_secondaries col = secondaries).
Proof.
  intros env steps draws st st' rc rc' e dx dy dz secondaries col Hs H.
  apply GetElectronCollision_secondaries in H.
  destruct (Nat.eqb_spec (col_type col) ElectronCollisionTypeIonisation)
    as [Heq|Hne].
  - split; [|intros Hn; contradiction].
    intros _. destruct H as (st3 & loss & igas & u & Hsec & Hn).
    exists (secondaryEnergy env st3 e loss (col_level col) igas u).
    split; [apply secondaryEnergy_floor; exact Hs|].
    split; assumption.
  - split; [intros Hn; contradiction|]. intros _. exact H.
Qed.

Lemma ionisation_adds_electron_and_ion_witness :
  let env :=
    exampleEnvironment (constantCrossSections []) (fun _ => 3 / 4) in
  let rc := {| nUniform := 0; nUniformPos := 0; nVoigt := 0 |} in
  exists col st' rc',
    GetElectronCollision env 1 1 penningSession rc 20 0 0 1 []
      = Some (Some col, st', rc') /\
    (col_type col <> ElectronCollisionTypeIonisation ->
     col_secondaries col = []).
Proof.
  intros env rc.
  destruct penningSession_collision as (col & st' & rc' & Hcall).
  fold env rc in Hcall.
  exists col, st', rc'. split; [exact Hcall|].
  apply (ionisation_adds_electron_and_ion env 1 1 penningSession st'
           rc rc' 20 0 0 1 [] col); [|exact Hcall].
  unfold env. cbn [Small exampleEnvironment].
  apply Rdiv_lt_0_compat; [lra | apply pow_lt; lra].
Defined.

(** ** The scattering angle *)

Lemma asin_nonneg x : 0 <= x <= 1 -> 0 <= asin x <= PI / 2.
Proof.
  intros [H0 H1]. pose proof (asin_bound x) as [Hlo Hhi].
  split; [|exact Hhi].
  apply Rnot_lt_le. intros Hneg.
  assert (Hs : sin (asin x) < 0).
  { apply sin_lt_0_var; [|exact Hneg]. pose proof PI_RGT_0. lra. }
  rewrite sin_asin in Hs by lra. lra.
Qed.

Lemma SetScatteringParameters_cut model parIn :
  (model = 1%Z -> parIn <= 1.5) ->
  0 <= fst (SetScatteringParameters model parIn) <= 1.
Proof.
  intros Hpar. unfold SetScatteringParameters.
  destruct (Z.leb_spec model 0); [cbn [fst]; lra|].
  destruct (Z.leb_spec 2 model); [cbn [fst]; lra|].
  destruct (Rle_dec parIn 1) as [Hle|Hgt]; [cbn [fst]; lra|].
  assert (Hm : model = 1%Z) by lia. specialize (Hpar Hm).
  cbv zeta. cbn [fst].
  set (cns := parIn - 0.5).
  assert (Hc : 0 <= cns - cns * cns <= / 4).
  { unfold cns. split; nra. }
  assert (Hs : 0 <= sqrt (cns - cns * cns) <= / 2).
  { split; [apply sqrt_pos|].
    replace (/ 2) with (sqrt (/ 4)).
    - apply sqrt_le_1_alt. lra.
    - replace (/ 4) with (/ 2 * / 2) by lra. apply sqrt_square. lra. }
  destruct (asin_nonneg (2 * sqrt (cns - cns * cns))) as [Ha0 Ha1]; [lra|].
  pose proof PI_RGT_0 as Hpi.
  split.
  - apply Rmult_le_pos; [exact Ha0|].
    apply Rmult_le_pos; [lra|]. left. apply Rinv_0_lt_compat. exact Hpi.
  - apply Rle_trans with (PI / 2 * (2 / PI)).
    + apply Rmult_le_compat_r; [|exact Ha1].
      apply Rmult_le_pos; [lra|]. left. apply Rinv_0_lt_compat. exact Hpi.
    + right. field. lra.
Qed.

Lemma sampleCosine_range env st rc level angCut angPar :
  (forall k : nat, 0 <= RndmUniform env k <= 1) ->
  0 <= angCut <= 1 ->
  (nth level (m_scatModel st) 0%Z = 2%Z -> -1 < angPar < 1) ->
  -1 <= fst (sampleCosine env st rc level angCut angPar) <= 1.
Proof.
  intros Hu Hcut Hpar. unfold sampleCosine, drawUniform.
  pose proof (Hu (nUniform rc)) as H0.
  destruct (m_useAnisotropic st); [|cbn [fst]; lra].
  destruct (Z.eqb_spec (nth level (m_scatModel st) 0%Z) 1) as [_|_].
  - pose proof (Hu (nUniform (useUniform rc))) as H1.
    assert (0 <= RndmUniform env (nUniform (useUniform rc)) * angCut <= 1)
      by nra.
    destruct (Rlt_dec _ _); cbn [fst]; lra.
  - destruct (Z.eqb_spec (nth level (m_scatModel st) 0%Z) 2) as [H2|_];
      [|cbn [fst]; lra].
    specialize (Hpar H2). cbn [fst].
    set (c0 := 1 - 2 * RndmUniform env (nUniform rc)).
    assert (Hc0 : -1 <= c0 <= 1) by (unfold c0; lra).
    clearbody c0.
    assert (Hd : 0 < 1 + angPar * c0).
    { destruct (Req_dec c0 (-1)) as [->|Hne]; [lra|].
      assert (Ha : 0 < (1 + angPar) * (1 + c0))
        by (apply Rmult_lt_0_compat; lra).
      assert (Hb : 0 <= (1 - angPar) * (1 - c0))
        by (apply Rmult_le_pos; lra).
      lra. }
    assert (Ha : 0 <= (1 + angPar) * (1 + c0)) by (apply Rmult_le_pos; lra).
    assert (Hb : 0 <= (1 - angPar) * (1 - c0)) by (apply Rmult_le_pos; lra).
    split.
    + apply (Rmult_le_reg_r (1 + angPar * c0)); [exact Hd|].
      unfold Rdiv. rewrite Rmult_assoc, Rinv_l by lra. lra.
    + apply (Rmult_le_reg_r (1 + angPar * c0)); [exact Hd|].
      unfold Rdiv. rewrite Rmult_assoc, Rinv_l by lra. lra.
Qed.

(** X9.  The cosine of the scattering angle (lines 765-786) with the
    parameters of SetScatteringParameters (lines 1982-2008), for random
    numbers between 0 and 1.  The cut that SetScatteringParameters hands
    back lies between 0 and 1 (for model 1 with an input parameter of at
    most 1.5), and with this cut and the parameter handed back (for model 2
    of modulus below 1) the sampled cosine lies between -1 and 1, whatever
    the scattering model of the level. *)
Theorem sampled_cosine_in_range :
  forall (env : Environment) (st : MediumMagboltz) (rc : RandomCursor)
         (level : nat) (parIn : R),
    (forall k : nat, 0 <= RndmUniform env k <= 1) ->
    let model := nth level (m_scatModel st) 0%Z in
    (model = 1%Z -> parIn <= 1.5) ->
    (model = 2%Z -> -1 < parIn < 1) ->
    let cut := fst (SetScatteringParameters model parIn) in
    let par := snd (SetScatteringParameters model parIn) in
    0 <= cut <= 1 /\
    -1 <= fst (sampleCosine env st rc level cut par) <= 1.
Proof.
  intros env st rc level parIn Hu model H1 H2 cut par.
  pose proof (SetScatteringParameters_cut model parIn H1) as Hcut.
  split; [exact Hcut|].
  apply sampleCosine_range; [exact Hu | exact Hcut|].
  fold model. intros Hm. unfold par, SetScatteringParameters.
  rewrite Hm. cbn [Z.leb Z.compare Pos.compare Pos.compare_cont snd].
  apply H2. exact Hm.
Qed.

Lemma sampled_cosine_in_range_witness :
  let env := exampleEnvironment (constantCrossSections []) (fun _ => 1 / 2) in
  let rc := {| nUniform := 0; nUniformPos := 0; nVoigt := 0 |} in
  -1 <= fst (sampleCosine env penningSession rc 1
               (fst (SetScatteringParameters 0 (1 / 2)))
               (snd (SetScatteringParameters 0 (1 / 2)))) <= 1.
Proof.
  intros env rc.
  apply (sampled_cosine_in_range env penningSession rc 1 (1 / 2)).
  - intros k. unfold env. cbn [RndmUniform exampleEnvironment]. lra.
  - intros H. lra.
  - intros H. lra.
Defined.

(** ** The rate beyond the linear grid *)




(** ** Gases that Magboltz does not know *)

Lemma mapFind_In {A} (m : list (string * A)) k v :
  mapFind m k = Some v -> In (k, v) m.
Proof.
  induction m as [|[k' v'] m IH]; simpl; [discriminate|].
  destruct (String.eqb_spec k k') as [<-|_].
  - intros H. injection H as ->. left. reflexivity.
  - intros H. right. apply IH. exact H.
Qed.

Lemma gasNumbers_range :
  Forall (fun kv : string * nat => (1 <= snd kv <= 60)%nat) gasNumbers.
Proof. unfold gasNumbers. repeat constructor. Qed.

Lemma gasNumbersOf_unknown names g :
  In g names -> GetGasNumberMagboltz g = None -> gasNumbersOf names = None.
Proof.
  intros Hin Hg. induction names as [|g' rest IH]; [contradiction|].
  simpl. destruct Hin as [->|Hin].
  - rewrite Hg. reflexivity.
  - rewrite (IH Hin). destruct (GetGasNumberMagboltz g'); reflexivity.
Qed.

(** X11.  Gas names and Magboltz numbers (lines 1120-1406 and 1482-1490).
    A number that GetGasNumberMagboltz hands back lies between 1 and 60,
    and the empty name has none.  Where a component of the mixture has a
    name without a number, Mixer fails after it has emptied the tables and
    before it resets the number of terms: the session handed back has the
    emptied tables and the level count of before the call. *)
Theorem Mixer_fails_on_unknown_gas :
  (forall (name : string) (n : nat),
     GetGasNumberMagboltz name = Some n -> (1 <= n <= 60)%nat) /\
  GetGasNumberMagboltz ""%string = None /\
  (forall (env : Environment) (st : MediumMagboltz) (i : nat),
     (i < m_nComponents st)%nat ->
     GetGasNumberMagboltz (nth i (m_gas st) ""%string) = None ->
     Mixer env st = (false, resetTables env st) /\
     m_nTerms (snd (Mixer env st)) = m_nTerms st /\
     m_cfTot (snd (Mixer env st)) = repeat 0 nEnergySteps /\
     m_cf (snd (Mixer env st)) = repeat (repeat 0 nMaxLevels) nEnergySteps).
Proof.
  split; [|split].
  - intros name n H. apply mapFind_In in H.
    pose proof gasNumbers_range as Hall.
    rewrite Forall_forall in Hall. exact (Hall _ H).
  - reflexivity.
  - intros env st i Hi Hg.
    assert (HM : Mixer env st = (false, resetTables env st)).
    { unfold Mixer. cbv zeta.
      change (m_gas (resetTables env st)) with (m_gas st).
      change (m_nComponents (resetTables env st)) with (m_nComponents st).
      rewrite (gasNumbersOf_unknown _ (nth i (m_gas st) ""%string));
        [reflexivity | | exact Hg].
      apply in_map_iff. exists i. split; [reflexivity|].
      apply in_seq. lia. }
    rewrite HM. repeat split.
Qed.

Lemma Mixer_fails_on_unknown_gas_witness :
  let env := exampleEnvironment (constantCrossSections []) (fun _ => 1 / 2) in
  fst (Mixer env (newSession ["Isobutane"%string] [1])) = false.
Proof.
  intros env.
  destruct Mixer_fails_on_unknown_gas as (_ & _ & H).
  destruct (H env (newSession ["Isobutane"%string] [1]) 0%nat)
    as (HM & _).
  - cbn [m_nComponents newSession length]. lia.
  - reflexivity.
  - rewrite HM. reflexivity.
Defined.

(** ** The number of levels *)

Lemma length_termsOf eFinal withIon out :
  (g_nIn out + 2 <= length (termsOf eFinal withIon out)
   <= g_nIn out + g_nIon out + 3)%nat /\
  (1 <= g_nIon out ->
   length (termsOf eFinal withIon out) <= g_nIn out + g_nIon out + 2)%nat.
Proof.
  unfold termsOf. cbn [length].
  rewrite length_app. cbn [length]. rewrite length_map, length_seq.
  destruct withIon; [|cbn [length]; lia].
  destruct (Nat.ltb_spec 1 (g_nIon out)) as [H|H].
  - rewrite length_map.
    pose proof (filter_length_le
                  (fun j => negb (Rltb eFinal (g_eIon out j)))
                  (seq 0 (g_nIon out))) as Hf.
    rewrite length_seq in Hf. lia.
  - cbn [length]. lia.
Qed.

Lemma mixGas_nTerms env prefactor iGas ngs st :
  let out :=
    gasmix env
      (gasmixInput env st ngs (Rmin (m_eFinal st) (m_eHigh st)) (m_eStep st)) in
  fst (mixGas env prefactor iGas ngs st) = true ->
  (m_nTerms st + g_nIn out + g_nIon out + 1 < nMaxLevels)%nat /\
  m_nTerms (snd (mixGas env prefactor iGas ngs st))
  = (m_nTerms st
     + length (termsOf (m_eFinal st) (hasIonisation (m_eFinal st) out) out))%nat.
Proof.
  intros out. unfold mixGas. fold out.
  destruct (Nat.leb_spec nMaxLevels
              (m_nTerms st + g_nIn out + g_nIon out + 1)) as [H|H];
    [discriminate|].
  intros _. split; [exact H|].
  cbn [m_eFinal set_rgas].
  destruct (fold_left _ _ _) as [np st1].
  destruct (fillRowsLin _ _ _ _ _ _ _ _ _ _) as [[cf cut] par].
  destruct (Rle_dec _ _); [reflexivity|].
  destruct (fillRowsLog _ _ _ _ _ _ _ _ _ _ _ _) as [[cfLog cutLog] parLog].
  reflexivity.
Qed.

Lemma mixGas_nTerms_bound env prefactor iGas ngs st :
  fst (mixGas env prefactor iGas ngs st) = true ->
  (m_nTerms st <= m_nTerms (snd (mixGas env prefactor iGas ngs st))
   <= nMaxLevels + 1)%nat.
Proof.
  intros H. destruct (mixGas_nTerms env prefactor iGas ngs st H) as [Hfit ->].
  match goal with
  | |- context [termsOf ?e ?w ?o] =>
      destruct (length_termsOf e w o) as [[Hlo Hhi] _]
  end.
  lia.
Qed.

Lemma mixGases_nTerms_bound env prefactor numbers : forall iGas st st1,
  mixGases env prefactor iGas numbers st = (true, st1) ->
  (m_nTerms st <= nMaxLevels + 1)%nat ->
  (m_nTerms st1 <= nMaxLevels + 1)%nat.
Proof.
  induction numbers as [|ngs rest IH]; intros iGas st st1; simpl.
  - intros H. injection H as <-. exact (fun H => H).
  - pose proof (mixGas_nTerms_bound env prefactor iGas ngs st) as Hb.
    destruct (mixGas env prefactor iGas ngs st) as [[|] st2];
      [|discriminate].
    intros H _. apply (IH _ _ _ H). apply Hb. reflexivity.
Qed.

Lemma Mixer_single_gas_nTerms env st ngs out :
  (forall input, gasmix env input = out) ->
  gasNumbersOf
    (map (fun i => nth i (m_gas st) ""%string) (seq 0 (m_nComponents st)))
  = Some [ngs] ->
  g_nIon out = 0%nat -> (g_nIn out + 1 < nMaxLevels)%nat ->
  g_e out 2 <= m_eFinal st ->
  exists st',
    Mixer env st = (true, st') /\ m_nTerms st' = (g_nIn out + 3)%nat.
Proof.
  intros Hout Hgas Hion Hfit He.
  set (s0 := set_nTerms 0%nat (resetTables env st)).
  set (prefactor :=
         numberDensity env st * SpeedOfLight env
         * sqrt (2 / ElectronMass env)).
  assert (Hok : fst (mixGas env prefactor 0 ngs s0) = true).
  { rewrite fst_mixGas, !Hout, Hion.
    change (m_nTerms s0) with 0%nat.
    apply negb_true_iff, Nat.leb_gt. lia. }
  exists (finishMixer env (snd (mixGas env prefactor 0 ngs s0))).
  split; [apply Mixer_single_gas; assumption|].
  destruct (finishMixer_levels env (snd (mixGas env prefactor 0 ngs s0)))
    as (_ & _ & _ & Hn).
  rewrite Hn.
  destruct (mixGas_nTerms env prefactor 0 ngs s0 Hok) as [_ Hterms].
  rewrite Hterms, !Hout.
  change (m_eFinal s0) with (m_eFinal st).
  change (m_nTerms s0) with 0%nat.
  destruct (hasIonisation_single (m_eFinal st) out Hion He) as (-> & ->).
  cbn [length]. rewrite length_map, length_seq. lia.
Qed.

(** X12.  The number of levels after Mixer (lines 1554-1660).  A call
    that succeeds leaves at most [nMaxLevels + 1] levels: the test of line
    1557 lets a gas pass when its inelastic and ionisation terms and one
    more fit below [nMaxLevels], and the gas then adds up to three terms
    beside the inelastic ones.  The bound is reached: a single gas without
    separate ionisation terms, whose ionisation threshold is within the
    energy range, leaves [nIn + 3] levels whenever [nIn + 1 < nMaxLevels],
    which for [nIn = nMaxLevels - 2] is one level more than the arrays of
    the level data hold. *)
Theorem Mixer_level_count :
  (forall (env : Environment) (st st' : MediumMagboltz),
     Mixer env st = (true, st') -> (m_nTerms st' <= nMaxLevels + 1)%nat) /\
  (forall (env : Environment) (st : MediumMagboltz) (ngs : nat)
          (out : GasmixOutput),
     (forall input, gasmix env input = out) ->
     gasNumbersOf
       (map (fun i => nth i (m_gas st) ""%string) (seq 0 (m_nComponents st)))
     = Some [ngs] ->
     g_nIon out = 0%nat -> (g_nIn out + 1 < nMaxLevels)%nat ->
     g_e out 2 <= m_eFinal st ->
     exists st',
       Mixer env st = (true, st') /\ m_nTerms st' = (g_nIn out + 3)%nat).
Proof.
  split; [|exact Mixer_single_gas_nTerms].
  intros env st st' HM.
  destruct (Mixer_true env st st' HM) as (numbers & st1 & _ & Hloop & ->).
  destruct (finishMixer_levels env st1) as (_ & _ & _ & Hn).
  rewrite Hn.
  apply (mixGases_nTerms_bound _ _ _ _ _ _ Hloop).
  cbn [m_nTerms set_nTerms]. lia.
Qed.

Lemma Mixer_level_count_witness :
  let env := exampleEnvironment fullCrossSections (fun _ => 1 / 2) in
  exists st',
    Mixer env (newSession ["Ar"%string] [1]) = (true, st') /\
    m_nTerms st' = (nMaxLevels + 1)%nat.
Proof.
  intros env.
  destruct Mixer_level_count as [_ H].
  destruct (H env (newSession ["Ar"%string] [1]) 2%nat fullCrossSections)
    as (st' & HM & Hn).
  - intros input. reflexivity.
  - reflexivity.
  - reflexivity.
  - cbn [g_nIn fullCrossSections constantCrossSections].
    rewrite repeat_length. unfold nMaxLevels. lia.
  - cbn [g_e fullCrossSections constantCrossSections m_eFinal newSession].
    lra.
  - exists st'. split; [exact HM|]. rewrite Hn.
    cbn [g_nIn fullCrossSections constantCrossSections].
    rewrite repeat_length. reflexivity.
Defined.

(** ** The gas of a level *)










(** ** The products of a cascade *)

Lemma chronological_app t0 l p :
  chronological t0 l -> Forall (fun q => prod_t q <= prod_t p) l ->
  t0 <= prod_t p -> chronological t0 (l ++ [p]).
Proof.
  revert t0. induction l as [|q l IH]; intros t0 Hc Hall Ht; cbn.
  - split; [exact Ht | exact I].
  - destruct Hc as [Hq Hc]. inversion Hall as [|? ? Hqp Hall']; subst.
    split; [exact Hq|]. apply IH; assumption.
Qed.

Lemma countElectrons_app l p :
  countElectrons (l ++ [p])
  = (countElectrons l + if isElectron p then 1 else 0)%nat.
Proof.
  unfold countElectrons. rewrite filter_app, length_app. cbn [filter].
  destruct (isElectron p); reflexivity.
Qed.

Lemma floorSmall_ge env x : Small env <= floorSmall env x.
Proof. unfold floorSmall. destruct (Rlt_dec x (Small env)); lra. Qed.

Lemma increment32_mod n k :
  (n mod 2 ^ 32 = k mod 2 ^ 32 ->
   increment32 n mod 2 ^ 32 = (k + 1) mod 2 ^ 32)%Z.
Proof.
  intros H. unfold increment32. rewrite Z.mod_mod by lia.
  rewrite Z.add_mod, H, <- Z.add_mod by lia. reflexivity.
Qed.

(** A product pushed at the new time keeps the invariant. *)
Lemma cascadeInvariant_push small n0 c t type energy rc :
  cascadeInvariant small n0 c -> cas_t c <= t -> small <= energy ->
  cascadeInvariant small n0
    {| cas_t := t;
       cas_products :=
         (cas_products c ++
          [{| prod_s := 0; prod_t := t; prod_type := type;
              prod_energy := energy |}])%list;
       cas_nPenning :=
         match type with
         | DxcProdTypeElectron => increment32 (cas_nPenning c)
         | DxcProdTypePhoton => cas_nPenning c
         end;
       cas_random := rc |}.
Proof.
  intros (H0 & Hc & Ht & He & Hn) Hle Hen.
  unfold cascadeInvariant. cbn [cas_t cas_products cas_nPenning].
  split; [lra|]. split; [|split; [|split]].
  - apply chronological_app; cbn [prod_t]; [exact Hc | | lra].
    eapply Forall_impl; [|exact Ht]. cbn beta. intros q Hq. lra.
  - apply Forall_app. split.
    + eapply Forall_impl; [|exact Ht]. cbn beta. intros q Hq. lra.
    + constructor; [cbn [prod_t]; lra | constructor].
  - apply Forall_app. split; [exact He|].
    constructor; [split; [exact Hen | reflexivity] | constructor].
  - rewrite countElectrons_app. unfold isElectron. cbn [prod_type].
    destruct type.
    + rewrite Nat.add_0_r. exact Hn.
    + rewrite Nat2Z.inj_add, Z.add_assoc. apply increment32_mod. exact Hn.
Qed.

Lemma cascadeInvariant_time small n0 c t rc :
  cascadeInvariant small n0 c -> cas_t c <= t ->
  cascadeInvariant small n0
    {| cas_t := t; cas_products := cas_products c;
       cas_nPenning := cas_nPenning c; cas_random := rc |}.
Proof.
  intros (H0 & Hc & Ht & He & Hn) Hle.
  unfold cascadeInvariant. cbn [cas_t cas_products cas_nPenning].
  split; [lra|]. split; [exact Hc|]. split; [|split; assumption].
  eapply Forall_impl; [|exact Ht]. cbn beta. intros q Hq. lra.
Qed.

Lemma sampleLineOffset_energy env dxc : forall draws k delta k',
  sampleLineOffset env draws k dxc = Some (delta, k') ->
  Small env <= dxc_energy dxc + delta.
Proof.
  induction draws as [|draws IH]; intros k delta k'; cbn [sampleLineOffset];
    [discriminate|].
  destruct (Rlt_dec _ _) as [|Hge]; [apply IH|].
  destruct (Rge_dec _ _); [apply IH|].
  intros H. injection H as <- _. lra.
Qed.

Lemma cascadeLoop_invariant env draws table minIonPot n0 :
  (forall k : nat, 0 < RndmUniformPos env k <= 1) ->
  forall steps iLevel fLevel c fLevel' c',
    cascadeInvariant (Small env) n0 c ->
    cascadeLoop env steps draws table minIonPot iLevel fLevel c
      = Some (fLevel', c') ->
    cascadeInvariant (Small env) n0 c'.
Proof.
  intros Hpos.
  induction steps as [|steps IH]; intros iLevel fLevel c fLevel' c' Hinv;
    cbn [cascadeLoop]; [discriminate|].
  destruct (_ && _); [|intros H; injection H as _ <-; exact Hinv].
  destruct (nth_error table (Z.to_nat iLevel)) as [dxc|];
    [|intros H; injection H as _ <-; exact Hinv].
  destruct (Rle_dec (dxc_rate dxc) 0) as [|Hrate];
    [intros H; injection H as _ <-; exact Hinv|].
  destruct (length (dxc_p dxc) <=? 0)%nat;
    [intros H; injection H as _ <-; exact Hinv|].
  set (t := cas_t c + - ln (RndmUniformPos env (nUniformPos (cas_random c)))
                      / dxc_rate dxc).
  assert (Ht : cas_t c <= t).
  { unfold t. destruct (Hpos (nUniformPos (cas_random c))) as [Hu0 Hu1].
    assert (Hln : ln (RndmUniformPos env (nUniformPos (cas_random c))) <= 0).
    { rewrite <- ln_1. destruct Hu1 as [Hu1|Hu1].
      - left. apply ln_increasing; assumption.
      - rewrite Hu1. lra. }
    assert (0 <= - ln (RndmUniformPos env (nUniformPos (cas_random c)))
                 / dxc_rate dxc).
    { apply Rmult_le_pos; [lra|]. left. apply Rinv_0_lt_compat. lra. }
    lra. }
  clearbody t.
  destruct (selectChannel dxc _) as [f type].
  destruct (type =? DxcTypeRad)%Z.
  - destruct (0 <=? f)%Z.
    + apply IH.
      apply (cascadeInvariant_push _ _ c t DxcProdTypePhoton);
        [exact Hinv | exact Ht | apply floorSmall_ge].
    + destruct (sampleLineOffset env draws _ dxc) as [[delta k]|] eqn:Hline;
        [|discriminate].
      intros H. injection H as _ <-.
      apply (cascadeInvariant_push _ _ c t DxcProdTypePhoton);
        [exact Hinv | exact Ht|].
      eapply sampleLineOffset_energy. exact Hline.
  - destruct (type =? DxcTypeCollIon)%Z.
    + destruct (0 <=? f)%Z.
      * apply IH.
        apply (cascadeInvariant_push _ _ c t DxcProdTypeElectron);
          [exact Hinv | exact Ht | apply floorSmall_ge].
      * intros H. injection H as _ <-.
        apply (cascadeInvariant_push _ _ c t DxcProdTypeElectron);
          [exact Hinv | exact Ht | apply floorSmall_ge].
    + destruct (type =? DxcTypeCollNonIon)%Z.
      * apply IH. apply cascadeInvariant_time; assumption.
      * intros H. injection H as _ <-.
        apply cascadeInvariant_time; assumption.
Qed.

(** X14.  The products of a de-excitation cascade (lines 3161-3250), for
    random numbers [RndmUniformPos] in (0, 1].  When
    ComputeDeexcitationInternal returns, the products it has stored are
    listed in the order of their times, which are not negative; every
    product has an energy of at least [Small] and the displacement 0; and
    the Penning counter has grown by the number of electrons among the
    products, as a 32-bit number. *)
Theorem cascade_products_are_ordered :
  forall (env : Environment) (steps draws : nat) (st st' : MediumMagboltz)
         (rc rc' : RandomCursor) (iLevel fLevel : Z),
    (forall k : nat, 0 < RndmUniformPos env k <= 1) ->
    ComputeDeexcitationInternal env steps draws st rc iLevel
      = Some (st', rc', fLevel) ->
    chronological 0 (m_dxcProducts st') /\
    Forall (fun p => Small env <= prod_energy p /\ prod_s p = 0)
      (m_dxcProducts st') /\
    (m_nPenning st' mod 2 ^ 32
     = (m_nPenning st + Z.of_nat (countElectrons (m_dxcProducts st')))
       mod 2 ^ 32)%Z.
Proof.
  intros env steps draws st st' rc rc' iLevel fLevel Hpos.
  unfold ComputeDeexcitationInternal.
  destruct (cascadeLoop _ _ _ _ _ _ _ _) as [[f c]|] eqn:Hloop;
    [|discriminate].
  intros H. injection H as <- _ _.
  cbn [m_dxcProducts m_nPenning set_nPenning set_dxcProducts].
  apply (cascadeLoop_invariant env draws _ _ (m_nPenning st) Hpos) in Hloop.
  - destruct Hloop as (_ & Hc & _ & He & Hn). repeat split; assumption.
  - unfold cascadeInvariant.
    cbn [cas_t cas_products cas_nPenning countElectrons filter length].
    split; [lra|]. split; [exact I|]. split; [constructor|].
    split; [constructor|]. rewrite Z.add_0_r. reflexivity.
Qed.

Lemma twoLevelSession_cascade :
  exists st' rc' fLevel,
    ComputeDeexcitationInternal (argonEnvironment (fun _ => 1 / 2)) 3 1
      twoLevelSession {| nUniform := 0; nUniformPos := 0; nVoigt := 0 |} 0
    = Some (st', rc', fLevel).
Proof.
  unfold ComputeDeexcitationInternal.
  destruct (cascadeLoop_returns (argonEnvironment (fun _ => 1 / 2))
              (m_deexcitations twoLevelSession) (fun i => 1 - i)%nat 1%nat
              (m_minIonPot twoLevelSession) twoLevelTable_acyclic
              (fun dxc k => twoLevelTable_offsets k dxc) 3%nat 0%Z 0%Z
              {| cas_t := 0; cas_products := [];
                 cas_nPenning := m_nPenning twoLevelSession;
                 cas_random :=
                   {| nUniform := 0; nUniformPos := 0; nVoigt := 0 |} |})
    as [[fLevel c] Hloop].
  - change (Z.to_nat 0) with 0%nat. cbn. lia.
  - rewrite Hloop. do 3 eexists. reflexivity.
Qed.

Lemma cascade_products_are_ordered_witness :
  exists st' rc' fLevel,
    ComputeDeexcitationInternal (argonEnvironment (fun _ => 1 / 2)) 3 1
      twoLevelSession {| nUniform := 0; nUniformPos := 0; nVoigt := 0 |} 0
    = Some (st', rc', fLevel) /\
    chronological 0 (m_dxcProducts st').
Proof.
  destruct twoLevelSession_cascade as (st' & rc' & fLevel & Hcall).
  exists st', rc', fLevel. split; [exact Hcall|].
  apply (cascade_products_are_ordered (argonEnvironment (fun _ => 1 / 2))
           3 1 twoLevelSession st'
           {| nUniform := 0; nUniformPos := 0; nVoigt := 0 |} rc' 0 fLevel);
    [|exact Hcall].
  intros k. cbn [RndmUniformPos argonEnvironment exampleEnvironment]. lra.
Defined.

(** ** The branching ratios of a level *)

Lemma selectChannelFrom_some dxc r : forall ps j0 k,
  (k < length ps)%nat -> r <= nth k ps 0 ->
  exists k', (k' <= k)%nat /\
    selectChannelFrom j0 ps dxc r
    = (nth (j0 + k') (dxc_final dxc) (-1)%Z,
       nth (j0 + k') (dxc_type dxc) DxcTypeRad).
Proof.
  induction ps as [|p ps IH]; intros j0 k Hk Hr; cbn [length] in Hk; [lia|].
  cbn [selectChannelFrom].
  destruct (Rle_dec r p) as [Hle|Hgt].
  - exists 0%nat. rewrite Nat.add_0_r. split; [lia | reflexivity].
  - destruct k as [|k]; [cbn [nth] in Hr; lra|].
    destruct (IH (S j0) k ltac:(lia) Hr) as (k' & Hk' & Heq).
    exists (S k'). split; [lia|].
    replace (j0 + S k')%nat with (S j0 + k')%nat by lia. exact Heq.
Qed.

(** X15.  The branching ratios of a level of the de-excitation table
    (lines 3088-3092 and 3181-3187), for an entry with as many rates as
    channel types, none of them negative and one positive.  After the
    normalisation the ratios are cumulative: they do not decrease, lie
    between 0 and 1, and the last one is 1.  The loop over the channels
    therefore finds a channel of the entry for every random number up to 1
    and does not fall through to its default, a radiative decay to the
    ground state. *)
Theorem branching_ratios_are_cumulative :
  forall (dxc : Deexcitation) (k : nat),
    (k < length (dxc_type dxc))%nat ->
    length (dxc_p dxc) = length (dxc_type dxc) ->
    Forall (fun x => 0 <= x) (dxc_p dxc) ->
    0 < nth k (dxc_p dxc) 0 ->
    let dxc' := normaliseDeexcitation dxc in
    let n := length (dxc_type dxc) in
    (forall i j : nat, (i <= j < n)%nat ->
       nth i (dxc_p dxc') 0 <= nth j (dxc_p dxc') 0) /\
    (forall j : nat, (j < n)%nat -> 0 <= nth j (dxc_p dxc') 0 <= 1) /\
    nth (n - 1) (dxc_p dxc') 0 = 1 /\
    (forall r : R, r <= 1 ->
       exists j : nat, (j < n)%nat /\
         selectChannel dxc' r
         = (nth j (dxc_final dxc) (-1)%Z, nth j (dxc_type dxc) DxcTypeRad)).
Proof.
  intros dxc k Hk Hlen Hpos Hpk dxc' n.
  destruct (normaliseDeexcitation_channels dxc k Hk ltac:(lia) Hpos Hpk)
    as (Hrate & Hl & Hf & Ht & _ & Hp).
  fold dxc' in Hrate, Hl, Hf, Ht, Hp. fold n in Hk, Hlen, Hp.
  assert (Hinv : 0 < / dxc_rate dxc') by (apply Rinv_0_lt_compat; exact Hrate).
  assert (Htot : dxc_rate dxc' = sumR (firstn n (dxc_p dxc))).
  { unfold dxc', normaliseDeexcitation. fold n.
    rewrite sumFirst_eq, Rplus_0_l.
    destruct (Rlt_dec _ _); reflexivity. }
  assert (Hmono : forall i j : nat, (i <= j < n)%nat ->
            nth i (dxc_p dxc') 0 <= nth j (dxc_p dxc') 0).
  { intros i j Hij. rewrite !Hp by lia.
    apply Rmult_le_compat_r; [lra|].
    apply sumR_firstn_mono; [exact Hpos | lia]. }
  assert (Hlast : nth (n - 1) (dxc_p dxc') 0 = 1).
  { rewrite Hp by lia. replace (S (n - 1)) with n by lia.
    rewrite <- Htot. unfold Rdiv. apply Rinv_r. lra. }
  split; [exact Hmono|]. split; [|split; [exact Hlast|]].
  - intros j Hj. split.
    + rewrite Hp by lia. apply Rmult_le_pos; [|lra].
      apply sumR_firstn_nonneg. exact Hpos.
    + rewrite <- Hlast. apply Hmono. lia.
  - intros r Hr.
    destruct (selectChannelFrom_some dxc' r (dxc_p dxc') 0 (n - 1))
      as (j & Hj & Heq).
    + rewrite Hl, Hlen. lia.
    + rewrite Hlast. exact Hr.
    + exists j. split; [lia|].
      unfold selectChannel. rewrite Heq, Hf, Ht. reflexivity.
Qed.

Lemma branching_ratios_are_cumulative_witness :
  let dxc :=
    {| dxc_gas := 0; dxc_level := 4; dxc_label := "upper"%string;
       dxc_energy := 13; dxc_p := [1; 3]; dxc_final := [1%Z; (-1)%Z];
       dxc_type := [DxcTypeRad; DxcTypeCollIon]; dxc_osc := 0;
       dxc_rate := 0; dxc_sDoppler := 0; dxc_gPressure := 0;
       dxc_width := 1; dxc_cf := 0 |} in
  nth 1 (dxc_p (normaliseDeexcitation dxc)) 0 = 1.
Proof.
  intros dxc.
  apply (branching_ratios_are_cumulative dxc 0).
  - cbn. lia.
  - reflexivity.
  - cbn [dxc_p dxc]. repeat constructor; lra.
  - cbn. lra.
Defined.

(** ** What Mixer leaves untouched *)

Lemma fold_left_kept {S B A : Type} (proj : S -> A) (f : S -> B -> S) l :
  (forall s b, proj (f s b) = proj s) ->
  forall s, proj (fold_left f l s) = proj s.
Proof.
  intros Hstep. induction l as [|b l IH]; intros s; simpl; [reflexivity|].
  rewrite IH. apply Hstep.
Qed.

Lemma writeLevel_configuration out iGas r acc src :
  configuration (snd (writeLevel out iGas r acc src))
    = configuration (snd acc) /\
  penningLevels (snd (writeLevel out iGas r acc src))
    = penningLevels (snd acc).
Proof. destruct acc as [np st]. destruct src; split; reflexivity. Qed.

Lemma writeLevels_configuration out iGas r terms np st :
  configuration (snd (fold_left (writeLevel out iGas r) terms (np, st)))
    = configuration st /\
  penningLevels (snd (fold_left (writeLevel out iGas r) terms (np, st)))
    = penningLevels st.
Proof.
  split.
  - apply (fold_left_kept (fun a => configuration (snd a))).
    intros s b. apply writeLevel_configuration.
  - apply (fold_left_kept (fun a => penningLevels (snd a))).
    intros s b. apply writeLevel_configuration.
Qed.

Lemma writeIonisationPotential_configuration out iGas st :
  configuration (writeIonisationPotential out iGas st) = configuration st /\
  penningLevels (writeIonisationPotential out iGas st) = penningLevels st.
Proof.
  unfold writeIonisationPotential.
  destruct (1 <? g_nIon out)%nat; [split; reflexivity|].
  destruct (Rge_dec _ _); split; reflexivity.
Qed.

Lemma mixGas_configuration env prefactor iGas ngs st :
  configuration (snd (mixGas env prefactor iGas ngs st)) = configuration st /\
  penningLevels (snd (mixGas env prefactor iGas ngs st)) = penningLevels st.
Proof.
  unfold mixGas.
  destruct (nMaxLevels <=? _)%nat; [split; reflexivity|].
  match goal with
  | |- context [fold_left (writeLevel ?o ?i ?r) ?t (?n, ?s)] =>
      pose proof (writeLevels_configuration o i r t n s) as Hw;
      destruct (fold_left (writeLevel o i r) t (n, s)) as [np st1]
  end.
  cbn [snd] in Hw.
  pose proof (writeIonisationPotential_configuration
                (gasmix env
                   (gasmixInput env st ngs (Rmin (m_eFinal st) (m_eHigh st))
                      (m_eStep st))) iGas st1) as Hi.
  match type of Hi with configuration ?s = _ /\ _ => set (st2 := s) in * end.
  assert (H2 : configuration st2 = configuration st /\
               penningLevels st2 = penningLevels st).
  { destruct Hw as [Hw1 Hw2], Hi as [Hi1 Hi2].
    split; [rewrite Hi1, Hw1 | rewrite Hi2, Hw2]; reflexivity. }
  clearbody st2. clear Hw Hi. destruct H2 as [Hc Hp].
  destruct (fillRowsLin _ _ _ _ _ _ _ _ _ _) as [[cf cut] par].
  destruct (Rle_dec _ _).
  - cbn [snd]. split; [rewrite <- Hc | rewrite <- Hp]; reflexivity.
  - destruct (fillRowsLog _ _ _ _ _ _ _ _ _ _ _ _) as [[cfLog cutLog] parLog].
    cbn [snd]. split; [rewrite <- Hc | rewrite <- Hp]; reflexivity.
Qed.

Lemma mixGases_configuration env prefactor numbers : forall iGas st,
  configuration (snd (mixGases env prefactor iGas numbers st))
    = configuration st /\
  penningLevels (snd (mixGases env prefactor iGas numbers st))
    = penningLevels st.
Proof.
  induction numbers as [|ngs rest IH]; intros iGas st; simpl.
  - split; reflexivity.
  - pose proof (mixGas_configuration env prefactor iGas ngs st) as Hg.
    destruct (mixGas env prefactor iGas ngs st) as [[|] st1]; cbn [snd] in *.
    + destruct (IH (S iGas) st1) as [H1 H2], Hg as [G1 G2].
      split; congruence.
    + exact Hg.
Qed.

Lemma finishRates_configuration env st :
  configuration (finishRates env st) = configuration st /\
  penningLevels (finishRates env st) = penningLevels st /\
  m_minIonPot (finishRates env st) = smallestIonPot st /\
  m_ionPot (finishRates env st) = m_ionPot st.
Proof.
  unfold finishRates, normaliseTables.
  destruct (mixRowsLin _ _ _ _ _ _) as [cf cfTot].
  cbn [m_eHigh m_eFinal set_cfTot set_cf set_minIonPot].
  destruct (Rlt_dec _ _); [|repeat split].
  destruct (mixRowsLog _ _ _ _ _ _ _) as [cfLog cfTotLog].
  repeat split.
Qed.

Lemma ComputeDeexcitationTable_configuration env st :
  configuration (ComputeDeexcitationTable env st) = configuration st /\
  penningLevels (ComputeDeexcitationTable env st) = penningLevels st /\
  ionisationData (ComputeDeexcitationTable env st) = ionisationData st.
Proof.
  unfold ComputeDeexcitationTable.
  destruct (mapArgonLevels _) as [iAr mapLevels].
  destruct (countLevels _ _ _ _) as [[lvl iDeexcitation] nDeexcitations].
  destruct (radiativeLoop _ _ _ _ _) as [dxcs complete].
  destruct (negb complete); repeat split.
Qed.

Lemma deexcitationStage_configuration env st :
  configuration (deexcitationStage env st) = configuration st /\
  penningLevels (deexcitationStage env st) = penningLevels st /\
  ionisationData (deexcitationStage env st) = ionisationData st.
Proof.
  unfold deexcitationStage.
  destruct (m_useDeexcitation st); [|repeat split].
  pose proof (ComputeDeexcitationTable_configuration env st) as H.
  destruct (existsb _ _); [|exact H].
  destruct H as (H1 & H2 & H3).
  split; [rewrite <- H1 | split; [rewrite <- H2 | rewrite <- H3]];
    reflexivity.
Qed.

Lemma photonGases_configuration env dens gases : forall st,
  configuration (snd (photonGases env dens gases st)) = configuration st /\
  penningLevels (snd (photonGases env dens gases st)) = penningLevels st /\
  ionisationData (snd (photonGases env dens gases st)) = ionisationData st.
Proof.
  induction gases as [|i rest IH]; intros st; simpl.
  - repeat split.
  - destruct (negb (IsAvailable env _)); [repeat split|].
    destruct (photonRows _ _ _ _ _ _ _) as [tot rows].
    match goal with
    | |- context [photonGases env dens rest ?s] =>
        destruct (IH s) as (H1 & H2 & H3)
    end.
    split; [rewrite H1 | split; [rewrite H2 | rewrite H3]]; reflexivity.
Qed.

Lemma ComputePhotonCollisionTable_configuration env st :
  configuration (snd (ComputePhotonCollisionTable env st))
    = configuration st /\
  penningLevels (snd (ComputePhotonCollisionTable env st))
    = penningLevels st /\
  ionisationData (snd (ComputePhotonCollisionTable env st))
    = ionisationData st.
Proof.
  unfold ComputePhotonCollisionTable.
  match goal with
  | |- context [photonGases env ?d ?g ?s] =>
      pose proof (photonGases_configuration env d g s) as H;
      destruct (photonGases env d g s) as [[|] st1]
  end; cbn [snd] in *; destruct H as (H1 & H2 & H3).
  - destruct (negb _); cbn [snd];
      (split; [transitivity (configuration st1)
              | split; [transitivity (penningLevels st1)
                       | transitivity (ionisationData st1)]]);
      try reflexivity; assumption.
  - split; [rewrite H1 | split; [rewrite H2 | rewrite H3]]; reflexivity.
Qed.

Lemma photonStage_configuration env st :
  configuration (photonStage env st) = configuration st /\
  penningLevels (photonStage env st) = penningLevels st /\
  ionisationData (photonStage env st) = ionisationData st.
Proof.
  unfold photonStage.
  pose proof (ComputePhotonCollisionTable_configuration env st) as H.
  destruct (ComputePhotonCollisionTable env st) as [[|] st1];
    cbn [snd] in H; [exact H|].
  destruct (m_useDeexcitation st1); [|exact H].
  destruct H as (H1 & H2 & H3).
  split; [rewrite <- H1 | split; [rewrite <- H2 | rewrite <- H3]];
    reflexivity.
Qed.

Lemma resetPenning_configuration env st :
  configuration (resetPenning env st) = configuration st /\
  ionisationData (resetPenning env st) = ionisationData st.
Proof.
  unfold resetPenning. split.
  - apply (fold_left_kept configuration).
    intros s i. destruct (Rlt_dec _ _); reflexivity.
  - apply (fold_left_kept ionisationData).
    intros s i. destruct (Rlt_dec _ _); reflexivity.
Qed.

Lemma SetupGreenSawada_configuration st :
  configuration (SetupGreenSawada st) = configuration st /\
  penningLevels (SetupGreenSawada st) = penningLevels st /\
  ionisationData (SetupGreenSawada st) = ionisationData st.
Proof.
  unfold SetupGreenSawada. split; [|split].
  - apply (fold_left_kept configuration).
    intros s i. destruct (greenSawadaFit _) as [[[gs gb] ts]|]; reflexivity.
  - apply (fold_left_kept penningLevels).
    intros s i. destruct (greenSawadaFit _) as [[[gs gb] ts]|]; reflexivity.
  - apply (fold_left_kept ionisationData).
    intros s i. destruct (greenSawadaFit _) as [[[gs gb] ts]|]; reflexivity.
Qed.

Lemma finishMixer_configuration env st :
  configuration (finishMixer env st) = configuration st.
Proof.
  unfold finishMixer.
  destruct (SetupGreenSawada_configuration
              (resetPenning env
                 (photonStage env (deexcitationStage env (finishRates env st)))))
    as [-> _].
  destruct (resetPenning_configuration env
              (photonStage env (deexcitationStage env (finishRates env st))))
    as [-> _].
  destruct (photonStage_configuration env
              (deexcitationStage env (finishRates env st))) as [-> _].
  destruct (deexcitationStage_configuration env (finishRates env st))
    as [-> _].
  apply finishRates_configuration.
Qed.

Lemma resetTables_configuration env st :
  configuration (set_nTerms 0%nat (resetTables env st)) = configuration st /\
  penningLevels (set_nTerms 0%nat (resetTables env st)) = penningLevels st /\
  configuration (resetTables env st) = configuration st /\
  penningLevels (resetTables env st) = penningLevels st.
Proof. repeat split. Qed.

Lemma Mixer_configuration env st :
  configuration (snd (Mixer env st)) = configuration st.
Proof.
  unfold Mixer. cbv zeta.
  destruct (resetTables_configuration env st) as (H0 & _ & H0' & _).
  destruct (gasNumbersOf _) as [numbers|]; [|exact H0'].
  match goal with
  | |- context [mixGases env ?p ?i ?n ?s] =>
      destruct (mixGases_configuration env p n i s) as [H _];
      destruct (mixGases env p i n s) as [[|] st1]
  end; cbn [snd] in *.
  - rewrite finishMixer_configuration, H. exact H0.
  - rewrite H. exact H0.
Qed.







(** ** The smallest ionisation threshold *)

Lemma fold_Rmin_le l : forall x,
  fold_left Rmin l x <= x /\
  Forall (fun y => fold_left Rmin l x <= y) l /\
  In (fold_left Rmin l x) (x :: l).
Proof.
  induction l as [|y l IH]; intros x; cbn [fold_left].
  - split; [lra|]. split; [constructor | left; reflexivity].
  - destruct (IH (Rmin x y)) as (Hle & Hall & Hin).
    pose proof (Rmin_l x y). pose proof (Rmin_r x y).
    split; [lra|]. split.
    + constructor; [lra | exact Hall].
    + destruct Hin as [Heq|Hin]; [|right; right; exact Hin].
      rewrite <- Heq. unfold Rmin. destruct (Rle_dec x y);
        [left; reflexivity | right; left; reflexivity].
Qed.

Lemma smallestIonPot_spec st :
  (0 < m_nComponents st <= length (m_ionPot st))%nat ->
  (forall i : nat, (i < m_nComponents st)%nat ->
     smallestIonPot st <= nth i (m_ionPot st) 0) /\
  (exists i : nat, (i < m_nComponents st)%nat /\
     smallestIonPot st = nth i (m_ionPot st) 0).
Proof.
  intros [Hpos Hlen]. unfold smallestIonPot.
  assert (Hnth : forall i, (i < m_nComponents st)%nat ->
            nth i (firstn (m_nComponents st) (m_ionPot st)) 0
            = nth i (m_ionPot st) 0).
  { intros i Hi. rewrite nth_firstn.
    apply Nat.ltb_lt in Hi. rewrite Hi. reflexivity. }
  assert (Hl : length (firstn (m_nComponents st) (m_ionPot st))
               = m_nComponents st) by (apply firstn_length_le; exact Hlen).
  destruct (firstn (m_nComponents st) (m_ionPot st)) as [|x rest];
    [cbn [length] in Hl; lia|].
  destruct (fold_Rmin_le rest x) as (Hle & Hall & Hin).
  split.
  - intros i Hi. rewrite <- (Hnth i Hi).
    destruct i as [|i]; [exact Hle|]. cbn [nth].
    rewrite Forall_forall in Hall. apply Hall. apply nth_In.
    cbn [length] in Hl. lia.
  - apply (In_nth _ _ 0) in Hin. destruct Hin as (i & Hi & Heq).
    rewrite Hl in Hi. exists i. split; [exact Hi|].
    rewrite <- (Hnth i Hi). symmetry. exact Heq.
Qed.

Lemma ionisationData_fields a b :
  ionisationData a = ionisationData b ->
  m_minIonPot a = m_minIonPot b /\ m_ionPot a = m_ionPot b /\
  m_rgas a = m_rgas b /\ m_csType a = m_csType b /\ m_nTerms a = m_nTerms b.
Proof.
  unfold ionisationData. intros H. injection H as H1 H2 H3 H4 H5.
  repeat split; assumption.
Qed.

Lemma finishMixer_ionisation env st :
  m_minIonPot (finishMixer env st) = smallestIonPot st /\
  m_ionPot (finishMixer env st) = m_ionPot st.
Proof.
  unfold finishMixer.
  destruct (SetupGreenSawada_configuration
              (resetPenning env
                 (photonStage env (deexcitationStage env (finishRates env st)))))
    as (_ & _ & H1).
  destruct (resetPenning_configuration env
              (photonStage env (deexcitationStage env (finishRates env st))))
    as (_ & H2).
  destruct (photonStage_configuration env
              (deexcitationStage env (finishRates env st))) as (_ & _ & H3).
  destruct (deexcitationStage_configuration env (finishRates env st))
    as (_ & _ & H4).
  destruct (finishRates_configuration env st) as (_ & _ & H5 & H6).
  assert (H : ionisationData
                (SetupGreenSawada
                   (resetPenning env
                      (photonStage env
                         (deexcitationStage env (finishRates env st)))))
              = ionisationData (finishRates env st)) by congruence.
  apply ionisationData_fields in H. destruct H as (Ha & Hb & _).
  split; [rewrite Ha; exact H5 | rewrite Hb; exact H6].
Qed.

Lemma mixGas_ionPot_length env prefactor iGas ngs st :
  length (m_ionPot (snd (mixGas env prefactor iGas ngs st)))
  = length (m_ionPot st).
Proof.
  unfold mixGas.
  destruct (nMaxLevels <=? _)%nat; [reflexivity|].
  match goal with
  | |- context [fold_left (writeLevel ?o ?i ?r) ?t (?n, ?s)] =>
      pose proof (fold_left_kept (fun a => m_ionPot (snd a))
                    (writeLevel o i r) t
                    (fun a src =>
                       match a, src with
                       | (np, s0), CsElastic => eq_refl
                       | (np, s0), _ => eq_refl
                       end) (n, s)) as Hw;
      destruct (fold_left (writeLevel o i r) t (n, s)) as [np st1]
  end.
  cbn [snd] in Hw. change (m_ionPot (set_rgas _ st)) with (m_ionPot st) in Hw.
  assert (Hi : forall out,
            length (m_ionPot (writeIonisationPotential out iGas st1))
            = length (m_ionPot st)).
  { intros out. unfold writeIonisationPotential.
    destruct (1 <? g_nIon out)%nat;
      [cbn [m_ionPot set_ionPot]; rewrite length_upd, Hw; reflexivity|].
    destruct (Rge_dec _ _);
      [cbn [m_ionPot set_ionPot]; rewrite length_upd, Hw; reflexivity|].
    rewrite Hw. reflexivity. }
  destruct (fillRowsLin _ _ _ _ _ _ _ _ _ _) as [[cf cut] par].
  destruct (Rle_dec _ _).
  - cbn [snd]. rewrite <- (Hi (gasmix env
        (gasmixInput env st ngs (Rmin (m_eFinal st) (m_eHigh st))
           (m_eStep st)))). reflexivity.
  - destruct (fillRowsLog _ _ _ _ _ _ _ _ _ _ _ _) as [[cfLog cutLog] parLog].
    cbn [snd]. rewrite <- (Hi (gasmix env
        (gasmixInput env st ngs (Rmin (m_eFinal st) (m_eHigh st))
           (m_eStep st)))). reflexivity.
Qed.

Lemma mixGases_ionPot_length env prefactor numbers : forall iGas st,
  length (m_ionPot (snd (mixGases env prefactor iGas numbers st)))
  = length (m_ionPot st).
Proof.
  induction numbers as [|ngs rest IH]; intros iGas st; simpl; [reflexivity|].
  pose proof (mixGas_ionPot_length env prefactor iGas ngs st) as Hg.
  destruct (mixGas env prefactor iGas ngs st) as [[|] st1]; cbn [snd] in *.
  - rewrite IH. exact Hg.
  - exact Hg.
Qed.

(** X17.  The smallest ionisation threshold (lines 1806-1808).  In the
    session that a successful Mixer hands back for a mixture of at least
    one and at most [m_nMaxGases] gases, [m_minIonPot] is the entry of
    [m_ionPot] of one of the components and is not above the entry of any
    component. *)
Theorem Mixer_smallest_ionisation_potential :
  forall (env : Environment) (st st' : MediumMagboltz),
    Mixer env st = (true, st') ->
    (0 < m_nComponents st <= m_nMaxGases env)%nat ->
    (forall i : nat, (i < m_nComponents st)%nat ->
       m_minIonPot st' <= nth i (m_ionPot st') 0) /\
    (exists i : nat, (i < m_nComponents st)%nat /\
       m_minIonPot st' = nth i (m_ionPot st') 0).
Proof.
  intros env st st' HM Hn.
  destruct (Mixer_true env st st' HM) as (numbers & st1 & _ & Hloop & ->).
  destruct (finishMixer_ionisation env st1) as [Hmin Hpot].
  rewrite Hmin, Hpot.
  pose proof (mixGases_kept env
                (numberDensity env st * SpeedOfLight env
                 * sqrt (2 / ElectronMass env))
                numbers 0 (set_nTerms 0%nat (resetTables env st))) as Hk.
  pose proof (mixGases_ionPot_length env
                (numberDensity env st * SpeedOfLight env
                 * sqrt (2 / ElectronMass env))
                numbers 0 (set_nTerms 0%nat (resetTables env st))) as Hl.
  rewrite Hloop in Hk, Hl. cbn [snd] in Hk, Hl.
  destruct Hk as (_ & _ & _ & _ & _ & _ & _ & _ & Hc & _).
  change (m_nComponents (set_nTerms 0%nat (resetTables env st)))
    with (m_nComponents st) in Hc.
  change (length (m_ionPot (set_nTerms 0%nat (resetTables env st))))
    with (length (repeat (-1) (m_nMaxGases env))) in Hl.
  rewrite repeat_length in Hl.
  rewrite <- Hc. apply smallestIonPot_spec. rewrite Hc, Hl. exact Hn.
Qed.

Lemma Mixer_smallest_ionisation_potential_witness :
  let env := exampleEnvironment unknownLevelCrossSections (fun _ => 1 / 2) in
  exists st',
    Mixer env deexcitationSession = (true, st') /\
    m_minIonPot st' <= nth 0 (m_ionPot st') 0.
Proof.
  intros env.
  destruct unknownLevel_session as (st' & HM & _). fold env in HM.
  exists st'. split; [exact HM|].
  apply (Mixer_smallest_ionisation_potential env deexcitationSession st' HM).
  - cbn [m_nComponents deexcitationSession set_useDeexcitation newSession
         length m_nMaxGases env exampleEnvironment].
    lia.
  - cbn [m_nComponents deexcitationSession set_useDeexcitation newSession
         length].
    lia.
Defined.

(** ** The Penning parameters of the levels *)

Lemma upd_upd {A} (l : list A) : forall i x y,
  upd (upd l i x) i y = upd l i y.
Proof.
  induction l as [|a l IH]; intros [|i] x y; simpl; try reflexivity.
  rewrite IH. reflexivity.
Qed.

Lemma penningLevels_fields a b :
  penningLevels a = penningLevels b ->
  m_rPenning a = m_rPenning b /\ m_lambdaPenning a = m_lambdaPenning b.
Proof.
  unfold penningLevels. intros H. injection H as H1 H2. split; assumption.
Qed.

Lemma configuration_penning a b :
  configuration a = configuration b ->
  m_rPenningGlobal a = m_rPenningGlobal b /\
  m_rPenningGas a = m_rPenningGas b /\
  m_lambdaPenningGas a = m_lambdaPenningGas b /\
  m_lambdaPenningGlobal a = m_lambdaPenningGlobal b /\
  m_usePenning a = m_usePenning b.
Proof.
  intros H.
  pose proof (f_equal cfg_rPenningGlobal H).
  pose proof (f_equal cfg_rPenningGas H).
  pose proof (f_equal cfg_lambdaPenningGas H).
  pose proof (f_equal cfg_lambdaPenningGlobal H).
  pose proof (f_equal cfg_usePenning H).
  repeat split; assumption.
Qed.

Lemma nth_upd {A} (l : list A) : forall i x d j,
  nth j (upd l i x) d
  = if (j =? i)%nat && (j <? length l)%nat then x else nth j l d.
Proof.
  induction l as [|a l IH]; intros [|i] x d [|j]; cbn [upd nth length];
    try reflexivity.
  - destruct (_ =? _)%nat; reflexivity.
  - rewrite IH. reflexivity.
Qed.

Lemma resetPenning_fold env st :
  resetPenning env st
  = fold_left (resetPenningLevel (Small env)) (seq 0 (m_nTerms st)) st.
Proof. reflexivity. Qed.

Lemma resetPenningLevel_step small s i :
  let iGas := (nth i (m_csType s) 0 / nCsTypes)%nat in
  m_rPenning (resetPenningLevel small s i)
  = upd (m_rPenning s) i (penningProbability small s iGas) /\
  m_lambdaPenning (resetPenningLevel small s i)
  = (if Rlt_dec small (nth iGas (m_rPenningGas s) 0)
     then upd (m_lambdaPenning s) i (nth iGas (m_lambdaPenningGas s) 0)
     else m_lambdaPenning s) /\
  configuration (resetPenningLevel small s i) = configuration s /\
  ionisationData (resetPenningLevel small s i) = ionisationData s.
Proof.
  unfold resetPenningLevel, penningProbability. cbv zeta.
  cbn [m_csType m_rPenningGas m_lambdaPenningGas m_rPenning m_lambdaPenning
       set_rPenning].
  destruct (Rlt_dec _ _); cbn [m_rPenning m_lambdaPenning set_rPenning
                               set_lambdaPenning];
    [rewrite upd_upd|]; repeat split.
Qed.

Lemma resetPenningLevels env (s0 : MediumMagboltz) : forall n : nat,
  let s := fold_left (resetPenningLevel (Small env)) (seq 0 n) s0 in
  configuration s = configuration s0 /\
  ionisationData s = ionisationData s0 /\
  length (m_rPenning s) = length (m_rPenning s0) /\
  length (m_lambdaPenning s) = length (m_lambdaPenning s0) /\
  forall level : nat,
    let iGas := (nth level (m_csType s0) 0 / nCsTypes)%nat in
    nth level (m_rPenning s) 0
    = (if (level <? n)%nat && (level <? length (m_rPenning s0))%nat
       then penningProbability (Small env) s0 iGas
       else nth level (m_rPenning s0) 0) /\
    nth level (m_lambdaPenning s) 0
    = (if (level <? n)%nat && (level <? length (m_lambdaPenning s0))%nat
          && (if Rlt_dec (Small env) (nth iGas (m_rPenningGas s0) 0)
              then true else false)
       then nth iGas (m_lambdaPenningGas s0) 0
       else nth level (m_lambdaPenning s0) 0).
Proof.
  induction n as [|n IH]; cbv zeta.
  - cbn [seq fold_left]. repeat split.
  - rewrite seq_S, fold_left_app. cbn [fold_left Nat.add].
    cbv zeta in IH. destruct IH as (Hc & Hi & Hlr & Hll & Hlev).
    set (s := fold_left _ (seq 0 n) s0) in *.
    destruct (resetPenningLevel_step (Small env) s n) as (Hr & Hl & Hc' & Hi').
    cbv zeta in Hr, Hl.
    destruct (configuration_penning _ _ Hc) as (Eg & Erg & Elg & _).
    destruct (ionisationData_fields _ _ Hi) as (_ & _ & _ & Ecs & _).
    unfold penningProbability in Hr.
    rewrite Ecs, Erg, Eg in Hr. rewrite Ecs, Erg, Elg in Hl.
    fold (penningProbability (Small env) s0
            (nth n (m_csType s0) 0 / nCsTypes)%nat) in Hr.
    split; [rewrite Hc'; exact Hc|]. split; [rewrite Hi'; exact Hi|].
    split; [rewrite Hr, length_upd; exact Hlr|].
    split.
    { rewrite Hl. destruct (Rlt_dec _ _); [rewrite length_upd|]; exact Hll. }
    intros level. destruct (Hlev level) as [Hlr' Hll'].
    rewrite Hr, Hl. split.
    + rewrite nth_upd, Hlr', Hlr.
      destruct (Nat.eqb_spec level n) as [->|Hne].
      * destruct (Nat.ltb_spec n (S n)); try lia.
        destruct (Nat.ltb_spec n n); try lia.
        cbn [andb]. destruct (n <? _)%nat; reflexivity.
      * cbn [andb].
        destruct (Nat.ltb_spec level n);
          destruct (Nat.ltb_spec level (S n)); try lia; reflexivity.
    + destruct (Rlt_dec (Small env)
                  (nth (nth n (m_csType s0) 0 / nCsTypes)%nat
                     (m_rPenningGas s0) 0)) as [Hgas|Hglob].
      * rewrite nth_upd, Hll', Hll.
        destruct (Nat.eqb_spec level n) as [->|Hne].
        -- destruct (Nat.ltb_spec n (S n)); try lia.
           destruct (Nat.ltb_spec n n); try lia.
           cbn [andb].
           destruct (Rlt_dec _ _) as [_|Hn]; [|contradiction].
           destruct (n <? _)%nat; reflexivity.
        -- cbn [andb].
           destruct (Nat.ltb_spec level n);
             destruct (Nat.ltb_spec level (S n)); try lia; reflexivity.
      * rewrite Hll'.
        destruct (Nat.eqb_spec level n) as [->|Hne].
        -- destruct (Nat.ltb_spec n (S n)); try lia.
           destruct (Nat.ltb_spec n n); try lia.
           cbn [andb].
           destruct (Rlt_dec _ _) as [Hy|_]; [contradiction|].
           rewrite andb_false_r. reflexivity.
        -- destruct (Nat.ltb_spec level n);
             destruct (Nat.ltb_spec level (S n)); try lia; reflexivity.
Qed.


(** The stages of [finishMixer] before the Penning loop. *)
Lemma beforeResetPenning env st :
  let s := photonStage env (deexcitationStage env (finishRates env st)) in
  configuration s = configuration st /\ penningLevels s = penningLevels st.
Proof.
  cbv zeta.
  destruct (photonStage_configuration env
              (deexcitationStage env (finishRates env st))) as (H1 & H2 & _).
  destruct (deexcitationStage_configuration env (finishRates env st))
    as (H3 & H4 & _).
  destruct (finishRates_configuration env st) as (H5 & H6 & _).
  split; congruence.
Qed.





(** ** Transfer probabilities *)

Lemma Forall_upd {A} (P : A -> Prop) (l : list A) : forall i x,
  Forall P l -> P x -> Forall P (upd l i x).
Proof.
  induction l as [|a l IH]; intros [|i] x Hl Hx; cbn [upd];
    try exact Hl; inversion Hl; subst; constructor; auto.
Qed.

Lemma Forall_from_nth {A} (P : A -> Prop) (d : A) : forall l : list A,
  (forall i, (i < length l)%nat -> P (nth i l d)) -> Forall P l.
Proof.
  induction l as [|a l IH]; intros H; constructor.
  - apply (H 0%nat). cbn. lia.
  - apply IH. intros i Hi. apply (H (S i)). cbn. lia.
Qed.

Lemma outsideUnitInterval_false r :
  outsideUnitInterval r = false -> 0 <= r <= 1.
Proof.
  unfold outsideUnitInterval, Rltb.
  destruct (Rlt_dec r 0); [discriminate|].
  destruct (Rlt_dec 1 r); [discriminate|]. intros _. lra.
Qed.

Lemma nth_probability (l : list R) (i : nat) :
  Forall (fun r => 0 <= r <= 1) l -> 0 <= nth i l 0 <= 1.
Proof.
  intros H. destruct (Nat.lt_ge_cases i (length l)) as [Hi|Hi].
  - rewrite Forall_forall in H. apply H. apply nth_In. exact Hi.
  - rewrite nth_overflow by exact Hi. lra.
Qed.

Lemma penningProbability_valid small st iGas :
  0 <= m_rPenningGlobal st <= 1 ->
  Forall (fun r => 0 <= r <= 1) (m_rPenningGas st) ->
  0 <= penningProbability small st iGas <= 1.
Proof.
  intros Hg Hgas. unfold penningProbability.
  destruct (Rlt_dec _ _); [apply nth_probability; exact Hgas | exact Hg].
Qed.

Lemma probabilitiesValid_fields a b :
  configuration a = configuration b ->
  m_rPenning a = m_rPenning b ->
  probabilitiesValid b -> probabilitiesValid a.
Proof.
  intros Hc Hr (Hg & Hgas & Hlev).
  destruct (configuration_penning _ _ Hc) as (Eg & Erg & _).
  unfold probabilitiesValid. rewrite Eg, Erg, Hr. repeat split; tauto.
Qed.

Lemma resetPenning_valid env st :
  probabilitiesValid st -> probabilitiesValid (resetPenning env st).
Proof.
  intros (Hg & Hgas & Hlev). rewrite resetPenning_fold.
  destruct (resetPenningLevels env st (m_nTerms st))
    as (Hc & _ & Hlen & _ & Hnth).
  cbv zeta in Hc, Hlen, Hnth.
  destruct (configuration_penning _ _ Hc) as (Eg & Erg & _).
  unfold probabilitiesValid. rewrite Eg, Erg.
  split; [exact Hg|]. split; [exact Hgas|].
  apply (Forall_from_nth _ 0). intros i Hi.
  destruct (Hnth i) as [-> _].
  destruct (_ && _).
  - apply penningProbability_valid; assumption.
  - apply nth_probability. exact Hlev.
Qed.

Lemma finishMixer_valid env st :
  probabilitiesValid st -> probabilitiesValid (finishMixer env st).
Proof.
  intros Hv. unfold finishMixer.
  set (s := photonStage env (deexcitationStage env (finishRates env st))).
  destruct (beforeResetPenning env st) as [Hc Hp]. fold s in Hc, Hp.
  destruct (penningLevels_fields _ _ Hp) as [Er _].
  assert (Hs : probabilitiesValid s)
    by (apply (probabilitiesValid_fields _ _ Hc Er Hv)).
  destruct (SetupGreenSawada_configuration (resetPenning env s))
    as (Hc1 & Hp1 & _).
  destruct (penningLevels_fields _ _ Hp1) as [Er1 _].
  apply (probabilitiesValid_fields _ _ Hc1 Er1).
  apply resetPenning_valid. exact Hs.
Qed.

Lemma Mixer_valid env st :
  probabilitiesValid st -> probabilitiesValid (snd (Mixer env st)).
Proof.
  intros Hv. unfold Mixer. cbv zeta.
  destruct (resetTables_configuration env st) as (H0 & Hp0 & H0' & Hp0').
  destruct (gasNumbersOf _) as [numbers|].
  - match goal with
    | |- context [mixGases env ?p ?i ?n ?s] =>
        destruct (mixGases_configuration env p n i s) as [Hc Hp];
        destruct (mixGases env p i n s) as [[|] st1]
    end; cbn [snd] in *.
    + apply finishMixer_valid.
      rewrite H0 in Hc. rewrite Hp0 in Hp.
      destruct (penningLevels_fields _ _ Hp) as [Er _].
      apply (probabilitiesValid_fields _ _ Hc Er Hv).
    + rewrite H0 in Hc. rewrite Hp0 in Hp.
      destruct (penningLevels_fields _ _ Hp) as [Er _].
      apply (probabilitiesValid_fields _ _ Hc Er Hv).
  - cbn [snd]. destruct (penningLevels_fields _ _ Hp0') as [Er _].
    apply (probabilitiesValid_fields _ _ H0' Er Hv).
Qed.

Lemma updateTable_valid env st :
  probabilitiesValid st -> probabilitiesValid (snd (updateTable env st)).
Proof.
  intros Hv. unfold updateTable.
  destruct (m_isChanged st); [|exact Hv].
  pose proof (Mixer_valid env st Hv) as HM.
  destruct (Mixer env st) as [[|] st1]; cbn [snd] in *; exact HM.
Qed.

Lemma fill_valid (l : list R) : Forall (fun r => 0 <= r <= 1) (fill l 0).
Proof.
  unfold fill. apply Forall_forall. intros x Hx.
  apply repeat_spec in Hx. subst x. lra.
Qed.

Lemma fold_left_invariant {S B : Type} (P : S -> Prop) (f : S -> B -> S) l :
  (forall s b, P s -> P (f s b)) -> forall s, P s -> P (fold_left f l s).
Proof.
  intros Hstep. induction l as [|b l IH]; intros s Hs; simpl; [exact Hs|].
  apply IH. apply Hstep. exact Hs.
Qed.

Lemma EnablePenningTransfer_valid env st r lambda :
  probabilitiesValid st ->
  probabilitiesValid (EnablePenningTransfer env st r lambda).
Proof.
  intros Hv. unfold EnablePenningTransfer.
  destruct (outsideUnitInterval r) eqn:Hr; [exact Hv|].
  apply outsideUnitInterval_false in Hr.
  cbv zeta.
  match goal with
  | |- probabilitiesValid (set_usePenning true (fold_left ?f ?l ?s)) =>
      assert (H : probabilitiesValid (fold_left f l s))
  end.
  - apply fold_left_invariant.
    + intros s i (Hg & Hgas & Hlev). unfold probabilitiesValid.
      cbn [m_rPenningGlobal m_rPenningGas m_rPenning set_lambdaPenning
           set_rPenning].
      split; [exact Hg|]. split; [exact Hgas|].
      apply Forall_upd; assumption.
    + destruct Hv as (_ & Hgas & Hlev). unfold probabilitiesValid.
      cbn [m_rPenningGlobal m_rPenningGas m_rPenning set_rPenningGlobal
           set_lambdaPenningGlobal].
      repeat split; try assumption; lra.
  - exact H.
Qed.

Lemma DisablePenningTransfer_valid st :
  probabilitiesValid (DisablePenningTransfer st).
Proof.
  unfold DisablePenningTransfer, probabilitiesValid. cbv zeta.
  cbn [m_rPenningGlobal m_rPenningGas m_rPenning m_lambdaPenning
       m_lambdaPenningGas set_usePenning set_lambdaPenningGas set_rPenningGas
       set_lambdaPenningGlobal set_rPenningGlobal set_lambdaPenning
       set_rPenning].
  split; [lra|]. split; apply fill_valid.
Qed.

Lemma EnablePenningTransferGas_valid env GetGasName st r lambda gasname :
  probabilitiesValid st ->
  probabilitiesValid
    (EnablePenningTransferGas env GetGasName st r lambda gasname).
Proof.
  intros Hv. unfold EnablePenningTransferGas.
  destruct (outsideUnitInterval r) eqn:Hr; [exact Hv|].
  apply outsideUnitInterval_false in Hr.
  destruct (GetGasName gasname) as [name|]; [|exact Hv].
  destruct (firstComponent st name) as [iGas|]; [|exact Hv].
  cbv zeta.
  match goal with
  | |- context [updateTable env ?s] =>
      assert (Hs : probabilitiesValid s);
      [|pose proof (updateTable_valid env s Hs) as Hu;
        destruct (updateTable env s) as [[|] st1]; cbn [snd] in Hu]
  end.
  - destruct Hv as (Hg & Hgas & Hlev). unfold probabilitiesValid.
    cbn [m_rPenningGlobal m_rPenningGas m_rPenning set_lambdaPenningGas
         set_rPenningGas].
    split; [exact Hg|]. split; [|exact Hlev].
    apply Forall_upd; assumption.
  - match goal with
    | |- probabilitiesValid (set_usePenning true (fold_left ?f ?l ?s)) =>
        assert (H : probabilitiesValid (fold_left f l s))
    end; [|exact H].
    apply fold_left_invariant; [|exact Hu].
    intros s i Hs'.
    destruct (negb _); [exact Hs'|]. destruct Hs' as (Hg & Hgas & Hlev).
    unfold probabilitiesValid.
    cbn [m_rPenningGlobal m_rPenningGas m_rPenning set_lambdaPenning
         set_rPenning].
    split; [exact Hg|]. split; [exact Hgas|].
    apply Forall_upd; [exact Hlev | apply nth_probability; exact Hgas].
  - exact Hu.
Qed.

Lemma DisablePenningTransferGas_valid env GetGasName st gasname :
  probabilitiesValid st ->
  probabilitiesValid (DisablePenningTransferGas env GetGasName st gasname).
Proof.
  intros Hv. unfold DisablePenningTransferGas.
  destruct (GetGasName gasname) as [name|]; [|exact Hv].
  destruct (firstComponent st name) as [iGas|]; [|exact Hv].
  cbv zeta.
  match goal with
  | |- context [fold_left ?f ?l (?s, 0%nat)] =>
      assert (H : probabilitiesValid (fst (fold_left f l (s, 0%nat))));
      [|destruct (fold_left f l (s, 0%nat)) as [st1 n]; cbn [fst] in H;
        destruct (n =? 0)%nat; exact H]
  end.
  apply (fold_left_invariant (fun a => probabilitiesValid (fst a))).
  - intros [s n] i Hs'. cbn [fst] in *.
    destruct (_ =? iGas)%nat.
    + destruct Hs' as (Hg & Hgas & Hlev).
      cbn [fst]. unfold probabilitiesValid.
      cbn [m_rPenningGlobal m_rPenningGas m_rPenning set_lambdaPenning
           set_rPenning].
      split; [exact Hg|]. split; [exact Hgas|].
      apply Forall_upd; [exact Hlev | lra].
    + destruct (_ && _); cbn [fst]; exact Hs'.
  - cbn [fst]. destruct Hv as (Hg & Hgas & Hlev). unfold probabilitiesValid.
    cbn [m_rPenningGlobal m_rPenningGas m_rPenning set_lambdaPenningGas
         set_rPenningGas].
    split; [exact Hg|]. split; [|exact Hlev].
    apply Forall_upd; [exact Hgas | lra].
Qed.

(** X19.  The transfer probabilities stay probabilities (lines 188-357
    and 1919-1928).  Where the global probability, the probabilities of
    the gases and those of the levels lie between 0 and 1, they still do
    after EnablePenningTransfer (with or without a gas name),
    DisablePenningTransfer (with or without a gas name) and Mixer,
    whatever the arguments and whether or not the call succeeds: a
    probability outside of [0, 1] is refused, and the loops over the levels
    only copy the values of the gases and the global one. *)
Theorem transfer_probabilities_stay_valid :
  forall (env : Environment) (GetGasName : string -> option string)
         (st : MediumMagboltz),
    probabilitiesValid st ->
    (forall r lambda : R,
       probabilitiesValid (EnablePenningTransfer env st r lambda)) /\
    (forall (r lambda : R) (gasname : string),
       probabilitiesValid
         (EnablePenningTransferGas env GetGasName st r lambda gasname)) /\
    probabilitiesValid (DisablePenningTransfer st) /\
    (forall gasname : string,
       probabilitiesValid
         (DisablePenningTransferGas env GetGasName st gasname)) /\
    probabilitiesValid (snd (Mixer env st)).
Proof.
  intros env GetGasName st Hv.
  split; [intros r lambda; apply EnablePenningTransfer_valid; exact Hv|].
  split; [intros r lambda gasname;
          apply EnablePenningTransferGas_valid; exact Hv|].
  split; [apply DisablePenningTransfer_valid|].
  split; [intros gasname; apply DisablePenningTransferGas_valid; exact Hv|].
  apply Mixer_valid. exact Hv.
Qed.

Lemma newSession_valid gases fractions :
  probabilitiesValid (newSession gases fractions).
Proof.
  unfold probabilitiesValid.
  cbn [m_rPenningGlobal m_rPenningGas m_rPenning newSession].
  split; [lra|].
  split; apply Forall_forall; intros x Hx; apply repeat_spec in Hx;
    subst x; lra.
Qed.

Lemma transfer_probabilities_stay_valid_witness :
  let env := exampleEnvironment (constantCrossSections []) (fun _ => 1 / 2) in
  probabilitiesValid
    (EnablePenningTransfer env (newSession ["Ar"%string] [1]) (1 / 2) 0).
Proof.
  intros env.
  apply (transfer_probabilities_stay_valid env (fun name => Some name)
           (newSession ["Ar"%string] [1])).
  apply newSession_valid.
Defined.

(** ** Settings and rebuilds *)




Lemma nth_repeat_default {A} (x : A) n i : nth i (repeat x n) x = x.
Proof.
  revert i. induction n as [|n IH]; intros [|i]; cbn; try reflexivity.
  apply IH.
Qed.



(** ** De-excitation and Penning transfer *)

Lemma EnablePenningTransfer_flags env st r lambda :
  m_useDeexcitation (EnablePenningTransfer env st r lambda)
    = m_useDeexcitation st /\
  m_isChanged (EnablePenningTransfer env st r lambda) = m_isChanged st /\
  m_nTerms (EnablePenningTransfer env st r lambda) = m_nTerms st /\
  m_iDeexcitation (EnablePenningTransfer env st r lambda)
    = m_iDeexcitation st /\
  (outsideUnitInterval r = false ->
   m_usePenning (EnablePenningTransfer env st r lambda) = true).
Proof.
  unfold EnablePenningTransfer.
  destruct (outsideUnitInterval r); [repeat split; discriminate|].
  cbv zeta.
  cbn [m_useDeexcitation m_isChanged m_nTerms m_iDeexcitation m_usePenning
       set_usePenning].
  rewrite (fold_left_kept m_useDeexcitation) by reflexivity.
  rewrite (fold_left_kept m_isChanged) by reflexivity.
  rewrite (fold_left_kept m_nTerms) by reflexivity.
  rewrite (fold_left_kept m_iDeexcitation) by reflexivity.
  repeat split.
Qed.

(** X21.  The switches of the two models of Penning transfer (lines
    159-174 and 188-219).  EnableDeexcitation switches the simplified
    Penning transfer off and marks the table as changed.
    EnablePenningTransfer with a probability in [0, 1] switches the
    simplified transfer on but leaves [m_useDeexcitation] and
    [m_isChanged] as they are: called after EnableDeexcitation it leaves
    both models switched on, while the calls in the other order leave only
    the de-excitation switched on. *)
Theorem penning_does_not_switch_deexcitation_off :
  forall (env : Environment) (st : MediumMagboltz) (r lambda : R),
    outsideUnitInterval r = false ->
    let penning := EnablePenningTransfer env st r lambda in
    let both := EnablePenningTransfer env (EnableDeexcitation st) r lambda in
    let last := EnableDeexcitation (EnablePenningTransfer env st r lambda) in
    (m_usePenning penning = true /\
     m_useDeexcitation penning = m_useDeexcitation st /\
     m_isChanged penning = m_isChanged st) /\
    (m_usePenning (EnableDeexcitation st) = false /\
     m_useDeexcitation (EnableDeexcitation st) = true /\
     m_isChanged (EnableDeexcitation st) = true) /\
    (m_usePenning both = true /\ m_useDeexcitation both = true) /\
    (m_usePenning last = false /\ m_useDeexcitation last = true).
Proof.
  intros env st r lambda Hr penning both last. subst penning both last.
  destruct (EnablePenningTransfer_flags env st r lambda)
    as (H1 & H2 & _ & _ & H3).
  destruct (EnablePenningTransfer_flags env (EnableDeexcitation st) r lambda)
    as (H4 & _ & _ & _ & H5).
  split; [split; [exact (H3 Hr) | split; assumption]|].
  split; [repeat split|].
  split; [split; [exact (H5 Hr) | rewrite H4; reflexivity]|].
  split; reflexivity.
Qed.

Lemma outsideUnitInterval_half : outsideUnitInterval (1 / 2) = false.
Proof.
  unfold outsideUnitInterval, Rltb.
  destruct (Rlt_dec (1 / 2) 0); [lra|].
  destruct (Rlt_dec 1 (1 / 2)); [lra | reflexivity].
Qed.

Lemma penning_does_not_switch_deexcitation_off_witness :
  let env := exampleEnvironment (constantCrossSections []) (fun _ => 1 / 2) in
  let st := newSession ["Ar"%string] [1] in
  m_usePenning (EnablePenningTransfer env (EnableDeexcitation st) (1 / 2) 0)
    = true /\
  m_useDeexcitation
    (EnablePenningTransfer env (EnableDeexcitation st) (1 / 2) 0) = true.
Proof.
  intros env st.
  apply (penning_does_not_switch_deexcitation_off env st (1 / 2) 0).
  exact outsideUnitInterval_half.
Defined.

(** ** The products of a collision *)

Lemma penningTransfer_products env st rc level igas :
  let ndxc := fst (fst (penningTransfer env st rc level igas)) in
  let st' := snd (fst (penningTransfer env st rc level igas)) in
  ndxc = length (m_dxcProducts st') /\ (ndxc <= 1)%nat /\
  m_usePenning st' = m_usePenning st /\
  m_useDeexcitation st' = m_useDeexcitation st.
Proof.
  unfold penningTransfer. cbv zeta.
  destruct (Rlt_dec _ _); [|repeat split; cbn; lia].
  unfold drawUniform. destruct (Rlt_dec _ _); [|repeat split; cbn; lia].
  destruct (Rlt_dec _ _); repeat split; cbn; lia.
Qed.

Lemma ComputeDeexcitationInternal_flags env steps draws st rc i st' rc' f :
  ComputeDeexcitationInternal env steps draws st rc i = Some (st', rc', f) ->
  m_usePenning st' = m_usePenning st /\
  m_useDeexcitation st' = m_useDeexcitation st.
Proof.
  unfold ComputeDeexcitationInternal.
  destruct (cascadeLoop _ _ _ _ _ _ _ _) as [[fl c]|]; [|discriminate].
  intros H. injection H as <- _ _. split; reflexivity.
Qed.

(** The de-excitation products of a successful call. *)
Lemma GetElectronCollision_products env steps draws st rc e dx dy dz
      secondaries col st' rc' :
  GetElectronCollision env steps draws st rc e dx dy dz secondaries
    = Some (Some col, st', rc') ->
  exists st2,
    updateTable env
      (if exceedsRange st e
       then snd (SetMaxElectronEnergy env st (1.05 * e)) else st)
      = (true, st2) /\
    m_usePenning st' = m_usePenning st2 /\
    m_useDeexcitation st' = m_useDeexcitation st2 /\
    ((col_type col = ElectronCollisionTypeExcitation /\
      (m_useDeexcitation st2
       && (0 <=? nth (col_level col) (m_iDeexcitation st2) 0)%Z
       || m_usePenning st2) = true /\
      col_ndxc col = length (m_dxcProducts st')) \/
     ((col_type col <> ElectronCollisionTypeExcitation \/
       (m_useDeexcitation st2
        && (0 <=? nth (col_level col) (m_iDeexcitation st2) 0)%Z
        || m_usePenning st2) = false) /\
      col_ndxc col = 0%nat /\
      m_dxcProducts st' = m_dxcProducts st2)).
Proof.
  unfold GetElectronCollision.
  destruct (negb (exceedsRange st e) && _); [discriminate|].
  destruct (updateTable env _) as [[|] st2]; [|discriminate].
  unfold drawUniform at 1.
  destruct (sampleProcess st2 e _) as [[level angCut] angPar].
  set (type := (nth level (m_csType st2) 0 mod nCsTypes)%nat).
  set (igas := (nth level (m_csType st2) 0 / nCsTypes)%nat).
  set (st3 := countCollision type level st2).
  intros H. exists st2. split; [reflexivity|].
  assert (Hgoal : forall loss sec ndxc st4 rc4,
    (let loss0 := clampLoss e loss in
     let '(ctheta0, rc5) := sampleCosine env st4 rc4 level angCut angPar in
     let s1 := nth igas (m_rgas st4) 0 in
     let e1 := collisionEnergy (Small env) e loss0 s1 ctheta0 in
     let '(ctheta, stheta) :=
       collisionAngle (Small env) e loss0 s1 ctheta0 in
     let '(u, rc6) := drawUniform env rc5 in
     let phi := 2 * PI * u in
     let '(dx', dy', dz') := rotateDirection dx dy dz ctheta stheta phi in
     Some (Some {| col_type := type; col_level := level; col_e1 := e1;
                   col_dx := dx'; col_dy := dy'; col_dz := dz';
                   col_secondaries := sec; col_ndxc := ndxc |}, st4, rc6))
    = Some (Some col, st', rc') ->
    col_type col = type /\ col_level col = level /\ col_ndxc col = ndxc /\
    st' = st4).
  { intros loss sec ndxc st4 rc4. cbv zeta.
    destruct (sampleCosine _ _ _ _ _ _) as [ctheta0 rc5].
    destruct (collisionAngle _ _ _ _ _) as [ctheta stheta].
    unfold drawUniform.
    destruct (rotateDirection _ _ _ _ _ _) as [[dx' dy'] dz'].
    intros Heq. injection Heq as <- <- _. repeat split. }
  change (m_useDeexcitation st3) with (m_useDeexcitation st2) in H.
  change (m_usePenning st3) with (m_usePenning st2) in H.
  change (m_iDeexcitation st3) with (m_iDeexcitation st2) in H.
  destruct (Nat.eqb_spec type ElectronCollisionTypeIonisation) as [Hion|Hion].
  - unfold drawUniform at 1 in H. apply Hgoal in H.
    destruct H as (Ht & _ & Hn & ->).
    split; [reflexivity|]. split; [reflexivity|]. right.
    split; [left; rewrite Ht, Hion; discriminate|]. split; [exact Hn|].
    reflexivity.
  - destruct (Nat.eqb_spec type ElectronCollisionTypeExcitation) as [Hex|Hex].
    + destruct (m_useDeexcitation st2
                && (0 <=? nth level (m_iDeexcitation st2) 0)%Z) eqn:Hdx.
      * destruct (ComputeDeexcitationInternal _ _ _ _ _ _)
          as [[[st4 rc4] f]|] eqn:Hcas; [|discriminate].
        apply ComputeDeexcitationInternal_flags in Hcas.
        destruct Hcas as [Hp Hd].
        apply Hgoal in H. destruct H as (Ht & Hl & Hn & ->).
        split; [exact Hp|]. split; [exact Hd|]. left.
        rewrite Ht, Hl, Hdx, Hn. repeat split. exact Hex.
      * destruct (m_usePenning st2) eqn:Hpen.
        -- pose proof (penningTransfer_products env st3 rc level igas) as Hp.
           revert H Hp.
           match goal with
           | |- context [penningTransfer env st3 ?c level igas] =>
               pose proof (penningTransfer_products env st3 c level igas)
                 as Hp';
               destruct (penningTransfer env st3 c level igas)
                 as [[ndxc st4] rc4]
           end.
           intros H _. cbv zeta in Hp'. cbn [fst snd] in Hp'.
           destruct Hp' as (Hlen & _ & Hup & Hud).
           apply Hgoal in H. destruct H as (Ht & Hl & Hn & ->).
           split; [rewrite Hup; exact Hpen|]. split; [exact Hud|]. left.
           rewrite Ht, Hl, Hdx, Hn. repeat split; assumption.
        -- apply Hgoal in H. destruct H as (Ht & Hl & Hn & ->).
           split; [exact Hpen|]. split; [reflexivity|]. right.
           rewrite Hl, Hdx. split; [right; reflexivity|].
           split; [exact Hn | reflexivity].
    + apply Hgoal in H. destruct H as (Ht & Hl & Hn & ->).
      split; [reflexivity|]. split; [reflexivity|]. right.
      split; [left; rewrite Ht; exact Hex|]. split; [exact Hn|].
      reflexivity.
Qed.

(** X22.  The de-excitation products of a collision (lines 732-762 and
    829-840), for a session with an up-to-date table and an energy within
    its range.  After an excitation in a session with Penning transfer
    switched on, the number [ndxc] that GetElectronCollision hands back is
    the number of stored products, and GetDeexcitationProduct succeeds
    exactly for the indices below [ndxc].  After a collision of another
    type [ndxc] is 0, but the products of an earlier collision are still
    stored: GetDeexcitationProduct answers as it did before the call. *)
Theorem products_of_a_collision :
  forall (env : Environment) (steps draws : nat) (st st' : MediumMagboltz)
         (rc rc' : RandomCursor) (e dx dy dz : R)
         (secondaries : list (IonProdType * R)) (col : Collision),
    m_isChanged st = false -> exceedsRange st e = false ->
    GetElectronCollision env steps draws st rc e dx dy dz secondaries
      = Some (Some col, st', rc') ->
    (col_type col = ElectronCollisionTypeExcitation ->
     m_usePenning st = true ->
     col_ndxc col = GetNumberOfDeexcitationProducts st' /\
     forall i : nat,
       GetDeexcitationProduct st' i <> None <-> (i < col_ndxc col)%nat) /\
    (col_type col <> ElectronCollisionTypeExcitation ->
     col_ndxc col = 0%nat /\
     GetNumberOfDeexcitationProducts st'
       = GetNumberOfDeexcitationProducts st /\
     forall i : nat,
       GetDeexcitationProduct st' i = GetDeexcitationProduct st i).
Proof.
  intros env steps draws st st' rc rc' e dx dy dz secondaries col Hc Hr H.
  destruct (GetElectronCollision_products _ _ _ _ _ _ _ _ _ _ _ _ _ H)
    as (st2 & Hupd & Hp & Hd & Hcases).
  rewrite Hr, (updateTable_current env st Hc) in Hupd.
  injection Hupd as <-.
  split.
  - intros Hex Hpen.
    destruct Hcases as [(_ & _ & Hn) | ([Hne | Hoff] & _)];
      [|contradiction | rewrite Hpen, orb_true_r in Hoff; discriminate].
    split; [exact Hn|].
    intros i. unfold GetDeexcitationProduct.
    rewrite Hp, Hpen, orb_true_r. cbn [negb]. rewrite orb_false_r, Hn.
    destruct (Nat.leb_spec (length (m_dxcProducts st')) i) as [Hi|Hi].
    + split; [intros F; contradiction | lia].
    + split; [intros _; exact Hi|].
      intros _. apply nth_error_Some. exact Hi.
  - intros Hne.
    destruct Hcases as [(Hex & _) | (_ & Hn & Hprod)]; [contradiction|].
    split; [exact Hn|].
    unfold GetNumberOfDeexcitationProducts, GetDeexcitationProduct.
    rewrite Hprod, Hp, Hd. split; [reflexivity|]. intros i. reflexivity.
Qed.

Lemma products_of_a_collision_witness :
  let env :=
    exampleEnvironment (constantCrossSections []) (fun _ => 3 / 4) in
  let rc := {| nUniform := 0; nUniformPos := 0; nVoigt := 0 |} in
  exists col st' rc',
    GetElectronCollision env 1 1 penningSession rc 20 0 0 1 []
      = Some (Some col, st', rc') /\
    (col_type col = ElectronCollisionTypeExcitation ->
     m_usePenning penningSession = true ->
     col_ndxc col = GetNumberOfDeexcitationProducts st' /\
     forall i : nat,
       GetDeexcitationProduct st' i <> None <-> (i < col_ndxc col)%nat).
Proof.
  intros env rc.
  destruct penningSession_collision as (col & st' & rc' & Hcall).
  fold env rc in Hcall.
  exists col, st', rc'. split; [exact Hcall|].
  apply (products_of_a_collision env 1 1 penningSession st' rc rc'
           20 0 0 1 [] col eq_refl exceedsRange_penningSession Hcall).
Defined.

(** ** The counters of photon collisions *)

(** X23.  The two totals of the photon collisions (lines 1105-1118).
    With four 32-bit counters, the total of GetNumberOfPhotonCollisions()
    is the total that the overload with three arguments returns plus the
    counter of the excitations (absorptions by a discrete line), which that
    overload leaves out: the two totals agree exactly when no photon has
    been absorbed by a line. *)
Theorem photon_collision_totals :
  forall (st : MediumMagboltz),
    length (m_nPhotonCollisions st) = nCsTypesGamma ->
    Forall (fun n => (0 <= n < 2 ^ 32)%Z) (m_nPhotonCollisions st) ->
    let total := GetNumberOfPhotonCollisions st in
    let byType := fst (GetNumberOfPhotonCollisionsByType st) in
    let nExcitation :=
      nth PhotonCollisionTypeExcitation (m_nPhotonCollisions st) 0%Z in
    total = add32 byType nExcitation /\
    (total = byType <-> nExcitation = 0%Z).
Proof.
  intros st Hlen Hrange total byType nExcitation.
  destruct (m_nPhotonCollisions st) as [|a [|b [|c [|d [|x l]]]]] eqn:Hc;
    try discriminate.
  assert (Htotal : total = add32 byType nExcitation).
  { unfold total, byType, nExcitation, GetNumberOfPhotonCollisions,
      GetNumberOfPhotonCollisionsByType, PhotonCollisionTypeExcitation.
    rewrite Hc. cbn [fold_left fst nth].
    unfold add32. rewrite Z.add_0_l.
    inversion Hrange as [|? ? Ha _]; subst.
    rewrite (Z.mod_small a) by exact Ha. reflexivity. }
  split; [exact Htotal|].
  assert (Hd : (0 <= nExcitation < 2 ^ 32)%Z).
  { unfold nExcitation, PhotonCollisionTypeExcitation. cbn [nth].
    rewrite Forall_forall in Hrange. apply Hrange. cbn. tauto. }
  assert (Hb : (0 <= byType < 2 ^ 32)%Z).
  { unfold byType, GetNumberOfPhotonCollisionsByType. cbn [fst].
    unfold add32 at 1. apply Z.mod_pos_bound. lia. }
  rewrite Htotal. unfold add32. clearbody byType nExcitation. split.
  - intros Heq.
    destruct (Z.lt_ge_cases (byType + nExcitation) (2 ^ 32)) as [Hlt|Hge].
    + rewrite Z.mod_small in Heq by lia. lia.
    + assert (Hm : ((byType + nExcitation) mod 2 ^ 32
                    = byType + nExcitation - 2 ^ 32)%Z).
      { symmetry. apply (Z.mod_unique _ _ 1); lia. }
      lia.
  - intros ->. rewrite Z.add_0_r. apply Z.mod_small. exact Hb.
Qed.

Lemma photon_collision_totals_witness :
  let st := newSession ["Ar"%string] [1] in
  GetNumberOfPhotonCollisions st
  = add32 (fst (GetNumberOfPhotonCollisionsByType st))
      (nth PhotonCollisionTypeExcitation (m_nPhotonCollisions st) 0%Z).
Proof.
  intros st.
  destruct (photon_collision_totals st) as [H _].
  - reflexivity.
  - cbn [m_nPhotonCollisions st newSession].
    apply Forall_forall. intros n Hn. apply repeat_spec in Hn. subst n. lia.
  - exact H.
Defined.

(** X24.  ResetCollisionCounters (lines 979-985): after the call every
    query of a counter returns 0, the total of the electron collisions and
    its six parts, the counter of every level, the number of Penning
    transfers and the two totals of the photon collisions, while the level
    count, the rate tables, the stored de-excitation products and the flag
    [m_isChanged] are those of before. *)
Theorem reset_zeroes_all_counters :
  forall (st : MediumMagboltz),
    let st' := ResetCollisionCounters st in
    GetNumberOfElectronCollisions st' = 0%Z /\
    GetNumberOfElectronCollisionsByType st'
      = (0%Z, (0%Z, 0%Z, 0%Z, 0%Z, 0%Z, 0%Z)) /\
    (forall level : nat, GetNumberOfElectronCollisionsLevel st' level = 0%Z) /\
    GetNumberOfPenningTransfers st' = 0%Z /\
    GetNumberOfPhotonCollisions st' = 0%Z /\
    GetNumberOfPhotonCollisionsByType st' = (0%Z, (0%Z, 0%Z, 0%Z)) /\
    countersInvariant st' /\
    m_nTerms st' = m_nTerms st /\ m_cf st' = m_cf st /\
    m_cfTot st' = m_cfTot st /\ m_cfNull st' = m_cfNull st /\
    m_dxcProducts st' = m_dxcProducts st /\
    m_isChanged st' = m_isChanged st.
Proof.
  intros st st'.
  split; [reflexivity|]. split; [reflexivity|].
  split.
  { intros level. unfold GetNumberOfElectronCollisionsLevel.
    destruct (Nat.leb_spec (m_nTerms st') level) as [_|Hl]; [reflexivity|].
    unfold st', ResetCollisionCounters.
    cbn [m_nCollisionsDetailed set_nPhotonCollisions set_nPenning
         set_nCollisionsDetailed].
    apply nth_repeat_lt. exact Hl. }
  split; [reflexivity|]. split; [reflexivity|]. split; [reflexivity|].
  split.
  { unfold countersInvariant, countersConsistent, st',
      ResetCollisionCounters.
    cbn [m_nCollisions m_nCollisionsDetailed m_nTerms set_nPhotonCollisions
         set_nPenning set_nCollisionsDetailed set_nCollisions].
    rewrite !repeat_length, !sumZ_repeat_0. repeat split. }
  repeat split.
Qed.

(** ** The photon collision rates *)

Lemma photonRows_spec env gasname prefactor eStepGamma n :
  forall tot rows j,
    Forall2 (fun t row => sumR row = t /\ length row = n) tot rows ->
    Forall2 (fun t row => sumR row = t /\ length row = (n + 2)%nat)
      (fst (photonRows env gasname prefactor eStepGamma j tot rows))
      (snd (photonRows env gasname prefactor eStepGamma j tot rows)).
Proof.
  induction tot as [|t tot IH]; intros rows j H; inversion H; subst;
    cbn [photonRows]; [constructor|].
  destruct (GetPhotoabsorptionCrossSection env gasname _) as [cs eta].
  match goal with
  | |- context [photonRows env gasname prefactor eStepGamma (S j) tot ?l] =>
      specialize (IH l (S j) ltac:(assumption));
      destruct (photonRows env gasname prefactor eStepGamma (S j) tot l)
        as [tot' rows']
  end.
  cbn [fst snd] in *. constructor; [|exact IH].
  match goal with H : _ /\ _ |- _ => destruct H as [Hs Hl] end.
  split.
  - rewrite sumR_app, Hs. cbn [sumR fold_right]. lra.
  - rewrite length_app, Hl. reflexivity.
Qed.

Lemma photonGases_spec env dens : forall gases st n,
  m_nPhotonTerms st = n ->
  Forall2 (fun t row => sumR row = t /\ length row = n)
    (m_cfTotGamma st) (m_cfGamma st) ->
  let st' := snd (photonGases env dens gases st) in
  fst (photonGases env dens gases st)
  = forallb
      (fun i =>
         IsAvailable env
           (if (nth i (m_gas st) "" =? "iC4H10")%string then "nC4H10"%string
            else nth i (m_gas st) ""%string)) gases /\
  (fst (photonGases env dens gases st) = true ->
   m_nPhotonTerms st' = (n + 2 * length gases)%nat /\
   Forall2
     (fun t row => sumR row = t /\ length row = (n + 2 * length gases)%nat)
     (m_cfTotGamma st') (m_cfGamma st') /\
   csTypeGamma st'
   = (csTypeGamma st ++
      flat_map
        (fun i =>
           [i * nCsTypesGamma + PhotonCollisionTypeIonisation;
            i * nCsTypesGamma + PhotonCollisionTypeInelastic])%nat
        gases)%list).
Proof.
  induction gases as [|i rest IH]; intros st n Hn Hrows; cbv zeta.
  - cbn [photonGases fst snd forallb length flat_map].
    split; [reflexivity|]. intros _.
    rewrite Nat.mul_0_r, Nat.add_0_r, app_nil_r. repeat split; assumption.
  - cbn [photonGases forallb].
    destruct (IsAvailable env _) eqn:Hav; cbn [negb andb];
      [|split; [reflexivity | discriminate]].
    pose proof (photonRows_spec env
                  (if (nth i (m_gas st) "" =? "iC4H10")%string
                   then "nC4H10"%string else nth i (m_gas st) ""%string)
                  (dens * SpeedOfLight env * nth i (m_fraction st) 0)
                  (m_eStepGamma st) n _ _ 0%nat Hrows) as Hstep.
    destruct (photonRows _ _ _ _ _ _ _) as [tot rows].
    cbn [fst snd] in Hstep.
    match goal with
    | |- context [photonGases env dens rest ?s] =>
        specialize (IH s (n + 2)%nat);
        set (s1 := s) in *
    end.
    cbv zeta in IH.
    destruct IH as [IHf IHs].
    + unfold s1. cbn [m_nPhotonTerms set_cfGamma set_cfTotGamma
                      set_nPhotonTerms]. rewrite Hn. reflexivity.
    + exact Hstep.
    + change (m_gas s1) with (m_gas st) in IHf.
      split; [exact IHf|].
      intros Hok. destruct (IHs Hok) as (H1 & H2 & H3).
      cbn [length flat_map].
      replace (n + 2 * S (length rest))%nat
        with (n + 2 + 2 * length rest)%nat by lia.
      split; [exact H1|]. split; [exact H2|].
      rewrite H3. unfold s1.
      cbn [csTypeGamma set_cfGamma set_cfTotGamma set_nPhotonTerms
           set_csTypeGamma].
      rewrite <- app_assoc. reflexivity.
Qed.

Lemma Forall2_repeat_empty n :
  Forall2 (fun t row => sumR row = t /\ length row = 0%nat)
    (repeat 0 n) (repeat (@nil R) n).
Proof. induction n; cbn; constructor; [split; reflexivity | assumption]. Qed.

Lemma Forall2_nth {A B} (P : A -> B -> Prop) (da : A) (db : B) :
  forall la lb, Forall2 P la lb ->
    length la = length lb /\
    forall j, (j < length la)%nat -> P (nth j la da) (nth j lb db).
Proof.
  induction 1 as [|a b la lb Hab H [IHl IH]]; cbn [length].
  - split; [reflexivity|]. intros j Hj. lia.
  - split; [lia|]. intros [|j] Hj; cbn [nth]; [exact Hab|].
    apply IH. lia.
Qed.

Lemma flat_map_pairs_length {A} (f g : nat -> A) l :
  length (flat_map (fun i => [f i; g i]) l) = (2 * length l)%nat.
Proof. induction l as [|x l IH]; cbn; [reflexivity | rewrite IH; lia]. Qed.

Lemma flat_map_pairs_nth {A} (f g : nat -> A) (d : A) : forall n start i,
  (i < n)%nat ->
  nth (2 * i) (flat_map (fun k => [f k; g k]) (seq start n)) d
    = f (start + i)%nat /\
  nth (2 * i + 1) (flat_map (fun k => [f k; g k]) (seq start n)) d
    = g (start + i)%nat.
Proof.
  induction n as [|n IH]; intros start i Hi; [lia|].
  cbn [seq flat_map app]. destruct i as [|i].
  - cbn [Nat.mul Nat.add nth]. rewrite Nat.add_0_r. split; reflexivity.
  - replace (2 * S i)%nat with (S (S (2 * i))) by lia.
    replace (S (S (2 * i)) + 1)%nat with (S (S (2 * i + 1))) by lia.
    cbn [nth]. replace (start + S i)%nat with (S start + i)%nat by lia.
    apply IH. lia.
Qed.

Lemma length_cumulateFrom n : forall prev row,
  length (cumulateFrom n prev row) = length row.
Proof.
  induction n as [|n IH]; intros prev [|x xs]; cbn; try reflexivity.
  rewrite IH. reflexivity.
Qed.

Lemma length_cumulateRates n row :
  length (cumulateRates n row) = length row.
Proof.
  destruct n as [|n]; destruct row as [|x xs]; cbn; try reflexivity.
  rewrite length_cumulateFrom. reflexivity.
Qed.

Lemma cumulateRates_last n row :
  (0 < n)%nat -> length row = n ->
  nth (n - 1) (cumulateRates n row) 0 = sumR row.
Proof.
  intros Hn Hl. rewrite nth_cumulateRates by lia.
  replace (S (n - 1)) with n by lia.
  rewrite <- Hl, firstn_all. reflexivity.
Qed.

Lemma nth_map_cumulateRates n rows j :
  nth j (map (cumulateRates n) rows) [] = cumulateRates n (nth j rows []).
Proof.
  assert (H : cumulateRates n [] = []) by (destruct n; reflexivity).
  rewrite <- H at 1. apply map_nth.
Qed.

(** The table that the loop over the gases and the cumulation leave. *)
Lemma photonTable_spec (st st1 : MediumMagboltz) n :
  m_nPhotonTerms st1 = n ->
  Forall2 (fun t row => sumR row = t /\ length row = n)
    (m_cfTotGamma st1) (m_cfGamma st1) ->
  length (m_cfTotGamma st1) = nEnergyStepsGamma ->
  m_cfTotGamma st = m_cfTotGamma st1 ->
  m_cfGamma st = map (cumulateRates n) (m_cfGamma st1) ->
  length (m_cfGamma st) = nEnergyStepsGamma /\
  forall j : nat, (j < nEnergyStepsGamma)%nat ->
    length (nth j (m_cfGamma st) []) = n /\
    ((0 < n)%nat ->
     nth (n - 1) (nth j (m_cfGamma st) []) 0 = nth j (m_cfTotGamma st) 0).
Proof.
  intros Hn Hrows Hlen Etot Erows.
  destruct (Forall2_nth _ 0 [] _ _ Hrows) as [Hl Hnth].
  rewrite Erows, Etot, length_map, <- Hl. split; [exact Hlen|].
  intros j Hj. rewrite <- Hlen in Hj. destruct (Hnth j Hj) as [Hs Hr].
  rewrite nth_map_cumulateRates, length_cumulateRates.
  split; [exact Hr|]. intros Hpos.
  rewrite cumulateRates_last by assumption. exact Hs.
Qed.

Lemma photonRows_length env gasname prefactor eStepGamma :
  forall tot rows j,
    length (fst (photonRows env gasname prefactor eStepGamma j tot rows))
    = length tot.
Proof.
  induction tot as [|t tot IH]; intros [|row rows] j; cbn [photonRows];
    try reflexivity.
  destruct (GetPhotoabsorptionCrossSection env gasname _) as [cs eta].
  specialize (IH rows (S j)).
  destruct (photonRows env gasname prefactor eStepGamma (S j) tot rows)
    as [tot' rows'].
  cbn [fst length] in *. rewrite IH. reflexivity.
Qed.

Lemma photonGases_length env dens : forall gases st,
  length (m_cfTotGamma (snd (photonGases env dens gases st)))
  = length (m_cfTotGamma st).
Proof.
  induction gases as [|i rest IH]; intros st; cbn [photonGases];
    [reflexivity|].
  destruct (negb _); [reflexivity|].
  match goal with
  | |- context [photonRows env ?g ?p ?e 0%nat ?t ?r] =>
      pose proof (photonRows_length env g p e t r 0%nat) as Hl;
      destruct (photonRows env g p e 0%nat t r) as [tot rows]
  end.
  cbn [fst] in Hl. rewrite IH. exact Hl.
Qed.

(** X25.  The table of the photon collision rates (lines 3252-3314).
    ComputePhotonCollisionTable returns true exactly when the optical data
    of every component are available (those of n-butane standing in for
    isobutane).  It then leaves two terms for every component, an
    ionisation and an inelastic absorption of that component, in this
    order, and tables of [nEnergyStepsGamma] bins; in every bin the row of
    the terms holds the cumulative rates, whose last entry is the total
    rate of the bin. *)
Theorem photon_table_is_cumulative :
  forall (env : Environment) (st : MediumMagboltz),
    let ok := fst (ComputePhotonCollisionTable env st) in
    let st' := snd (ComputePhotonCollisionTable env st) in
    let n := m_nComponents st in
    ok = forallb
           (fun i =>
              IsAvailable env
                (if (nth i (m_gas st) "" =? "iC4H10")%string
                 then "nC4H10"%string else nth i (m_gas st) ""%string))
           (seq 0 n) /\
    (ok = true ->
     m_nPhotonTerms st' = (2 * n)%nat /\
     length (csTypeGamma st') = (2 * n)%nat /\
     (forall i : nat, (i < n)%nat ->
        nth (2 * i) (csTypeGamma st') 0%nat
          = (i * nCsTypesGamma + PhotonCollisionTypeIonisation)%nat /\
        nth (2 * i + 1) (csTypeGamma st') 0%nat
          = (i * nCsTypesGamma + PhotonCollisionTypeInelastic)%nat) /\
     length (m_cfTotGamma st') = nEnergyStepsGamma /\
     length (m_cfGamma st') = nEnergyStepsGamma /\
     forall j : nat, (j < nEnergyStepsGamma)%nat ->
       length (nth j (m_cfGamma st') []) = (2 * n)%nat /\
       ((0 < n)%nat ->
        nth (2 * n - 1) (nth j (m_cfGamma st') []) 0
        = nth j (m_cfTotGamma st') 0)).
Proof.
  intros env st. cbv zeta. unfold ComputePhotonCollisionTable. cbv zeta.
  set (s0 := set_nPhotonTerms 0%nat _).
  destruct (photonGases_spec env (numberDensity env st)
              (seq 0 (m_nComponents s0)) s0 0%nat eq_refl
              (Forall2_repeat_empty nEnergyStepsGamma)) as [Hf Hs].
  pose proof (photonGases_length env (numberDensity env st)
                (seq 0 (m_nComponents s0)) s0) as Hlen.
  cbv zeta in Hs.
  change (m_gas s0) with (m_gas st) in Hf.
  change (m_nComponents s0) with (m_nComponents st) in *.
  change (csTypeGamma s0) with (@nil nat) in Hs.
  change (length (m_cfTotGamma s0))
    with (length (repeat 0 nEnergyStepsGamma)) in Hlen.
  rewrite repeat_length in Hlen.
  rewrite length_seq in Hs. cbn [Nat.add app] in Hs.
  destruct (photonGases env (numberDensity env st)
              (seq 0 (m_nComponents st)) s0) as [[|] st1];
    cbn [fst snd] in Hf, Hs, Hlen; [|split; [exact Hf | discriminate]].
  destruct (Hs eq_refl) as (Hn & Hrows & Htypes). clear Hs.
  assert (Htable : forall s : MediumMagboltz,
    m_cfTotGamma s = m_cfTotGamma st1 ->
    m_cfGamma s
    = map (cumulateRates (m_nPhotonTerms st1)) (m_cfGamma st1) ->
    m_nPhotonTerms s = m_nPhotonTerms st1 ->
    csTypeGamma s = csTypeGamma st1 ->
    m_nPhotonTerms s = (2 * m_nComponents st)%nat /\
    length (csTypeGamma s) = (2 * m_nComponents st)%nat /\
    (forall i : nat, (i < m_nComponents st)%nat ->
       nth (2 * i) (csTypeGamma s) 0%nat
         = (i * nCsTypesGamma + PhotonCollisionTypeIonisation)%nat /\
       nth (2 * i + 1) (csTypeGamma s) 0%nat
         = (i * nCsTypesGamma + PhotonCollisionTypeInelastic)%nat) /\
    length (m_cfTotGamma s) = nEnergyStepsGamma /\
    length (m_cfGamma s) = nEnergyStepsGamma /\
    forall j : nat, (j < nEnergyStepsGamma)%nat ->
      length (nth j (m_cfGamma s) []) = (2 * m_nComponents st)%nat /\
      ((0 < m_nComponents st)%nat ->
       nth (2 * m_nComponents st - 1) (nth j (m_cfGamma s) []) 0
       = nth j (m_cfTotGamma s) 0)).
  { intros s Etot Erows En Etypes.
    rewrite Hn in Erows.
    destruct (photonTable_spec s st1 (2 * m_nComponents st) Hn Hrows Hlen
                Etot Erows) as [Hl Hj].
    rewrite En, Etypes, Htypes, Hn, flat_map_pairs_length, length_seq.
    split; [reflexivity|]. split; [reflexivity|].
    split.
    { intros i Hi.
      destruct (flat_map_pairs_nth
                  (fun k => (k * nCsTypesGamma
                             + PhotonCollisionTypeIonisation)%nat)
                  (fun k => (k * nCsTypesGamma
                             + PhotonCollisionTypeInelastic)%nat)
                  0%nat (m_nComponents st) 0 i Hi) as [H1 H2].
      cbn [Nat.add] in H1, H2. split; assumption. }
    split; [rewrite Etot; exact Hlen|]. split; [exact Hl|].
    intros j Hlt. destruct (Hj j Hlt) as [H1 H2]. split; [exact H1|].
    intros Hpos. apply H2. lia. }
  destruct (negb (m_useDeexcitation _)); cbn [fst snd];
    (split; [exact Hf|]); intros _; apply Htable; reflexivity.
Qed.

(** ** Photon collisions *)

Lemma ComputeDeexcitationInternal_photon env steps draws st rc i st' rc' f :
  ComputeDeexcitationInternal env steps draws st rc i = Some (st', rc', f) ->
  m_nPhotonCollisions st' = m_nPhotonCollisions st.
Proof.
  unfold ComputeDeexcitationInternal.
  destruct (cascadeLoop _ _ _ _ _ _ _ _) as [[fl c]|]; [|discriminate].
  intros H. injection H as <- _ _. reflexivity.
Qed.

(** What a successful call of [GetPhotonCollision] hands back: an
    absorption by a discrete line, or a collision of the continuum whose
    cosine comes from the random number [u]. *)
Lemma GetPhotonCollision_success env Voigt steps draws st rc e pc st' rc' :
  GetPhotonCollision env Voigt steps draws st rc e = Some (Some pc, st', rc') ->
  exists st2,
    updateTable env
      (if exceedsPhotonRange st e
       then snd (SetMaxPhotonEnergy env st (1.05 * e)) else st)
      = (true, st2) /\
    m_nPhotonCollisions st'
    = upd (m_nPhotonCollisions st2) (pcol_type pc)
        (increment32 (nth (pcol_type pc) (m_nPhotonCollisions st2) 0%Z)) /\
    (pcol_type pc < nCsTypesGamma)%nat /\
    ((pcol_type pc = PhotonCollisionTypeExcitation /\
      pcol_level pc = None /\ pcol_ctheta pc = None /\
      pcol_nsec pc = length (m_dxcProducts st')) \/
     (exists (level k : nat),
        pcol_level pc = Some level /\
        pcol_type pc = (nth level (csTypeGamma st2) 0 mod nCsTypesGamma)%nat /\
        pcol_e1 pc = Some 0 /\
        pcol_ctheta pc = Some (2 * RndmUniform env k - 1) /\
        ((pcol_type pc = PhotonCollisionTypeIonisation /\
          pcol_nsec pc = 1%nat /\
          exists esec, pcol_esec pc = Some esec /\ Small env <= esec) \/
         (pcol_type pc <> PhotonCollisionTypeIonisation /\
          pcol_nsec pc = 0%nat /\ pcol_esec pc = Some 0)))).
Proof.
  unfold GetPhotonCollision.
  destruct (negb (exceedsPhotonRange st e) && _); [discriminate|].
  destruct (updateTable env _) as [[|] st2]; [|discriminate].
  cbv zeta.
  set (iE := photonBin st2 e).
  set (total := nth iE (m_cfTotGamma st2) 0).
  assert (Hcont : forall r rc0,
    (let level :=
       photonLevel (nth iE (m_cfGamma st2) []) (m_nPhotonTerms st2) r in
     let type := (nth level (csTypeGamma st2) 0 mod nCsTypesGamma)%nat in
     let ngas := (nth level (csTypeGamma st2) 0 / nCsTypesGamma)%nat in
     let st := countPhotonCollision type st2 in
     let '(nsec, esec) :=
       if (type =? 1)%nat then
         let esec := e - nth ngas (m_ionPot st) 0 in
         (1%nat, if Rlt_dec esec (Small env) then Small env else esec)
       else (0%nat, 0) in
     let '(u, rc) := drawUniform env rc0 in
     Some (Some {| pcol_type := type; pcol_level := Some level;
                   pcol_e1 := Some 0; pcol_ctheta := Some (2 * u - 1);
                   pcol_nsec := nsec; pcol_esec := Some esec |}, st, rc))
    = Some (Some pc, st', rc') ->
    exists st3,
      (true, st2) = (true, st3) /\
      m_nPhotonCollisions st'
      = upd (m_nPhotonCollisions st3) (pcol_type pc)
          (increment32 (nth (pcol_type pc) (m_nPhotonCollisions st3) 0%Z)) /\
      (pcol_type pc < nCsTypesGamma)%nat /\
      ((pcol_type pc = PhotonCollisionTypeExcitation /\
        pcol_level pc = None /\ pcol_ctheta pc = None /\
        pcol_nsec pc = length (m_dxcProducts st')) \/
       (exists (level k : nat),
          pcol_level pc = Some level /\
          pcol_type pc
          = (nth level (csTypeGamma st3) 0 mod nCsTypesGamma)%nat /\
          pcol_e1 pc = Some 0 /\
          pcol_ctheta pc = Some (2 * RndmUniform env k - 1) /\
          ((pcol_type pc = PhotonCollisionTypeIonisation /\
            pcol_nsec pc = 1%nat /\
            exists esec, pcol_esec pc = Some esec /\ Small env <= esec) \/
           (pcol_type pc <> PhotonCollisionTypeIonisation /\
            pcol_nsec pc = 0%nat /\ pcol_esec pc = Some 0))))).
  { intros r rc0. cbv zeta.
    set (level := photonLevel _ _ r).
    set (type := (nth level (csTypeGamma st2) 0 mod nCsTypesGamma)%nat).
    assert (Htype : (type < nCsTypesGamma)%nat)
      by (apply Nat.mod_upper_bound; unfold nCsTypesGamma; lia).
    unfold drawUniform.
    destruct (Nat.eqb_spec type 1) as [H1|H1]; intros H;
      injection H as <- <- _; exists st2;
      (split; [reflexivity|]); (split; [reflexivity|]);
      (split; [exact Htype|]); right;
      exists level, (nUniform rc0); cbn [pcol_level pcol_type pcol_e1
        pcol_ctheta pcol_nsec pcol_esec];
      repeat (split; [reflexivity|]).
    - left. split; [exact H1|]. split; [reflexivity|].
      eexists. split; [reflexivity|].
      destruct (Rlt_dec _ _); lra.
    - right. split; [exact H1|]. split; reflexivity. }
  destruct (hasDiscreteLines st2).
  - destruct (collectLines Voigt e 0 (m_deexcitations st2) total)
      as [r lines].
    unfold drawUniform at 1.
    destruct (negb (length lines =? 0)%nat && _).
    + destruct (selectLine lines _) as [i|]; [|discriminate].
      destruct (ComputeDeexcitationInternal _ _ _ _ _ _)
        as [[[st4 rc4] f]|] eqn:Hcas; [|discriminate].
      apply ComputeDeexcitationInternal_photon in Hcas.
      intros H. injection H as <- <- _. exists st2.
      split; [reflexivity|]. cbn [pcol_type pcol_level pcol_nsec pcol_ctheta].
      split; [rewrite Hcas; reflexivity|].
      split; [unfold PhotonCollisionTypeExcitation, nCsTypesGamma; lia|].
      left. repeat split.
    + apply Hcont.
  - unfold drawUniform at 1. apply Hcont.
Qed.

Lemma updateTable_photon env st b st2 :
  updateTable env st = (b, st2) ->
  m_nPhotonCollisions st2 = m_nPhotonCollisions st.
Proof.
  unfold updateTable. destruct (m_isChanged st).
  - pose proof (Mixer_configuration env st) as Hc.
    apply (f_equal cfg_nPhotonCollisions) in Hc.
    destruct (Mixer env st) as [[|] st1]; cbn [snd] in Hc;
      intros H; injection H as _ <-; exact Hc.
  - intros H. injection H as _ <-. reflexivity.
Qed.

Lemma SetMaxPhotonEnergy_photon env st e :
  m_nPhotonCollisions (snd (SetMaxPhotonEnergy env st e))
  = m_nPhotonCollisions st.
Proof.
  unfold SetMaxPhotonEnergy. destruct (Rle_dec _ _); reflexivity.
Qed.

Lemma GetPhotonCollision_failure env Voigt steps draws st rc e st' rc' :
  GetPhotonCollision env Voigt steps draws st rc e = Some (None, st', rc') ->
  m_nPhotonCollisions st' = m_nPhotonCollisions st.
Proof.
  unfold GetPhotonCollision.
  destruct (negb (exceedsPhotonRange st e) && _).
  { intros H. injection H as <- _. reflexivity. }
  assert (Hpre : m_nPhotonCollisions
            (if exceedsPhotonRange st e
             then snd (SetMaxPhotonEnergy env st (1.05 * e)) else st)
          = m_nPhotonCollisions st).
  { destruct (exceedsPhotonRange st e);
      [apply SetMaxPhotonEnergy_photon | reflexivity]. }
  destruct (updateTable env _) as [[|] st2] eqn:Hupd;
    apply updateTable_photon in Hupd; rewrite Hpre in Hupd.
  2:{ intros H. injection H as <- _. exact Hupd. }
  cbv zeta.
  assert (Hcont : forall T (x : T) rc0 (nsec : nat) (esec : R) (pc : nat -> R -> PhotonCollision) s,
    (let '(u, rc) := drawUniform env rc0 in
     Some (Some (pc nsec u), s, rc)) = Some (None, st', rc') -> False).
  { intros T x rc0 nsec esec pc s. unfold drawUniform. discriminate. }
  destruct (hasDiscreteLines st2).
  - destruct (collectLines Voigt e 0 (m_deexcitations st2) _) as [r lines].
    unfold drawUniform at 1.
    destruct (negb (length lines =? 0)%nat && _).
    + destruct (selectLine lines _) as [i|].
      * destruct (ComputeDeexcitationInternal _ _ _ _ _ _)
          as [[[st4 rc4] f]|]; discriminate.
      * intros H. injection H as <- _. exact Hupd.
    + destruct (_ =? 1)%nat; unfold drawUniform; discriminate.
  - unfold drawUniform at 1.
    destruct (_ =? 1)%nat; unfold drawUniform; discriminate.
Qed.

Lemma GetNumberOfPhotonCollisions_sum st :
  GetNumberOfPhotonCollisions st
  = (sumZ (m_nPhotonCollisions st) mod 2 ^ 32)%Z.
Proof.
  unfold GetNumberOfPhotonCollisions. rewrite fold_add32 by lia.
  reflexivity.
Qed.

(** X26.  A photon collision is counted once (lines 882-977 and
    1105-1109).  When [GetPhotonCollision]
    returns true, the counter of the type it reports has grown by one
    (modulo 2^32), the other three are as they were, and the total of
    [GetNumberOfPhotonCollisions] has grown by one; a photo-ionisation
    has one secondary electron with an energy of at least [Small], a
    collision of the continuum of another type has none, and the cosine
    of the scattering angle, where it is assigned, lies in [-1, 1].  When
    the call returns false, no counter has changed. *)
Theorem photon_collision_is_counted env Voigt steps draws st rc e
    res st' rc' :
  length (m_nPhotonCollisions st) = nCsTypesGamma ->
  (forall n, 0 <= RndmUniform env n <= 1) ->
  GetPhotonCollision env Voigt steps draws st rc e = Some (res, st', rc') ->
  match res with
  | None => m_nPhotonCollisions st' = m_nPhotonCollisions st
  | Some pc =>
      (pcol_type pc < nCsTypesGamma)%nat /\
      nth (pcol_type pc) (m_nPhotonCollisions st') 0%Z
      = increment32 (nth (pcol_type pc) (m_nPhotonCollisions st) 0%Z) /\
      (forall t, t <> pcol_type pc ->
         nth t (m_nPhotonCollisions st') 0%Z
         = nth t (m_nPhotonCollisions st) 0%Z) /\
      GetNumberOfPhotonCollisions st'
      = add32 (GetNumberOfPhotonCollisions st) 1 /\
      (pcol_type pc = PhotonCollisionTypeIonisation ->
       pcol_nsec pc = 1%nat /\
       exists esec, pcol_esec pc = Some esec /\ Small env <= esec) /\
      (pcol_type pc <> PhotonCollisionTypeIonisation ->
       pcol_level pc <> None ->
       pcol_nsec pc = 0%nat /\ pcol_esec pc = Some 0) /\
      (pcol_level pc = None ->
       pcol_type pc = PhotonCollisionTypeExcitation /\
       pcol_nsec pc = length (m_dxcProducts st')) /\
      (forall c, pcol_ctheta pc = Some c -> -1 <= c <= 1)
  end.
Proof.
  intros Hlen Hu Hcall. destruct res as [pc|].
  2:{ exact (GetPhotonCollision_failure _ _ _ _ _ _ _ _ _ Hcall). }
  destruct (GetPhotonCollision_success _ _ _ _ _ _ _ _ _ _ Hcall)
    as (st2 & Hupd & Hcount & Htype & Hcases).
  apply updateTable_photon in Hupd.
  assert (Hpre : m_nPhotonCollisions st2 = m_nPhotonCollisions st).
  { rewrite Hupd. destruct (exceedsPhotonRange st e);
      [apply SetMaxPhotonEnergy_photon | reflexivity]. }
  rewrite Hpre in Hcount. clear Hupd Hpre.
  assert (Hin : (pcol_type pc < length (m_nPhotonCollisions st))%nat)
    by (rewrite Hlen; exact Htype).
  split; [exact Htype|]. split.
  { rewrite Hcount, nth_upd, Nat.eqb_refl.
    destruct (Nat.ltb_spec (pcol_type pc) (length (m_nPhotonCollisions st)));
      [reflexivity | lia]. }
  split.
  { intros t Ht. rewrite Hcount. apply nth_upd_other. congruence. }
  split.
  { rewrite !GetNumberOfPhotonCollisions_sum, Hcount, add32_mod.
    apply sumZ_increment. exact Hin. }
  destruct Hcases as [(Ht & Hl & Hc0 & Hn)
    | (level & k & Hl & Ht & He1 & Hct & Hsec)].
  - split.
    { intros H. rewrite H in Ht. discriminate Ht. }
    split; [intros _ H; contradiction|].
    split; [intros _; split; assumption|].
    intros c Hc. rewrite Hc0 in Hc. discriminate Hc.
  - split.
    { intros H. destruct Hsec as [(_ & Hn & Hes)|(Hne & _)];
        [split; assumption | contradiction]. }
    split.
    { intros H _. destruct Hsec as [(Hi & _)|(_ & Hn & Hes)];
        [contradiction | split; assumption]. }
    split; [intros H; rewrite H in Hl; discriminate Hl|].
    intros c Hc. rewrite Hct in Hc. injection Hc as <-.
    specialize (Hu k). lra.
Qed.

(** A call on a session without absorbing lines ends in the continuum. *)
Lemma GetPhotonCollision_continuum env Voigt steps draws st st2 rc e :
  0 < e ->
  updateTable env
    (if exceedsPhotonRange st e
     then snd (SetMaxPhotonEnergy env st (1.05 * e)) else st) = (true, st2) ->
  hasDiscreteLines st2 = false ->
  exists pc st' rc',
    GetPhotonCollision env Voigt steps draws st rc e
    = Some (Some pc, st', rc').
Proof.
  intros He Hupd Hlines. unfold GetPhotonCollision.
  destruct (Rle_dec e 0) as [H|_]; [lra|].
  rewrite andb_false_r, Hupd. cbv zeta. rewrite Hlines.
  unfold drawUniform.
  destruct (_ =? 1)%nat; eexists _, _, _; reflexivity.
Qed.

Lemma exceedsPhotonRange_photonSession :
  exceedsPhotonRange photonSession 16 = false.
Proof.
  unfold exceedsPhotonRange, Rltb.
  destruct (Rlt_dec (m_eFinalGamma photonSession) 16) as [H|_];
    [|reflexivity].
  exfalso. revert H.
  cbn [m_eFinalGamma photonSession set_isChanged set_ionPot set_csTypeGamma
       set_cfGamma set_cfTotGamma set_nPhotonTerms newSession].
  lra.
Qed.

Lemma photon_collision_is_counted_witness :
  let env :=
    exampleEnvironment (constantCrossSections []) (fun _ => 1 / 4) in
  let rc := {| nUniform := 0; nUniformPos := 0; nVoigt := 0 |} in
  exists pc st' rc',
    GetPhotonCollision env (fun _ _ _ => 0) 1 1 photonSession rc 16
    = Some (Some pc, st', rc') /\
    GetNumberOfPhotonCollisions st'
    = add32 (GetNumberOfPhotonCollisions photonSession) 1.
Proof.
  intros env rc.
  assert (Hupd :
    updateTable env
      (if exceedsPhotonRange photonSession 16
       then snd (SetMaxPhotonEnergy env photonSession (1.05 * 16))
       else photonSession) = (true, photonSession)).
  { rewrite exceedsPhotonRange_photonSession. reflexivity. }
  destruct (GetPhotonCollision_continuum env (fun _ _ _ => 0) 1%nat 1%nat
              photonSession photonSession rc 16 ltac:(lra) Hupd eq_refl)
    as (pc & st' & rc' & Hcall).
  exists pc, st', rc'. split; [exact Hcall|].
  assert (Hu : forall n, 0 <= RndmUniform env n <= 1).
  { intros n. change (RndmUniform env n) with (1 / 4). lra. }
  destruct (photon_collision_is_counted env (fun _ _ _ => 0) 1 1
              photonSession rc 16 (Some pc) st' rc' eq_refl Hu Hcall)
    as (_ & _ & _ & H & _).
  exact H.
Defined.

(** ** The levels of the table *)



(** ** Gases without a Green-Sawada fit *)

Lemma writeLevels_parGreenSawada out iGas r terms np st :
  m_parGreenSawada (snd (fold_left (writeLevel out iGas r) terms (np, st)))
  = m_parGreenSawada st.
Proof.
  apply (fold_left_kept (fun a => m_parGreenSawada (snd a))).
  intros [n s] src. destruct src; reflexivity.
Qed.

Lemma fitParametersVanish_upd row w x :
  fitParametersVanish row ->
  fitParametersVanish (upd (upd row 0 w) 4 x).
Proof.
  unfold fitParametersVanish. rewrite !nth_upd. cbn [Nat.eqb andb].
  intros H. exact H.
Qed.

Lemma rows_upd (P : list R -> Prop) (par : list (list R)) i row :
  (forall j, P (nth j par [])) -> P row ->
  forall j, P (nth j (upd par i row) []).
Proof.
  intros Hall Hrow j. rewrite nth_upd.
  destruct ((j =? i)%nat && _); [exact Hrow | apply Hall].
Qed.

Lemma writeIonisationPotential_parGreenSawada out iGas st :
  (forall j, fitParametersVanish (nth j (m_parGreenSawada st) [])) ->
  forall j,
    fitParametersVanish
      (nth j (m_parGreenSawada (writeIonisationPotential out iGas st)) []).
Proof.
  intros H. unfold writeIonisationPotential. cbv zeta.
  destruct (1 <? g_nIon out)%nat.
  - cbn [m_parGreenSawada set_ionPot set_parGreenSawada].
    apply rows_upd; [exact H | apply fitParametersVanish_upd, H].
  - destruct (Rge_dec _ _); [|exact H].
    cbn [m_parGreenSawada set_ionPot set_parGreenSawada].
    apply rows_upd; [exact H | apply fitParametersVanish_upd, H].
Qed.

Lemma mixGas_parGreenSawada env prefactor iGas ngs st :
  (forall j, fitParametersVanish (nth j (m_parGreenSawada st) [])) ->
  forall j,
    fitParametersVanish
      (nth j (m_parGreenSawada (snd (mixGas env prefactor iGas ngs st))) []).
Proof.
  intros H. unfold mixGas.
  destruct (nMaxLevels <=? _)%nat; [exact H|].
  match goal with
  | |- context [fold_left (writeLevel ?o ?i ?r) ?t (?n, ?s)] =>
      pose proof (writeLevels_parGreenSawada o i r t n s) as Hw;
      destruct (fold_left (writeLevel o i r) t (n, s)) as [np st1]
  end.
  cbn [snd] in Hw.
  change (m_parGreenSawada (set_rgas _ st)) with (m_parGreenSawada st) in Hw.
  rewrite <- Hw in H.
  pose proof (writeIonisationPotential_parGreenSawada
                (gasmix env
                   (gasmixInput env st ngs (Rmin (m_eFinal st) (m_eHigh st))
                      (m_eStep st))) iGas st1 H) as Hi.
  match type of Hi with
  | forall j, fitParametersVanish (nth j (m_parGreenSawada ?s) _) =>
      set (st2 := s) in *
  end.
  clearbody st2. clear Hw H.
  destruct (fillRowsLin _ _ _ _ _ _ _ _ _ _) as [[cf cut] par].
  destruct (Rle_dec _ _).
  - exact Hi.
  - destruct (fillRowsLog _ _ _ _ _ _ _ _ _ _ _ _) as [[cfLog cutLog] parLog].
    exact Hi.
Qed.

Lemma mixGases_parGreenSawada env prefactor numbers : forall iGas st,
  (forall j, fitParametersVanish (nth j (m_parGreenSawada st) [])) ->
  forall j,
    fitParametersVanish
      (nth j (m_parGreenSawada (snd (mixGases env prefactor iGas numbers st)))
         []).
Proof.
  induction numbers as [|ngs rest IH]; intros iGas st H; simpl.
  - exact H.
  - pose proof (mixGas_parGreenSawada env prefactor iGas ngs st H) as Hg.
    destruct (mixGas env prefactor iGas ngs st) as [[|] st1]; cbn [snd] in *.
    + apply IH. exact Hg.
    + exact Hg.
Qed.

Lemma resetTables_parGreenSawada env st :
  forall j,
    fitParametersVanish
      (nth j (m_parGreenSawada (set_nTerms 0%nat (resetTables env st))) []).
Proof.
  intros j.
  change (m_parGreenSawada (set_nTerms 0%nat (resetTables env st)))
    with (repeat [1; 0; 0; 0; 0] (m_nMaxGases env)).
  destruct (Nat.lt_ge_cases j (m_nMaxGases env)) as [Hj|Hj].
  - rewrite (nth_indep _ [] [1; 0; 0; 0; 0])
      by (rewrite repeat_length; exact Hj).
    rewrite nth_repeat_default. repeat split.
  - rewrite nth_overflow by (rewrite repeat_length; exact Hj).
    repeat split.
Qed.

Lemma finishRates_parGreenSawada env st :
  m_parGreenSawada (finishRates env st) = m_parGreenSawada st.
Proof.
  unfold finishRates, normaliseTables.
  destruct (mixRowsLin _ _ _ _ _ _) as [cf cfTot].
  cbn [m_eHigh m_eFinal set_cfTot set_cf set_minIonPot].
  destruct (Rlt_dec _ _); [|reflexivity].
  destruct (mixRowsLog _ _ _ _ _ _ _) as [cfLog cfTotLog].
  reflexivity.
Qed.

Lemma deexcitationStage_parGreenSawada env st :
  m_parGreenSawada (deexcitationStage env st) = m_parGreenSawada st.
Proof.
  unfold deexcitationStage.
  destruct (m_useDeexcitation st); [|reflexivity].
  assert (H : m_parGreenSawada (ComputeDeexcitationTable env st)
              = m_parGreenSawada st).
  { unfold ComputeDeexcitationTable.
    destruct (mapArgonLevels _) as [iAr mapLevels].
    destruct (countLevels _ _ _ _) as [[lvl iDeexcitation] nDeexcitations].
    destruct (radiativeLoop _ _ _ _ _) as [dxcs complete].
    destruct (negb complete); reflexivity. }
  destruct (existsb _ _); [|exact H].
  rewrite <- H. reflexivity.
Qed.

Lemma photonGases_parGreenSawada env dens gases : forall st,
  m_parGreenSawada (snd (photonGases env dens gases st))
  = m_parGreenSawada st.
Proof.
  induction gases as [|i rest IH]; intros st; simpl.
  - reflexivity.
  - destruct (negb (IsAvailable env _)); [reflexivity|].
    destruct (photonRows _ _ _ _ _ _ _) as [tot rows].
    rewrite IH. reflexivity.
Qed.

Lemma photonStage_parGreenSawada env st :
  m_parGreenSawada (photonStage env st) = m_parGreenSawada st.
Proof.
  unfold photonStage.
  assert (H : m_parGreenSawada (snd (ComputePhotonCollisionTable env st))
              = m_parGreenSawada st).
  { unfold ComputePhotonCollisionTable.
    match goal with
    | |- context [photonGases env ?d ?g ?s] =>
        pose proof (photonGases_parGreenSawada env d g s) as H;
        destruct (photonGases env d g s) as [[|] st1]
    end; cbn [snd] in *.
    - destruct (negb _); cbn [snd];
        (transitivity (m_parGreenSawada st1); [reflexivity | exact H]).
    - rewrite H. reflexivity. }
  destruct (ComputePhotonCollisionTable env st) as [[|] st1];
    cbn [snd] in H; [exact H|].
  destruct (m_useDeexcitation st1); [|exact H].
  rewrite <- H. reflexivity.
Qed.

Lemma resetPenning_parGreenSawada env st :
  m_parGreenSawada (resetPenning env st) = m_parGreenSawada st.
Proof.
  unfold resetPenning. apply (fold_left_kept m_parGreenSawada).
  intros s i. destruct (Rlt_dec _ _); reflexivity.
Qed.

(** The row of a gas without a fit keeps vanishing entries in
    [SetupGreenSawada]. *)
Lemma SetupGreenSawada_unset st i :
  greenSawadaFit (nth i (m_gas st) ""%string) = None ->
  fitParametersVanish (nth i (m_parGreenSawada st) []) ->
  fitParametersVanish (nth i (m_parGreenSawada (SetupGreenSawada st)) []).
Proof.
  intros Hfit Hrow. unfold SetupGreenSawada.
  set (P := fun s : MediumMagboltz =>
              m_gas s = m_gas st /\
              fitParametersVanish (nth i (m_parGreenSawada s) [])).
  match goal with
  | |- fitParametersVanish
         (nth i (m_parGreenSawada (fold_left ?f ?l ?s)) []) =>
      assert (HP : P (fold_left f l s))
  end.
  { apply (fold_left_invariant P); [|split; [reflexivity | exact Hrow]].
    intros s j [Hg Hr]. cbv zeta.
    destruct (Nat.eq_dec j i) as [->|Hne].
    - rewrite Hg, Hfit. split; [exact Hg|].
      cbn [m_parGreenSawada set_hasGreenSawada set_parGreenSawada].
      rewrite nth_upd, Nat.eqb_refl. cbn [andb].
      destruct (i <? _)%nat; [|exact Hr].
      destruct Hr as (H1 & H2 & H3).
      unfold fitParametersVanish. rewrite !nth_upd. cbn [Nat.eqb andb].
      split; [exact H1|]. split; [exact H2|].
      destruct (3 <? _)%nat; [reflexivity | exact H3].
    - assert (Hother : forall row,
        nth i (upd (m_parGreenSawada s) j row) [] 
        = nth i (m_parGreenSawada s) []).
      { intros row. rewrite nth_upd.
        destruct (Nat.eqb_spec i j) as [E|_]; [congruence | reflexivity]. }
      destruct (greenSawadaFit (nth j (m_gas s) ""%string))
        as [[[gs gb] ts]|];
        (split; [exact Hg|]);
        cbn [m_parGreenSawada set_hasGreenSawada set_parGreenSawada];
        rewrite Hother; exact Hr. }
  exact (proj2 HP).
Qed.

Lemma configuration_gas a b :
  configuration a = configuration b -> m_gas a = m_gas b.
Proof. intros H. apply (f_equal cfg_gas) in H. exact H. Qed.

Lemma Mixer_parGreenSawada env st st' i :
  Mixer env st = (true, st') ->
  greenSawadaFit (nth i (m_gas st) ""%string) = None ->
  fitParametersVanish (nth i (m_parGreenSawada st') []).
Proof.
  intros HM Hfit.
  destruct (Mixer_true env st st' HM) as (numbers & st1 & _ & Hloop & ->).
  pose proof (mixGases_parGreenSawada env
                (numberDensity env st * SpeedOfLight env
                 * sqrt (2 / ElectronMass env)) numbers 0 _
                (resetTables_parGreenSawada env st) i) as Hrow.
  rewrite Hloop in Hrow. cbn [snd] in Hrow.
  pose proof (mixGases_configuration env
                (numberDensity env st * SpeedOfLight env
                 * sqrt (2 / ElectronMass env)) numbers 0
                (set_nTerms 0%nat (resetTables env st))) as [Hc _].
  rewrite Hloop in Hc. cbn [snd] in Hc.
  apply configuration_gas in Hc.
  change (m_gas (set_nTerms 0%nat (resetTables env st))) with (m_gas st) in Hc.
  unfold finishMixer.
  set (st2 := resetPenning env
                (photonStage env (deexcitationStage env (finishRates env st1)))).
  assert (Hpar : m_parGreenSawada st2 = m_parGreenSawada st1).
  { unfold st2.
    rewrite resetPenning_parGreenSawada, photonStage_parGreenSawada,
      deexcitationStage_parGreenSawada, finishRates_parGreenSawada.
    reflexivity. }
  assert (Hgas : m_gas st2 = m_gas st1).
  { unfold st2.
    destruct (resetPenning_configuration env
                (photonStage env (deexcitationStage env (finishRates env st1))))
      as [H1 _].
    destruct (photonStage_configuration env
                (deexcitationStage env (finishRates env st1))) as [H2 _].
    destruct (deexcitationStage_configuration env (finishRates env st1))
      as [H3 _].
    destruct (finishRates_configuration env st1) as [H4 _].
    apply configuration_gas. rewrite H1, H2, H3. exact H4. }
  clearbody st2.
  apply SetupGreenSawada_unset.
  - rewrite Hgas, Hc. exact Hfit.
  - rewrite Hpar. exact Hrow.
Qed.

(** X28.  The splitting function of a gas without a Green-Sawada fit (lines
    1936-1980, 1454, 1594-1595 and 700-711).  In the session that a
    successful Mixer hands back, the parameters [gb], [ts] and [ta] of a
    gas whose name has no fit in [SetupGreenSawada] are zero, so that with
    the Green-Sawada splitting function the secondary energy of an
    ionisation of this gas at an energy [e > 0] is sampled by the
    Opal-Beaty formula with the splitting parameter
    [m_parGreenSawada[igas][0]], whatever the term. *)
Theorem GreenSawada_without_fit_is_OpalBeaty env st st' igas :
  Mixer env st = (true, st') ->
  greenSawadaFit (nth igas (m_gas st) ""%string) = None ->
  let par := nth igas (m_parGreenSawada st') [] in
  nth 1 par 0 = 0 /\ nth 2 par 0 = 0 /\ nth 3 par 0 = 0 /\
  forall (e loss u : R) (level : nat),
    0 < e -> m_useOpalBeaty st' = false -> m_useGreenSawada st' = true ->
    secondaryEnergy env st' e loss level igas u
    = let w := nth 0 par 0 in
      let esec := w * tan (u * atan (0.5 * (e - loss) / w)) in
      if Rle_dec esec 0 then Small env else esec.
Proof.
  intros HM Hfit par.
  destruct (Mixer_parGreenSawada env st st' igas HM Hfit) as (H1 & H2 & H3).
  fold par in H1, H2, H3.
  split; [exact H1|]. split; [exact H2|]. split; [exact H3|].
  intros e loss u level He Hob Hgs.
  unfold secondaryEnergy. rewrite Hob, Hgs. cbv zeta. fold par.
  rewrite H1, H2, H3.
  replace (0 - 0 / (e + nth 4 par 0)) with 0 by (unfold Rdiv; ring).
  replace (nth 0 par 0 * e / (e + 0)) with (nth 0 par 0) by (field; lra).
  replace (0 / nth 0 par 0) with 0 by (unfold Rdiv; ring).
  rewrite atan_0.
  replace ((u - 1) * 0 + u * atan ((0.5 * (e - loss) - 0) / nth 0 par 0))
    with (u * atan (0.5 * (e - loss) / nth 0 par 0))
    by (rewrite Rminus_0_r; ring).
  rewrite Rplus_0_l. reflexivity.
Qed.

Lemma GreenSawada_without_fit_is_OpalBeaty_witness :
  let env := exampleEnvironment unknownLevelCrossSections (fun _ => 1 / 2) in
  exists st',
    Mixer env (newSession ["CF4"%string] [1]) = (true, st') /\
    nth 3 (nth 0 (m_parGreenSawada st') []) 0 = 0.
Proof.
  intros env.
  destruct (Mixer_single_gas_nTerms env (newSession ["CF4"%string] [1])
              1%nat unknownLevelCrossSections) as (st' & HM & _).
  - intros input. reflexivity.
  - reflexivity.
  - reflexivity.
  - cbn [g_nIn unknownLevelCrossSections constantCrossSections length].
    unfold nMaxLevels. lia.
  - cbn [g_e unknownLevelCrossSections constantCrossSections m_eFinal
         newSession].
    lra.
  - exists st'. split; [exact HM|].
    destruct (GreenSawada_without_fit_is_OpalBeaty env
                (newSession ["CF4"%string] [1]) st' 0 HM eq_refl)
      as (_ & _ & H & _).
    exact H.
Defined.

(* ================================================================== *)
(** * Part IV: the tables of Mixer and the level of a collision *)

(** ** The rows of the tables through Mixer *)






















(** *** The frequency of the elastic term *)











(** *** The elastic term on the logarithmic grid *)











(** ** The level of a collision *)













